(* ===== verification/_CoqProject ===== *)
-Q . S2P
Prelude.v
Contract.v
Observation.v
LocalState.v
Filter.v
Engine.v
EngineProps.v
EngineEvents.v
Publication.v
ServiceRun.v
NetlinkState.v
NetlinkParser.v
NetlinkIo.v
NetlinkSocket.v
NetlinkMonitor.v
LldpIo.v
LldpSource.v
LldpObserver.v
Runtime.v
Variant.v
ObsCodec.v
InvCodec.v
InvManager.v
InvFiles.v
InvService.v
Clients.v
InvAgent.v
Transports.v
ObsApps.v
InvWatch.v
Pipeline.v
Evidence.v
System.v
Wire.v
InvSystem.v
