(* ===== verification/Prelude.v ===== *)
(** * rmc-fabric: the network observation and inventory services, verified

    [services/network-observation] watches the links, addresses, neighbours and
    forwarding entries the kernel reports over rtnetlink and the neighbours that
    lldpd reports, builds a model of the local interfaces and of the remote
    devices they reach ("candidates"), and publishes changes to transports.
    [services/rmc-inventory] collects the identity of a device from sources, files
    as the daemon configures it, and publishes its fields with the health of the
    sources. Clients of both query them and subscribe over D-Bus. Paths below are
    relative to the service's directory; [lib/interop_contract] holds what both
    ends share.

    ** How the parts interact

<<
    network-observation

    kernel --- NetlinkInitialDump / NetlinkEventLoop          lldpd
                 |  datagrams                                   |  BoundedLldpConnection / Watch
              NetlinkParser (processMessage)                 LldpdSource (cache, supervisor)
                 |  events                                      |
              NetlinkState (change suppression, devices)        |
                 |  NetlinkObservationMapper                    |  LldpObservation
                 +------------> BoundedObservationQueue <-------+
                                     | applyObservation
                              ObservationModelEngine  (LocalStateTracker, HardFilter,
                                     |                 policy, classifiers)
                                     | ModelEvent
                              PublicationQueue -> publisher -> transports
                                     |                            | signals
                                     +-- query handler, codec --- D-Bus --- DbusClient

    rmc-inventory

    files --- ScalarFileSource, DeviceMetaFileSource
                 |  collect
              DefaultInventoryManager (owners, merge, diff, readiness)
                 |  refreshAll
              InventoryService (refresh loop) -> transports
                 |                                  | signals
                 +-- query handler, codec ------- D-Bus --- InventoryClient
>>
    The runtime (NetlinkLldpObservationRuntime) owns the producers, the queue and
    the engine and supervises the LLDP observer on a tick; the observation service
    owns the runtime, the publication and the transports. The inventory service
    owns the manager, the refresh worker and the transports.

    ** Files

    - [Prelude]: record updates, the order maps and sets are iterated in, the
      error monad, string lemmas, the life-cycle states.
    - [Contract]: [lib/interop_contract]: limits, D-Bus names and keys, wire
      records, enum strings, reserved inventory fields.
    - [Observation]: [core/public/ObservationTypes.h], [core/LldpUtils.h].
    - [LocalState]: [core/engine/LocalStateTracker.cpp].
    - [Filter]: [core/engine/HardFilter.cpp], [core/policy], [core/classifier].
    - [Engine]: [core/engine/ObservationModelEngine.cpp], one definition per
      handler, query and life-cycle operation; a handler returns the new engine
      and the events it delivers, with the sink they go to. [EngineProps] has the
      view of one candidate ([cand_step]) that all handlers refine and the
      invariants proved on it; [EngineEvents] has what a client learns from the
      events, keepalives, aging and restarts.
    - [Publication]: [service/PublicationQueue.h], the publishing, issues and life
      cycle of [service/ObservationService.cpp]; [ServiceRun]: its construction and
      its three workers at work, as steps that interleave.
    - [NetlinkState]: [inputs/netlink/state], [inputs/netlink/utils],
      [service/NetlinkObservationMapper.cpp].
    - [NetlinkParser]: [inputs/netlink/parser], over lists of octets.
    - [NetlinkIo]: [inputs/netlink/common], [dump], [live]: the system calls are a
      list of outcomes the loops consume; [NetlinkSocket]: the sockets they use and
      who owns their descriptors.
    - [NetlinkMonitor]: [inputs/netlink/NetlinkNetworkMonitor.cpp].
    - [LldpIo]: [inputs/lldp/lldpd/BoundedLldpConnection.cpp],
      [BoundedLldpWatch.cpp]: the I/O towards lldpd and the watch's thread.
    - [LldpSource]: the rest of [inputs/lldp/lldpd]: cache, dispatch, supervision.
    - [LldpObserver]: [inputs/lldp/public/ILldpSource.h] as a class with its
      documented laws, [inputs/lldp/LldpObserver.cpp] over any such source, and
      [LldpdSource] as an instance.
    - [Runtime]: [service/NetlinkLldpObservationRuntime.cpp],
      [service/BoundedObservationQueue.h].
    - [Variant]: [DBus::Variant] as a class with its laws, the typed reads both
      codecs share.
    - [ObsCodec]: [transports/dbus/NetworkObservationDbusCodec.cpp] and
      [NetworkObservationQueryHandler.cpp].
    - [InvCodec]: [rmc-inventory/transports/dbus/InventoryDbusCodec.cpp].
    - [InvManager]: [rmc-inventory/core]; [InvFiles]: [rmc-inventory/inputs/files].
    - [InvService]: [rmc-inventory/service/InventoryService.cpp],
      [transports/dbus/InventoryQueryHandler.cpp].
    - [Clients]: [clients/dbus/DbusClient.cpp] and
      [rmc-inventory/clients/inventory-client/InventoryClient.cpp]. A query of a
      client is a function of the reply; its theorem composes it with the handler.
    - [InvAgent]: [rmc-inventory/apps/inventory-agentd/main.cpp]: the daemon's
      sources, over [InvManager] and [InvFiles].
    - [Pipeline]: the composition from netlink events over the mapper and the queue
      to the engine's tracker, and of link events with the LLDP observer;
      [Evidence]: the same for neighbours, forwarding entries and LLDP, up to the
      candidate of one MAC.
    - [System]: the observation daemon as a whole: steps of the monitor, the LLDP
      source, the consumer and the service's workers on the state of all of them;
      [Wire]: the same behind the parser, fed with messages out of datagrams.
    - [Transports]: the D-Bus adapters and transports, the stdout transports and
      the factories of both services, against the clients of [Clients].
    - [ObsApps]: [apps/net-observe/main.cpp] and [apps/network-observationd/main.cpp];
      [InvWatch]: [rmc-inventory/apps/inventory-watch/main.cpp], its threads as
      interleaved steps.
    - [InvSystem]: the inventory as a whole: the daemon's [main] and service on its
      files, the bus, and inventory-watch as its client.

    ** What the theorems show

    - The whole way, observation: whatever octets arrive and whatever the daemon's
      threads do in any order, what a client on the bus has of a MAC is what the
      kernel's tables and lldpd say about it, and the local state is that of the
      tables ([Wire.octets_to_client], over [System.kernel_to_client]).
    - The whole way, inventory: the last thing on the screen of inventory-watch is
      what the last good readings of the files made, once the bus has delivered
      and nobody interrupts it ([InvSystem.files_to_display]).
    - The engine: a client that folds the delivered events knows the published
      candidates ([EngineEvents.events_track_published]); what is published is
      live, backed by evidence and consistent ([EngineProps.published_candidates_sound]);
      present neighbours are published at once in the live phase; a restart hides
      everything until it is observed again; keepalives only refresh; aging does
      what the thresholds say.
    - Its parts: the local sets are exactly what the interface table owns
      ([LocalState.tracker_local_sets_exact]), the filter admits only unicast
      non-local evidence, both classifiers agree on topology peers, LLDP
      identities are canonical.
    - Publication: however the model, the three workers and failing transports
      interleave, coalescing loses no final state for a client
      ([ServiceRun.service_serves]); transports are isolated from each other
      ([Publication.publish_isolated]), starts and stops keep the dependencies of
      the parts ([Publication.service_lifecycle_safe]).
    - Netlink: a consumer of the change events holds the tables
      ([NetlinkState.netlink_state_mirrored]); messages as the kernel encodes them
      are parsed back ([NetlinkParser.neighbor_roundtrip], [link_roundtrip]); any
      octets whatsoever are handled inside the buffer ([NetlinkIo.netlink_input_safe]);
      dumps are complete, in order, of the current transaction, and stop when told;
      redumps replay; the monitor's life cycle is sound; a socket's descriptor has
      one owner and is closed once ([NetlinkSocket.socket_descriptors_sound]).
    - From the kernel to the model: the local interfaces, MACs and IPs of the model
      are those of the netlink tables when the queue is drained without a drop
      ([Pipeline.kernel_state_reaches_model]), the evidence of another machine is
      its entries in them, also after a restart over what was known before
      ([Evidence.kernel_evidence_reaches_model]); a link that goes down takes its
      LLDP neighbours along ([Pipeline.link_flushes_neighbors]).
    - LLDP: what was delivered is what is cached ([LldpSource.lldp_consumer_in_sync]),
      and the source's admission follows its life cycle; it keeps the contract of
      its interface ([LldpObserver.lldpd_contract]), against which the observer is
      proved ([LldpObserver.observer_follows]).
    - LLDP I/O: timeouts never become infinite, an unblocked watch always ends, the
      exit handler runs at most once ([LldpIo.lldp_io_bounded]).
    - Runtime: drops are accounted for and owed until repaired, a dead watch is
      replaced in bounded time, the supervision keeps its protocol, producers only
      run into an open queue with a consumer.
    - The wire: both codecs give back what was encoded ([ObsCodec.obs_codec_roundtrip],
      [InvCodec.inv_codec_roundtrip]); through handler, codec and client a query
      answers what the service holds, or the error that says why not
      ([Clients.dbus_client_exact], [Clients.inventory_client_exact]); methods and
      signals of both ends agree ([Transports.dbus_boundary_exact]).
    - Inventory: a refresh isolates failing sources and changes exactly what was
      collected ([InvManager.refresh_exact]), fields have one owner
      ([InvManager.manager_ownership_sound]), file sources are bounded and exact
      ([InvFiles.file_source_bounds]), the refresh loop serves every request within
      its throttle ([InvService.refresh_loop_serves]), what the daemon's inventory
      holds is well typed ([InvAgent.agent_fields_typed]); a client that waits for
      readiness ends at its deadline ([Clients.wait_ready_terminates]).
    - The applications: net-observe prints what the service holds, or why not
      ([ObsApps.net_observe_exact]); inventory-watch shows every event it was called
      back for ([InvWatch.watch_no_event_lost]).

    ** Modelling conventions

    - A C++ exception or a read outside a buffer is a value of [result]; the
      theorems of [NetlinkParser] and [NetlinkIo] show that reads outside never
      happen for any input.
    - An operation that holds its component's mutex throughout is one step. Where
      the code releases it (keepalive batches, redump against live messages, the
      monitor's stop) the pieces are separate steps and the theorems quantify
      over their interleavings.
    - Fuel: [attr_loop] and [msg_loop] run on the length of the buffer plus one,
      since each round consumes at least a header; [readDumpResponses] and
      [live_run] run on the outcomes of [poll] that are left plus one, since each
      round takes one. [netlink_input_safe] shows that the fuel never runs out,
      only the outcomes do. [waitReady_loop] runs on the number of queries;
      [wait_ready_terminates] gives the number that is enough for any limit: one
      for each poll interval in it and two more. [read_loop], [waitReadable],
      [recv_loop] and [sendCb] consume the outcomes of their system calls, and
      answer [None] when these end while the code still waits.
    - Machine integers are [Z]. Octets are in 0..255, 16- and 32-bit fields are
      decoded little-endian, conversions to [int] wrap ([to_int32]). The cache
      generations are 64-bit counters; the claims of [LldpSource] bound the number
      of observations of one run by 2^64. [positiveKernelError] negates a 32-bit
      value, which is undefined for its minimum; the model gives the mathematical
      value there.
    - [std::unordered_map] and [std::unordered_set] are [gmap] and [gset]; where the
      order of iteration is visible, the model uses that of [Prelude.map_iter], one
      of those the code may use.
    - Code that is not here is a parameter: [inet_pton], [inet_ntop] and
      [if_indextoname] (classes [InetPton], [InetNtop], [IfIndexToName]), the
      coalescing and the bounded container ([DirtySet], [BoundedQueue]),
      [DBus::Variant] ([DbusVariant]), the JSON reader ([Json]) and writer
      ([JsonCpp]), the owner of a descriptor ([UniqueFd]), the classification
      of a failed call ([ClientInvoke]), [ServiceBinding], [message] of the generic
      error category, each with the laws its documentation states where a theorem
      needs them; policies and classifiers are records. The outcomes of starts,
      system calls, of liblldpctl and of [DbusTransportBase] are inputs.

    - [System] has one run of one LLDP source: its reconnects are there, its
      replacement by the supervision is in [Runtime]; the repair of drops is in
      [Runtime] and [NetlinkMonitor], so the theorem asks for a queue that dropped
      nothing. Its hypotheses on the reports about the MAC are those under which
      the engine can follow them; [Evidence] shows what happens without them.
    - [InvSystem] has a bus that keeps the order of the signals and loses none; a
      callback and its signal are separate steps, a signal not delivered yet makes
      no callback. The refreshes' readings ([ag_reads]) and the signals sent
      ([sy_sent]) are kept for the statements only. 23 steps of the loop of
      inventory-watch are enough for a whole turn from wherever it is.

    ** Not modelled

    Logging, the parsing of command lines, the service base class and the workers
    of rsc_util (not in the repository; the services' models keep the state they
    rely on), atoms and connections of liblldpctl, the proxies of dbus-cxx, and
    the manual test programs. *)

From Stdlib Require Export ZArith Lia Ascii.
From stdpp Require Export base tactics option list gmap strings sorting pretty.

Set Default Proof Using "Type".

(** * Notations and update of records *)

Declare Scope rmc_scope.
Delimit Scope rmc_scope with rmc.

(** [r <| f := v |>] is the C++ assignment [r.f = v] as a functional update.
    An instance per field is produced by [mk_setter]. *)
Class Setter {R T : Type} (proj : R → T) := set_field : T → R → R.
Notation "r <| p := v |>" := (set_field (proj := p) v r)
  (at level 1, left associativity, p constr at level 99) : rmc_scope.
Open Scope rmc_scope.

(** Builds the setter of the projection [p] from [eta], the function rebuilding
    a record from its projections: the occurrence of [p r] in [eta r] becomes
    the new value. *)
Ltac mk_setter eta p :=
  intros v r;
  let x := eval cbv beta delta [eta] in (eta r) in
  let y := eval pattern (p r) in x in
  match y with
  | ?g _ => let z := eval cbv beta in (g v) in exact z
  end.

(** * Iteration order of ordered containers

    [std::set<std::string>] and [std::map<std::string, V>] iterate in the order
    of [operator<] on [std::string], the lexicographic order on unsigned bytes,
    which is [String.le]. *)

Definition key_le {A : Type} (p q : string * A) : Prop := String.le p.1 q.1.

#[export] Instance key_le_dec {A} : RelDecision (@key_le A).
Proof. intros p q. unfold key_le. apply _. Defined.

Definition set_iter (s : gset string) : list string := merge_sort String.le (elements s).

Definition map_iter {A : Type} (m : gmap string A) : list (string * A) :=
  merge_sort key_le (map_to_list m).

Lemma set_iter_perm s : set_iter s ≡ₚ elements s.
Proof. apply merge_sort_Permutation. Qed.

Lemma elem_of_set_iter s x : x ∈ set_iter s ↔ x ∈ s.
Proof. rewrite set_iter_perm. apply elem_of_elements. Qed.

Lemma set_iter_nodup s : NoDup (set_iter s).
Proof. rewrite set_iter_perm. apply NoDup_elements. Qed.

Lemma set_iter_sorted s : Sorted String.le (set_iter s).
Proof. apply Sorted_merge_sort; apply _. Qed.

Lemma length_set_iter s : length (set_iter s) = size s.
Proof. rewrite set_iter_perm. done. Qed.

Lemma list_to_set_set_iter (s : gset string) : list_to_set (set_iter s) = s.
Proof. apply set_eq. intros x. rewrite elem_of_list_to_set. apply elem_of_set_iter. Qed.

Lemma map_iter_perm {A} (m : gmap string A) : map_iter m ≡ₚ map_to_list m.
Proof. apply merge_sort_Permutation. Qed.

Lemma elem_of_map_iter {A} (m : gmap string A) k v : (k, v) ∈ map_iter m ↔ m !! k = Some v.
Proof. rewrite map_iter_perm. apply elem_of_map_to_list. Qed.

Lemma map_iter_nodup_fst {A} (m : gmap string A) : NoDup (map_iter m).*1.
Proof. rewrite map_iter_perm. apply NoDup_fst_map_to_list. Qed.

Lemma list_to_map_map_iter {A} (m : gmap string A) : list_to_map (map_iter m) = m.
Proof.
  rewrite <- (list_to_map_to_list m) at 2.
  apply list_to_map_proper; [apply map_iter_nodup_fst | apply map_iter_perm].
Qed.

Create HintDb rmc.
Create Rewrite HintDb rmc.
#[export] Hint Rewrite elem_of_set_iter @elem_of_map_iter : rmc.
#[export] Hint Resolve set_iter_nodup set_iter_sorted map_iter_nodup_fst : rmc.

(** * Errors

    A C++ function that may throw returns [Ok v] or [Err e] with the value it
    throws. stdpp's monad notation [x ← c; k] sequences such computations. *)

Inductive result (E A : Type) : Type :=
| Ok (a : A)
| Err (e : E).
Arguments Ok {E A} a.
Arguments Err {E A} e.

#[export] Instance result_ret E : MRet (result E) := λ A a, Ok a.
#[export] Instance result_bind E : MBind (result E) :=
  λ A B f c, match c with Ok a => f a | Err e => Err e end.

Definition is_ok {E A} (c : result E A) : bool :=
  match c with Ok _ => true | Err _ => false end.

(** [if (bad) throw e;] *)
Definition throw_if {E} (bad : bool) (e : E) : result E unit :=
  if bad then Err e else Ok tt.

Lemma bind_ok {E A B} (c : result E A) (k : A → result E B) b :
  (c ≫= k) = Ok b ↔ ∃ a, c = Ok a ∧ k a = Ok b.
Proof. destruct c as [a|e]; cbn; naive_solver. Qed.

Lemma throw_if_ok {E} b (e : E) : throw_if b e = Ok tt ↔ b = false.
Proof. destruct b; cbn; naive_solver. Qed.

(** A loop whose body may throw: the first exception leaves the loop. *)
Fixpoint fold_result {E A B} (f : A → B → result E A) (l : list B) (a : A) : result E A :=
  match l with
  | [] => Ok a
  | x :: l => a ← f a x; fold_result f l a
  end.

Definition check_all {E B} (f : B → result E unit) (l : list B) : result E unit :=
  fold_result (λ _ x, f x) l tt.

Lemma check_all_ok {E B} (f : B → result E unit) l :
  check_all f l = Ok tt ↔ Forall (λ x, f x = Ok tt) l.
Proof.
  induction l as [|x l IH]; cbn; [split; [constructor|done]|].
  destruct (f x) as [[]|e] eqn:Hx; cbn.
  - unfold check_all in IH. rewrite IH. split; [by constructor | by inversion 1].
  - split; [done | inversion 1; congruence].
Qed.

Lemma check_all_err {E B} (f : B → result E unit) l e :
  check_all f l = Err e → ∃ x, x ∈ l ∧ f x = Err e.
Proof.
  induction l as [|x l IH]; cbn; [done|].
  destruct (f x) as [[]|e'] eqn:Hx; cbn.
  - intros (y & Hy & ?)%IH. exists y. split; [by right | done].
  - intros [= ->]. exists x. split; [by left | done].
Qed.

(** Closes goals where a chain of binds is known to have succeeded. *)
Ltac simpl_ok :=
  repeat match goal with
  | H : Ok _ = Ok _ |- _ => injection H as H; try subst
  | H : Err _ = Ok _ |- _ => discriminate H
  | H : Ok _ = Err _ |- _ => discriminate H
  | H : (_ ≫= _) = Ok _ |- _ =>
      apply bind_ok in H; destruct H as (? & ? & H)
  end.

(** * Strings *)

(** [s.starts_with(p)] *)
Definition starts_with (p s : string) : bool := String.prefix p s.

(** [std::string::c_str()] read by a C function: the bytes before the first NUL. *)
Fixpoint c_str (s : string) : string :=
  match s with
  | EmptyString => EmptyString
  | String c s => if decide (c = Ascii.zero) then EmptyString else String c (c_str s)
  end.

(** [s.substr(0, s.find(c))], [None] when [find] returns [npos]. *)
Fixpoint str_before (c : Ascii.ascii) (s : string) : option string :=
  match s with
  | EmptyString => None
  | String d s => if decide (d = c) then Some EmptyString
                  else String d <$> str_before c s
  end.

Fixpoint str_has (c : Ascii.ascii) (s : string) : bool :=
  match s with
  | EmptyString => false
  | String d s => bool_decide (d = c) || str_has c s
  end.

(** [std::string::empty()] *)
Definition str_empty (s : string) : bool := bool_decide (s = "").

Lemma str_empty_true s : str_empty s = true ↔ s = "".
Proof. unfold str_empty. apply bool_decide_eq_true. Qed.

Lemma str_empty_false s : str_empty s = false ↔ s ≠ "".
Proof. unfold str_empty. apply bool_decide_eq_false. Qed.

#[export] Hint Rewrite str_empty_true str_empty_false : rmc.

Lemma str_before_app c s t :
  str_has c s = false → str_before c (s +:+ String c t) = Some s.
Proof.
  unfold String.append. induction s as [|d s IH]; cbn; [by rewrite decide_True|].
  intros [Hd Hs]%orb_false_iff. apply bool_decide_eq_false in Hd.
  rewrite decide_False by done. fold String.append in *. by rewrite IH.
Qed.

Lemma str_length_app s t : String.length (s +:+ t) = String.length s + String.length t.
Proof. unfold String.append. induction s as [|c s IH]; cbn; [done|]. f_equal. exact IH. Qed.

Lemma str_app_assoc (s t u : string) : (s +:+ t) +:+ u = s +:+ (t +:+ u).
Proof. unfold String.append. induction s as [|c s IH]; cbn; [done|]. f_equal. exact IH. Qed.

Lemma str_app_nil (s : string) : s +:+ "" = s.
Proof. unfold String.append. induction s as [|c s IH]; cbn; [done|]. f_equal. exact IH. Qed.

(** [steady_clock] and [system_clock] readings are integers (nanoseconds,
    seconds); they enter the model as arguments. *)
Abbreviation time_point := Z (only parsing).

(** The error number of an interrupted system call, which every loop retries. *)
Definition EINTR : Z := 4.

(** * Life cycles

    The states of the library's [LifecycleCoordinator], which every component
    with a start and a stop consults. *)
Inductive LifecycleState := LStopped | LStarting | LRunning | LStopping.

#[export] Instance LifecycleState_eq_dec : EqDecision LifecycleState.
Proof. solve_decision. Defined.

