(* ===== verification/Contract.v ===== *)
(** Wire types and constants of [lib/interop_contract/]: the types the two
    services exchange over D-Bus, their enum strings, field keys and ingress
    limits. *)

From S2P Require Import Prelude.

(** * [network_observation/NetworkObservationTypes.hpp] *)

Inductive CandidateClassification :=
| Artifact | LocalSelf | WeakCandidate | ProbableEndpoint
| RemoteEndpoint | GatewayLike | TopologyPeer | Unknown.

Inductive CandidateStatus := Provisional | Confirmed | Aged | Expired | Removed.

#[export] Instance CandidateClassification_eq_dec : EqDecision CandidateClassification.
Proof. solve_decision. Defined.
#[export] Instance CandidateStatus_eq_dec : EqDecision CandidateStatus.
Proof. solve_decision. Defined.

Record LocalInterfaceState := mkLocalInterfaceState {
  if_ifindex : Z;
  if_ifname : string;
  if_mac : string;
  if_adminUp : bool;
  if_running : bool;
  if_operstate : string;
  if_masterIfname : option string;
  if_ipv4 : gset string;
  if_ipv6 : gset string
}.

#[export] Instance LocalInterfaceState_eq_dec : EqDecision LocalInterfaceState.
Proof. solve_decision. Defined.

Definition eta_iface (s : LocalInterfaceState) : LocalInterfaceState :=
  mkLocalInterfaceState (if_ifindex s) (if_ifname s) (if_mac s) (if_adminUp s)
    (if_running s) (if_operstate s) (if_masterIfname s) (if_ipv4 s) (if_ipv6 s).
#[export] Instance set_if_ifindex : Setter if_ifindex := ltac:(mk_setter eta_iface if_ifindex).
#[export] Instance set_if_ifname : Setter if_ifname := ltac:(mk_setter eta_iface if_ifname).
#[export] Instance set_if_mac : Setter if_mac := ltac:(mk_setter eta_iface if_mac).
#[export] Instance set_if_adminUp : Setter if_adminUp := ltac:(mk_setter eta_iface if_adminUp).
#[export] Instance set_if_running : Setter if_running := ltac:(mk_setter eta_iface if_running).
#[export] Instance set_if_operstate : Setter if_operstate := ltac:(mk_setter eta_iface if_operstate).
#[export] Instance set_if_masterIfname : Setter if_masterIfname :=
  ltac:(mk_setter eta_iface if_masterIfname).
#[export] Instance set_if_ipv4 : Setter if_ipv4 := ltac:(mk_setter eta_iface if_ipv4).
#[export] Instance set_if_ipv6 : Setter if_ipv6 := ltac:(mk_setter eta_iface if_ipv6).

(** [LocalInterfaceState{}] *)
Definition default_iface : LocalInterfaceState :=
  mkLocalInterfaceState 0 "" "" false false "" None ∅ ∅.

(** The wire snapshot, [interop_contract::network_observation::LocalNetworkSnapshot]. *)
Record WireSnapshot := mkWireSnapshot { ws_interfaces : gmap string LocalInterfaceState }.

(** The wire candidate, [interop_contract::network_observation::RemoteCandidate]. *)
Record WireCandidate := mkWireCandidate {
  w_mac : string;
  w_classification : CandidateClassification;
  w_status : CandidateStatus;
  w_seenInFdb : bool;
  w_seenInNeigh : bool;
  w_seenInLldp : bool;
  w_bridgePort : option string;
  w_remoteChassisId : option string;
  w_remotePortId : option string;
  w_remoteSystemName : option string;
  w_neighborIfaces : gset string;
  w_ipv4 : gset string;
  w_ipv6 : gset string
}.

Abbreviation ObservationIssueFields := (gmap string string).
Abbreviation ObservationIssues := (gmap string (gmap string string)).

(** * [network_observation/NetworkObservationEnumStrings.hpp] *)

Definition classificationToString (c : CandidateClassification) : string :=
  match c with
  | Artifact => "Artifact"
  | LocalSelf => "LocalSelf"
  | WeakCandidate => "WeakCandidate"
  | ProbableEndpoint => "ProbableEndpoint"
  | RemoteEndpoint => "RemoteEndpoint"
  | GatewayLike => "GatewayLike"
  | TopologyPeer => "TopologyPeer"
  | Unknown => "Unknown"
  end.

Definition classificationFromString (s : string) : CandidateClassification :=
  if decide (s = "Artifact") then Artifact
  else if decide (s = "LocalSelf") then LocalSelf
  else if decide (s = "WeakCandidate") then WeakCandidate
  else if decide (s = "ProbableEndpoint") then ProbableEndpoint
  else if decide (s = "RemoteEndpoint") then RemoteEndpoint
  else if decide (s = "GatewayLike") then GatewayLike
  else if decide (s = "TopologyPeer") then TopologyPeer
  else Unknown.

Definition statusToString (s : CandidateStatus) : string :=
  match s with
  | Provisional => "Provisional"
  | Confirmed => "Confirmed"
  | Aged => "Aged"
  | Expired => "Expired"
  | Removed => "Removed"
  end.

Definition statusFromString (s : string) : CandidateStatus :=
  if decide (s = "Provisional") then Provisional
  else if decide (s = "Confirmed") then Confirmed
  else if decide (s = "Aged") then Aged
  else if decide (s = "Expired") then Expired
  else if decide (s = "Removed") then Removed
  else Provisional.

(** * [network_observation/NetworkObservationContracts.hpp] *)

Module NetObs.
Definition SERVICE_NAME := "org.rsc.NetworkObservation".
Definition OBJECT_PATH := "/org/rsc/NetworkObservation".
Definition INTERFACE := "org.rsc.NetworkObservation".
Definition METHOD_GET_LOCAL_SNAPSHOT := "GetLocalSnapshot".
Definition METHOD_GET_INTERFACE := "GetInterface".
Definition METHOD_GET_REMOTE_CANDIDATE_MACS := "GetRemoteCandidateMacs".
Definition METHOD_GET_CANDIDATE_BY_MAC := "GetCandidateByMac".
Definition METHOD_GET_ISSUES := "GetIssues".
Definition METHOD_GET_READY := "GetReady".
Definition METHOD_GET_PHASE := "GetPhase".
Definition SIGNAL_LOCAL_STATE_CHANGED := "LocalStateChanged".
Definition SIGNAL_INTERFACE_CHANGED := "InterfaceChanged".
Definition SIGNAL_INTERFACE_REMOVED := "InterfaceRemoved".
Definition SIGNAL_CANDIDATE_CHANGED := "CandidateChanged".
Definition SIGNAL_CANDIDATE_REMOVED := "CandidateRemoved".
Definition SIGNAL_READY_CHANGED := "ReadyChanged".

Definition PHASE_INITIALIZING := "initializing".
Definition PHASE_LIVE := "live".
Definition PHASE_STOPPED := "stopped".

Definition ISSUE_SEVERITY := "severity".
Definition ISSUE_MESSAGE := "message".
Definition ISSUE_COMPONENT := "component".
Definition ISSUE_OPERATION := "operation".
Definition ISSUE_CATEGORY := "category".
Definition ISSUE_IDENTITY := "identity".

Definition SEVERITY_ERROR := "error".
Definition SEVERITY_WARNING := "warning".

Definition ISSUE_CODE_RUNTIME_STOPPED := "observation.runtime.stopped".
Definition ISSUE_CODE_AGING_LOOP_STOPPED := "observation.worker.aging.stopped".
Definition ISSUE_CODE_SUPERVISION_LOOP_STOPPED := "observation.worker.supervision.stopped".
Definition ISSUE_CODE_LLDP_UNAVAILABLE := "observation.input.lldp.unavailable".
Definition ISSUE_CODE_PUBLICATION_LOOP_STOPPED := "observation.worker.publication.stopped".

Definition K_IFINDEX := "ifindex".
Definition K_IFNAME := "ifname".
Definition K_MAC := "mac".
Definition K_ADMINUP := "adminUp".
Definition K_RUNNING := "running".
Definition K_OPERSTATE := "operstate".
Definition K_MASTER := "master".
Definition K_IPV4 := "ipv4".
Definition K_IPV6 := "ipv6".

Definition K_CLASSIFICATION := "classification".
Definition K_STATUS := "status".
Definition K_SEEN_IN_FDB := "seenInFdb".
Definition K_SEEN_IN_NEIGH := "seenInNeigh".
Definition K_SEEN_IN_LLDP := "seenInLldp".
Definition K_BRIDGE_PORT := "bridgePort".
Definition K_REMOTE_CHASSIS_ID := "remoteChassisId".
Definition K_REMOTE_PORT_ID := "remotePortId".
Definition K_REMOTE_SYSTEM_NAME := "remoteSystemName".
Definition K_NEIGHBOR_IFACES := "neighborIfaces".
End NetObs.

(** * [IngressLimits.hpp] *)

Module Ingress.
Definition kMaxKeyLength : nat := 255.
Definition kMaxStringLength : nat := Z.to_nat 4096.

Definition inv_kMaxFields : nat := 256.
Definition inv_kMaxSources : nat := 128.
Definition inv_kMaxIssues : nat := 128.
Definition inv_kMaxIssueFields : nat := 16.

Definition obs_kMaxInterfaces : nat := 256.
Definition obs_kMaxCandidates : nat := Z.to_nat 1024.
Definition obs_kMaxStringSetEntries : nat := 128.
Definition obs_kMaxIssues : nat := 128.
Definition obs_kMaxIssueFields : nat := 16.
End Ingress.

(** * [inventory/] types and keys *)

(** [std::variant<bool, int64_t, uint64_t, std::string>] *)
Inductive FieldValue :=
| FBool (b : bool)
| FInt64 (z : Z)
| FUint64 (z : Z)
| FString (s : string).

#[export] Instance FieldValue_eq_dec : EqDecision FieldValue.
Proof. solve_decision. Defined.

Abbreviation InventoryFields := (gmap string FieldValue).
Abbreviation FieldNameList := (list string).
Abbreviation InventoryIssues := (gmap string (gmap string FieldValue)).

Inductive SourceHealth := OK | DEGRADED | FAILED.

#[export] Instance SourceHealth_eq_dec : EqDecision SourceHealth.
Proof. solve_decision. Defined.

Record SourceState := mkSourceState {
  ss_name : string;
  ss_required : bool;
  ss_stale : bool;
  ss_health : SourceHealth;
  ss_lastAttemptTs : Z;
  ss_lastSuccessTs : Z;
  ss_lastError : option string;
  ss_origin : option string
}.

#[export] Instance SourceState_eq_dec : EqDecision SourceState.
Proof. solve_decision. Defined.

Definition eta_state (s : SourceState) : SourceState :=
  mkSourceState (ss_name s) (ss_required s) (ss_stale s) (ss_health s)
    (ss_lastAttemptTs s) (ss_lastSuccessTs s) (ss_lastError s) (ss_origin s).
#[export] Instance set_ss_name : Setter ss_name := ltac:(mk_setter eta_state ss_name).
#[export] Instance set_ss_required : Setter ss_required := ltac:(mk_setter eta_state ss_required).
#[export] Instance set_ss_stale : Setter ss_stale := ltac:(mk_setter eta_state ss_stale).
#[export] Instance set_ss_health : Setter ss_health := ltac:(mk_setter eta_state ss_health).
#[export] Instance set_ss_lastAttemptTs : Setter ss_lastAttemptTs :=
  ltac:(mk_setter eta_state ss_lastAttemptTs).
#[export] Instance set_ss_lastSuccessTs : Setter ss_lastSuccessTs :=
  ltac:(mk_setter eta_state ss_lastSuccessTs).
#[export] Instance set_ss_lastError : Setter ss_lastError := ltac:(mk_setter eta_state ss_lastError).
#[export] Instance set_ss_origin : Setter ss_origin := ltac:(mk_setter eta_state ss_origin).

(** [SourceState{}] *)
Definition default_SourceState : SourceState :=
  mkSourceState "" false false FAILED 0 0 None None.

Abbreviation SourceStateMap := (gmap string SourceState).

Record InventorySnapshot := mkInventorySnapshot {
  is_version : Z;
  is_timestamp : Z;
  is_ready : bool;
  is_phase : string;
  is_fields : InventoryFields
}.

(** [InventorySnapshot{}] *)
Definition default_InventorySnapshot : InventorySnapshot :=
  mkInventorySnapshot 0 0 false "" ∅.

Module Inv.
Definition SERVICE_NAME := "org.rsc.Inventory".
Definition OBJECT_PATH := "/org/rsc/Inventory".
Definition INTERFACE := "org.rsc.Inventory".
Definition METHOD_GET_IDENTITY := "GetIdentity".
Definition METHOD_GET_FIELD := "GetField".
Definition METHOD_GET_SOURCE_STATES := "GetSourceStates".
Definition METHOD_GET_ISSUES := "GetIssues".
Definition METHOD_GET_READY := "GetReady".
Definition METHOD_GET_PHASE := "GetPhase".
Definition METHOD_GET_VERSION := "GetVersion".
Definition METHOD_REFRESH := "Refresh".
Definition SIGNAL_INVENTORY_CHANGED := "InventoryChanged".
Definition SIGNAL_SOURCE_STATE_CHANGED := "SourceStateChanged".
Definition SIGNAL_READY_CHANGED := "ReadyChanged".

Definition PHASE_INITIALIZING := "initializing".
Definition PHASE_LIVE := "live".

Definition FIELD_VERSION := "version".
Definition FIELD_TIMESTAMP := "timestamp".
Definition FIELD_READY := "ready".
Definition FIELD_PHASE := "phase".

Definition FIELD_UUID := "uuid".
Definition FIELD_NODE_NAME := "nodeName".
Definition FIELD_FIRMWARE_VERSION := "firmwareVersion".
Definition FIELD_SOFTWARE_VERSION := "softwareVersion".
Definition FIELD_DEVICE_CLASS := "deviceClass".
Definition FIELD_DEVICE_MODEL_ID := "deviceModelId".
Definition FIELD_DEVICE_PROJECT := "deviceProject".

Definition SOURCE_STATE_HEALTH := "health".
Definition SOURCE_STATE_REQUIRED := "required".
Definition SOURCE_STATE_STALE := "stale".
Definition SOURCE_STATE_LAST_ATTEMPT_TS := "lastAttemptTs".
Definition SOURCE_STATE_LAST_SUCCESS_TS := "lastSuccessTs".
Definition SOURCE_STATE_LAST_ERROR := "lastError".
Definition SOURCE_STATE_ORIGIN := "origin".

Definition HEALTH_OK := "ok".
Definition HEALTH_DEGRADED := "degraded".
Definition HEALTH_FAILED := "failed".

Definition ISSUE_SEVERITY := "severity".
Definition ISSUE_MESSAGE := "message".
Definition ISSUE_ORIGIN := "origin".
Definition SEVERITY_ERROR := "error".
Definition SEVERITY_WARNING := "warning".
Definition ISSUE_CODE_LOOP_STOPPED := "inventory.loop.stopped".
End Inv.

(** [inventory/InventoryMetadata.hpp] *)
Definition is_metadata_field (field_name : string) : bool :=
  bool_decide (field_name = Inv.FIELD_VERSION) || bool_decide (field_name = Inv.FIELD_TIMESTAMP)
  || bool_decide (field_name = Inv.FIELD_READY) || bool_decide (field_name = Inv.FIELD_PHASE).

(** [inventory/InventoryFieldValidation.hpp]; [std::map] iterates in key order. *)
Definition contains_reserved_metadata_fields (fields : InventoryFields) : bool :=
  existsb (λ e, is_metadata_field e.1) (map_iter fields).

Definition first_reserved_metadata_field (fields : InventoryFields) : string :=
  match find (λ e, is_metadata_field e.1) (map_iter fields) with
  | Some (key, _) => key
  | None => ""
  end.

(** [inventory/InventoryFieldAccess.hpp] *)
Definition get_field_value (snapshot : InventorySnapshot) (field_name : string)
    : option FieldValue :=
  match is_fields snapshot !! field_name with
  | Some v => Some v
  | None =>
      if decide (field_name = Inv.FIELD_VERSION) then Some (FUint64 (is_version snapshot))
      else if decide (field_name = Inv.FIELD_TIMESTAMP) then Some (FInt64 (is_timestamp snapshot))
      else if decide (field_name = Inv.FIELD_READY) then Some (FBool (is_ready snapshot))
      else if decide (field_name = Inv.FIELD_PHASE) then Some (FString (is_phase snapshot))
      else None
  end.

Definition make_single_field_map (snapshot : InventorySnapshot) (field_name : string)
    : InventoryFields :=
  match get_field_value snapshot field_name with
  | Some value => {[ field_name := value ]}
  | None => ∅
  end.

(** * Lemmas *)

Lemma classification_string_inv c : classificationFromString (classificationToString c) = c.
Proof. by destruct c. Qed.

Lemma status_string_inv s : statusFromString (statusToString s) = s.
Proof. by destruct s. Qed.

Lemma is_metadata_field_spec k :
  is_metadata_field k = true ↔ k ∈ [Inv.FIELD_VERSION; Inv.FIELD_TIMESTAMP; Inv.FIELD_READY; Inv.FIELD_PHASE].
Proof.
  unfold is_metadata_field. rewrite !orb_true_iff, !bool_decide_eq_true.
  set_solver.
Qed.

Lemma first_reserved_empty fields :
  first_reserved_metadata_field fields = "" ↔
  ∀ k, is_Some (fields !! k) → is_metadata_field k = false.
Proof.
  unfold first_reserved_metadata_field.
  destruct (find _ _) as [[k v]|] eqn:Hf.
  - apply find_some in Hf as [Hin Hm]. cbn in Hm.
    apply list_elem_of_In, elem_of_map_iter in Hin. split.
    + intros ->. discriminate Hm.
    + intros H. specialize (H k (mk_is_Some _ _ Hin)). congruence.
  - split; [|done]. intros _ k [v Hv].
    apply elem_of_map_iter, list_elem_of_In in Hv.
    exact (find_none _ _ Hf _ Hv).
Qed.
