(* ===== verification/Observation.v ===== *)
(** The vocabulary of the observation model: the observations its inputs
    produce ([core/public/ObservationTypes.h]), the candidates it maintains
    ([CandidateTypes.h]), the events it emits ([INetworkObservationModel.h]) and
    the LLDP identity rule ([core/LldpUtils.h]) shared by the LLDP source and
    the engine. *)

From S2P Require Import Prelude Contract.

(** * Address families, as in [<sys/socket.h>] *)

Definition AF_INET : Z := 2.
Definition AF_BRIDGE : Z := 7.
Definition AF_INET6 : Z := 10.

(** * [ObservationTypes.h] *)

Inductive NeighborReachability :=
| NRUnknown | Permanent | NoArp | Reachable | Stale | Probe | Delay | Incomplete | Failed.

Inductive FdbEntryKind := FdbUnknown | Dynamic | Static | Local | ControlPlane.

(** [ObservationEvent::Present] and [ObservationEvent::Removed]. *)
Inductive ObservationEvent := EvPresent | EvRemoved.

Inductive ObservationKind := KLink | KAddress | KNeighbor | KFdb | KLldp.

#[export] Instance NeighborReachability_eq_dec : EqDecision NeighborReachability.
Proof. solve_decision. Defined.
#[export] Instance FdbEntryKind_eq_dec : EqDecision FdbEntryKind.
Proof. solve_decision. Defined.
#[export] Instance ObservationEvent_eq_dec : EqDecision ObservationEvent.
Proof. solve_decision. Defined.

(** The base subobject of every observation. *)
Record ObservationBase := mkBase { ob_kind : ObservationKind; ob_observedAt : time_point }.

Record LinkObservation := mkLinkObservation {
  lo_base : ObservationBase;
  lo_ifindex : Z;
  lo_ifname : string;
  lo_mac : string;
  lo_adminUp : bool;
  lo_running : bool;
  lo_operstate : string;
  lo_masterIfname : option string;
  lo_event : ObservationEvent
}.

Record AddressObservation := mkAddressObservation {
  ao_base : ObservationBase;
  ao_ifname : string;
  ao_event : ObservationEvent;
  ao_family : Z;
  ao_cidr : string
}.

Record NeighborObservation := mkNeighborObservation {
  no_base : ObservationBase;
  no_ifname : string;
  no_event : ObservationEvent;
  no_family : Z;
  no_mac : string;
  no_ip : string;
  no_reachability : NeighborReachability
}.

Record FdbObservation := mkFdbObservation {
  fo_base : ObservationBase;
  fo_portIfname : string;
  fo_event : ObservationEvent;
  fo_mac : string;
  fo_entryKind : FdbEntryKind
}.

Record LldpObservation := mkLldpObservation {
  ll_base : ObservationBase;
  ll_localIfname : string;
  ll_event : ObservationEvent;
  ll_remoteChassisId : option string;
  ll_remotePortId : option string;
  ll_remoteSystemName : option string;
  ll_keepalive : bool
}.

(** [obs.observedAt] *)
Definition observedAt (b : ObservationBase) : time_point := ob_observedAt b.

(** * [CandidateTypes.h] *)

Record CandidateScore := mkScore { sc_total : Z; sc_reasons : list string }.

Definition default_score : CandidateScore := mkScore 0 [].

(** (ifname, family, ip) and (ifname, mac). *)
Record NeighborEvidenceKey := mkNeighborKey { nk_ifname : string; nk_family : Z; nk_ip : string }.
Record FdbEvidenceKey := mkFdbKey { fk_ifname : string; fk_mac : string }.

#[export] Instance NeighborEvidenceKey_eq_dec : EqDecision NeighborEvidenceKey.
Proof. solve_decision. Defined.
#[export] Instance FdbEvidenceKey_eq_dec : EqDecision FdbEvidenceKey.
Proof. solve_decision. Defined.

#[export] Program Instance NeighborEvidenceKey_countable : Countable NeighborEvidenceKey :=
  inj_countable' (λ k, (nk_ifname k, nk_family k, nk_ip k))
                 (λ p, mkNeighborKey p.1.1 p.1.2 p.2) _.
Next Obligation. by intros []. Qed.
#[export] Program Instance FdbEvidenceKey_countable : Countable FdbEvidenceKey :=
  inj_countable' (λ k, (fk_ifname k, fk_mac k)) (λ p, mkFdbKey p.1 p.2) _.
Next Obligation. by intros []. Qed.

Record RemoteCandidate := mkRemoteCandidate {
  c_mac : string;
  c_ipv4 : gset string;
  c_ipv6 : gset string;
  c_bridgePort : option string;
  c_neighborIfaces : gset string;
  c_neighborEvidence : gset NeighborEvidenceKey;
  c_fdbEvidence : gset FdbEvidenceKey;
  c_seenInNeigh : bool;
  c_seenInFdb : bool;
  c_seenInLldp : bool;
  c_remoteChassisId : option string;
  c_remotePortId : option string;
  c_remoteSystemName : option string;
  c_firstSeen : time_point;
  c_lastSeen : time_point;
  c_score : CandidateScore;
  c_classification : CandidateClassification;
  c_status : CandidateStatus
}.

Definition eta_cand (c : RemoteCandidate) : RemoteCandidate :=
  mkRemoteCandidate (c_mac c) (c_ipv4 c) (c_ipv6 c) (c_bridgePort c) (c_neighborIfaces c)
    (c_neighborEvidence c) (c_fdbEvidence c) (c_seenInNeigh c) (c_seenInFdb c) (c_seenInLldp c)
    (c_remoteChassisId c) (c_remotePortId c) (c_remoteSystemName c) (c_firstSeen c) (c_lastSeen c)
    (c_score c) (c_classification c) (c_status c).
#[export] Instance set_c_mac : Setter c_mac := ltac:(mk_setter eta_cand c_mac).
#[export] Instance set_c_ipv4 : Setter c_ipv4 := ltac:(mk_setter eta_cand c_ipv4).
#[export] Instance set_c_ipv6 : Setter c_ipv6 := ltac:(mk_setter eta_cand c_ipv6).
#[export] Instance set_c_bridgePort : Setter c_bridgePort := ltac:(mk_setter eta_cand c_bridgePort).
#[export] Instance set_c_neighborIfaces : Setter c_neighborIfaces :=
  ltac:(mk_setter eta_cand c_neighborIfaces).
#[export] Instance set_c_neighborEvidence : Setter c_neighborEvidence :=
  ltac:(mk_setter eta_cand c_neighborEvidence).
#[export] Instance set_c_fdbEvidence : Setter c_fdbEvidence := ltac:(mk_setter eta_cand c_fdbEvidence).
#[export] Instance set_c_seenInNeigh : Setter c_seenInNeigh := ltac:(mk_setter eta_cand c_seenInNeigh).
#[export] Instance set_c_seenInFdb : Setter c_seenInFdb := ltac:(mk_setter eta_cand c_seenInFdb).
#[export] Instance set_c_seenInLldp : Setter c_seenInLldp := ltac:(mk_setter eta_cand c_seenInLldp).
#[export] Instance set_c_remoteChassisId : Setter c_remoteChassisId :=
  ltac:(mk_setter eta_cand c_remoteChassisId).
#[export] Instance set_c_remotePortId : Setter c_remotePortId := ltac:(mk_setter eta_cand c_remotePortId).
#[export] Instance set_c_remoteSystemName : Setter c_remoteSystemName :=
  ltac:(mk_setter eta_cand c_remoteSystemName).
#[export] Instance set_c_firstSeen : Setter c_firstSeen := ltac:(mk_setter eta_cand c_firstSeen).
#[export] Instance set_c_lastSeen : Setter c_lastSeen := ltac:(mk_setter eta_cand c_lastSeen).
#[export] Instance set_c_score : Setter c_score := ltac:(mk_setter eta_cand c_score).
#[export] Instance set_c_classification : Setter c_classification :=
  ltac:(mk_setter eta_cand c_classification).
#[export] Instance set_c_status : Setter c_status := ltac:(mk_setter eta_cand c_status).

(** [RemoteCandidate{}]; the clock's epoch is 0. *)
Definition default_candidate : RemoteCandidate :=
  mkRemoteCandidate "" ∅ ∅ None ∅ ∅ ∅ false false false None None None 0 0 default_score
    Unknown Provisional.

(** * [LocalStateTypes.h] *)

Record LocalNetworkSnapshot := mkLocalNetworkSnapshot {
  sn_interfaces : gmap string LocalInterfaceState;
  sn_localMacs : gset string;
  sn_localIps : gset string
}.

(** * [INetworkObservationModel.h] *)

Inductive ModelEventKind :=
| LocalInterfaceChanged | LocalInterfaceRemoved | LocalAddressChanged
| CandidateAdded | CandidateUpdated | CandidateConfirmed | CandidateAged
| CandidateExpired | CandidateRemoved | ClassificationChanged.

Record ModelEvent := mkModelEvent {
  ev_kind : ModelEventKind;
  ev_timestamp : time_point;
  ev_ifname : option string;
  ev_mac : option string
}.

(** * [core/LldpUtils.h] *)

Definition isxdigit (c : Ascii.ascii) : bool :=
  let n := Ascii.nat_of_ascii c in
  ((48 <=? n) && (n <=? 57)) || ((65 <=? n) && (n <=? 70)) || ((97 <=? n) && (n <=? 102)).

(** [std::tolower] in the C locale. *)
Definition tolower (c : Ascii.ascii) : Ascii.ascii :=
  let n := Ascii.nat_of_ascii c in
  if (65 <=? n) && (n <=? 90) then Ascii.ascii_of_nat (n + 32) else c.

Definition mac_separators : list nat := [2; 5; 8; 11; 14].

(** One step of the loop of [isMacLike] at index [i]. *)
Definition mac_char_ok (i : nat) (c : Ascii.ascii) : bool :=
  if decide (i ∈ mac_separators) then bool_decide (c = ":"%char) else isxdigit c.

Fixpoint mac_chars_ok (i : nat) (s : string) : bool :=
  match s with
  | EmptyString => true
  | String c s => mac_char_ok i c && mac_chars_ok (S i) s
  end.

Definition isMacLike (s : string) : bool :=
  if decide (String.length s ≠ 17) then false else mac_chars_ok 0 s.

Fixpoint normalizeMac (s : string) : string :=
  match s with
  | EmptyString => EmptyString
  | String c s => String (tolower c) (normalizeMac s)
  end.

Definition resolveLldpIdentity (remoteChassisId remotePortId : option string) : string :=
  match remoteChassisId, remotePortId with
  | Some ch, p =>
      if isMacLike ch then normalizeMac ch
      else match p with
           | Some p => if isMacLike p then normalizeMac p else ""
           | None => ""
           end
  | None, Some p => if isMacLike p then normalizeMac p else ""
  | None, None => ""
  end.

(** * Lemmas on identities *)

Lemma tolower_idem c : tolower (tolower c) = tolower c.
Proof. destruct c as [[] [] [] [] [] [] [] []]; vm_compute; reflexivity. Qed.

Lemma tolower_xdigit c : isxdigit (tolower c) = isxdigit c.
Proof. destruct c as [[] [] [] [] [] [] [] []]; vm_compute; reflexivity. Qed.

Lemma tolower_colon c : tolower c = ":"%char ↔ c = ":"%char.
Proof. destruct c as [[] [] [] [] [] [] [] []]; vm_compute; split; (reflexivity || discriminate). Qed.

Lemma normalizeMac_idem s : normalizeMac (normalizeMac s) = normalizeMac s.
Proof. induction s as [|c s IH]; cbn; [done|]. by rewrite tolower_idem, IH. Qed.

Lemma length_normalizeMac s : String.length (normalizeMac s) = String.length s.
Proof. induction s as [|c s IH]; cbn; [done|]. by rewrite IH. Qed.

Lemma mac_chars_ok_normalize i s : mac_chars_ok i (normalizeMac s) = mac_chars_ok i s.
Proof.
  revert i. induction s as [|c s IH]; intros i; cbn; [done|]. rewrite IH. f_equal.
  unfold mac_char_ok. case_decide; [|apply tolower_xdigit].
  apply bool_decide_ext, tolower_colon.
Qed.

Lemma isMacLike_normalize s : isMacLike (normalizeMac s) = isMacLike s.
Proof. unfold isMacLike. by rewrite length_normalizeMac, mac_chars_ok_normalize. Qed.

Lemma isMacLike_nonempty s : isMacLike s = true → normalizeMac s ≠ "".
Proof.
  unfold isMacLike. case_decide as Hl; [done|]. intros _ He.
  apply (f_equal String.length) in He. rewrite length_normalizeMac in He. cbn in He. lia.
Qed.

(** A resolved identity is empty, or a normalised MAC of one of the two ids. *)
Lemma resolveLldpIdentity_cases ch p :
  (resolveLldpIdentity ch p = "" ∧
     (∀ s, ch = Some s → isMacLike s = false) ∧ (∀ s, p = Some s → isMacLike s = false)) ∨
  (∃ s, (ch = Some s ∨ (p = Some s ∧ ∀ s', ch = Some s' → isMacLike s' = false)) ∧
     isMacLike s = true ∧ resolveLldpIdentity ch p = normalizeMac s).
Proof.
  unfold resolveLldpIdentity.
  destruct ch as [ch|], p as [p|];
    try destruct (isMacLike ch) eqn:?; try destruct (isMacLike p) eqn:?;
    try (left; split_and!; congruence);
    right; eexists; (split; [|split; [|reflexivity]]); auto.
  all: right; split; [done|congruence].
Qed.

(** LLDP identity resolution is canonical: the identity of a neighbour
    is empty exactly when neither its chassis id nor its port id is MAC-like;
    otherwise it is a non-empty, MAC-like string in lower case, which is its own
    normal form, so two spellings of one MAC give one candidate key. *)
Theorem resolveLldpIdentity_canonical ch p :
  let id := resolveLldpIdentity ch p in
  (id = "" ↔ (∀ s, ch = Some s → isMacLike s = false) ∧ (∀ s, p = Some s → isMacLike s = false)) ∧
  normalizeMac id = id ∧
  (id = "" ∨ isMacLike id = true) ∧
  resolveLldpIdentity (normalizeMac <$> ch) (normalizeMac <$> p) = id.
Proof.
  intros id.
  assert (Hn : resolveLldpIdentity (normalizeMac <$> ch) (normalizeMac <$> p) = id).
  { subst id. unfold resolveLldpIdentity. destruct ch, p; cbn;
      rewrite ?isMacLike_normalize, ?normalizeMac_idem; done. }
  destruct (resolveLldpIdentity_cases ch p) as [(He & Hc & Hp)|(s & Hs & Hm & He)];
    fold id in He; rewrite He in *.
  - split_and!; [done|done|by left|done].
  - pose proof (isMacLike_nonempty s Hm).
    split_and!; [split; [done|]|apply normalizeMac_idem| |done].
    + intros [Hc Hp]. destruct Hs as [Hs|[Hs _]]; [apply Hc in Hs|apply Hp in Hs]; congruence.
    + right. by rewrite isMacLike_normalize.
Qed.
