(* ===== verification/LocalState.v ===== *)
(** [core/engine/LocalStateTracker.{h,cpp}]: the local interfaces, and the
    reference counts from which the sets of local MACs and IPs are maintained.

    Main result: in every state reached by link and address observations on
    named interfaces, a MAC (an IP) is local exactly when some tracked interface
    carries it, whatever the order of additions, removals and MAC changes. *)

From S2P Require Import Prelude Contract Observation.

(** * Definitions *)

Record LocalStateTracker := mkTracker {
  snapshot_ : LocalNetworkSnapshot;
  localMacRefcount_ : gmap string Z;
  localIpRefcount_ : gmap string Z
}.

Definition eta_snapshot (s : LocalNetworkSnapshot) : LocalNetworkSnapshot :=
  mkLocalNetworkSnapshot (sn_interfaces s) (sn_localMacs s) (sn_localIps s).
#[export] Instance set_sn_interfaces : Setter sn_interfaces :=
  ltac:(mk_setter eta_snapshot sn_interfaces).
#[export] Instance set_sn_localMacs : Setter sn_localMacs := ltac:(mk_setter eta_snapshot sn_localMacs).
#[export] Instance set_sn_localIps : Setter sn_localIps := ltac:(mk_setter eta_snapshot sn_localIps).

Definition eta_tracker (t : LocalStateTracker) : LocalStateTracker :=
  mkTracker (snapshot_ t) (localMacRefcount_ t) (localIpRefcount_ t).
#[export] Instance set_snapshot_ : Setter snapshot_ := ltac:(mk_setter eta_tracker snapshot_).
#[export] Instance set_localMacRefcount_ : Setter localMacRefcount_ :=
  ltac:(mk_setter eta_tracker localMacRefcount_).
#[export] Instance set_localIpRefcount_ : Setter localIpRefcount_ :=
  ltac:(mk_setter eta_tracker localIpRefcount_).

Definition default_snapshot : LocalNetworkSnapshot := mkLocalNetworkSnapshot ∅ ∅ ∅.
Definition default_tracker : LocalStateTracker := mkTracker default_snapshot ∅ ∅.

(** Empty when there is no slash. *)
Definition extractIpFromCidr (cidr : string) : string := default "" (str_before "/" cidr).

(** [++m[k]] on an [unordered_map<string, int>]: a missing entry starts at 0. *)
Definition preinc (m : gmap string Z) (k : string) : Z := (default 0 (m !! k) + 1)%Z.

Definition incrementMac (mac : string) (t : LocalStateTracker) : LocalStateTracker :=
  if str_empty mac then t
  else
    let n := preinc (localMacRefcount_ t) mac in
    let t := t <| localMacRefcount_ := <[mac := n]> (localMacRefcount_ t) |> in
    if (n =? 1)%Z
    then t <| snapshot_ := (snapshot_ t) <| sn_localMacs := {[mac]} ∪ sn_localMacs (snapshot_ t) |> |>
    else t.

Definition decrementMac (mac : string) (t : LocalStateTracker) : LocalStateTracker :=
  if str_empty mac then t
  else
    match localMacRefcount_ t !! mac with
    | None => t
    | Some n =>
        let n := (n - 1)%Z in
        if (n =? 0)%Z
        then t <| localMacRefcount_ := delete mac (localMacRefcount_ t) |>
               <| snapshot_ := (snapshot_ t) <| sn_localMacs := sn_localMacs (snapshot_ t) ∖ {[mac]} |> |>
        else t <| localMacRefcount_ := <[mac := n]> (localMacRefcount_ t) |>
    end.

Definition incrementIp (ip : string) (t : LocalStateTracker) : LocalStateTracker :=
  let n := preinc (localIpRefcount_ t) ip in
  let t := t <| localIpRefcount_ := <[ip := n]> (localIpRefcount_ t) |> in
  if (n =? 1)%Z
  then t <| snapshot_ := (snapshot_ t) <| sn_localIps := {[ip]} ∪ sn_localIps (snapshot_ t) |> |>
  else t.

Definition decrementIp (ip : string) (t : LocalStateTracker) : LocalStateTracker :=
  match localIpRefcount_ t !! ip with
  | None => t
  | Some n =>
      let n := (n - 1)%Z in
      if (n =? 0)%Z
      then t <| localIpRefcount_ := delete ip (localIpRefcount_ t) |>
             <| snapshot_ := (snapshot_ t) <| sn_localIps := sn_localIps (snapshot_ t) ∖ {[ip]} |> |>
      else t <| localIpRefcount_ := <[ip := n]> (localIpRefcount_ t) |>
  end.

(** [for (cidr : cidrs) if (ip = extractIpFromCidr(cidr); !ip.empty()) decrementIp(ip);] *)
Definition decrementCidr (t : LocalStateTracker) (cidr : string) : LocalStateTracker :=
  let ip := extractIpFromCidr cidr in
  if str_empty ip then t else decrementIp ip t.

Definition decrementCidrs (cidrs : list string) (t : LocalStateTracker) : LocalStateTracker :=
  foldl decrementCidr t cidrs.

Definition set_interfaces (ifs : gmap string LocalInterfaceState) (t : LocalStateTracker)
    : LocalStateTracker :=
  t <| snapshot_ := (snapshot_ t) <| sn_interfaces := ifs |> |>.

Definition interfaces (t : LocalStateTracker) : gmap string LocalInterfaceState :=
  sn_interfaces (snapshot_ t).

(** [interfaces[name]]: the entry, created with default values when missing. *)
Definition iface_at (t : LocalStateTracker) (name : string) : LocalInterfaceState :=
  default default_iface (interfaces t !! name).

Definition tracker_onLinkObservation (obs : LinkObservation) (t : LocalStateTracker)
    : bool * LocalStateTracker :=
  match lo_event obs with
  | EvRemoved =>
      match interfaces t !! lo_ifname obs with
      | Some i =>
          let t := decrementMac (if_mac i) t in
          let t := decrementCidrs (set_iter (if_ipv4 i)) t in
          let t := decrementCidrs (set_iter (if_ipv6 i)) t in
          (true, set_interfaces (delete (lo_ifname obs) (interfaces t)) t)
      | None => (false, t)
      end
  | EvPresent =>
      let i := iface_at t (lo_ifname obs) in
      let isNew := str_empty (if_ifname i) in
      let oldMac := if_mac i in
      let i := i <| if_ifindex := lo_ifindex obs |>
                 <| if_ifname := lo_ifname obs |>
                 <| if_adminUp := lo_adminUp obs |>
                 <| if_running := lo_running obs |>
                 <| if_operstate := lo_operstate obs |>
                 <| if_masterIfname := lo_masterIfname obs |> in
      let store i t := set_interfaces (<[lo_ifname obs := i]> (interfaces t)) t in
      let t :=
        if isNew then
          incrementMac (lo_mac obs) (store (i <| if_mac := lo_mac obs |>) t)
        else if bool_decide (oldMac ≠ lo_mac obs) then
          incrementMac (lo_mac obs) (store (i <| if_mac := lo_mac obs |>) (decrementMac oldMac t))
        else store i t in
      (bool_decide (oldMac ≠ lo_mac obs), t)
  end.

Definition tracker_onAddressObservation (obs : AddressObservation) (t : LocalStateTracker)
    : bool * LocalStateTracker :=
  let name := ao_ifname obs in
  let i := iface_at t name in
  let store i t := set_interfaces (<[name := i]> (interfaces t)) t in
  let cidr := ao_cidr obs in
  let ip := extractIpFromCidr cidr in
  if str_empty ip then (false, store i t)
  else
    match ao_event obs with
    | EvPresent =>
        if (ao_family obs =? AF_INET)%Z then
          if decide (cidr ∈ if_ipv4 i) then (false, store i t)
          else (true, incrementIp ip (store (i <| if_ipv4 := {[cidr]} ∪ if_ipv4 i |>) t))
        else
          if decide (cidr ∈ if_ipv6 i) then (false, store i t)
          else (true, incrementIp ip (store (i <| if_ipv6 := {[cidr]} ∪ if_ipv6 i |>) t))
    | EvRemoved =>
        if (ao_family obs =? AF_INET)%Z then
          if decide (cidr ∈ if_ipv4 i)
          then (true, decrementIp ip (store (i <| if_ipv4 := if_ipv4 i ∖ {[cidr]} |>) t))
          else (false, store i t)
        else
          if decide (cidr ∈ if_ipv6 i)
          then (true, decrementIp ip (store (i <| if_ipv6 := if_ipv6 i ∖ {[cidr]} |>) t))
          else (false, store i t)
    end.

Definition isLocalMac (mac : string) (t : LocalStateTracker) : bool :=
  bool_decide (mac ∈ sn_localMacs (snapshot_ t)).

Definition isLocalIp (ip : string) (t : LocalStateTracker) : bool :=
  bool_decide (ip ∈ sn_localIps (snapshot_ t)).

Definition tracker_clear (t : LocalStateTracker) : LocalStateTracker :=
  t <| snapshot_ := default_snapshot |> <| localMacRefcount_ := ∅ |> <| localIpRefcount_ := ∅ |>.

(** * Specification: ownership read off the interface table *)

Definition sum_over (g : LocalInterfaceState → Z) (ifs : gmap string LocalInterfaceState) : Z :=
  map_fold (λ _ i acc, (g i + acc)%Z) 0%Z ifs.

Definition owns_mac (mac : string) (i : LocalInterfaceState) : Z :=
  if decide (if_mac i = mac) then 1 else 0.

(** How many of the CIDRs have the address [ip]. *)
Definition list_refs (ip : string) (cidrs : list string) : Z :=
  Z.of_nat (length (filter (λ c, extractIpFromCidr c = ip) cidrs)).

Definition cidr_refs (ip : string) (cidrs : gset string) : Z := list_refs ip (elements cidrs).

Definition owns_ip (ip : string) (i : LocalInterfaceState) : Z :=
  (cidr_refs ip (if_ipv4 i) + cidr_refs ip (if_ipv6 i))%Z.

Definition mac_count (ifs : gmap string LocalInterfaceState) (mac : string) : Z :=
  if decide (mac = "") then 0 else sum_over (owns_mac mac) ifs.
Definition ip_count (ifs : gmap string LocalInterfaceState) (ip : string) : Z :=
  if decide (ip = "") then 0 else sum_over (owns_ip ip) ifs.

(** [rc] stores the non-zero values of [f], and [s] is their support. *)
Record counts (rc : gmap string Z) (s : gset string) (f : string → Z) : Prop := mkCounts {
  counts_lookup k : rc !! k = if decide (f k = 0%Z) then None else Some (f k);
  counts_support k : k ∈ s ↔ f k ≠ 0%Z;
  counts_nonneg k : (0 ≤ f k)%Z
}.

(** The reference counts of the tracker represent [fm] and [fi]. *)
Definition represents (t : LocalStateTracker) (fm fi : string → Z) : Prop :=
  counts (localMacRefcount_ t) (sn_localMacs (snapshot_ t)) fm ∧
  counts (localIpRefcount_ t) (sn_localIps (snapshot_ t)) fi.

(** An entry is stored under its name; one made by an address observation has
    neither name nor MAC yet. *)
Definition iface_ok (name : string) (i : LocalInterfaceState) : Prop :=
  if_ifname i = name ∨ (if_ifname i = "" ∧ if_mac i = "").

Record tracker_wf (t : LocalStateTracker) : Prop := mkTrackerWf {
  wf_counts : represents t (mac_count (interfaces t)) (ip_count (interfaces t));
  wf_ifaces : map_Forall iface_ok (interfaces t)
}.

Inductive tracker_step : LocalStateTracker → LocalStateTracker → Prop :=
| step_link obs t :
    lo_ifname obs ≠ "" → tracker_step t (tracker_onLinkObservation obs t).2
| step_address obs t : tracker_step t (tracker_onAddressObservation obs t).2
| step_clear t : tracker_step t (tracker_clear t).

(** * Counting lemmas *)

Lemma counts_ext rc s f g : (∀ k, f k = g k) → counts rc s f → counts rc s g.
Proof.
  intros Hfg [Hl Hs Hn]. split; intros k; rewrite <- !Hfg; [apply Hl|apply Hs|apply Hn].
Qed.

Lemma counts_empty : counts ∅ ∅ (λ _, 0%Z).
Proof. split; intros k; [by rewrite decide_True | set_solver | done]. Qed.

Lemma counts_inc rc s f k :
  counts rc s f →
  counts (<[k := preinc rc k]> rc) (if (preinc rc k =? 1)%Z then {[k]} ∪ s else s)
    (λ x, (f x + if decide (x = k) then 1 else 0)%Z).
Proof.
  intros [Hl Hs Hn].
  assert (Hp : preinc rc k = (f k + 1)%Z).
  { unfold preinc. rewrite Hl. case_decide as E; cbn; lia. }
  rewrite Hp. split; intros x.
  - destruct (decide (x = k)) as [->|Hx].
    + rewrite lookup_insert_eq. specialize (Hn k). by rewrite decide_False by lia.
    + rewrite lookup_insert_ne by done. by rewrite Z.add_0_r, Hl.
  - specialize (Hs x). specialize (Hn x). destruct (Z.eqb_spec (f k + 1) 1).
    + case_decide; subst; set_unfold; split; intros; try lia; naive_solver lia.
    + case_decide; subst; rewrite Hs; lia.
  - specialize (Hn x). case_decide; lia.
Qed.

Lemma counts_dec rc s f k n :
  counts rc s f → rc !! k = Some n →
  counts (if (n - 1 =? 0)%Z then delete k rc else <[k := (n - 1)%Z]> rc)
    (if (n - 1 =? 0)%Z then s ∖ {[k]} else s)
    (λ x, (f x - if decide (x = k) then 1 else 0)%Z).
Proof.
  intros [Hl Hs Hn] Hk. pose proof (Hl k) as Hlk. rewrite Hk in Hlk.
  case_decide as E; [done|]. injection Hlk as ->. pose proof (Hn k).
  destruct (Z.eqb_spec (f k - 1) 0) as [Hz|Hz]; split; intros x;
    specialize (Hs x); specialize (Hn x); destruct (decide (x = k)) as [->|Hx];
    rewrite ?Z.sub_0_r; try lia.
  - rewrite lookup_delete_eq. by rewrite decide_True.
  - rewrite lookup_delete_ne by done. apply Hl.
  - set_unfold. split; [naive_solver|lia].
  - rewrite <- Hs. set_solver.
  - rewrite lookup_insert_eq. by rewrite decide_False.
  - rewrite lookup_insert_ne by done. apply Hl.
  - rewrite Hs. lia.
  - done.
Qed.

Lemma counts_missing rc s f k : counts rc s f → rc !! k = None → f k = 0%Z.
Proof. intros [Hl _ _] Hk. rewrite Hl in Hk. by case_decide. Qed.

(** ** Effect of the four primitive operations on the represented counts *)

Lemma incrementMac_rep mac t fm fi :
  represents t fm fi →
  represents (incrementMac mac t)
    (λ x, (fm x + if decide (mac ≠ "" ∧ x = mac) then 1 else 0)%Z) fi.
Proof.
  intros [Hm Hi]. unfold incrementMac.
  destruct (str_empty mac) eqn:He; autorewrite with rmc in He.
  - split; [|done]. eapply counts_ext; [|done]. intros k. cbn.
    rewrite decide_False by naive_solver. lia.
  - apply (counts_inc _ _ _ mac) in Hm. revert Hm.
    assert (∀ x, (fm x + (if decide (x = mac) then 1 else 0))%Z =
                 (fm x + (if decide (mac ≠ "" ∧ x = mac) then 1 else 0))%Z) as Hext.
    { intros x. repeat case_decide; naive_solver lia. }
    destruct (preinc _ _ =? 1)%Z; intros ?; (split; cbn; [|done]);
      (eapply counts_ext; [apply Hext | eassumption]).
Qed.

Lemma decrementMac_rep mac t fm fi :
  represents t fm fi → (mac = "" ∨ fm mac ≠ 0%Z) →
  represents (decrementMac mac t)
    (λ x, (fm x - if decide (mac ≠ "" ∧ x = mac) then 1 else 0)%Z) fi.
Proof.
  intros [Hm Hi] Hpos. unfold decrementMac.
  destruct (str_empty mac) eqn:He; autorewrite with rmc in He.
  - split; [|done]. eapply counts_ext; [|done]. intros k. cbn.
    rewrite decide_False by naive_solver. lia.
  - destruct Hpos as [|Hpos]; [done|].
    destruct (localMacRefcount_ t !! mac) as [n|] eqn:Hn;
      [|by rewrite (counts_missing _ _ _ _ Hm Hn) in Hpos].
    apply (counts_dec _ _ _ _ _ Hm) in Hn.
    assert (∀ x, (fm x - (if decide (x = mac) then 1 else 0))%Z =
                 (fm x - (if decide (mac ≠ "" ∧ x = mac) then 1 else 0))%Z) as Hext.
    { intros x. repeat case_decide; naive_solver lia. }
    destruct (n - 1 =? 0)%Z; cbn in *; (split; cbn; [|done]); (eapply counts_ext; [apply Hext | eassumption]).
Qed.

Lemma incrementIp_rep ip t fm fi :
  represents t fm fi →
  represents (incrementIp ip t) fm (λ x, (fi x + if decide (x = ip) then 1 else 0)%Z).
Proof.
  intros [Hm Hi]. unfold incrementIp. apply (counts_inc _ _ _ ip) in Hi. revert Hi.
  destruct (preinc _ _ =? 1)%Z; intros ?; (split; cbn; done).
Qed.

Lemma decrementIp_rep ip t fm fi :
  represents t fm fi → fi ip ≠ 0%Z →
  represents (decrementIp ip t) fm (λ x, (fi x - if decide (x = ip) then 1 else 0)%Z).
Proof.
  intros [Hm Hi] Hpos. unfold decrementIp.
  destruct (localIpRefcount_ t !! ip) as [n|] eqn:Hn;
    [|by rewrite (counts_missing _ _ _ _ Hi Hn) in Hpos].
  apply (counts_dec _ _ _ _ _ Hi) in Hn.
  destruct (n - 1 =? 0)%Z; cbn in *; (split; cbn; done).
Qed.

(** ** Interfaces are untouched by the reference counting *)

Lemma interfaces_incrementMac mac t : interfaces (incrementMac mac t) = interfaces t.
Proof. unfold incrementMac. by repeat case_match. Qed.
Lemma interfaces_decrementMac mac t : interfaces (decrementMac mac t) = interfaces t.
Proof. unfold decrementMac. by repeat case_match. Qed.
Lemma interfaces_incrementIp ip t : interfaces (incrementIp ip t) = interfaces t.
Proof. unfold incrementIp. by repeat case_match. Qed.
Lemma interfaces_decrementIp ip t : interfaces (decrementIp ip t) = interfaces t.
Proof. unfold decrementIp. by repeat case_match. Qed.
Lemma interfaces_decrementCidrs l t : interfaces (decrementCidrs l t) = interfaces t.
Proof.
  unfold decrementCidrs. revert t. induction l as [|c l IH]; intros t; cbn; [done|].
  rewrite IH. unfold decrementCidr. case_match; [done|]. apply interfaces_decrementIp.
Qed.
Lemma interfaces_set ifs t : interfaces (set_interfaces ifs t) = ifs.
Proof. done. Qed.

#[export] Hint Rewrite interfaces_incrementMac interfaces_decrementMac interfaces_incrementIp
  interfaces_decrementIp interfaces_decrementCidrs interfaces_set : rmc.

Lemma represents_set ifs t fm fi : represents t fm fi → represents (set_interfaces ifs t) fm fi.
Proof. done. Qed.

Lemma represents_ext t fm fi fm' fi' :
  (∀ k, fm k = fm' k) → (∀ k, fi k = fi' k) → represents t fm fi → represents t fm' fi'.
Proof. intros Hm Hi [? ?]. split; eapply counts_ext; eauto. Qed.

(** ** Counting CIDRs *)

Lemma list_refs_nonneg ip l : (0 ≤ list_refs ip l)%Z.
Proof. unfold list_refs. lia. Qed.

Lemma list_refs_cons ip c l :
  list_refs ip (c :: l) = ((if decide (extractIpFromCidr c = ip) then 1 else 0) + list_refs ip l)%Z.
Proof.
  unfold list_refs. rewrite filter_cons. case_decide; cbn [length]; lia.
Qed.

Lemma list_refs_perm ip l l' : l ≡ₚ l' → list_refs ip l = list_refs ip l'.
Proof. intros Hp. unfold list_refs. by rewrite Hp. Qed.

Lemma list_refs_set_iter ip s : list_refs ip (set_iter s) = cidr_refs ip s.
Proof. apply list_refs_perm, set_iter_perm. Qed.

Lemma cidr_refs_insert ip c s :
  c ∉ s →
  cidr_refs ip ({[c]} ∪ s) = ((if decide (extractIpFromCidr c = ip) then 1 else 0) + cidr_refs ip s)%Z.
Proof.
  intros Hc. unfold cidr_refs. rewrite <- list_refs_cons.
  apply list_refs_perm. by apply elements_union_singleton.
Qed.

Lemma cidr_refs_delete ip c s :
  c ∈ s →
  cidr_refs ip (s ∖ {[c]}) = (cidr_refs ip s - if decide (extractIpFromCidr c = ip) then 1 else 0)%Z.
Proof.
  intros Hc. rewrite (union_difference_singleton_L c s) at 2 by done.
  rewrite cidr_refs_insert by set_solver. lia.
Qed.

Lemma cidr_refs_pos ip s : cidr_refs ip s ≠ 0%Z ↔ ∃ c, c ∈ s ∧ extractIpFromCidr c = ip.
Proof.
  unfold cidr_refs, list_refs. split.
  - intros Hn. destruct (filter _ (elements s)) as [|c l] eqn:E; [done|].
    exists c. assert (Hc : c ∈ c :: l) by left. rewrite <- E in Hc.
    apply list_elem_of_filter in Hc as [? Hc]. split; [by apply elem_of_elements|done].
  - intros (c & Hc & He) Hn.
    assert (Hf : c ∈ filter (λ c, extractIpFromCidr c = ip) (elements s)).
    { apply list_elem_of_filter. split; [done|by apply elem_of_elements]. }
    destruct (filter _ (elements s)); [by apply not_elem_of_nil in Hf|cbn in Hn; lia].
Qed.

Lemma decrementCidrs_rep l t fm fi :
  represents t fm fi → (∀ ip, ip ≠ "" → list_refs ip l ≤ fi ip)%Z →
  represents (decrementCidrs l t) fm
    (λ x, (fi x - if decide (x = "") then 0 else list_refs x l)%Z).
Proof.
  unfold decrementCidrs. revert t fi. induction l as [|c l IH]; intros t fi Hr Hle.
  - eapply represents_ext; [done| |done]. intros k. cbn. unfold list_refs. cbn. case_decide; lia.
  - cbn. unfold decrementCidr at 2. destruct (str_empty _) eqn:He; autorewrite with rmc in He.
    + eapply represents_ext; [done| |apply IH; [done|]].
      * intros k. cbn. rewrite list_refs_cons, He.
        destruct (decide (k = "")), (decide ("" = k)); try lia; congruence.
      * intros ip Hip. specialize (Hle ip Hip). rewrite list_refs_cons in Hle.
        case_decide; pose proof (list_refs_nonneg ip l); lia.
    + assert (Hip : (list_refs (extractIpFromCidr c) l + 1 ≤ fi (extractIpFromCidr c))%Z).
      { specialize (Hle _ He). rewrite list_refs_cons, decide_True in Hle by done. lia. }
      pose proof (list_refs_nonneg (extractIpFromCidr c) l).
      eapply represents_ext; [done| |apply IH; [apply decrementIp_rep; [done|lia]|]].
      * intros k. cbn. rewrite list_refs_cons.
        destruct (decide (k = extractIpFromCidr c)) as [->|Hk].
        { rewrite (decide_True (P := extractIpFromCidr c = extractIpFromCidr c)) by done.
          case_decide; [done|lia]. }
        rewrite (decide_False (P := extractIpFromCidr c = k)) by congruence. case_decide; lia.
      * intros ip Hne. cbn. specialize (Hle ip Hne). rewrite list_refs_cons in Hle.
        destruct (decide (ip = extractIpFromCidr c)) as [->|Hk]; [lia|].
        rewrite decide_False in Hle by congruence. lia.
Qed.

(** ** Sums over the interface table *)

Section sums.
Context (g : LocalInterfaceState → Z).
Implicit Types ifs : gmap string LocalInterfaceState.

Lemma sum_over_insert k i ifs :
  ifs !! k = None → sum_over g (<[k := i]> ifs) = (g i + sum_over g ifs)%Z.
Proof. intros Hk. unfold sum_over. rewrite map_fold_insert_L; [done|intros; lia|done]. Qed.

Lemma sum_over_delete k i ifs :
  ifs !! k = Some i → sum_over g (delete k ifs) = (sum_over g ifs - g i)%Z.
Proof.
  intros Hk. rewrite <- (insert_delete_id ifs k i) at 2 by done.
  rewrite sum_over_insert by apply lookup_delete_eq. lia.
Qed.

Lemma sum_over_replace k i i' ifs :
  ifs !! k = Some i → sum_over g (<[k := i']> ifs) = (sum_over g ifs - g i + g i')%Z.
Proof.
  intros Hk. rewrite <- insert_delete_eq, sum_over_insert by apply lookup_delete_eq.
  rewrite (sum_over_delete k i) by done. lia.
Qed.

(** [default_iface] contributes nothing, so a missing entry is one. *)
Lemma sum_over_update k i' ifs :
  g default_iface = 0%Z →
  sum_over g (<[k := i']> ifs) =
    (sum_over g ifs - g (default default_iface (ifs !! k)) + g i')%Z.
Proof.
  intros Hd. destruct (ifs !! k) as [i|] eqn:Hk; cbn.
  - by apply sum_over_replace.
  - rewrite sum_over_insert by done. lia.
Qed.

Context (Hpos : ∀ i, (0 ≤ g i)%Z).

Lemma sum_over_nonneg ifs : (0 ≤ sum_over g ifs)%Z.
Proof.
  induction ifs as [|k i ifs Hk IH] using map_ind; [done|].
  rewrite sum_over_insert by done. specialize (Hpos i). lia.
Qed.

Lemma sum_over_lookup k i ifs : ifs !! k = Some i → (g i ≤ sum_over g ifs)%Z.
Proof.
  intros Hk. pose proof (sum_over_nonneg (delete k ifs)) as H.
  rewrite (sum_over_delete k i) in H by done. lia.
Qed.

Lemma sum_over_pos ifs : sum_over g ifs ≠ 0%Z ↔ ∃ k i, ifs !! k = Some i ∧ g i ≠ 0%Z.
Proof.
  split.
  - induction ifs as [|k i ifs Hk IH] using map_ind; [done|].
    rewrite sum_over_insert by done. intros Hs.
    destruct (decide (g i = 0%Z)) as [Hz|Hz].
    + destruct IH as (k' & i' & Hk' & Hi'); [lia|]. exists k', i'.
      split; [|done]. rewrite lookup_insert_ne; [done|congruence].
    + exists k, i. by rewrite lookup_insert_eq.
  - intros (k & i & Hk & Hi). pose proof (sum_over_lookup k i ifs Hk). specialize (Hpos i). lia.
Qed.
End sums.

(** ** Effect of an update of one interface on the counts *)

Definition mac_weight (x mac : string) : Z := if decide (mac ≠ "" ∧ x = mac) then 1 else 0.

Lemma owns_mac_nonneg x i : (0 ≤ owns_mac x i)%Z.
Proof. unfold owns_mac. case_decide; lia. Qed.
Lemma owns_ip_nonneg x i : (0 ≤ owns_ip x i)%Z.
Proof. unfold owns_ip, cidr_refs, list_refs. lia. Qed.

Lemma mac_weight_empty mac : mac_weight "" mac = 0%Z.
Proof. unfold mac_weight. case_decide as H; [|done]. destruct H as [? <-]. done. Qed.

Lemma mac_weight_owns x i : x ≠ "" → mac_weight x (if_mac i) = owns_mac x i.
Proof.
  intros Hx. unfold mac_weight, owns_mac.
  destruct (decide (if_mac i = x)) as [->|Hn]; [by rewrite decide_True|].
  rewrite decide_False; [done|]. intros [_ ->]. done.
Qed.

Lemma mac_count_update k i' ifs x :
  mac_count (<[k := i']> ifs) x =
    (mac_count ifs x - mac_weight x (if_mac (default default_iface (ifs !! k))) + mac_weight x (if_mac i'))%Z.
Proof.
  unfold mac_count. case_decide as Hx; [by rewrite Hx, !mac_weight_empty|].
  rewrite sum_over_update by (unfold owns_mac; cbn; by rewrite decide_False).
  by rewrite !mac_weight_owns.
Qed.

Lemma mac_count_delete k i ifs x :
  ifs !! k = Some i → mac_count (delete k ifs) x = (mac_count ifs x - mac_weight x (if_mac i))%Z.
Proof.
  intros Hk. unfold mac_count. case_decide as Hx; [by rewrite Hx, mac_weight_empty|].
  by rewrite (sum_over_delete _ k i), mac_weight_owns.
Qed.

Lemma ip_count_update k i' ifs x :
  ip_count (<[k := i']> ifs) x =
    (ip_count ifs x +
       if decide (x = "") then 0 else owns_ip x i' - owns_ip x (default default_iface (ifs !! k)))%Z.
Proof.
  unfold ip_count. case_decide; [lia|]. rewrite sum_over_update by done. lia.
Qed.

Lemma ip_count_delete k i ifs x :
  ifs !! k = Some i →
  ip_count (delete k ifs) x =
    (ip_count ifs x - (if decide (x = "") then 0 else cidr_refs x (if_ipv4 i))
                    - (if decide (x = "") then 0 else cidr_refs x (if_ipv6 i)))%Z.
Proof.
  intros Hk. unfold ip_count. case_decide; [lia|]. rewrite (sum_over_delete _ k i) by done.
  unfold owns_ip. lia.
Qed.

Lemma mac_count_pos ifs x : mac_count ifs x ≠ 0%Z ↔ x ≠ "" ∧ ∃ k i, ifs !! k = Some i ∧ if_mac i = x.
Proof.
  unfold mac_count. case_decide as Hx; [naive_solver|].
  rewrite (sum_over_pos _ (owns_mac_nonneg x)). unfold owns_mac.
  split; [|intros [_ (k & i & Hk & Hi)]; exists k, i; by rewrite decide_True].
  intros (k & i & Hk & Hi). case_decide; [|done]. eauto.
Qed.

Lemma ip_count_pos ifs x :
  ip_count ifs x ≠ 0%Z ↔
  x ≠ "" ∧ ∃ k i c, ifs !! k = Some i ∧ c ∈ if_ipv4 i ∪ if_ipv6 i ∧ extractIpFromCidr c = x.
Proof.
  unfold ip_count. case_decide as Hx; [naive_solver|].
  rewrite (sum_over_pos _ (owns_ip_nonneg x)).
  assert (Hn : ∀ i, owns_ip x i ≠ 0%Z ↔ ∃ c, c ∈ if_ipv4 i ∪ if_ipv6 i ∧ extractIpFromCidr c = x).
  { intros i. pose proof (cidr_refs_pos x (if_ipv4 i)) as H4. pose proof (cidr_refs_pos x (if_ipv6 i)) as H6.
    pose proof (list_refs_nonneg x (elements (if_ipv4 i))). pose proof (list_refs_nonneg x (elements (if_ipv6 i))).
    assert (owns_ip x i ≠ 0%Z ↔ cidr_refs x (if_ipv4 i) ≠ 0%Z ∨ cidr_refs x (if_ipv6 i) ≠ 0%Z) as ->.
    { unfold owns_ip, cidr_refs. lia. }
    rewrite H4, H6. set_solver. }
  setoid_rewrite Hn. naive_solver.
Qed.

(** ** Every step preserves the invariant *)

Lemma tracker_clear_wf t : tracker_wf (tracker_clear t).
Proof.
  split; [|done]. split; (eapply counts_ext; [|apply counts_empty]); intros k; cbn.
  - unfold mac_count. by case_decide.
  - unfold ip_count. by case_decide.
Qed.

Lemma iface_at_ok t name i : tracker_wf t → iface_at t name = i → iface_ok name i.
Proof.
  intros [_ Hi] <-. unfold iface_at. destruct (interfaces t !! name) as [i|] eqn:Hn; cbn.
  - by apply (Hi name i).
  - by right.
Qed.

Lemma iface_at_mac t name :
  tracker_wf t → if_mac (iface_at t name) = "" ∨ mac_count (interfaces t) (if_mac (iface_at t name)) ≠ 0%Z.
Proof.
  intros _. unfold iface_at. destruct (interfaces t !! name) as [i|] eqn:Hn; cbn; [|by left].
  destruct (decide (if_mac i = "")); [by left|right]. apply mac_count_pos. eauto.
Qed.

(** Storing an interface under its name keeps the invariant when the reference
    counts already account for the change. *)
Lemma store_wf t t' name i :
  map_Forall iface_ok (interfaces t) →
  interfaces t' = <[name := i]> (interfaces t) →
  iface_ok name i →
  represents t' (mac_count (<[name := i]> (interfaces t))) (ip_count (<[name := i]> (interfaces t))) →
  tracker_wf t'.
Proof.
  intros Hall Hi Hok Hr. split; rewrite Hi; [done|]. by apply map_Forall_insert_2.
Qed.

Lemma link_removed_wf t name i :
  tracker_wf t → interfaces t !! name = Some i →
  tracker_wf (let t := decrementMac (if_mac i) t in
              let t := decrementCidrs (set_iter (if_ipv4 i)) t in
              let t := decrementCidrs (set_iter (if_ipv6 i)) t in
              set_interfaces (delete name (interfaces t)) t).
Proof.
  intros [Hr Hok] Hi. cbn. split; autorewrite with rmc; [|by apply map_Forall_delete].
  apply represents_set.
  assert (Hle : ∀ ip, ip ≠ "" → (owns_ip ip i ≤ ip_count (interfaces t) ip)%Z).
  { intros ip Hip. unfold ip_count. rewrite decide_False by done.
    by apply (sum_over_lookup _ (owns_ip_nonneg ip) name). }
  eapply represents_ext; [| |apply decrementCidrs_rep; [apply decrementCidrs_rep;
    [apply decrementMac_rep; [exact Hr|]|]|]].
  - intros x. rewrite (mac_count_delete _ _ _ _ Hi). done.
  - intros x. rewrite (ip_count_delete _ _ _ _ Hi). by rewrite !list_refs_set_iter.
  - destruct (decide (if_mac i = "")); [by left|right]. apply mac_count_pos. eauto.
  - intros ip Hip. specialize (Hle ip Hip). rewrite list_refs_set_iter.
    pose proof (list_refs_nonneg ip (elements (if_ipv6 i))). unfold owns_ip, cidr_refs in *. lia.
  - intros ip Hip. specialize (Hle ip Hip). rewrite !list_refs_set_iter, decide_False by done.
    unfold owns_ip in Hle. lia.
Qed.

Lemma onLinkObservation_wf obs t :
  lo_ifname obs ≠ "" → tracker_wf t → tracker_wf (tracker_onLinkObservation obs t).2.
Proof.
  intros Hne Hwf. unfold tracker_onLinkObservation. destruct (lo_event obs).
  2: { destruct (interfaces t !! lo_ifname obs) as [i|] eqn:Hi; [|done].
       by apply link_removed_wf. }
  pose proof (iface_at_mac t (lo_ifname obs) Hwf) as Hmac.
  pose proof (iface_at_ok t (lo_ifname obs) _ Hwf eq_refl) as Hok.
  pose proof (wf_counts t Hwf) as Hr. pose proof (wf_ifaces t Hwf) as Hall.
  set (i0 := iface_at t (lo_ifname obs)) in *. cbn.
  assert (Hip : ∀ i x, if_ipv4 i = if_ipv4 i0 → if_ipv6 i = if_ipv6 i0 →
     ip_count (interfaces t) x = ip_count (<[lo_ifname obs := i]> (interfaces t)) x).
  { intros i x H4 H6. rewrite ip_count_update. unfold owns_ip. rewrite H4, H6.
    subst i0. unfold iface_at. case_decide; lia. }
  destruct (str_empty (if_ifname i0)) eqn:Hnew; autorewrite with rmc in Hnew;
    [|case_bool_decide as Hch].
  - eapply (store_wf t); [done|by autorewrite with rmc|by left|].
    eapply represents_ext; [|intros x; by apply Hip|apply incrementMac_rep, represents_set, Hr].
    intros x. rewrite mac_count_update. fold (iface_at t (lo_ifname obs)). fold i0.
    destruct Hok as [Hok|[_ ->]]; [congruence|]. cbn.
    assert (mac_weight x "" = 0%Z) as -> by (unfold mac_weight; case_decide; naive_solver).
    fold (mac_weight x (lo_mac obs)). lia.
  - eapply (store_wf t); [done|by autorewrite with rmc|by left|].
    eapply represents_ext; [|intros x; by apply Hip
      |apply incrementMac_rep, represents_set, decrementMac_rep; [exact Hr|done]].
    intros x. rewrite mac_count_update. fold (iface_at t (lo_ifname obs)). done.
  - eapply (store_wf t); [done|by autorewrite with rmc|by left|].
    eapply represents_ext; [|intros x; by apply Hip|apply represents_set, Hr].
    intros x. rewrite mac_count_update. fold (iface_at t (lo_ifname obs)).
    cbn. fold i0. lia.
Qed.

(** An address handler stores the entry with one of its address sets changed:
    the counts are right when [t'] accounts for the difference [d]. *)
Lemma store_addresses_wf t t' name i d :
  tracker_wf t →
  interfaces t' = <[name := i]> (interfaces t) →
  if_ifname i = if_ifname (iface_at t name) → if_mac i = if_mac (iface_at t name) →
  (∀ x, x ≠ "" → owns_ip x i = owns_ip x (iface_at t name) + d x)%Z →
  represents t' (mac_count (interfaces t))
    (λ x, ip_count (interfaces t) x + if decide (x = "") then 0 else d x)%Z →
  tracker_wf t'.
Proof.
  intros Hwf Hi Hname Hmac Hd Hr. eapply (store_wf t); [apply Hwf|done| |].
  - pose proof (iface_at_ok t name _ Hwf eq_refl) as Hok. unfold iface_ok in *.
    by rewrite Hname, Hmac.
  - eapply represents_ext; [| |exact Hr]; intros x; cbn.
    + rewrite mac_count_update, Hmac. unfold iface_at. lia.
    + rewrite ip_count_update. case_decide; [done|]. rewrite Hd by done. unfold iface_at. lia.
Qed.

Definition ip_weight (ip x : string) : Z := if decide (ip = x) then 1 else 0.

Lemma store_same_wf t name :
  tracker_wf t → tracker_wf (set_interfaces (<[name := iface_at t name]> (interfaces t)) t).
Proof.
  intros Hwf. eapply (store_addresses_wf t _ name _ (λ _, 0%Z)); [done..|intros; lia|].
  eapply represents_ext; [done| |apply (wf_counts t Hwf)]. intros x. cbn. case_decide; lia.
Qed.

Lemma store_inc_wf t name i ip :
  tracker_wf t → ip ≠ "" →
  if_ifname i = if_ifname (iface_at t name) → if_mac i = if_mac (iface_at t name) →
  (∀ x, owns_ip x i = owns_ip x (iface_at t name) + ip_weight ip x)%Z →
  tracker_wf (incrementIp ip (set_interfaces (<[name := i]> (interfaces t)) t)).
Proof.
  intros Hwf Hip Hn Hm Hd.
  eapply (store_addresses_wf t _ name i (ip_weight ip)); try done; [by autorewrite with rmc|].
  eapply represents_ext; [done| |apply incrementIp_rep, represents_set, (wf_counts t Hwf)].
  intros x. cbn. unfold ip_weight. destruct (decide (x = ip)) as [->|Hx].
  - by rewrite !decide_False, decide_True by done.
  - rewrite (decide_False (P := ip = x)) by congruence. by case_decide.
Qed.

Lemma store_dec_wf t name i ip :
  tracker_wf t → ip ≠ "" →
  if_ifname i = if_ifname (iface_at t name) → if_mac i = if_mac (iface_at t name) →
  (∀ x, owns_ip x i = owns_ip x (iface_at t name) - ip_weight ip x)%Z →
  tracker_wf (decrementIp ip (set_interfaces (<[name := i]> (interfaces t)) t)).
Proof.
  intros Hwf Hip Hn Hm Hd.
  eapply (store_addresses_wf t _ name i (λ x, - ip_weight ip x)%Z); [done| | done | done | |];
    [by autorewrite with rmc|intros x _; rewrite Hd; lia|].
  eapply represents_ext; [done| |apply decrementIp_rep; [apply represents_set, (wf_counts t Hwf)|]].
  - intros x. cbn. unfold ip_weight. destruct (decide (x = ip)) as [->|Hx].
    + rewrite (decide_False (P := ip = "")), decide_True by done. lia.
    + rewrite (decide_False (P := ip = x)) by congruence. case_decide; lia.
  - unfold ip_count. rewrite decide_False by done.
    specialize (Hd ip). unfold ip_weight in Hd. rewrite decide_True in Hd by done.
    pose proof (owns_ip_nonneg ip i) as H0. revert Hd. unfold iface_at.
    destruct (interfaces t !! name) as [i0|] eqn:Hi0; cbn; intros Hd.
    2: { change (owns_ip ip default_iface) with 0%Z in Hd. lia. }
    pose proof (sum_over_lookup _ (owns_ip_nonneg ip) name i0 _ Hi0). lia.
Qed.

Lemma onAddressObservation_wf obs t :
  tracker_wf t → tracker_wf (tracker_onAddressObservation obs t).2.
Proof.
  intros Hwf. unfold tracker_onAddressObservation.
  destruct (str_empty _) eqn:Hip; autorewrite with rmc in Hip; [by apply store_same_wf|].
  destruct (ao_event obs), (ao_family obs =? AF_INET)%Z; case_decide as Hin; cbn;
    try (by apply store_same_wf).
  1,2: apply store_inc_wf; try done; intros x; unfold owns_ip; cbn;
    rewrite (cidr_refs_insert _ _ _ Hin); unfold ip_weight; lia.
  all: apply store_dec_wf; try done; intros x; unfold owns_ip; cbn;
    rewrite (cidr_refs_delete _ _ _ Hin); unfold ip_weight; lia.
Qed.

Lemma tracker_step_wf t t' : tracker_step t t' → tracker_wf t → tracker_wf t'.
Proof.
  destruct 1; [by apply onLinkObservation_wf|apply onAddressObservation_wf
    |intros _; apply tracker_clear_wf].
Qed.

Lemma tracker_reachable_wf t : rtc tracker_step default_tracker t → tracker_wf t.
Proof.
  intros Hr. eapply (rtc_ind_r tracker_wf); [| |exact Hr].
  - apply (tracker_clear_wf default_tracker).
  - intros ? ? _ Hs. by apply tracker_step_wf.
Qed.

Lemma tracker_wf_local t mac ip :
  tracker_wf t →
  (isLocalMac mac t = true ↔ mac ≠ "" ∧ ∃ name i, interfaces t !! name = Some i ∧ if_mac i = mac) ∧
  (isLocalIp ip t = true ↔ ip ≠ "" ∧ ∃ name i cidr, interfaces t !! name = Some i ∧
     cidr ∈ if_ipv4 i ∪ if_ipv6 i ∧ extractIpFromCidr cidr = ip).
Proof.
  intros [[[_ Hm _] [_ Hi _]] _]. unfold isLocalMac, isLocalIp. rewrite !bool_decide_eq_true.
  split; [rewrite Hm; apply mac_count_pos | rewrite Hi; apply ip_count_pos].
Qed.

(** ** Properties *)


(** Two interfaces share the MAC; one of them is removed. *)
Definition link_obs (name mac : string) (ev : ObservationEvent) : LinkObservation :=
  mkLinkObservation (mkBase KLink 0) 1 name mac true true "up" None ev.

Definition addr_obs (name cidr : string) (ev : ObservationEvent) : AddressObservation :=
  mkAddressObservation (mkBase KAddress 0) name ev AF_INET cidr.

Definition witness_tracker : LocalStateTracker :=
  (tracker_onLinkObservation (link_obs "eth0" "m" EvRemoved)
    (tracker_onLinkObservation (link_obs "eth1" "m" EvPresent)
      (tracker_onAddressObservation (addr_obs "eth1" "10.0.0.1/24" EvPresent)
        (tracker_onLinkObservation (link_obs "eth0" "m" EvPresent) default_tracker).2).2).2).2.

Lemma witness_tracker_reachable : rtc tracker_step default_tracker witness_tracker.
Proof.
  unfold witness_tracker.
  eapply rtc_l; [by apply (step_link (link_obs "eth0" "m" EvPresent))|].
  eapply rtc_l; [by apply (step_address (addr_obs "eth1" "10.0.0.1/24" EvPresent))|].
  eapply rtc_l; [by apply (step_link (link_obs "eth1" "m" EvPresent))|].
  by apply rtc_once, (step_link (link_obs "eth0" "m" EvRemoved)).
Qed.


(** The empty interface name defeats the [isNew] test of [onLinkObservation]: a
    second observation of the same MAC counts it twice, and removing the
    interface leaves the MAC local for ever. *)
Lemma empty_ifname_leaks_mac :
  let t := (tracker_onLinkObservation (link_obs "" "m" EvRemoved)
    (tracker_onLinkObservation (link_obs "" "m" EvPresent)
      (tracker_onLinkObservation (link_obs "" "m" EvPresent) default_tracker).2).2).2 in
  interfaces t = ∅ ∧ isLocalMac "m" t = true.
Proof. split; vm_compute; reflexivity. Qed.
