(* ===== verification/Filter.v ===== *)
(** [core/engine/HardFilter.cpp], [core/policy/DefaultInterfacePolicy.cpp] and
    [core/classifier/]: which observations become evidence, and how a candidate
    with given evidence is classified.

    [inet_pton] is a C library call and enters as a parameter; [strtol], a
    function of the C++ standard library, is written out for base 16. *)

From S2P Require Import Prelude Contract Observation.

(** * [core/public/IInterfacePolicy.h], [ICandidateClassifier.h]: the two
    interfaces the engine is configured with, as records of operations *)

Record IInterfacePolicy := mkPolicy {
  includeInLocalState : string → bool;
  allowRemoteNeighborEvidence : string → bool;
  allowRemoteFdbEvidence : string → bool;
  allowLldpEvidence : string → bool
}.

Record ICandidateClassifier := mkClassifier {
  classify : RemoteCandidate → CandidateClassification;
  classifier_name : string
}.

(** What [ICandidateClassifier.h] requires of the bundled classifiers. *)
Class BundledClassifier (cl : ICandidateClassifier) : Prop :=
  lldp_is_topology_peer c : c_seenInLldp c = true → classify cl c = TopologyPeer.

(** A classifier that looks at the evidence only: two candidates with the same
    evidence get the same class, whatever their times, status and old class. *)
Definition same_evidence (c d : RemoteCandidate) : Prop :=
  c_seenInFdb c = c_seenInFdb d ∧ c_seenInNeigh c = c_seenInNeigh d ∧
  c_seenInLldp c = c_seenInLldp d ∧ c_ipv4 c = c_ipv4 d ∧ c_ipv6 c = c_ipv6 d.

Class EvidenceClassifier (cl : ICandidateClassifier) : Prop :=
  classify_same_evidence : Proper (same_evidence ==> eq) (classify cl).

(** * [core/public/ClassifierConfig.h] and [ModelConfig.h] *)

Record ScoringWeights := mkWeights {
  sw_unicastMac : Z; sw_ipv4 : Z; sw_ipv6 : Z; sw_neighbor : Z;
  sw_fdb : Z; sw_lldp : Z; sw_temporalBonus : Z; sw_agingPenalty : Z
}.
Definition default_weights : ScoringWeights := mkWeights 20 15 10 15 25 40 10 (-15).

Record ScoringThresholds := mkThresholds { st_probable : Z; st_confirmed : Z; st_topology : Z }.
Definition default_thresholds : ScoringThresholds := mkThresholds 25 50 80.

Inductive ClassifierKind := RuleBased | Scoring.

Record ClassifierConfig := mkClassifierConfig {
  cc_kind : ClassifierKind;
  cc_weights : ScoringWeights;
  cc_thresholds : ScoringThresholds
}.
Definition default_classifier_config : ClassifierConfig :=
  mkClassifierConfig RuleBased default_weights default_thresholds.

(** The durations are in the unit of [time_point]. [emitDeviceIfIpOnly] is read
    by no code. *)
Record ModelConfig := mkModelConfig {
  skipNullMac : bool;
  skipLoopbackInterface : bool;
  skipMulticastIPv4 : bool;
  skipMulticastIPv6 : bool;
  skipMulticastMac : bool;
  skipIeeeReservedMac : bool;
  emitDeviceIfIpOnly : bool;
  candidateAgeout : Z;
  candidateExpire : Z;
  interfacePolicy : option IInterfacePolicy;
  classifierConfig : ClassifierConfig
}.
Definition seconds (n : Z) : Z := (n * 10 ^ 9)%Z.
Definition default_model_config : ModelConfig :=
  mkModelConfig true true true true true true false (seconds 60) (seconds 300) None
    default_classifier_config.

(** * [DefaultInterfacePolicy.cpp] *)

Definition isExcluded (ifname : string) : bool :=
  if decide (ifname = "lo") then true
  else if starts_with "can" ifname then true
  else if starts_with "sit" ifname then true
  else if starts_with "tun" ifname then true
  else if starts_with "tap" ifname then true
  else if starts_with "veth" ifname then true
  else if starts_with "docker" ifname then true
  else false.

Definition default_allowLldpEvidence (ifname : string) : bool :=
  if isExcluded ifname then false
  else if starts_with "br-" ifname then false
  else true.

Definition DefaultInterfacePolicy : IInterfacePolicy :=
  mkPolicy (λ n, negb (isExcluded n)) (λ n, negb (isExcluded n)) (λ n, negb (isExcluded n))
    default_allowLldpEvidence.

(** * [strtol(s, &end, 16)]

    The value and the number of characters consumed: leading white space, an
    optional sign, an optional [0x] that a hex digit follows, and hex digits;
    nothing is consumed when there is no digit. The saturation to [LONG_MAX]
    is left out, since the only caller converts two characters. *)

Definition isspace (c : Ascii.ascii) : bool :=
  let n := Ascii.nat_of_ascii c in ((9 <=? n) && (n <=? 13)) || (n =? 32).

Definition xdigit_val (c : Ascii.ascii) : Z :=
  let n := Z.of_nat (Ascii.nat_of_ascii c) in
  (if n <=? 57 then n - 48 else if n <=? 70 then n - 55 else n - 87)%Z.

Fixpoint strtol_digits (s : string) (acc : Z) (used : nat) : Z * nat :=
  match s with
  | String c s => if isxdigit c then strtol_digits s (16 * acc + xdigit_val c)%Z (S used)
                  else (acc, used)
  | EmptyString => (acc, used)
  end.

Definition strtol_body (s : string) (used : nat) : option (Z * nat) :=
  let digits s used :=
    match s with
    | String c _ => if isxdigit c then Some (strtol_digits s 0 used) else None
    | EmptyString => None
    end in
  match s with
  | String "0" (String x s') =>
      if bool_decide (x = "x"%char ∨ x = "X"%char)
      then match digits s' (used + 2) with Some r => Some r | None => digits s used end
      else digits s used
  | _ => digits s used
  end.

Fixpoint strtol16_from (s : string) (used : nat) : Z * nat :=
  match s with
  | String c s' =>
      if isspace c then strtol16_from s' (S used)
      else if bool_decide (c = "-"%char)
      then match strtol_body s' (S used) with Some (v, n) => (- v, n)%Z | None => (0%Z, O) end
      else if bool_decide (c = "+"%char) then default (0%Z, O) (strtol_body s' (S used))
      else default (0%Z, O) (strtol_body s used)
  | EmptyString => (0%Z, O)
  end.
Definition strtol16 (s : string) : Z * nat := strtol16_from s 0.

(** * [HardFilter.cpp] *)

Definition isNullMac (mac : string) : bool := bool_decide (mac = "00:00:00:00:00:00").

(** [char hexPair[3] = {mac[0], mac[1], '\0'}], read as a C string. *)
Definition isMulticastMac (mac : string) : bool :=
  match mac with
  | String a (String b _) =>
      let '(firstOctet, used) := strtol16 (c_str (String a (String b EmptyString))) in
      if decide (used = 2) then bool_decide (Z.land firstOctet 1 ≠ 0%Z) else false
  | _ => false
  end.

Definition isIeeeReservedMac (mac : string) : bool := starts_with "01:80:c2" mac.
Definition isMulticastIPv6 (ip : string) : bool := starts_with "ff" ip.

(** [inet_pton(AF_INET, s, &addr)] as the address in host byte order
    ([ntohl(addr.s_addr)]), [None] when the call does not return 1. *)
Class InetPton := inet_pton4 : string → option Z.

Section filter.
Context `{InetPton}.

Definition isMulticastIPv4 (ip : string) : bool :=
  match inet_pton4 (c_str ip) with
  | Some n => ((0xE0000000 <=? n) && (n <=? 0xEFFFFFFF))%Z
  | None => false
  end.

Definition passes_neighbor (config_ : ModelConfig) (obs : NeighborObservation)
    (isLocalMac isLocalIp : bool) : bool :=
  if skipNullMac config_ && isNullMac (no_mac obs) then false
  else if skipLoopbackInterface config_ && bool_decide (no_ifname obs = "lo") then false
  else if skipMulticastIPv4 config_ && isMulticastIPv4 (no_ip obs) then false
  else if skipMulticastIPv6 config_ && isMulticastIPv6 (no_ip obs) then false
  else if skipMulticastMac config_ && isMulticastMac (no_mac obs) then false
  else if skipIeeeReservedMac config_ && isIeeeReservedMac (no_mac obs) then false
  else if isLocalMac then false
  else if isLocalIp then false
  else true.

Definition passes_fdb (config_ : ModelConfig) (obs : FdbObservation) (isLocalMac : bool) : bool :=
  if skipNullMac config_ && isNullMac (fo_mac obs) then false
  else if skipMulticastMac config_ && isMulticastMac (fo_mac obs) then false
  else if skipIeeeReservedMac config_ && isIeeeReservedMac (fo_mac obs) then false
  else if isLocalMac then false
  else if bool_decide (fo_entryKind obs = Local ∨ fo_entryKind obs = ControlPlane) then false
  else true.
End filter.

(** * The classifiers *)

Definition RuleBased_classify (c : RemoteCandidate) : CandidateClassification :=
  if c_seenInLldp c then TopologyPeer
  else if c_seenInFdb c && negb (bool_decide (c_ipv4 c = ∅)) then RemoteEndpoint
  else if c_seenInFdb c && negb (bool_decide (c_ipv6 c = ∅)) then RemoteEndpoint
  else if c_seenInFdb c then RemoteEndpoint
  else if (negb (bool_decide (c_ipv4 c = ∅)) || negb (bool_decide (c_ipv6 c = ∅))) && c_seenInNeigh c
  then RemoteEndpoint
  else if c_seenInNeigh c then WeakCandidate
  else Unknown.

Definition RuleBasedClassifier : ICandidateClassifier := mkClassifier RuleBased_classify "rule-based".

Definition computeScore (weights_ : ScoringWeights) (c : RemoteCandidate) : Z :=
  let score := 0%Z in
  let score := (if c_seenInFdb c then score + sw_fdb weights_ else score)%Z in
  let score := (if c_seenInNeigh c then score + sw_neighbor weights_ else score)%Z in
  let score := (if c_seenInLldp c then score + sw_lldp weights_ else score)%Z in
  let score := (if negb (bool_decide (c_ipv4 c = ∅)) then score + sw_ipv4 weights_ else score)%Z in
  let score := (if negb (bool_decide (c_ipv6 c = ∅)) then score + sw_ipv6 weights_ else score)%Z in
  score.

Definition scoreToClass (th : ScoringThresholds) (score : Z) : CandidateClassification :=
  if (st_topology th <=? score)%Z then TopologyPeer
  else if (st_confirmed th <=? score)%Z then RemoteEndpoint
  else if (st_probable th <=? score)%Z then ProbableEndpoint
  else WeakCandidate.

Definition Scoring_classify (weights_ : ScoringWeights) (th : ScoringThresholds) (c : RemoteCandidate)
    : CandidateClassification :=
  if c_seenInLldp c then TopologyPeer else scoreToClass th (computeScore weights_ c).

Definition ScoringClassifier (weights_ : ScoringWeights) (th : ScoringThresholds)
    : ICandidateClassifier :=
  mkClassifier (Scoring_classify weights_ th) "scoring".

Definition createClassifier (config : ClassifierConfig) : ICandidateClassifier :=
  match cc_kind config with
  | Scoring => ScoringClassifier (cc_weights config) (cc_thresholds config)
  | RuleBased => RuleBasedClassifier
  end.

(** * Instances: the bundled classifiers satisfy both contracts *)

#[export] Instance RuleBased_bundled : BundledClassifier RuleBasedClassifier.
Proof. intros c Hc. cbn. unfold RuleBased_classify. by rewrite Hc. Qed.

#[export] Instance Scoring_bundled w th : BundledClassifier (ScoringClassifier w th).
Proof. intros c Hc. cbn. unfold Scoring_classify. by rewrite Hc. Qed.

#[export] Instance RuleBased_evidence : EvidenceClassifier RuleBasedClassifier.
Proof.
  intros c d (H1 & H2 & H3 & H4 & H5). cbn. unfold RuleBased_classify. by rewrite H1, H2, H3, H4, H5.
Qed.

#[export] Instance Scoring_evidence w th : EvidenceClassifier (ScoringClassifier w th).
Proof.
  intros c d (H1 & H2 & H3 & H4 & H5). cbn. unfold Scoring_classify, computeScore.
  by rewrite H1, H2, H3, H4, H5.
Qed.

#[export] Instance createClassifier_bundled config : BundledClassifier (createClassifier config).
Proof. unfold createClassifier. destruct (cc_kind config); apply _. Qed.
#[export] Instance createClassifier_evidence config : EvidenceClassifier (createClassifier config).
Proof. unfold createClassifier. destruct (cc_kind config); apply _. Qed.

(** * Lemmas *)

Lemma xdigit_not_special c :
  isxdigit c = true → isspace c = false ∧ c ≠ "-"%char ∧ c ≠ "+"%char ∧ c ≠ "x"%char ∧ c ≠ "X"%char ∧ c ≠ Ascii.zero.
Proof.
  destruct c as [[] [] [] [] [] [] [] []]; vm_compute; intros H; try discriminate H;
    split_and!; discriminate || reflexivity.
Qed.

Lemma strtol_body_two a b :
  isxdigit a = true → isxdigit b = true →
  strtol_body (String a (String b EmptyString)) 0 = Some ((16 * xdigit_val a + xdigit_val b)%Z, 2).
Proof.
  intros Ha Hb. pose proof (xdigit_not_special b Hb) as (_ & _ & _ & Hx & HX & _).
  assert (Hd : strtol_digits (String a (String b "")) 0 0 = ((16 * xdigit_val a + xdigit_val b)%Z, 2)).
  { cbn. by rewrite Ha, Hb. }
  unfold strtol_body. rewrite (bool_decide_eq_false_2 (b = "x"%char ∨ b = "X"%char)) by naive_solver.
  rewrite Ha, Hd. by destruct a as [[] [] [] [] [] [] [] []].
Qed.

(** On two hex digits [strtol] reads the octet they write. *)
Lemma strtol16_two a b :
  isxdigit a = true → isxdigit b = true →
  strtol16 (String a (String b EmptyString)) = ((16 * xdigit_val a + xdigit_val b)%Z, 2).
Proof.
  intros Ha Hb. pose proof (xdigit_not_special a Ha) as (Hs & Hm & Hp & _).
  unfold strtol16. cbn -[strtol_body]. rewrite Hs, !bool_decide_eq_false_2 by done.
  by rewrite strtol_body_two.
Qed.

Lemma isMacLike_first_octet mac :
  isMacLike mac = true →
  ∃ a b s, mac = String a (String b s) ∧ isxdigit a = true ∧ isxdigit b = true.
Proof.
  unfold isMacLike. case_decide as Hl; [done|].
  destruct mac as [|a [|b s]]; [done..|]. cbn.
  intros [Ha [Hb _]%andb_true_iff]%andb_true_iff. eauto 10.
Qed.

(** On a MAC the test is the I/G bit of the first octet. *)
Lemma isMulticastMac_ig a b s :
  isxdigit a = true → isxdigit b = true →
  isMulticastMac (String a (String b s)) = Z.odd (xdigit_val b).
Proof.
  intros Ha Hb. pose proof (xdigit_not_special a Ha) as (_ & _ & _ & _ & _ & Ha0).
  pose proof (xdigit_not_special b Hb) as (_ & _ & _ & _ & _ & Hb0).
  unfold isMulticastMac. cbn [c_str]. rewrite !decide_False by done. rewrite strtol16_two by done.
  rewrite decide_True by done. change 1%Z with (Z.ones 1). rewrite Z.land_ones by lia.
  change (2 ^ 1)%Z with 2%Z. rewrite Zmod_odd, Z.odd_add, Z.odd_mul. cbn [Z.odd andb xorb].
  by destruct (Z.odd (xdigit_val b)), (Z.odd (xdigit_val a)).
Qed.

Lemma computeScore_default_bound c :
  c_seenInLldp c = false → (0 ≤ computeScore default_weights c ≤ 65)%Z.
Proof.
  intros Hl. unfold computeScore. rewrite Hl. cbn.
  destruct (c_seenInFdb c), (c_seenInNeigh c), (negb (bool_decide (c_ipv4 c = ∅))),
    (negb (bool_decide (c_ipv6 c = ∅))); lia.
Qed.

(** * Properties *)

(** C22: with the default configuration the hard filter is sound: a neighbour
    observation that passes, with a well-formed MAC, has a unicast MAC (even
    first octet) other than the null one, is not on the loopback, has no
    multicast IP, and neither its MAC nor its IP is local; an FDB observation
    that passes has such a MAC and is not a local or control-plane entry. *)
Theorem hard_filter_sound `{InetPton} nobs fobs mac_local ip_local :
  (isMacLike (no_mac nobs) = true →
   passes_neighbor default_model_config nobs mac_local ip_local = true →
   mac_local = false ∧ ip_local = false ∧ no_ifname nobs ≠ "lo" ∧
   no_mac nobs ≠ "00:00:00:00:00:00" ∧
   (∃ a b s, no_mac nobs = String a (String b s) ∧ Z.even (16 * xdigit_val a + xdigit_val b) = true) ∧
   (∀ n, inet_pton4 (c_str (no_ip nobs)) = Some n → (n < 224 * 2 ^ 24 ∨ 240 * 2 ^ 24 <= n)%Z) ∧
   starts_with "ff" (no_ip nobs) = false) ∧
  (isMacLike (fo_mac fobs) = true →
   passes_fdb default_model_config fobs mac_local = true →
   mac_local = false ∧ fo_mac fobs ≠ "00:00:00:00:00:00" ∧
   fo_entryKind fobs ≠ Local ∧ fo_entryKind fobs ≠ ControlPlane ∧
   (∃ a b s, fo_mac fobs = String a (String b s) ∧ Z.even (16 * xdigit_val a + xdigit_val b) = true)).
Proof.
  assert (Heven : ∀ mac, isMacLike mac = true → isMulticastMac mac = false →
    ∃ a b s, mac = String a (String b s) ∧ Z.even (16 * xdigit_val a + xdigit_val b) = true).
  { intros mac (a & b & s & -> & Ha & Hb)%isMacLike_first_octet. rewrite isMulticastMac_ig by done.
    intros Ho. exists a, b, s. split; [done|].
    rewrite Z.even_add, Z.even_mul. cbn. by rewrite <- Z.negb_odd, Ho. }
  split; intros Hm; unfold passes_neighbor, passes_fdb; cbn [skipNullMac skipLoopbackInterface
    skipMulticastIPv4 skipMulticastIPv6 skipMulticastMac skipIeeeReservedMac default_model_config andb];
    repeat (case_match; try done); intros _.
  - unfold isNullMac in *. repeat match goal with
      | H : bool_decide _ = false |- _ => apply bool_decide_eq_false in H end.
    split_and!; try done; [by apply Heven|].
    intros n Hn. match goal with H : isMulticastIPv4 _ = false |- _ => unfold isMulticastIPv4 in H;
      rewrite Hn in H; apply andb_false_iff in H as [H%Z.leb_gt|H%Z.leb_gt] end; lia.
  - unfold isNullMac in *. repeat match goal with
      | H : bool_decide _ = false |- _ => apply bool_decide_eq_false in H end.
    split_and!; try done; [tauto..|by apply Heven].
Qed.

Lemma hard_filter_sound_witness :
  let pton : InetPton := λ s, if decide (s = "10.0.0.7") then Some 167772167%Z else None in
  let n := mkNeighborObservation (mkBase KNeighbor 0) "eth0" EvPresent AF_INET "02:00:00:00:00:07"
             "10.0.0.7" Reachable in
  let f := mkFdbObservation (mkBase KFdb 0) "eth0" EvPresent "02:00:00:00:00:07" Dynamic in
  passes_neighbor default_model_config n false false = true ∧ no_ifname n ≠ "lo" ∧
  fo_entryKind f ≠ Local.
Proof.
  intros pton n f. split; [vm_compute; reflexivity|].
  destruct (hard_filter_sound n f false false) as [Hn Hf].
  destruct Hn as (_ & _ & Hlo & _); [vm_compute; reflexivity..|].
  destruct Hf as (_ & _ & Hk & _); [vm_compute; reflexivity..|]. done.
Defined.

(** C39: the two bundled classifiers agree on LLDP evidence, and with the default
    weights and thresholds nothing else makes a candidate a topology peer: the
    class is [TopologyPeer] exactly when the candidate is seen in LLDP. *)
Theorem topology_peer_iff_lldp kind c :
  classify (createClassifier (mkClassifierConfig kind default_weights default_thresholds)) c
    = TopologyPeer ↔ c_seenInLldp c = true.
Proof.
  split; [|apply lldp_is_topology_peer].
  intros Hc. destruct (c_seenInLldp c) eqn:Hl; [done|].
  destruct kind; cbn in Hc; unfold RuleBased_classify, Scoring_classify, scoreToClass in Hc;
    rewrite Hl in Hc.
  - by repeat case_match.
  - pose proof (computeScore_default_bound c Hl). cbn in Hc.
    destruct (Z.leb_spec 80 (computeScore default_weights c)); [lia|]. by repeat case_match.
Qed.
