(* ===== verification/Engine.v ===== *)
(** [core/engine/ObservationModelEngine.{h,cpp}]: the observation model. It
    owns the local state and the remote candidates; every handler returns the
    new state and the events it delivers to the sink.

    Each handler holds [mutex_] while it changes the state and delivers the
    events it collected after releasing it, so a handler is one step here.
    [steady_clock::now()] readings are arguments. *)

From S2P Require Import Prelude Contract Observation LocalState Filter.

(** * State *)

Inductive ModelPhase := Initializing | Live.

#[export] Instance ModelPhase_eq_dec : EqDecision ModelPhase.
Proof. solve_decision. Defined.

(** [sink_] is the identity of the registered sink. *)
Record ObservationModelEngine := mkEngine {
  config_ : ModelConfig;
  sink_ : option nat;
  phase_ : ModelPhase;
  interfacePolicy_ : IInterfacePolicy;
  classifier_ : ICandidateClassifier;
  localState_ : LocalStateTracker;
  candidates_ : gmap string RemoteCandidate
}.

Definition eta_engine (e : ObservationModelEngine) : ObservationModelEngine :=
  mkEngine (config_ e) (sink_ e) (phase_ e) (interfacePolicy_ e) (classifier_ e) (localState_ e)
    (candidates_ e).
#[export] Instance set_sink_ : Setter sink_ := ltac:(mk_setter eta_engine sink_).
#[export] Instance set_phase_ : Setter phase_ := ltac:(mk_setter eta_engine phase_).
#[export] Instance set_interfacePolicy_ : Setter interfacePolicy_ :=
  ltac:(mk_setter eta_engine interfacePolicy_).
#[export] Instance set_classifier_ : Setter classifier_ := ltac:(mk_setter eta_engine classifier_).
#[export] Instance set_localState_ : Setter localState_ := ltac:(mk_setter eta_engine localState_).
#[export] Instance set_candidates_ : Setter candidates_ := ltac:(mk_setter eta_engine candidates_).

Definition engine_init (config : ModelConfig) : ObservationModelEngine :=
  mkEngine config None Initializing (default DefaultInterfacePolicy (interfacePolicy config))
    (createClassifier (classifierConfig config)) default_tracker ∅.

(** * Pending events *)

Record PendingEvents := mkPending { changed : gset string; removed : gset string }.

Definition no_pending : PendingEvents := mkPending ∅ ∅.

Definition pending_changed (mac : string) (p : PendingEvents) : PendingEvents :=
  mkPending ({[mac]} ∪ changed p) (removed p).
Definition pending_removed (mac : string) (p : PendingEvents) : PendingEvents :=
  mkPending (changed p) ({[mac]} ∪ removed p).

Definition record (p : PendingEvents) (mac : string) (wasPublishable nowPublishable : bool)
    : PendingEvents :=
  if nowPublishable then pending_changed mac p
  else if wasPublishable then pending_removed mac p
  else p.

Definition recordErased (p : PendingEvents) (mac : string) (wasPublishable : bool) : PendingEvents :=
  if wasPublishable then pending_removed mac p else p.

(** The calls of [onModelEvent], in order, with the sink called. *)
Abbreviation Deliveries := (list (nat * ModelEvent)).

Definition deliverPending (sink : option nat) (now : time_point) (p : PendingEvents) : Deliveries :=
  match sink with
  | None => []
  | Some s =>
      ((λ mac, (s, mkModelEvent CandidateUpdated now None (Some mac))) <$> set_iter (changed p)) ++
      ((λ mac, (s, mkModelEvent CandidateRemoved now None (Some mac))) <$> set_iter (removed p))
  end.

Definition deliver_event (sink : option nat) (ev : ModelEvent) : Deliveries :=
  match sink with None => [] | Some s => [(s, ev)] end.

(** * Internals *)

Definition isConfirmedWorthy (cls : CandidateClassification) : bool :=
  match cls with RemoteEndpoint | GatewayLike | TopologyPeer => true | _ => false end.

Definition hasNoEvidence (c : RemoteCandidate) : bool :=
  negb (c_seenInNeigh c) && negb (c_seenInFdb c) && negb (c_seenInLldp c) &&
  bool_decide (c_ipv4 c = ∅) && bool_decide (c_ipv6 c = ∅) && bool_decide (c_bridgePort c = None).

Definition isPublishable (c : RemoteCandidate) : bool :=
  if bool_decide (c_status c ≠ Confirmed ∧ c_status c ≠ Aged) then false
  else match c_classification c with
       | Artifact | LocalSelf | Unknown => false
       | _ => true
       end.

Definition updateClassification (e : ObservationModelEngine) (c : RemoteCandidate) : RemoteCandidate :=
  c <| c_classification := classify (classifier_ e) c |>.

Definition reconcileStatusLocked (e : ObservationModelEngine) (event : ObservationEvent)
    (c : RemoteCandidate) : RemoteCandidate :=
  let c :=
    match event with
    | EvPresent =>
        if bool_decide (c_status c = Aged ∨ c_status c = Expired) then c <| c_status := Confirmed |>
        else if bool_decide (c_status c = Removed) then c <| c_status := Provisional |>
        else c
    | EvRemoved => c
    end in
  match phase_ e with
  | Initializing => if bool_decide (c_status c ≠ Removed) then c <| c_status := Provisional |> else c
  | Live =>
      if bool_decide (c_status c = Provisional) && isConfirmedWorthy (c_classification c)
      then c <| c_status := Confirmed |> else c
  end.

(** The candidate found, or the one inserted; [now] is the clock reading of an insertion. *)
Definition getOrCreateCandidate (e : ObservationModelEngine) (now : time_point) (mac : string)
    : RemoteCandidate :=
  match candidates_ e !! mac with
  | Some c => c
  | None => default_candidate <| c_mac := mac |> <| c_firstSeen := now |>
  end.

Definition store_candidate (mac : string) (c : RemoteCandidate) (e : ObservationModelEngine)
    : ObservationModelEngine :=
  e <| candidates_ := <[mac := c]> (candidates_ e) |>.

Definition erase_candidate (mac : string) (e : ObservationModelEngine) : ObservationModelEngine :=
  e <| candidates_ := delete mac (candidates_ e) |>.

(** The common end of the three evidence handlers: erase the candidate when no
    evidence is left, else reclassify it and move its status. *)
Definition settle_candidate (e : ObservationModelEngine) (mac : string) (wasPublishable : bool)
    (event : ObservationEvent) (c : RemoteCandidate) : ObservationModelEngine * PendingEvents :=
  if hasNoEvidence c then (erase_candidate mac e, recordErased no_pending mac wasPublishable)
  else
    let c := updateClassification e c in
    let c := reconcileStatusLocked e event c in
    (store_candidate mac c e, record no_pending mac wasPublishable (isPublishable c)).

Definition mark_local_self (c : RemoteCandidate) : RemoteCandidate :=
  c <| c_classification := LocalSelf |> <| c_status := Removed |>.

Definition reconcileByKey (mac : string) (e : ObservationModelEngine) : ObservationModelEngine :=
  match candidates_ e !! mac with
  | Some c => if isLocalMac mac (localState_ e) then store_candidate mac (mark_local_self c) e else e
  | None => e
  end.

Definition reconcileAffectedByLocalMac (mac : string) (e : ObservationModelEngine)
    : ObservationModelEngine := reconcileByKey mac e.

Definition has_ip (ip : string) (c : RemoteCandidate) : bool :=
  bool_decide (ip ∈ c_ipv4 c) || bool_decide (ip ∈ c_ipv6 c).

Definition reconcileAffectedByLocalIp (ip : string) (e : ObservationModelEngine)
    : ObservationModelEngine :=
  e <| candidates_ := (λ c, if has_ip ip c then mark_local_self c else c) <$> candidates_ e |>.

(** The keys whose candidates satisfy [f]; the [removed] set a loop over
    [candidates_] collects. *)
Definition keys_where (f : RemoteCandidate → bool) (m : gmap string RemoteCandidate) : gset string :=
  dom (filter (λ p, f p.2 = true) m).

(** * Handlers *)

Definition onLinkObservation (obs : LinkObservation) (now : time_point) (e : ObservationModelEngine)
    : ObservationModelEngine * Deliveries :=
  if negb (includeInLocalState (interfacePolicy_ e) (lo_ifname obs)) then (e, [])
  else
    let '(macChanged, ls) := tracker_onLinkObservation obs (localState_ e) in
    let e := e <| localState_ := ls |> in
    let event :=
      mkModelEvent (if bool_decide (lo_event obs = EvRemoved)
                    then LocalInterfaceRemoved else LocalInterfaceChanged)
        (observedAt (lo_base obs)) (Some (lo_ifname obs)) None in
    let '(e, pending) :=
      if macChanged : bool then
        let wasPublishable :=
          match candidates_ e !! lo_mac obs with Some c => isPublishable c | None => false end in
        let e := reconcileAffectedByLocalMac (lo_mac obs) e in
        (e, if wasPublishable : bool then pending_removed (lo_mac obs) no_pending else no_pending)
      else (e, no_pending) in
    (e, deliver_event (sink_ e) event ++ deliverPending (sink_ e) now pending).

Definition onAddressObservation (obs : AddressObservation) (now : time_point)
    (e : ObservationModelEngine) : ObservationModelEngine * Deliveries :=
  if negb (includeInLocalState (interfacePolicy_ e) (ao_ifname obs)) then (e, [])
  else
    let e := e <| localState_ := (tracker_onAddressObservation obs (localState_ e)).2 |> in
    let ip := extractIpFromCidr (ao_cidr obs) in
    if str_empty ip then (e, [])
    else
      let event := mkModelEvent LocalAddressChanged (observedAt (ao_base obs)) (Some (ao_ifname obs)) None in
      let '(e, pending) :=
        match ao_event obs with
        | EvPresent =>
            let gone := keys_where (λ c, has_ip ip c && isPublishable c) (candidates_ e) in
            (reconcileAffectedByLocalIp ip e, mkPending ∅ gone)
        | EvRemoved => (e, no_pending)
        end in
      (e, deliver_event (sink_ e) event ++ deliverPending (sink_ e) now pending).

(** The evidence update of [onNeighborObservation], between the creation of the
    candidate and [hasNoEvidence]. *)
Definition neighbor_evidence (obs : NeighborObservation) (c : RemoteCandidate) : RemoteCandidate :=
  let nkey := mkNeighborKey (no_ifname obs) (no_family obs) (no_ip obs) in
  let c :=
    match no_event obs with
    | EvPresent =>
        let c := c <| c_neighborEvidence := {[nkey]} ∪ c_neighborEvidence c |>
                   <| c_neighborIfaces := {[no_ifname obs]} ∪ c_neighborIfaces c |>
                   <| c_lastSeen := observedAt (no_base obs) |> in
        if (no_family obs =? AF_INET)%Z
        then c <| c_ipv4 := {[no_ip obs]} ∪ c_ipv4 c |>
        else c <| c_ipv6 := {[no_ip obs]} ∪ c_ipv6 c |>
    | EvRemoved =>
        let c := c <| c_neighborEvidence := c_neighborEvidence c ∖ {[nkey]} |>
                   <| c_neighborIfaces := c_neighborIfaces c ∖ {[no_ifname obs]} |> in
        if (no_family obs =? AF_INET)%Z
        then c <| c_ipv4 := c_ipv4 c ∖ {[no_ip obs]} |>
        else c <| c_ipv6 := c_ipv6 c ∖ {[no_ip obs]} |>
    end in
  c <| c_seenInNeigh := bool_decide (c_neighborEvidence c ≠ ∅) |>.

Definition fdb_evidence (obs : FdbObservation) (c : RemoteCandidate) : RemoteCandidate :=
  let fkey := mkFdbKey (fo_portIfname obs) (fo_mac obs) in
  let c :=
    match fo_event obs with
    | EvPresent =>
        c <| c_fdbEvidence := {[fkey]} ∪ c_fdbEvidence c |>
          <| c_bridgePort := Some (fo_portIfname obs) |>
          <| c_lastSeen := observedAt (fo_base obs) |>
    | EvRemoved =>
        let c := c <| c_fdbEvidence := c_fdbEvidence c ∖ {[fkey]} |> in
        if bool_decide (c_bridgePort c = Some (fo_portIfname obs)) then c <| c_bridgePort := None |> else c
    end in
  c <| c_seenInFdb := bool_decide (c_fdbEvidence c ≠ ∅) |>.

Definition lldp_evidence (obs : LldpObservation) (c : RemoteCandidate) : RemoteCandidate :=
  match ll_event obs with
  | EvPresent =>
      c <| c_seenInLldp := true |>
        <| c_remoteChassisId := ll_remoteChassisId obs |>
        <| c_remotePortId := ll_remotePortId obs |>
        <| c_remoteSystemName := ll_remoteSystemName obs |>
        <| c_lastSeen := observedAt (ll_base obs) |>
        <| c_neighborIfaces := {[ll_localIfname obs]} ∪ c_neighborIfaces c |>
  | EvRemoved =>
      c <| c_seenInLldp := false |>
        <| c_remoteChassisId := None |>
        <| c_remotePortId := None |>
        <| c_remoteSystemName := None |>
        <| c_neighborIfaces := c_neighborIfaces c ∖ {[ll_localIfname obs]} |>
  end.

Section handlers.
Context `{InetPton}.

(** [t1]: the reading of a candidate creation; [t2]: that of [deliverPending]. *)
Definition onNeighborObservation (obs : NeighborObservation) (t1 t2 : time_point)
    (e : ObservationModelEngine) : ObservationModelEngine * Deliveries :=
  if negb (allowRemoteNeighborEvidence (interfacePolicy_ e) (no_ifname obs)) then (e, [])
  else if negb (passes_neighbor (config_ e) obs (isLocalMac (no_mac obs) (localState_ e))
                  (isLocalIp (no_ip obs) (localState_ e))) then (e, [])
  else
    let c := getOrCreateCandidate e t1 (no_mac obs) in
    let wasPublishable := isPublishable c in
    let '(e, pending) :=
      settle_candidate e (no_mac obs) wasPublishable (no_event obs) (neighbor_evidence obs c) in
    (e, deliverPending (sink_ e) t2 pending).

Definition onFdbObservation (obs : FdbObservation) (t1 t2 : time_point)
    (e : ObservationModelEngine) : ObservationModelEngine * Deliveries :=
  if negb (allowRemoteFdbEvidence (interfacePolicy_ e) (fo_portIfname obs)) then (e, [])
  else if negb (passes_fdb (config_ e) obs (isLocalMac (fo_mac obs) (localState_ e))) then (e, [])
  else
    let c := getOrCreateCandidate e t1 (fo_mac obs) in
    let wasPublishable := isPublishable c in
    let '(e, pending) :=
      settle_candidate e (fo_mac obs) wasPublishable (fo_event obs) (fdb_evidence obs c) in
    (e, deliverPending (sink_ e) t2 pending).

(** A keepalive is dropped unless it is a [Present] for a candidate that
    exists and is not [Removed]. *)
Definition keepalive_dropped (obs : LldpObservation) (found : option RemoteCandidate) : bool :=
  ll_keepalive obs &&
  (bool_decide (ll_event obs ≠ EvPresent) ||
   match found with None => true | Some c => bool_decide (c_status c = Removed) end).

Definition onLldpObservation (obs : LldpObservation) (t1 t2 : time_point)
    (e : ObservationModelEngine) : ObservationModelEngine * Deliveries :=
  if negb (allowLldpEvidence (interfacePolicy_ e) (ll_localIfname obs)) then (e, [])
  else
    let candidateKey := resolveLldpIdentity (ll_remoteChassisId obs) (ll_remotePortId obs) in
    if str_empty candidateKey then (e, [])
    else if keepalive_dropped obs (candidates_ e !! candidateKey) then (e, [])
    else
      let c := getOrCreateCandidate e t1 candidateKey in
      let wasPublishable := isPublishable c in
      let c := lldp_evidence obs c in
      let '(e, pending) :=
        if hasNoEvidence c then
          (erase_candidate candidateKey e, recordErased no_pending candidateKey wasPublishable)
        else if ll_keepalive obs then
          let oldStatus := c_status c in
          let oldClassification := c_classification c in
          let c := updateClassification e c in
          let c := if bool_decide (c_status c = Aged ∨ c_status c = Expired)
                   then c <| c_status := Confirmed |> else c in
          (store_candidate candidateKey c e,
           if bool_decide (c_status c ≠ oldStatus ∨ c_classification c ≠ oldClassification)
           then record no_pending candidateKey wasPublishable (isPublishable c) else no_pending)
        else settle_candidate e candidateKey wasPublishable (ll_event obs) c in
      (e, deliverPending (sink_ e) t2 pending).
End handlers.

(** * Queries *)

Definition localSnapshot (e : ObservationModelEngine) : LocalNetworkSnapshot := snapshot_ (localState_ e).

(** The order of [unordered_map] iteration is unspecified; the list is one order. *)
Definition remoteCandidates (e : ObservationModelEngine) : list RemoteCandidate :=
  filter (λ c, isPublishable c = true) (map_to_list (candidates_ e)).*2.

Definition findCandidateByMac (mac : string) (e : ObservationModelEngine) : option RemoteCandidate :=
  match candidates_ e !! mac with
  | Some c => if isPublishable c then Some c else None
  | None => None
  end.

(** * Aging and lifecycle *)

Definition age_candidate (cfg : ModelConfig) (now : time_point) (c : RemoteCandidate) : RemoteCandidate :=
  if bool_decide (c_status c = Removed ∨ c_status c = Provisional) then c
  else
    let elapsed := (now - c_lastSeen c)%Z in
    if (candidateExpire cfg <? elapsed)%Z then c <| c_status := Expired |>
    else if (candidateAgeout cfg <? elapsed)%Z then c <| c_status := Aged |>
    else c.

(** [pending.record] for the candidates whose status [age] changes. *)
Definition age_pending (cfg : ModelConfig) (now : time_point) (m : gmap string RemoteCandidate)
    : PendingEvents :=
  let moved c := bool_decide (c_status (age_candidate cfg now c) ≠ c_status c) in
  mkPending
    (keys_where (λ c, moved c && isPublishable (age_candidate cfg now c)) m)
    (keys_where (λ c, moved c && negb (isPublishable (age_candidate cfg now c)) && isPublishable c) m).

Definition age (now t2 : time_point) (e : ObservationModelEngine) : ObservationModelEngine * Deliveries :=
  let pending := age_pending (config_ e) now (candidates_ e) in
  (e <| candidates_ := age_candidate (config_ e) now <$> candidates_ e |>,
   deliverPending (sink_ e) t2 pending).

Definition restart_candidate (c : RemoteCandidate) : RemoteCandidate :=
  c <| c_neighborEvidence := ∅ |> <| c_fdbEvidence := ∅ |>
    <| c_seenInNeigh := false |> <| c_seenInFdb := false |> <| c_seenInLldp := false |>
    <| c_ipv4 := ∅ |> <| c_ipv6 := ∅ |>
    <| c_bridgePort := None |> <| c_neighborIfaces := ∅ |>
    <| c_remoteChassisId := None |> <| c_remotePortId := None |> <| c_remoteSystemName := None |>
    <| c_classification := Unknown |> <| c_status := Provisional |> <| c_score := default_score |>.

Definition prepareForRestart (t2 : time_point) (e : ObservationModelEngine)
    : ObservationModelEngine * Deliveries :=
  let pending := mkPending ∅ (keys_where isPublishable (candidates_ e)) in
  (e <| phase_ := Initializing |> <| localState_ := tracker_clear (localState_ e) |>
     <| candidates_ := restart_candidate <$> candidates_ e |>,
   deliverPending (sink_ e) t2 pending).

(** [None]: the candidate is erased. *)
Definition live_candidate (e : ObservationModelEngine) (c : RemoteCandidate) : option RemoteCandidate :=
  if bool_decide (c_status c ≠ Provisional) then Some c
  else
    let c := updateClassification e c in
    if isConfirmedWorthy (c_classification c) then Some (c <| c_status := Confirmed |>) else None.

Definition markLive (t2 : time_point) (e : ObservationModelEngine) : ObservationModelEngine * Deliveries :=
  let promoted c := bool_decide (c_status c = Provisional) && bool_decide (is_Some (live_candidate e c)) in
  let pending := mkPending (keys_where promoted (candidates_ e)) ∅ in
  (e <| phase_ := Live |> <| candidates_ := omap (live_candidate e) (candidates_ e) |>,
   deliverPending (sink_ e) t2 pending).

(** * Configuration at run time *)

Definition setEventSink (sink : option nat) (e : ObservationModelEngine) : ObservationModelEngine :=
  e <| sink_ := sink |>.

Definition setInterfacePolicy (policy : IInterfacePolicy) (e : ObservationModelEngine)
    : ObservationModelEngine := e <| interfacePolicy_ := policy |>.

Definition setClassifier (cl : ICandidateClassifier) (e : ObservationModelEngine)
    : ObservationModelEngine :=
  let e := e <| classifier_ := cl |> in
  e <| candidates_ := updateClassification e <$> candidates_ e |>.

(** * The engine as a transition system: one input per public operation *)

Inductive EngineInput :=
| ILink (obs : LinkObservation) (now : time_point)
| IAddress (obs : AddressObservation) (now : time_point)
| INeighbor (obs : NeighborObservation) (t1 t2 : time_point)
| IFdb (obs : FdbObservation) (t1 t2 : time_point)
| ILldp (obs : LldpObservation) (t1 t2 : time_point)
| IAge (now t2 : time_point)
| IRestart (t2 : time_point)
| IMarkLive (t2 : time_point)
| ISetSink (sink : option nat)
| ISetPolicy (policy : IInterfacePolicy)
| ISetClassifier (cl : ICandidateClassifier).

Definition engine_step `{InetPton} (i : EngineInput) (e : ObservationModelEngine)
    : ObservationModelEngine * Deliveries :=
  match i with
  | ILink obs now => onLinkObservation obs now e
  | IAddress obs now => onAddressObservation obs now e
  | INeighbor obs t1 t2 => onNeighborObservation obs t1 t2 e
  | IFdb obs t1 t2 => onFdbObservation obs t1 t2 e
  | ILldp obs t1 t2 => onLldpObservation obs t1 t2 e
  | IAge now t2 => age now t2 e
  | IRestart t2 => prepareForRestart t2 e
  | IMarkLive t2 => markLive t2 e
  | ISetSink sink => (setEventSink sink e, [])
  | ISetPolicy policy => (setInterfacePolicy policy e, [])
  | ISetClassifier cl => (setClassifier cl e, [])
  end.

(** A run: the final state and every delivery in order. *)
Fixpoint engine_run `{InetPton} (inputs : list EngineInput) (e : ObservationModelEngine)
    : ObservationModelEngine * Deliveries :=
  match inputs with
  | [] => (e, [])
  | i :: inputs =>
      let '(e, d) := engine_step i e in
      let '(e, d') := engine_run inputs e in (e, d ++ d')
  end.
