(* ===== verification/EngineProps.v ===== *)
(** Theorems about the observation model engine. The engine handles whole maps
    of candidates; the first part shows that it acts on each candidate key
    independently ([cand_step]), and the invariants, the tracking of the
    published set by events and the lifecycle properties follow per candidate. *)

From S2P Require Import Prelude Contract Observation LocalState Filter Engine.

(** * The engine restricted to one candidate key *)

Inductive CandidateEvent := CNone | CUpdated | CRemoved.

Definition record_one (was now : bool) : CandidateEvent :=
  if now then CUpdated else if was then CRemoved else CNone.

Definition erased_one (was : bool) : CandidateEvent := if was then CRemoved else CNone.

Definition create_one (now : time_point) (mac : string) (o : option RemoteCandidate) : RemoteCandidate :=
  default (default_candidate <| c_mac := mac |> <| c_firstSeen := now |>) o.

Definition settle_one (e : ObservationModelEngine) (was : bool) (event : ObservationEvent)
    (c : RemoteCandidate) : option RemoteCandidate * CandidateEvent :=
  if hasNoEvidence c then (None, erased_one was)
  else
    let c := reconcileStatusLocked e event (updateClassification e c) in
    (Some c, record_one was (isPublishable c)).

Definition keepalive_one (e : ObservationModelEngine) (was : bool) (c : RemoteCandidate)
    : option RemoteCandidate * CandidateEvent :=
  let c' := updateClassification e c in
  let c' := if bool_decide (c_status c' = Aged ∨ c_status c' = Expired)
            then c' <| c_status := Confirmed |> else c' in
  (Some c', if bool_decide (c_status c' ≠ c_status c ∨ c_classification c' ≠ c_classification c)
            then record_one was (isPublishable c') else CNone).

Definition lldp_one (e : ObservationModelEngine) (obs : LldpObservation) (was : bool)
    (c : RemoteCandidate) : option RemoteCandidate * CandidateEvent :=
  if hasNoEvidence c then (None, erased_one was)
  else if ll_keepalive obs then keepalive_one e was c
  else settle_one e was (ll_event obs) c.

Section pointwise.
Context `{InetPton}.
Implicit Types (e : ObservationModelEngine) (o : option RemoteCandidate).

(** The observation passes the guards and concerns the candidate [k]. *)
Definition concerns (i : EngineInput) (e : ObservationModelEngine) (k : string)
    (o : option RemoteCandidate) : bool :=
  match i with
  | ILink obs _ =>
      includeInLocalState (interfacePolicy_ e) (lo_ifname obs) &&
      (tracker_onLinkObservation obs (localState_ e)).1 && bool_decide (k = lo_mac obs)
  | IAddress obs _ =>
      includeInLocalState (interfacePolicy_ e) (ao_ifname obs) &&
      negb (str_empty (extractIpFromCidr (ao_cidr obs))) && bool_decide (ao_event obs = EvPresent)
  | INeighbor obs _ _ =>
      allowRemoteNeighborEvidence (interfacePolicy_ e) (no_ifname obs) &&
      passes_neighbor (config_ e) obs (isLocalMac (no_mac obs) (localState_ e))
                  (isLocalIp (no_ip obs) (localState_ e)) && bool_decide (k = no_mac obs)
  | IFdb obs _ _ =>
      allowRemoteFdbEvidence (interfacePolicy_ e) (fo_portIfname obs) &&
      passes_fdb (config_ e) obs (isLocalMac (fo_mac obs) (localState_ e)) &&
      bool_decide (k = fo_mac obs)
  | ILldp obs _ _ =>
      allowLldpEvidence (interfacePolicy_ e) (ll_localIfname obs) && negb (str_empty k) &&
      bool_decide (k = resolveLldpIdentity (ll_remoteChassisId obs) (ll_remotePortId obs)) &&
      negb (keepalive_dropped obs o)
  | IAge _ _ | IRestart _ | IMarkLive _ | ISetClassifier _ => true
  | ISetSink _ | ISetPolicy _ => false
  end.

(** What the step does to the candidate [k]: its new value, and its event. *)
Definition cand_step (i : EngineInput) (e : ObservationModelEngine) (k : string)
    (o : option RemoteCandidate) : option RemoteCandidate * CandidateEvent :=
  if negb (concerns i e k o) then (o, CNone)
  else
    match i with
    | ILink obs _ =>
        let ls := (tracker_onLinkObservation obs (localState_ e)).2 in
        ((λ c, if isLocalMac k ls then mark_local_self c else c) <$> o,
         erased_one (match o with Some c => isPublishable c | None => false end))
    | IAddress obs _ =>
        let ip := extractIpFromCidr (ao_cidr obs) in
        ((λ c, if has_ip ip c then mark_local_self c else c) <$> o,
         erased_one (match o with Some c => has_ip ip c && isPublishable c | None => false end))
    | INeighbor obs t1 _ =>
        let c := create_one t1 k o in
        settle_one e (isPublishable c) (no_event obs) (neighbor_evidence obs c)
    | IFdb obs t1 _ =>
        let c := create_one t1 k o in
        settle_one e (isPublishable c) (fo_event obs) (fdb_evidence obs c)
    | ILldp obs t1 _ =>
        let c := create_one t1 k o in
        lldp_one e obs (isPublishable c) (lldp_evidence obs c)
    | IAge now _ =>
        (age_candidate (config_ e) now <$> o,
         match o with
         | Some c =>
             let c' := age_candidate (config_ e) now c in
             if bool_decide (c_status c' = c_status c) then CNone
             else record_one (isPublishable c) (isPublishable c')
         | None => CNone
         end)
    | IRestart _ =>
        (restart_candidate <$> o,
         erased_one (match o with Some c => isPublishable c | None => false end))
    | IMarkLive _ =>
        (o ≫= live_candidate e,
         match o with
         | Some c => if bool_decide (c_status c = Provisional) && bool_decide (is_Some (live_candidate e c))
                     then CUpdated else CNone
         | None => CNone
         end)
    | ISetClassifier cl => (updateClassification (e <| classifier_ := cl |>) <$> o, CNone)
    | ISetSink _ | ISetPolicy _ => (o, CNone)
    end.

(** [p] holds exactly the candidate events of the step. *)
Definition pending_spec (i : EngineInput) (e : ObservationModelEngine) (p : PendingEvents) : Prop :=
  ∀ k, (k ∈ changed p ↔ (cand_step i e k (candidates_ e !! k)).2 = CUpdated) ∧
       (k ∈ removed p ↔ (cand_step i e k (candidates_ e !! k)).2 = CRemoved).

(** A delivery list is a list of interface events, then the pending ones. *)
Definition delivers (i : EngineInput) (e : ObservationModelEngine) (d : Deliveries) : Prop :=
  ∃ locals t p, d = locals ++ deliverPending (sink_ e) t p ∧
    Forall (λ x, ev_mac x.2 = None ∧ sink_ e = Some x.1) locals ∧ pending_spec i e p.

Definition pointwise (i : EngineInput) (e : ObservationModelEngine)
    (r : ObservationModelEngine * Deliveries) : Prop :=
  (∀ k, candidates_ r.1 !! k = (cand_step i e k (candidates_ e !! k)).1) ∧ delivers i e r.2.

(** ** Lemmas for the cases *)

Lemma delivers_pending i e t p : pending_spec i e p → delivers i e (deliverPending (sink_ e) t p).
Proof. intros Hp. exists [], t, p. by split_and!. Qed.

Lemma delivers_event i e ev t p :
  ev_mac ev = None → pending_spec i e p →
  delivers i e (deliver_event (sink_ e) ev ++ deliverPending (sink_ e) t p).
Proof.
  intros He Hp. exists (deliver_event (sink_ e) ev), t, p. split_and!; [done| |done].
  unfold deliver_event. destruct (sink_ e); repeat constructor; done.
Qed.

Lemma delivers_nil i e : (∀ k, (cand_step i e k (candidates_ e !! k)).2 = CNone) → delivers i e [].
Proof.
  intros Hn. exists [], 0%Z, no_pending. split_and!; [|done|].
  - unfold deliverPending. by destruct (sink_ e).
  - intros k. rewrite Hn. set_solver.
Qed.

Lemma unconcerned i e :
  (∀ k, concerns i e k (candidates_ e !! k) = false) → pointwise i e (e, []).
Proof.
  intros Hc. split; [intros k|apply delivers_nil; intros k]; unfold cand_step; by rewrite Hc.
Qed.

Lemma elem_of_keys_where f m k : k ∈ keys_where f m ↔ ∃ c, m !! k = Some c ∧ f c = true.
Proof.
  unfold keys_where. rewrite elem_of_dom. split.
  - intros [c Hc]. apply map_lookup_filter_Some in Hc. naive_solver.
  - intros (c & Hk & Hf). exists c. by apply map_lookup_filter_Some.
Qed.

Lemma erased_pending_spec i e f :
  (∀ k, (cand_step i e k (candidates_ e !! k)).2 =
     erased_one (match candidates_ e !! k with Some c => f c | None => false end)) →
  pending_spec i e (mkPending ∅ (keys_where f (candidates_ e))).
Proof.
  intros Hs k. rewrite Hs. cbn. rewrite elem_of_keys_where.
  destruct (candidates_ e !! k) as [c|]; cbn; [destruct (f c) eqn:Hf|]; cbn;
    (split; split; intros Hk; try discriminate Hk; try (by apply not_elem_of_empty in Hk); eauto).
  - destruct Hk as (? & [= <-] & ?). congruence.
  - destruct Hk as (? & ? & _). congruence.
Qed.

Lemma getOrCreate_one e t mac : getOrCreateCandidate e t mac = create_one t mac (candidates_ e !! mac).
Proof. unfold getOrCreateCandidate, create_one. by destruct (candidates_ e !! mac). Qed.

Definition pending_one (mac : string) (x : CandidateEvent) : PendingEvents :=
  match x with
  | CNone => no_pending
  | CUpdated => pending_changed mac no_pending
  | CRemoved => pending_removed mac no_pending
  end.

Lemma record_pending_one mac was now : record no_pending mac was now = pending_one mac (record_one was now).
Proof. by destruct was, now. Qed.
Lemma recordErased_pending_one mac was : recordErased no_pending mac was = pending_one mac (erased_one was).
Proof. by destruct was. Qed.

Lemma elem_of_pending_one mac x k :
  (k ∈ changed (pending_one mac x) ↔ k = mac ∧ x = CUpdated) ∧
  (k ∈ removed (pending_one mac x) ↔ k = mac ∧ x = CRemoved).
Proof. destruct x; set_solver. Qed.

Definition replace_one (mac : string) (r : option RemoteCandidate * CandidateEvent)
    (e : ObservationModelEngine) : ObservationModelEngine * PendingEvents :=
  (e <| candidates_ := partial_alter (λ _, r.1) mac (candidates_ e) |>, pending_one mac r.2).

Lemma settle_replace e mac was ev c :
  settle_candidate e mac was ev c = replace_one mac (settle_one e was ev c) e.
Proof.
  unfold settle_candidate, settle_one, replace_one. destruct (hasNoEvidence c).
  - by rewrite recordErased_pending_one.
  - by rewrite record_pending_one.
Qed.

(** An input that concerns one key only. *)
Lemma pointwise_one i e mac t r :
  (∀ k, concerns i e k (candidates_ e !! k) = true → k = mac) →
  cand_step i e mac (candidates_ e !! mac) = r →
  pointwise i e (let '(e', p) := replace_one mac r e in (e', deliverPending (sink_ e') t p)).
Proof.
  intros Hc Hr.
  assert (Ho : ∀ k, k ≠ mac → cand_step i e k (candidates_ e !! k) = (candidates_ e !! k, CNone)).
  { intros k Hk. unfold cand_step. destruct (concerns i e k _) eqn:E; [|done].
    apply Hc in E. done. }
  split.
  - intros k. cbn. destruct (decide (k = mac)) as [->|Hk].
    + by rewrite lookup_partial_alter_eq, Hr.
    + by rewrite lookup_partial_alter_ne, Ho by done.
  - cbn. apply (delivers_pending _ e). intros k. destruct (decide (k = mac)) as [->|Hk].
    + rewrite Hr. destruct r as [? []]; set_solver.
    + rewrite Ho by done. destruct r as [? []]; set_solver.
Qed.

Lemma sink_reconcile mac e : sink_ (reconcileAffectedByLocalMac mac e) = sink_ e.
Proof. unfold reconcileAffectedByLocalMac, reconcileByKey. by repeat case_match. Qed.

Lemma lookup_reconcile mac e k :
  candidates_ (reconcileAffectedByLocalMac mac e) !! k =
    if bool_decide (k = mac)
    then (λ c, if isLocalMac mac (localState_ e) then mark_local_self c else c) <$> candidates_ e !! k
    else candidates_ e !! k.
Proof.
  unfold reconcileAffectedByLocalMac, reconcileByKey. case_bool_decide as Hk.
  - subst k. destruct (candidates_ e !! mac) as [c|] eqn:Hc; rewrite ?Hc; [|done]. cbn.
    destruct (isLocalMac _ _); cbn; [by rewrite lookup_insert_eq|done].
  - destruct (candidates_ e !! mac) as [c|]; [|done]. destruct (isLocalMac _ _); [|done].
    cbn. by rewrite lookup_insert_ne.
Qed.

Lemma pointwise_link obs now e : pointwise (ILink obs now) e (onLinkObservation obs now e).
Proof.
  unfold onLinkObservation. destruct (includeInLocalState _ _) eqn:Hi; cbn [negb];
    [|apply unconcerned; intros k; cbn; by rewrite Hi].
  destruct (tracker_onLinkObservation obs (localState_ e)) as [mc ls] eqn:Ht.
  assert (Hs : ∀ k o, cand_step (ILink obs now) e k o =
     if mc && bool_decide (k = lo_mac obs)
     then ((λ c, if isLocalMac k ls then mark_local_self c else c) <$> o,
           erased_one (match o with Some c => isPublishable c | None => false end))
     else (o, CNone)).
  { intros k o. unfold cand_step. cbn. rewrite Hi, Ht. cbn. by destruct mc, (bool_decide _). }
  destruct mc; cbn [andb] in Hs; cbv beta iota zeta.
  2: { split; [intros k; by rewrite Hs|]. apply (delivers_event _ e); [done|].
       intros k. rewrite Hs. set_solver. }
  split; cbn [fst snd].
  - intros k. rewrite Hs, lookup_reconcile. cbn. by case_bool_decide; subst.
  - rewrite sink_reconcile. apply (delivers_event _ e); [done|].
    intros k. rewrite Hs. cbn. change (candidates_ (e <| localState_ := ls |>)) with (candidates_ e).
    set (was := match candidates_ e !! lo_mac obs with Some c => isPublishable c | None => false end).
    replace (if was then pending_removed (lo_mac obs) no_pending else no_pending)
      with (pending_one (lo_mac obs) (erased_one was)) by (by destruct was).
    destruct (elem_of_pending_one (lo_mac obs) (erased_one was) k) as [-> ->].
    case_bool_decide as Hk; subst; cbn; [fold was|]; naive_solver.
Qed.

Lemma pointwise_address obs now e : pointwise (IAddress obs now) e (onAddressObservation obs now e).
Proof.
  unfold onAddressObservation. destruct (includeInLocalState _ _) eqn:Hi; cbn [negb];
    [|apply unconcerned; intros k; cbn; by rewrite Hi].
  destruct (str_empty _) eqn:Hip;
    [split; [|apply delivers_nil]; intros k; unfold cand_step; cbn; by rewrite Hi, Hip|].
  assert (Hs : ∀ k o, cand_step (IAddress obs now) e k o =
     if bool_decide (ao_event obs = EvPresent)
     then let ip := extractIpFromCidr (ao_cidr obs) in
        ((λ c, if has_ip ip c then mark_local_self c else c) <$> o,
         erased_one (match o with Some c => has_ip ip c && isPublishable c | None => false end))
     else (o, CNone)).
  { intros k o. unfold cand_step. cbn. rewrite Hi, Hip. cbn. by case_bool_decide. }
  destruct (ao_event obs); cbn in Hs |- *.
  - split; [intros k; by rewrite Hs; cbn; rewrite lookup_fmap|].
    apply (delivers_event _ e); [done|]. apply erased_pending_spec. intros k. by rewrite Hs.
  - split; [intros k; by rewrite Hs|]. apply (delivers_event _ e); [done|].
    intros k. rewrite Hs. set_solver.
Qed.

Lemma pointwise_neighbor obs t1 t2 e :
  pointwise (INeighbor obs t1 t2) e (onNeighborObservation obs t1 t2 e).
Proof.
  unfold onNeighborObservation. destruct (allowRemoteNeighborEvidence _ _) eqn:Hi; cbn [negb];
    [|apply unconcerned; intros k; cbn; by rewrite Hi].
  destruct (passes_neighbor _ _ _ _) eqn:Hp; cbn [negb];
    [|apply unconcerned; intros k; cbn; by rewrite Hi, Hp].
  rewrite settle_replace. apply (pointwise_one _ _ (no_mac obs)).
  - intros k. cbn. rewrite Hi, Hp. apply bool_decide_eq_true.
  - unfold cand_step. cbn. rewrite Hi, Hp, bool_decide_true by done. by rewrite getOrCreate_one.
Qed.

Lemma pointwise_fdb obs t1 t2 e : pointwise (IFdb obs t1 t2) e (onFdbObservation obs t1 t2 e).
Proof.
  unfold onFdbObservation. destruct (allowRemoteFdbEvidence _ _) eqn:Hi; cbn [negb];
    [|apply unconcerned; intros k; cbn; by rewrite Hi].
  destruct (passes_fdb _ _ _) eqn:Hp; cbn [negb];
    [|apply unconcerned; intros k; cbn; by rewrite Hi, Hp].
  rewrite settle_replace. apply (pointwise_one _ _ (fo_mac obs)).
  - intros k. cbn. rewrite Hi, Hp. apply bool_decide_eq_true.
  - unfold cand_step. cbn. rewrite Hi, Hp, bool_decide_true by done. by rewrite getOrCreate_one.
Qed.

Lemma pointwise_lldp obs t1 t2 e : pointwise (ILldp obs t1 t2) e (onLldpObservation obs t1 t2 e).
Proof.
  unfold onLldpObservation. destruct (allowLldpEvidence _ _) eqn:Hi; cbn [negb];
    [|apply unconcerned; intros k; cbn; by rewrite Hi].
  set (key := resolveLldpIdentity (ll_remoteChassisId obs) (ll_remotePortId obs)).
  destruct (str_empty key) eqn:Hk.
  { apply unconcerned. intros k. cbn. rewrite Hi. fold key. case_bool_decide as Hkk.
    - subst k. by rewrite Hk.
    - by rewrite andb_false_r. }
  destruct (keepalive_dropped obs _) eqn:Hd.
  { apply unconcerned. intros k. cbn. rewrite Hi. fold key. case_bool_decide as Hkk.
    - subst k. rewrite Hd. by rewrite !andb_false_r.
    - by rewrite andb_false_r. }
  assert (Hr : (let c := lldp_evidence obs (getOrCreateCandidate e t1 key) in
        let was := isPublishable (getOrCreateCandidate e t1 key) in
        if hasNoEvidence c then
          (erase_candidate key e, recordErased no_pending key was)
        else if ll_keepalive obs then
          let oldStatus := c_status c in
          let oldClassification := c_classification c in
          let c := updateClassification e c in
          let c := if bool_decide (c_status c = Aged ∨ c_status c = Expired)
                   then c <| c_status := Confirmed |> else c in
          (store_candidate key c e,
           if bool_decide (c_status c ≠ oldStatus ∨ c_classification c ≠ oldClassification)
           then record no_pending key was (isPublishable c) else no_pending)
        else settle_candidate e key was (ll_event obs) c) =
      replace_one key (lldp_one e obs (isPublishable (create_one t1 key (candidates_ e !! key)))
         (lldp_evidence obs (create_one t1 key (candidates_ e !! key)))) e).
  { rewrite getOrCreate_one. cbv zeta. set (c := create_one _ _ _). unfold lldp_one.
    destruct (hasNoEvidence _); [by rewrite recordErased_pending_one|].
    destruct (ll_keepalive obs); [|apply settle_replace].
    rewrite record_pending_one. unfold keepalive_one, replace_one. cbv zeta. cbn [fst snd].
    by destruct (bool_decide (c_status _ ≠ _ ∨ _)). }
  cbv zeta in Hr |- *. rewrite Hr. apply (pointwise_one _ _ key).
  - intros k. cbn. fold key. rewrite !andb_true_iff, bool_decide_eq_true. naive_solver.
  - unfold cand_step. cbn. fold key. by rewrite Hi, Hk, Hd, bool_decide_true.
Qed.

Lemma pointwise_age now t2 e : pointwise (IAge now t2) e (age now t2 e).
Proof.
  split; [intros k; cbn; by rewrite lookup_fmap|]. apply delivers_pending.
  intros k. unfold cand_step. cbn. rewrite !elem_of_keys_where.
  destruct (candidates_ e !! k) as [c|]; cbn; [|naive_solver].
  set (c' := age_candidate (config_ e) now c).
  assert (Hex : ∀ f : RemoteCandidate → bool, (∃ d, Some c = Some d ∧ f d = true) ↔ f c = true).
  { intros f. naive_solver. }
  rewrite !Hex. fold c'.
  destruct (decide (c_status c' = c_status c)) as [Hm|Hm].
  - rewrite (bool_decide_eq_true_2 _ Hm), bool_decide_eq_false_2 by tauto. cbn. naive_solver.
  - rewrite (bool_decide_eq_false_2 _ Hm), bool_decide_eq_true_2 by done. unfold record_one. cbn.
    destruct (isPublishable c'), (isPublishable c); cbn; naive_solver.
Qed.

Lemma pointwise_restart t2 e : pointwise (IRestart t2) e (prepareForRestart t2 e).
Proof.
  split; [intros k; cbn; by rewrite lookup_fmap|]. by apply delivers_pending, erased_pending_spec.
Qed.

Lemma pointwise_live t2 e : pointwise (IMarkLive t2) e (markLive t2 e).
Proof.
  split; [intros k; cbn; by rewrite lookup_omap|]. apply delivers_pending.
  intros k. unfold cand_step. cbn. rewrite elem_of_keys_where.
  split; [|split; [intros Hk; by apply not_elem_of_empty in Hk|by repeat case_match]].
  destruct (candidates_ e !! k) as [c|]; cbn; [|naive_solver].
  destruct (_ && _) eqn:Hp; split; try done; eauto. intros (? & [= <-] & ?). congruence.
Qed.

Lemma pointwise_step i e : pointwise i e (engine_step i e).
Proof.
  destruct i; cbn [engine_step].
  - apply pointwise_link.
  - apply pointwise_address.
  - apply pointwise_neighbor.
  - apply pointwise_fdb.
  - apply pointwise_lldp.
  - apply pointwise_age.
  - apply pointwise_restart.
  - apply pointwise_live.
  - split; [done|by apply delivers_nil].
  - split; [done|by apply delivers_nil].
  - split; [intros k; cbn; by rewrite lookup_fmap|by apply delivers_nil].
Qed.
End pointwise.

(** * Frames and invariants *)

(** A classifier that never confirms a candidate without evidence. *)
Class EvidenceRequired (cl : ICandidateClassifier) : Prop :=
  no_evidence_unworthy c : hasNoEvidence c = true → isConfirmedWorthy (classify cl c) = false.

Lemma hasNoEvidence_true c :
  hasNoEvidence c = true ↔
  c_seenInNeigh c = false ∧ c_seenInFdb c = false ∧ c_seenInLldp c = false ∧
  c_ipv4 c = ∅ ∧ c_ipv6 c = ∅ ∧ c_bridgePort c = None.
Proof.
  unfold hasNoEvidence. rewrite !andb_true_iff, !negb_true_iff, !bool_decide_eq_true. tauto.
Qed.

#[export] Instance RuleBased_required : EvidenceRequired RuleBasedClassifier.
Proof.
  intros c (Hn & Hf & Hl & H4 & H6 & _)%hasNoEvidence_true. cbn. unfold RuleBased_classify.
  by rewrite Hn, Hf, Hl, H4, H6.
Qed.

#[export] Instance Scoring_required w th :
  TCEq (Z.ltb 0 (Z.min (st_confirmed th) (st_topology th))) true →
  EvidenceRequired (ScoringClassifier w th).
Proof.
  intros Hth%TCEq_eq%Z.ltb_lt c (Hn & Hf & Hl & H4 & H6 & _)%hasNoEvidence_true. cbn.
  unfold Scoring_classify, computeScore. rewrite Hn, Hf, Hl, !(bool_decide_eq_true_2 (_ = ∅)) by done.
  cbn. unfold scoreToClass.
  destruct (Z.leb_spec (st_topology th) 0); [lia|]. destruct (Z.leb_spec (st_confirmed th) 0); [lia|].
  by case_match.
Qed.

Section invariants.
Context `{InetPton}.

Definition next_phase (i : EngineInput) (ph : ModelPhase) : ModelPhase :=
  match i with IRestart _ => Initializing | IMarkLive _ => Live | _ => ph end.

(** A step changes the tracker by one of its own operations, and every other
    field only through the operation meant for it. *)
Lemma engine_frame i e :
  let e' := (engine_step i e).1 in
  phase_ e' = next_phase i (phase_ e) ∧ config_ e' = config_ e ∧
  ((∀ s, i ≠ ISetSink s) → sink_ e' = sink_ e) ∧
  ((∀ cl, i ≠ ISetClassifier cl) → classifier_ e' = classifier_ e) ∧
  (localState_ e' = localState_ e ∨
   (∃ obs, localState_ e' = (tracker_onLinkObservation obs (localState_ e)).2) ∨
   (∃ obs, localState_ e' = (tracker_onAddressObservation obs (localState_ e)).2) ∨
   localState_ e' = tracker_clear (localState_ e)).
Proof.
  destruct i; cbn;
    unfold onLinkObservation, onAddressObservation, onNeighborObservation, onFdbObservation,
      onLldpObservation, settle_candidate, reconcileAffectedByLocalMac, reconcileByKey;
    repeat case_match; simplify_eq/=; split_and!; try done; eauto 6;
    try (intros Hne; exfalso; by eapply Hne).
  all: right; left; eexists;
    match goal with Ht : tracker_onLinkObservation _ _ = _ |- _ => by rewrite Ht end.
Qed.

Lemma run_invariant (P : ObservationModelEngine → Prop) (ok : EngineInput → Prop) inputs e :
  (∀ i e, ok i → P e → P (engine_step i e).1) → Forall ok inputs → P e → P (engine_run inputs e).1.
Proof.
  intros Hstep Hok. revert e. induction Hok as [|i inputs Hi _ IH]; intros e He; cbn; [done|].
  specialize (Hstep i e Hi He). destruct (engine_step i e) as [e1 d1]. specialize (IH e1 Hstep).
  by destruct (engine_run inputs e1).
Qed.

(** ** The invariant of a candidate stored under [k] in phase [ph] *)

Record cand_ok (ph : ModelPhase) (k : string) (c : RemoteCandidate) : Prop := mkCandOk {
  ok_key : c_mac c = k;
  ok_neigh : c_seenInNeigh c = bool_decide (c_neighborEvidence c ≠ ∅);
  ok_fdb : c_seenInFdb c = bool_decide (c_fdbEvidence c ≠ ∅);
  ok_initial : ph = Initializing → c_status c = Provisional ∨ c_status c = Removed;
  ok_evidence : hasNoEvidence c = true →
    c_status c = Removed ∨ (ph = Initializing ∧ c_status c = Provisional)
}.

Lemma create_ok ph k t o :
  (∀ c, o = Some c → cand_ok ph k c) →
  let c := create_one t k o in
  c_mac c = k ∧ c_seenInNeigh c = bool_decide (c_neighborEvidence c ≠ ∅) ∧
  c_seenInFdb c = bool_decide (c_fdbEvidence c ≠ ∅) ∧
  (ph = Initializing → c_status c = Provisional ∨ c_status c = Removed).
Proof.
  intros Ho. destruct o as [c|]; cbn.
  - destruct (Ho c eq_refl). done.
  - split_and!; try done. by left.
Qed.

(** [reconcileStatusLocked] keeps everything but the status. *)
Lemma reconcileStatus_status e ev c :
  ∃ st, reconcileStatusLocked e ev c = c <| c_status := st |> ∧
    (phase_ e = Initializing → st = Provisional ∨ st = Removed).
Proof.
  destruct c. unfold reconcileStatusLocked. cbn.
  destruct ev, (phase_ e); cbn; repeat (case_bool_decide; cbn); try destruct (isConfirmedWorthy _);
    cbn; (eexists; split; [reflexivity|]); cbn; intros ?; try discriminate; tauto.
Qed.

Lemma settle_ok e was ev c k c' :
  c_mac c = k → c_seenInNeigh c = bool_decide (c_neighborEvidence c ≠ ∅) →
  c_seenInFdb c = bool_decide (c_fdbEvidence c ≠ ∅) →
  (settle_one e was ev c).1 = Some c' → cand_ok (phase_ e) k c'.
Proof.
  intros Hk Hn Hf. unfold settle_one. destruct (hasNoEvidence c) eqn:Hno; [done|].
  intros [= <-]. destruct (reconcileStatus_status e ev (updateClassification e c)) as (st & -> & Hst).
  split; cbn; try done. intros Hev. change (hasNoEvidence c = true) in Hev. congruence.
Qed.

Lemma keepalive_one_ok e was ph k c c' :
  c_mac c = k → c_seenInNeigh c = bool_decide (c_neighborEvidence c ≠ ∅) →
  c_seenInFdb c = bool_decide (c_fdbEvidence c ≠ ∅) →
  (ph = Initializing → c_status c = Provisional ∨ c_status c = Removed) →
  hasNoEvidence c = false →
  (keepalive_one e was c).1 = Some c' → cand_ok ph k c'.
Proof.
  unfold keepalive_one. cbn. intros Hk Hn Hf Hi Hno [= <-].
  destruct (decide (c_status c = Aged ∨ c_status c = Expired)) as [Ha|Ha];
    [rewrite (bool_decide_eq_true_2 _ Ha) | rewrite (bool_decide_eq_false_2 _ Ha)];
    split; cbn in *; try done.
  - intros Hph. destruct (Hi Hph), Ha; congruence.
  - intros Hev. change (hasNoEvidence c = true) in Hev. congruence.
  - intros Hev. change (hasNoEvidence c = true) in Hev. congruence.
Qed.

Lemma mark_local_ok ph k c : cand_ok ph k c → cand_ok ph k (mark_local_self c).
Proof. intros []. split; cbn; auto. Qed.

Lemma age_ok ph cfg now k c : cand_ok ph k c → cand_ok ph k (age_candidate cfg now c).
Proof.
  intros Hok. unfold age_candidate. case_bool_decide as Hs; [done|].
  assert (hasNoEvidence c = false ∧ ph = Live) as [Hno ->].
  { destruct Hok as [_ _ _ Hi He]. destruct ph; [exfalso; tauto|].
    destruct (hasNoEvidence c); [exfalso; destruct He; tauto|done]. }
  destruct Hok. repeat case_match; split; cbn; try done;
    intros Hev; change (hasNoEvidence c = true) in Hev; congruence.
Qed.

Lemma live_ok `{!EvidenceRequired (classifier_ e)} ph k c c' :
  cand_ok ph k c → live_candidate e c = Some c' → cand_ok Live k c'.
Proof.
  intros [Hk Hn Hf Hi Hev]. unfold live_candidate.
  destruct (bool_decide (c_status c ≠ Provisional)) eqn:Hs.
  - apply bool_decide_eq_true in Hs. intros [= <-]. split; try done. intros Hno. destruct (Hev Hno) as [|[_ ?]]; [by left|done].
  - destruct (isConfirmedWorthy _) eqn:Hw; [|done]. intros [= <-]. split; cbn; try done.
    intros Hno. change (hasNoEvidence c = true) in Hno.
    pose proof (no_evidence_unworthy (cl := classifier_ e) c Hno) as Hun. cbn in Hw. congruence.
Qed.

Lemma evidence_update_ok (f : RemoteCandidate → RemoteCandidate) ph k t o :
  (∀ c, c_mac (f c) = c_mac c) →
  (∀ c, c_seenInNeigh c = bool_decide (c_neighborEvidence c ≠ ∅) →
     c_seenInNeigh (f c) = bool_decide (c_neighborEvidence (f c) ≠ ∅)) →
  (∀ c, c_seenInFdb c = bool_decide (c_fdbEvidence c ≠ ∅) →
     c_seenInFdb (f c) = bool_decide (c_fdbEvidence (f c) ≠ ∅)) →
  (∀ c, c_status (f c) = c_status c) →
  (∀ c, o = Some c → cand_ok ph k c) →
  let c := f (create_one t k o) in
  c_mac c = k ∧ c_seenInNeigh c = bool_decide (c_neighborEvidence c ≠ ∅) ∧
  c_seenInFdb c = bool_decide (c_fdbEvidence c ≠ ∅) ∧
  (ph = Initializing → c_status c = Provisional ∨ c_status c = Removed).
Proof.
  intros Hm Hn Hf Hs (? & ? & ? & ?)%(create_ok ph k t). cbn.
  rewrite Hm, Hs. split_and!; auto.
Qed.

Lemma neighbor_evidence_ok obs ph k t o :
  (∀ c, o = Some c → cand_ok ph k c) →
  let c := neighbor_evidence obs (create_one t k o) in
  c_mac c = k ∧ c_seenInNeigh c = bool_decide (c_neighborEvidence c ≠ ∅) ∧
  c_seenInFdb c = bool_decide (c_fdbEvidence c ≠ ∅) ∧
  (ph = Initializing → c_status c = Provisional ∨ c_status c = Removed).
Proof.
  apply (evidence_update_ok (neighbor_evidence obs)); intros c; unfold neighbor_evidence;
    destruct (no_event obs), (_ =? _)%Z; done.
Qed.

Lemma fdb_evidence_ok obs ph k t o :
  (∀ c, o = Some c → cand_ok ph k c) →
  let c := fdb_evidence obs (create_one t k o) in
  c_mac c = k ∧ c_seenInNeigh c = bool_decide (c_neighborEvidence c ≠ ∅) ∧
  c_seenInFdb c = bool_decide (c_fdbEvidence c ≠ ∅) ∧
  (ph = Initializing → c_status c = Provisional ∨ c_status c = Removed).
Proof.
  apply (evidence_update_ok (fdb_evidence obs)); intros c; unfold fdb_evidence;
    destruct (fo_event obs); cbn; try destruct (bool_decide (c_bridgePort _ = _)); done.
Qed.

Lemma lldp_evidence_ok obs ph k t o :
  (∀ c, o = Some c → cand_ok ph k c) →
  let c := lldp_evidence obs (create_one t k o) in
  c_mac c = k ∧ c_seenInNeigh c = bool_decide (c_neighborEvidence c ≠ ∅) ∧
  c_seenInFdb c = bool_decide (c_fdbEvidence c ≠ ∅) ∧
  (ph = Initializing → c_status c = Provisional ∨ c_status c = Removed).
Proof.
  apply (evidence_update_ok (lldp_evidence obs)); intros c; unfold lldp_evidence;
    destruct (ll_event obs); done.
Qed.

(** Each step of the per-candidate automaton keeps [cand_ok]. *)
Lemma cand_step_ok `{!EvidenceRequired (classifier_ e)} i k o c' :
  (∀ c, o = Some c → cand_ok (phase_ e) k c) →
  (cand_step i e k o).1 = Some c' → cand_ok (next_phase i (phase_ e)) k c'.
Proof.
  intros Ho. unfold cand_step. destruct (concerns i e k o) eqn:Hc; cbn [negb].
  2: { cbn. intros Hc'. apply Ho in Hc'. by destruct i. }
  destruct i; cbn [next_phase].
  - destruct o as [c|]; [|done]. cbn. intros [= <-]. case_match; [apply mark_local_ok|]; auto.
  - destruct o as [c|]; [|done]. cbn. intros [= <-]. case_match; [apply mark_local_ok|]; auto.
  - destruct (neighbor_evidence_ok obs (phase_ e) k t1 o Ho) as (? & ? & ? & _). by apply settle_ok.
  - destruct (fdb_evidence_ok obs (phase_ e) k t1 o Ho) as (? & ? & ? & _). by apply settle_ok.
  - destruct (lldp_evidence_ok obs (phase_ e) k t1 o Ho) as (? & ? & ? & ?). unfold lldp_one.
    destruct (hasNoEvidence _) eqn:Hno; [done|].
    destruct (ll_keepalive obs); [by apply keepalive_one_ok|by apply settle_ok].
  - destruct o as [c|]; [|done]. intros [= <-]. by apply age_ok, Ho.
  - destruct o as [c|]; [|done]. intros [= <-]. destruct (Ho c eq_refl).
    split; cbn; try done; auto; symmetry; by apply bool_decide_eq_false.
  - destruct o as [c|]; [|done]. cbn. eapply live_ok; eauto.
  - cbn in Hc. discriminate.
  - cbn in Hc. discriminate.
  - destruct o as [c|]; [|done]. intros [= <-]. destruct (Ho c eq_refl). split; cbn; auto.
Qed.

(** ** The invariant of the engine *)

Record engine_ok (e : ObservationModelEngine) : Prop := mkEngineOk {
  ok_classifier :: EvidenceRequired (classifier_ e);
  ok_candidates : map_Forall (cand_ok (phase_ e)) (candidates_ e)
}.

(** Classifiers installed at run time must require evidence. *)
Definition input_ok (i : EngineInput) : Prop :=
  match i with ISetClassifier cl => EvidenceRequired cl | _ => True end.

Lemma engine_step_ok i e : input_ok i → engine_ok e → engine_ok (engine_step i e).1.
Proof.
  intros Hi [Hcl Hall]. destruct (engine_frame i e) as (Hph & _ & _ & Hc & _).
  destruct (pointwise_step i e) as [Hp _]. split.
  - destruct i; try (rewrite Hc; [done|discriminate]). done.
  - rewrite Hph. intros k c' Hk. rewrite Hp in Hk. eapply cand_step_ok; [|exact Hk].
    intros c Hkc. by apply (Hall k c).
Qed.

Lemma engine_init_ok config :
  EvidenceRequired (createClassifier (classifierConfig config)) → engine_ok (engine_init config).
Proof. intros Hc. by split. Qed.

Lemma engine_run_ok inputs config :
  EvidenceRequired (createClassifier (classifierConfig config)) → Forall input_ok inputs →
  engine_ok (engine_run inputs (engine_init config)).1.
Proof.
  intros Hc Hok. apply (run_invariant engine_ok input_ok); [apply engine_step_ok|done|].
  by apply engine_init_ok.
Qed.

(** ** Publication *)

Lemma elem_of_remoteCandidates c e :
  c ∈ remoteCandidates e ↔ isPublishable c = true ∧ ∃ k, candidates_ e !! k = Some c.
Proof.
  unfold remoteCandidates. rewrite list_elem_of_filter, list_elem_of_fmap. split.
  - intros (Hp & [k c'] & -> & Hk). apply elem_of_map_to_list in Hk. eauto.
  - intros (Hp & k & Hk). split; [done|]. exists (k, c). split; [done|]. by apply elem_of_map_to_list.
Qed.

Lemma isPublishable_status c : isPublishable c = true → c_status c = Confirmed ∨ c_status c = Aged.
Proof.
  unfold isPublishable. case_bool_decide as Hs; [done|]. intros _.
  destruct (c_status c); try (by left); try (by right); exfalso; by apply Hs.
Qed.
End invariants.

(** C4: from construction, through any sequence of operations of the model in
    any order (with classifiers that require evidence), everything published is
    sound: a candidate in [remoteCandidates] is published only in the live phase,
    is backed by evidence that is still present, agrees with its evidence sets,
    and is the one [findCandidateByMac] returns for its MAC. *)
Theorem published_candidates_sound `{InetPton} inputs config c :
  let e := (engine_run inputs (engine_init config)).1 in
  EvidenceRequired (createClassifier (classifierConfig config)) → Forall input_ok inputs →
  c ∈ remoteCandidates e →
  phase_ e = Live ∧ hasNoEvidence c = false ∧
  (c_seenInNeigh c = true ↔ c_neighborEvidence c ≠ ∅) ∧ (c_seenInFdb c = true ↔ c_fdbEvidence c ≠ ∅) ∧
  findCandidateByMac (c_mac c) e = Some c.
Proof.
  intros e Hcl Hin (Hp & k & Hk)%elem_of_remoteCandidates.
  destruct (engine_run_ok inputs config Hcl Hin) as [_ Hall].
  destruct (Hall k c Hk) as [Hmac Hn Hf Hi Hev]. fold e in Hi, Hev.
  pose proof (isPublishable_status c Hp) as Hs.
  split_and!.
  - destruct (phase_ e); [|done]. destruct (Hi eq_refl), Hs; congruence.
  - destruct (hasNoEvidence c); [|done]. destruct (Hev eq_refl) as [|[_ ?]], Hs; congruence.
  - rewrite Hn. apply bool_decide_eq_true.
  - rewrite Hf. apply bool_decide_eq_true.
  - unfold findCandidateByMac. by rewrite Hmac, Hk, Hp.
Qed.

(** A neighbour seen while the model is live. *)
Definition demo_pton : InetPton := λ _, None.
Definition demo_neighbor (ev : ObservationEvent) (at_ : time_point) : NeighborObservation :=
  mkNeighborObservation (mkBase KNeighbor at_) "eth0" ev AF_INET "02:00:00:00:00:07" "10.0.0.7" Reachable.
Definition demo_inputs : list EngineInput :=
  [ISetSink (Some 1); IMarkLive 1; INeighbor (demo_neighbor EvPresent 5) 5 5].
Definition demo_engine : ObservationModelEngine :=
  (engine_run (H := demo_pton) demo_inputs (engine_init default_model_config)).1.
Definition demo_candidate : RemoteCandidate :=
  default default_candidate (findCandidateByMac "02:00:00:00:00:07" demo_engine).

Lemma demo_published : demo_candidate ∈ remoteCandidates demo_engine.
Proof.
  apply elem_of_remoteCandidates. split; [vm_compute; reflexivity|].
  exists "02:00:00:00:00:07". vm_compute. reflexivity.
Qed.

Lemma published_candidates_sound_witness :
  phase_ demo_engine = Live ∧ findCandidateByMac (c_mac demo_candidate) demo_engine = Some demo_candidate.
Proof.
  destruct (published_candidates_sound (H := demo_pton) demo_inputs default_model_config demo_candidate)
    as (Hl & _ & _ & _ & Hf).
  - apply _.
  - repeat constructor.
  - apply demo_published.
  - by split.
Defined.
