(* ===== verification/EngineEvents.v ===== *)
(** What a client learns from the engine's events, and the life cycle of
    candidates: the visible set is tracked by the delivered events, aging,
    keepalives, restart and revival. *)

From S2P Require Import Prelude Contract Observation LocalState Filter Engine EngineProps.

(** * The set a client keeps from the events it receives *)

Definition apply_event (V : gset string) (ev : ModelEvent) : gset string :=
  match ev_mac ev with
  | None => V
  | Some mac =>
      match ev_kind ev with
      | CandidateAdded | CandidateUpdated | CandidateConfirmed | CandidateAged | ClassificationChanged =>
          {[mac]} ∪ V
      | CandidateExpired | CandidateRemoved => V ∖ {[mac]}
      | _ => V
      end
  end.

Definition apply_events (V : gset string) (d : Deliveries) : gset string :=
  foldl apply_event V d.*2.

(** The MACs the model publishes. *)
Definition visible (e : ObservationModelEngine) : gset string := keys_where isPublishable (candidates_ e).

(** The inputs whose effect on the visible set is fully announced. Left out:
    the change of sink and of classifier, and link observations other than
    those that bring a MAC (see [link_removed_spurious_event]). *)
Definition announced (i : EngineInput) : Prop :=
  match i with
  | ISetSink _ | ISetClassifier _ => False
  | ILink obs _ => lo_event obs = EvPresent ∧ lo_mac obs ≠ ""
  | _ => True
  end.

(** The same for one MAC: only link observations about it matter. *)
Definition announced_at (k : string) (i : EngineInput) : Prop :=
  match i with ILink obs _ => k = lo_mac obs → announced i | _ => announced i end.

Lemma announced_everywhere k i : announced i → announced_at k i.
Proof. destruct i; cbn; auto. Qed.

(** * Folding a delivery list *)

Lemma apply_events_app V d d' : apply_events V (d ++ d') = apply_events (apply_events V d) d'.
Proof. unfold apply_events. by rewrite fmap_app, foldl_app. Qed.

Lemma apply_events_locals V d : Forall (λ x : nat * ModelEvent, ev_mac x.2 = None) d → apply_events V d = V.
Proof.
  unfold apply_events. induction 1 as [|x d Hx _ IH]; cbn; [done|].
  unfold apply_event at 2. by rewrite Hx.
Qed.

Lemma apply_events_updated (s : nat) t V (l : list string) :
  apply_events V ((λ mac, (s, mkModelEvent CandidateUpdated t None (Some mac))) <$> l) = list_to_set l ∪ V.
Proof.
  unfold apply_events. revert V. induction l as [|m l IH]; intros V; cbn; [set_solver|].
  rewrite IH. unfold apply_event. cbn. set_solver.
Qed.

Lemma apply_events_removed (s : nat) t V (l : list string) :
  apply_events V ((λ mac, (s, mkModelEvent CandidateRemoved t None (Some mac))) <$> l) = V ∖ list_to_set l.
Proof.
  unfold apply_events. revert V. induction l as [|m l IH]; intros V; cbn; [set_solver|].
  rewrite IH. unfold apply_event. cbn. set_solver.
Qed.

Lemma apply_deliverPending s t V p :
  apply_events V (deliverPending (Some s) t p) = (changed p ∪ V) ∖ removed p.
Proof.
  unfold deliverPending. rewrite apply_events_app, apply_events_updated, apply_events_removed.
  by rewrite !list_to_set_set_iter.
Qed.

Section events.
Context `{InetPton}.

(** ** A MAC that a present link brings is local afterwards *)

Definition counted (t : LocalStateTracker) : Prop := ∃ fm fi, represents t fm fi.

Lemma counted_incrementMac mac t : counted t → counted (incrementMac mac t).
Proof. intros (fm & fi & Hr). eexists _, _. by apply incrementMac_rep. Qed.

Lemma incrementMac_local mac t : counted t → mac ≠ "" → isLocalMac mac (incrementMac mac t) = true.
Proof.
  intros (fm & fi & Hr) Hne. pose proof (incrementMac_rep mac t fm fi Hr) as [[_ Hs _] _].
  unfold isLocalMac. apply bool_decide_eq_true, Hs. rewrite decide_True by done.
  destruct Hr as [[_ _ Hp] _]. specialize (Hp mac). lia.
Qed.

Lemma counted_decrementMac mac t : counted t → counted (decrementMac mac t).
Proof.
  intros (fm & fi & Hr). destruct (decide (mac = "" ∨ fm mac ≠ 0%Z)) as [Hd|Hd].
  - eexists _, _. by apply decrementMac_rep.
  - exists fm, fi. unfold decrementMac. case_match; [done|].
    destruct Hr as [[Hl Hs Hp] Hi]. rewrite Hl. rewrite decide_True; [done|].
    destruct (decide (fm mac = 0%Z)); tauto.
Qed.

Lemma counted_incrementIp ip t : counted t → counted (incrementIp ip t).
Proof. intros (fm & fi & Hr). eexists _, _. by apply incrementIp_rep. Qed.

Lemma counted_decrementIp ip t : counted t → counted (decrementIp ip t).
Proof.
  intros (fm & fi & Hr). destruct (decide (fi ip = 0%Z)) as [Hd|Hd].
  - exists fm, fi. unfold decrementIp. destruct Hr as [Hm [Hl Hs Hp]]. by rewrite Hl, decide_True.
  - eexists _, _. by apply decrementIp_rep.
Qed.

Lemma counted_decrementCidrs l t : counted t → counted (decrementCidrs l t).
Proof.
  unfold decrementCidrs. revert t. induction l as [|c l IH]; intros t Ht; cbn; [done|].
  apply IH. unfold decrementCidr. case_match; [done|]. by apply counted_decrementIp.
Qed.

Lemma counted_link obs t :
  counted t →
  let r := tracker_onLinkObservation obs t in
  counted r.2 ∧
  (lo_event obs = EvPresent → lo_mac obs ≠ "" → r.1 = true → isLocalMac (lo_mac obs) r.2 = true).
Proof.
  intros Ht. unfold tracker_onLinkObservation. destruct (lo_event obs); cbn.
  - case_match; [split; [by apply counted_incrementMac|intros; by apply incrementMac_local]|].
    case_bool_decide; [|by split].
    split; [by apply counted_incrementMac, counted_decrementMac|].
    intros. apply incrementMac_local; [by apply counted_decrementMac|done].
  - case_match; [|by split]. split; [|done]. cbn.
    by apply counted_decrementCidrs, counted_decrementCidrs, counted_decrementMac.
Qed.

Lemma counted_address obs t : counted t → counted (tracker_onAddressObservation obs t).2.
Proof.
  intros Ht. unfold tracker_onAddressObservation. repeat case_match; cbn; try done;
    first [by apply counted_incrementIp | by apply counted_decrementIp].
Qed.

Lemma counted_clear t : counted (tracker_clear t).
Proof. exists (λ _, 0%Z), (λ _, 0%Z). split; apply counts_empty. Qed.

Lemma engine_step_counted i e : counted (localState_ e) → counted (localState_ (engine_step i e).1).
Proof.
  intros Hc. destruct (engine_frame i e) as (_ & _ & _ & _ & [-> | [[? ->] | [[? ->] | ->]]]).
  - done.
  - by apply counted_link.
  - by apply counted_address.
  - apply counted_clear.
Qed.

(** ** The event of a candidate tells whether it is visible now *)

Definition event_visible (x : CandidateEvent) (was : bool) : bool :=
  match x with CNone => was | CUpdated => true | CRemoved => false end.

Definition opt_visible (o : option RemoteCandidate) : bool :=
  match o with Some c => isPublishable c | None => false end.

Lemma record_one_visible was now : event_visible (record_one was now) was = now.
Proof. by destruct was, now. Qed.
Lemma erased_one_visible was : event_visible (erased_one was) was = false.
Proof. by destruct was. Qed.

Lemma create_one_visible t k o : isPublishable (create_one t k o) = opt_visible o.
Proof. by destruct o. Qed.

Lemma settle_one_visible e was ev c :
  opt_visible (settle_one e was ev c).1 = event_visible (settle_one e was ev c).2 was.
Proof.
  unfold settle_one. destruct (hasNoEvidence c); cbn.
  - by rewrite erased_one_visible.
  - by rewrite record_one_visible.
Qed.

(** A candidate whose class and status are kept is as visible as before. *)
Lemma isPublishable_same c d :
  c_status c = c_status d → c_classification c = c_classification d → isPublishable c = isPublishable d.
Proof. intros Hs Hc. unfold isPublishable. by rewrite Hs, Hc. Qed.

Lemma keepalive_one_visible e was c :
  was = isPublishable c →
  opt_visible (keepalive_one e was c).1 = event_visible (keepalive_one e was c).2 was.
Proof.
  intros ->. unfold keepalive_one. cbv zeta. set (c' := if bool_decide _ then _ else _).
  cbn [fst snd opt_visible]. clearbody c'.
  destruct (bool_decide (c_status c' ≠ _ ∨ _)) eqn:Hb.
  - by rewrite record_one_visible.
  - apply bool_decide_eq_false in Hb. cbn. apply isPublishable_same.
    + destruct (decide (c_status c' = c_status c)); tauto.
    + destruct (decide (c_classification c' = c_classification c)); tauto.
Qed.

Lemma lldp_one_visible e obs was c :
  was = isPublishable c →
  opt_visible (lldp_one e obs was c).1 = event_visible (lldp_one e obs was c).2 was.
Proof.
  intros Hw. unfold lldp_one. destruct (hasNoEvidence c); [cbn; by rewrite erased_one_visible|].
  destruct (ll_keepalive obs); [by apply keepalive_one_visible|apply settle_one_visible].
Qed.

Lemma isPublishable_lldp_evidence obs c : isPublishable (lldp_evidence obs c) = isPublishable c.
Proof. apply isPublishable_same; unfold lldp_evidence; by destruct (ll_event obs). Qed.

Lemma provisional_not_visible c : c_status c = Provisional → isPublishable c = false.
Proof. intros Hs. unfold isPublishable. by rewrite Hs. Qed.

Lemma live_candidate_visible e c c' :
  c_status c = Provisional → live_candidate e c = Some c' → isPublishable c' = true.
Proof.
  intros Hs. unfold live_candidate. rewrite Hs. cbn.
  destruct (isConfirmedWorthy _) eqn:Hw; [|done]. intros [= <-]. unfold isPublishable. cbn.
  by destruct (classify (classifier_ e) c).
Qed.

Lemma cand_step_visible i e k o :
  counted (localState_ e) → announced_at k i →
  opt_visible (cand_step i e k o).1 = event_visible (cand_step i e k o).2 (opt_visible o).
Proof.
  intros Hcnt Ha. unfold cand_step. destruct (concerns i e k o) eqn:Hc; cbn [negb]; [|done].
  destruct i; try done.
  - cbn in Hc. apply andb_true_iff in Hc as [[_ Hch]%andb_true_iff Hk%bool_decide_eq_true]. subst k.
    destruct (Ha eq_refl) as [Hev Hne].
    destruct o as [c|]; [|done]. cbn.
    destruct (counted_link obs _ Hcnt) as [_ Hl]. rewrite (Hl Hev Hne Hch).
    by rewrite erased_one_visible.
  - destruct o as [c|]; [|done]. cbn. destruct (has_ip _ c); cbn; [|done].
    by rewrite erased_one_visible.
  - rewrite <- (create_one_visible t1 k o). apply settle_one_visible.
  - rewrite <- (create_one_visible t1 k o). apply settle_one_visible.
  - rewrite <- (create_one_visible t1 k o). apply lldp_one_visible.
    by rewrite isPublishable_lldp_evidence.
  - destruct o as [c|]; [|done]. cbn. case_bool_decide as Hs; cbn; [|by rewrite record_one_visible].
    apply isPublishable_same; [done|]. unfold age_candidate. by repeat case_match.
  - destruct o as [c|]; [|done]. cbn. by rewrite erased_one_visible.
  - destruct o as [c|]; [|done]. cbn. destruct (decide (c_status c = Provisional)) as [Hs|Hs].
    + rewrite (bool_decide_eq_true_2 _ Hs). cbn. destruct (live_candidate e c) as [c'|] eqn:Hl; cbn.
      * by apply (live_candidate_visible e c).
      * by rewrite (provisional_not_visible c Hs).
    + rewrite (bool_decide_eq_false_2 _ Hs). cbn. unfold live_candidate.
      by rewrite bool_decide_eq_true_2.
Qed.

Lemma elem_of_visible e k : k ∈ visible e ↔ opt_visible (candidates_ e !! k) = true.
Proof.
  unfold visible. rewrite elem_of_keys_where. destruct (candidates_ e !! k) as [c|]; cbn.
  - split; [by intros (? & [= <-] & ?)|eauto].
  - split; [by intros (? & ? & _)|done].
Qed.

Lemma step_tracks_at i e s k V :
  sink_ e = Some s → counted (localState_ e) → announced_at k i → (k ∈ V ↔ k ∈ visible e) →
  k ∈ apply_events V (engine_step i e).2 ↔ k ∈ visible (engine_step i e).1.
Proof.
  intros Hs Hc Ha HV. destruct (pointwise_step i e) as [Hp (locals & t & p & -> & Hl & Hps)].
  rewrite apply_events_app, (apply_events_locals _ locals).
  2: { eapply Forall_impl; [exact Hl|]. by intros x []. }
  rewrite Hs, apply_deliverPending. specialize (Hps k) as [Hu Hr].
  rewrite elem_of_difference, elem_of_union, HV, !elem_of_visible, Hu, Hr, Hp.
  rewrite (cand_step_visible i e k _ Hc Ha).
  destruct (cand_step i e k (candidates_ e !! k)).2; cbn; naive_solver.
Qed.

Lemma step_tracks i e s :
  sink_ e = Some s → counted (localState_ e) → announced i →
  apply_events (visible e) (engine_step i e).2 = visible (engine_step i e).1.
Proof. intros Hs Hc Ha. apply set_eq. intros k. apply (step_tracks_at i e s k); [done..| |done]. by apply announced_everywhere. Qed.

Lemma step_sink_at k i e : announced_at k i → sink_ (engine_step i e).1 = sink_ e.
Proof. intros Ha. apply (engine_frame i e). intros s ->. done. Qed.

Lemma step_sink i e : announced i → sink_ (engine_step i e).1 = sink_ e.
Proof. intros Ha. apply (step_sink_at ""). by apply announced_everywhere. Qed.

Lemma run_tracks inputs e s :
  sink_ e = Some s → counted (localState_ e) → Forall announced inputs →
  apply_events (visible e) (engine_run inputs e).2 = visible (engine_run inputs e).1.
Proof.
  intros Hs Hc Hall. revert e Hs Hc. induction Hall as [|i inputs Hi _ IH]; intros e Hs Hc; cbn [engine_run]; [done|].
  pose proof (step_tracks i e s Hs Hc Hi) as Ht.
  pose proof (engine_step_counted i e Hc) as Hc'. pose proof (step_sink i e Hi) as Hs'.
  destruct (engine_step i e) as [e1 d1]. cbn [fst snd] in *. rewrite Hs in Hs'.
  specialize (IH e1 Hs' Hc'). destruct (engine_run inputs e1) as [e2 d2]. cbn [fst snd] in *.
  by rewrite apply_events_app, Ht.
Qed.
End events.

(** * Properties *)

Lemma events_track_aux `{InetPton} inputs config s :
  Forall announced inputs →
  let r := engine_run inputs (setEventSink (Some s) (engine_init config)) in
  apply_events ∅ r.2 = visible r.1 ∧
  (∀ k, k ∈ visible r.1 ↔ is_Some (findCandidateByMac k r.1)).
Proof.
  intros Ha r. split.
  - change ∅ with (visible (setEventSink (Some s) (engine_init config))).
    apply (run_tracks inputs _ s); [done| |done]. apply (counted_clear default_tracker).
  - intros k. rewrite elem_of_visible. unfold findCandidateByMac, opt_visible.
    destruct (candidates_ r.1 !! k) as [c|]; [destruct (isPublishable c)|]; cbn.
    + split; [by eexists|done].
    + split; [done|by intros []].
    + split; [done|by intros []].
Qed.

(** C3: a client that starts with nothing, adds the MAC of every
    [CandidateUpdated] event and drops the MAC of every [CandidateRemoved] event
    knows, after any sequence of announced inputs, exactly the set of MACs the
    model publishes: no published candidate is missed, none lingers. *)
Theorem events_track_published `{InetPton} inputs config s :
  Forall announced inputs →
  let r := engine_run inputs (setEventSink (Some s) (engine_init config)) in
  apply_events ∅ r.2 = visible r.1 ∧
  (∀ k, k ∈ visible r.1 ↔ is_Some (findCandidateByMac k r.1)).
Proof. apply events_track_aux. Qed.

Lemma events_track_published_witness :
  let inputs := [IMarkLive 1; INeighbor (demo_neighbor EvPresent 5) 5 5; IAge (seconds 100) 6;
                 ILink (link_obs "eth0" "02:00:00:00:00:07" EvPresent) 7;
                 INeighbor (demo_neighbor EvRemoved 8) 8 8] in
  let r := engine_run (H := demo_pton) inputs (setEventSink (Some 1) (engine_init default_model_config)) in
  length r.2 = 4 ∧ apply_events ∅ r.2 = visible r.1.
Proof.
  intros inputs r. split; [vm_compute; reflexivity|].
  apply (events_track_published (H := demo_pton) inputs default_model_config 1).
  repeat constructor. discriminate.
Defined.

(** A link that goes away announces the removal of a candidate that stays
    published: [isLocalMac] is already false when the candidate is reconciled.
    The candidate was published although its MAC was local, through LLDP. *)
Lemma link_removed_spurious_event :
  let lldp := mkLldpObservation (mkBase KLldp 2) "eth1" EvPresent (Some "02:00:00:00:00:07") None None false in
  let inputs := [IMarkLive 1; ILink (link_obs "eth0" "02:00:00:00:00:07" EvPresent) 1; ILldp lldp 2 2;
                 ILink (link_obs "eth0" "02:00:00:00:00:07" EvRemoved) 3] in
  let r := engine_run (H := demo_pton) inputs (setEventSink (Some 1) (engine_init default_model_config)) in
  "02:00:00:00:00:07" ∈ visible r.1 ∧ apply_events ∅ r.2 = ∅.
Proof. split; [by apply (bool_decide_unpack _); vm_compute | vm_compute; reflexivity]. Qed.

(** An IP seen on two interfaces is dropped when one of the two neighbour
    entries goes, although the other entry is still evidence for it. *)
Lemma neighbor_removed_drops_shared_ip :
  let n ifname ev := mkNeighborObservation (mkBase KNeighbor 1) ifname ev AF_INET "02:00:00:00:00:07"
                       "10.0.0.7" Reachable in
  let r := (engine_run (H := demo_pton) [IMarkLive 1; INeighbor (n "eth0" EvPresent) 1 1;
       INeighbor (n "eth1" EvPresent) 1 1; INeighbor (n "eth0" EvRemoved) 1 1]
       (engine_init default_model_config)).1 in
  (λ c, (size (c_neighborEvidence c), c_ipv4 c)) <$> findCandidateByMac "02:00:00:00:00:07" r
    = Some (1, ∅).
Proof. vm_compute. reflexivity. Qed.

Section lifecycle.
Context `{InetPton}.

Lemma deliver_no_pending sink t : deliverPending sink t no_pending = [].
Proof. by destruct sink. Qed.

Lemma age_candidate_idem cfg now c :
  age_candidate cfg now (age_candidate cfg now c) = age_candidate cfg now c.
Proof.
  unfold age_candidate at 2 3. case_bool_decide as Hs; [unfold age_candidate; by rewrite bool_decide_eq_true_2|].
  destruct (candidateExpire cfg <? now - c_lastSeen c)%Z eqn:He;
    [|destruct (candidateAgeout cfg <? now - c_lastSeen c)%Z eqn:Ha];
    unfold age_candidate; cbn; rewrite He, ?Ha; repeat case_bool_decide; by destruct c.
Qed.

Lemma keys_where_none f m : (∀ k c, m !! k = Some c → f c = false) → keys_where f m = ∅.
Proof.
  intros Hf. apply set_eq. intros k. rewrite elem_of_keys_where. split; [|set_solver].
  intros (c & Hc & Ht). apply Hf in Hc. congruence.
Qed.

Lemma age_pending_again cfg now m : age_pending cfg now (age_candidate cfg now <$> m) = no_pending.
Proof.
  unfold age_pending, no_pending. f_equal; apply keys_where_none; intros k d;
    rewrite lookup_fmap; (destruct (m !! k) as [c|]; [|done]); cbn; intros [= <-];
    rewrite age_candidate_idem, bool_decide_eq_false_2; tauto.
Qed.

(** Aging is exact and settles: it touches nothing but the status; a
    candidate that is neither [Removed] nor [Provisional] becomes [Expired]
    when unseen for more than [candidateExpire], else [Aged] when unseen for
    more than [candidateAgeout], else keeps its status; and a second pass at
    the same time changes nothing and delivers nothing. *)
Theorem age_exact e now t t' :
  let e' := (age now t e).1 in
  (∀ k, candidates_ e' !! k =
     (λ c, c <| c_status :=
        if decide (c_status c = Removed ∨ c_status c = Provisional) then c_status c
        else if decide (now - c_lastSeen c > candidateExpire (config_ e))%Z then Expired
        else if decide (now - c_lastSeen c > candidateAgeout (config_ e))%Z then Aged
        else c_status c |>) <$> candidates_ e !! k) ∧
  age now t' e' = (e', []).
Proof.
  cbn. split.
  - intros k. rewrite lookup_fmap. destruct (candidates_ e !! k) as [c|]; [|done]. cbn. f_equal.
    unfold age_candidate. case_bool_decide as Hs; [rewrite decide_True by done; by destruct c|].
    rewrite decide_False by done. destruct (Z.ltb_spec (candidateExpire (config_ e)) (now - c_lastSeen c)).
    + by rewrite decide_True by lia.
    + rewrite decide_False by lia.
      destruct (Z.ltb_spec (candidateAgeout (config_ e)) (now - c_lastSeen c)).
      * by rewrite decide_True by lia.
      * rewrite decide_False by lia. by destruct c.
  - unfold age. cbn.
    assert (Hid : age_candidate (config_ e) now <$> (age_candidate (config_ e) now <$> candidates_ e)
                  = age_candidate (config_ e) now <$> candidates_ e).
    { rewrite <- map_fmap_compose. apply map_fmap_ext. intros k c _. apply age_candidate_idem. }
    rewrite age_pending_again, deliver_no_pending. by rewrite Hid.
Qed.

Lemma keepalive_kept obs o :
  ll_keepalive obs = true → keepalive_dropped obs o = false →
  ∃ c, o = Some c ∧ c_status c ≠ Removed ∧ ll_event obs = EvPresent.
Proof.
  unfold keepalive_dropped. intros ->. cbn. intros [Hev Hc]%orb_false_iff.
  apply bool_decide_eq_false in Hev. destruct o as [c|]; [|done]. apply bool_decide_eq_false in Hc.
  exists c. split_and!; try done. destruct (ll_event obs); [done|exfalso; by apply Hev].
Qed.

Lemma present_lldp_evidence obs c : ll_event obs = EvPresent → hasNoEvidence (lldp_evidence obs c) = false.
Proof.
  intros He. destruct (hasNoEvidence _) eqn:Hno; [|done].
  apply hasNoEvidence_true in Hno as (_ & _ & Hl & _). unfold lldp_evidence in Hl. by rewrite He in Hl.
Qed.

(** C8: a keepalive only refreshes: it creates no candidate, leaves every
    candidate but the one it names untouched, never changes a [Removed]
    candidate, never confirms a [Provisional] one, revives an [Aged] or
    [Expired] one to [Confirmed], and is silent when neither status nor class
    changed. *)
Theorem keepalive_refreshes obs t1 t2 e :
  ll_keepalive obs = true →
  let r := onLldpObservation obs t1 t2 e in
  let key := resolveLldpIdentity (ll_remoteChassisId obs) (ll_remotePortId obs) in
  dom (candidates_ r.1) = dom (candidates_ e) ∧
  (∀ k, k ≠ key → candidates_ r.1 !! k = candidates_ e !! k) ∧
  (∀ c, candidates_ e !! key = Some c → ∃ c', candidates_ r.1 !! key = Some c' ∧
     (c_status c = Removed → c' = c) ∧
     (c' = c ∨ c_status c' = if decide (c_status c = Aged ∨ c_status c = Expired)
                             then Confirmed else c_status c) ∧
     (c_status c' = c_status c → c_classification c' = c_classification c → r.2 = [])).
Proof.
  intros Hk r key. subst r. unfold onLldpObservation. fold key.
  assert (Hsame : dom (candidates_ e) = dom (candidates_ e) ∧
    (∀ k, k ≠ key → candidates_ e !! k = candidates_ e !! k) ∧
    (∀ c, candidates_ e !! key = Some c → ∃ c', candidates_ e !! key = Some c' ∧
     (c_status c = Removed → c' = c) ∧
     (c' = c ∨ c_status c' = if decide (c_status c = Aged ∨ c_status c = Expired)
                             then Confirmed else c_status c) ∧
     (c_status c' = c_status c → c_classification c' = c_classification c → @nil (nat * ModelEvent) = []))).
  { split_and!; [done..|]. intros c Hc. exists c. auto. }
  destruct (negb (allowLldpEvidence _ _)); [exact Hsame|].
  destruct (str_empty key); [exact Hsame|].
  destruct (keepalive_dropped obs _) eqn:Hd; [exact Hsame|]. clear Hsame.
  destruct (keepalive_kept obs _ Hk Hd) as (c & Hc & Hnr & He). unfold getOrCreateCandidate. rewrite Hc.
  rewrite (present_lldp_evidence obs c He), Hk. cbv zeta.
  set (c1 := updateClassification e (lldp_evidence obs c)).
  assert (Hs1 : c_status c1 = c_status c) by (subst c1; unfold lldp_evidence; by destruct (ll_event obs)).
  rewrite Hs1. set (c2 := if bool_decide _ then _ else _).
  assert (Hs2 : c_status c2 = if decide (c_status c = Aged ∨ c_status c = Expired)
                              then Confirmed else c_status c).
  { subst c2. case_decide as Ha; [by rewrite (bool_decide_eq_true_2 _ Ha)|].
    by rewrite (bool_decide_eq_false_2 _ Ha). }
  clearbody c2. cbn [fst snd store_candidate candidates_]. split_and!.
  - cbn. apply dom_insert_lookup_L. by eexists.
  - intros k Hne. cbn. by apply lookup_insert_ne.
  - intros d [= <-]. exists c2. cbn. split_and!; [by apply lookup_insert_eq|done|by right|].
    intros Hst Hcl. unfold lldp_evidence in *. rewrite He. cbn.
    rewrite bool_decide_eq_false_2 by tauto. apply deliver_no_pending.
Qed.

(** ** A present neighbour, from evidence to publication *)

Lemma neighbor_present_evidence obs c :
  no_event obs = EvPresent →
  let c' := neighbor_evidence obs c in
  c_seenInNeigh c' = true ∧
  no_ip obs ∈ (if (no_family obs =? AF_INET)%Z then c_ipv4 c' else c_ipv6 c') ∧
  c_lastSeen c' = observedAt (no_base obs) ∧ c_firstSeen c' = c_firstSeen c ∧
  c_status c' = c_status c.
Proof.
  intros He. unfold neighbor_evidence. rewrite He.
  destruct (no_family obs =? AF_INET)%Z; cbn; (split_and!; try done; [|set_solver]);
    apply bool_decide_eq_true; set_solver.
Qed.

Lemma rule_based_neighbor_worthy obs c :
  no_event obs = EvPresent →
  isConfirmedWorthy (RuleBased_classify (neighbor_evidence obs c)) = true.
Proof.
  intros (Hn & Hip & _)%(neighbor_present_evidence obs c). unfold RuleBased_classify. rewrite Hn.
  assert (negb (bool_decide (c_ipv4 (neighbor_evidence obs c) = ∅)) ||
          negb (bool_decide (c_ipv6 (neighbor_evidence obs c) = ∅)) = true) as ->.
  { apply orb_true_iff. rewrite !negb_true_iff, !bool_decide_eq_false.
    destruct (no_family obs =? AF_INET)%Z; [left|right]; set_solver. }
  by repeat case_match.
Qed.

Lemma worthy_publishable c :
  isConfirmedWorthy (c_classification c) = true → c_status c = Confirmed → isPublishable c = true.
Proof. unfold isPublishable. intros Hw ->. cbn. by destruct (c_classification c). Qed.

Lemma present_live_confirmed e c :
  phase_ e = Live → isConfirmedWorthy (c_classification c) = true →
  c_status (reconcileStatusLocked e EvPresent c) = Confirmed.
Proof.
  intros Hl Hw. unfold reconcileStatusLocked. rewrite Hl.
  destruct c as [? ? ? ? ? ? ? ? ? ? ? ? ? ? ? ? cls st]; cbn in Hw.
  by destruct cls; try discriminate Hw; destruct st.
Qed.

Lemma present_has_evidence obs c : no_event obs = EvPresent → hasNoEvidence (neighbor_evidence obs c) = false.
Proof.
  intros (Hn & _)%(neighbor_present_evidence obs c). unfold hasNoEvidence. by rewrite Hn.
Qed.


Lemma reconcile_initializing e ev c :
  phase_ e = Initializing → c_status c = Provisional → reconcileStatusLocked e ev c = c.
Proof.
  intros Hi Hs. unfold reconcileStatusLocked. rewrite Hi. destruct c; cbn in *. subst. by destruct ev.
Qed.

Lemma provisional_unpublished e :
  map_Forall (λ _ c, c_status c = Provisional) (candidates_ e) → remoteCandidates e = [].
Proof.
  intros Hm. apply elem_of_nil_inv. intros c (Hp & k & Hk)%elem_of_remoteCandidates.
  by rewrite (provisional_not_visible c (Hm k c Hk)) in Hp.
Qed.

Lemma live_provisional e c :
  c_status c = Provisional →
  live_candidate e c =
    if isConfirmedWorthy (classify (classifier_ e) c)
    then Some ((updateClassification e c) <| c_status := Confirmed |>) else None.
Proof. intros Hs. unfold live_candidate. by rewrite Hs. Qed.

End lifecycle.

(** Witnesses: a live engine that knows an aged candidate. *)
Definition demo_lldp (keepalive : bool) (at_ : time_point) : LldpObservation :=
  mkLldpObservation (mkBase KLldp at_) "eth0" EvPresent (Some "02:00:00:00:00:07") None None keepalive.

Lemma keepalive_refreshes_witness :
  let e := (age (seconds 100) 6 demo_engine).1 in
  dom (candidates_ (onLldpObservation (demo_lldp true 9) 9 9 e).1) = dom (candidates_ e) ∧
  (c_status <$> candidates_ e !! "02:00:00:00:00:07") = Some Aged.
Proof.
  intros e. destruct (keepalive_refreshes (demo_lldp true 9) 9 9 e eq_refl) as [Hd _].
  split; [exact Hd|vm_compute; reflexivity].
Defined.

Lemma demo_engine_fields :
  phase_ demo_engine = Live ∧ classifier_ demo_engine = RuleBasedClassifier ∧
  allowRemoteNeighborEvidence (interfacePolicy_ demo_engine) "eth0" = true ∧
  passes_neighbor (H := demo_pton) (config_ demo_engine) (demo_neighbor EvPresent 5)
    (isLocalMac "02:00:00:00:00:07" (localState_ demo_engine))
    (isLocalIp "10.0.0.7" (localState_ demo_engine)) = true ∧
  passes_neighbor (H := demo_pton) (config_ demo_engine) (demo_neighbor EvPresent 7) false false = true.
Proof.
  split_and!; [vm_compute; reflexivity| |vm_compute; reflexivity..].
  vm_cast_no_check (@eq_refl _ RuleBasedClassifier).
Qed.


