(* ===== verification/Publication.v ===== *)
(** [service/PublicationQueue.h] and [service/ObservationService.cpp]: events of
    the model are marked in a coalescing queue, which the publication worker
    drains into signals of every transport; failures become issues.

    The queue's container, [thread_safe::dirty_set], is a library that is not
    part of the sources: it is the class [DirtySet], with the documented
    behaviour as [DirtySetLaws]. [diagnostics::sanitizeField] and
    [sanitizeMessage] are parameters, and so is what a transport does with a
    signal. Locks make each operation one step. *)

From S2P Require Import Prelude Contract Observation Filter Engine EngineProps EngineEvents.

(** * [PublicationQueue.h] *)

Inductive PublicationIntent := Changed | Gone.

(** The alternatives of [std::variant], in the order that is the emission order. *)
Inductive PublicationKey :=
| InterfaceKey (ifname : string)
| LocalStateKey
| CandidateKey (mac : string).

#[export] Instance PublicationIntent_eq_dec : EqDecision PublicationIntent.
Proof. solve_decision. Defined.
#[export] Instance PublicationKey_eq_dec : EqDecision PublicationKey.
Proof. solve_decision. Defined.

#[export] Program Instance PublicationKey_countable : Countable PublicationKey :=
  inj_countable'
    (λ k, match k with
          | InterfaceKey s => inl s | LocalStateKey => inr (inl tt) | CandidateKey s => inr (inr s)
          end)
    (λ x, match x with
          | inl s => InterfaceKey s | inr (inl _) => LocalStateKey | inr (inr s) => CandidateKey s
          end) _.
Next Obligation. by intros []. Qed.

(** [std::variant::operator<=]: the index first. *)
Definition variant_index (k : PublicationKey) : nat :=
  match k with InterfaceKey _ => 0 | LocalStateKey => 1 | CandidateKey _ => 2 end.

Definition publication_key_le (a b : PublicationKey) : Prop :=
  match a, b with
  | InterfaceKey s, InterfaceKey t | CandidateKey s, CandidateKey t => String.le s t
  | _, _ => (variant_index a ≤ variant_index b)%nat
  end.

Abbreviation PendingPublication := (gmap PublicationKey PublicationIntent).

Definition entry_le (p q : PublicationKey * PublicationIntent) : Prop := publication_key_le p.1 q.1.

#[export] Instance entry_le_dec : RelDecision entry_le.
Proof. intros [[] ?] [[] ?]; unfold entry_le; cbn; apply _. Defined.

(** Iteration of the [std::map]. *)
Definition pending_iter (p : PendingPublication) : list (PublicationKey * PublicationIntent) :=
  merge_sort entry_le (map_to_list p).

(** ** [thread_safe::dirty_set], an external library *)

Class DirtySet (D : Type) := {
  ds_mark : PublicationKey → PublicationIntent → D → bool * D;
  ds_take : D → option PendingPublication * D;
  ds_wait : bool → D → option (option PendingPublication) * D;
  ds_wake : D → D;
  ds_close : D → D;
  ds_reopen : D → D;
  ds_closed : D → bool
}.

(** Last writer wins per key; a closed set drops marks but still drains. Waiting
    (the flag: a stop was requested) gives what is pending, also when told to
    stop, as [publicationLoop] relies on; with nothing pending it gives nothing
    when told to stop or closed, and else still waits ([None]). *)
Class DirtySetLaws (D : Type) `{DirtySet D} := {
  ds_pending : D → PendingPublication;
  mark_open k v d : ds_closed d = false → ds_pending (ds_mark k v d).2 = <[k := v]> (ds_pending d);
  mark_closed k v d : ds_closed d = true → ds_pending (ds_mark k v d).2 = ds_pending d;
  mark_keeps_open k v d : ds_closed (ds_mark k v d).2 = ds_closed d;
  take_pending d : (ds_take d).1 = if decide (ds_pending d = ∅) then None else Some (ds_pending d);
  take_empties d : ds_pending (ds_take d).2 = ∅;
  take_keeps_open d : ds_closed (ds_take d).2 = ds_closed d;
  wait_takes stop d : ds_wait stop d =
    (match (ds_take d).1 with Some p => Some (Some p) | None => if stop || ds_closed d then Some None else None end, (ds_take d).2);
  close_closed d : ds_closed (ds_close d) = true;
  wake_pending d : ds_pending (ds_wake d) = ds_pending d;
  close_pending d : ds_pending (ds_close d) = ds_pending d;
  reopen_pending d : ds_pending (ds_reopen d) = ∅;
  reopen_open d : ds_closed (ds_reopen d) = false
}.

Section queue.
Context {D : Type} `{DirtySet D}.

Definition markCandidateChanged (mac : string) (d : D) : bool * D := ds_mark (CandidateKey mac) Changed d.
Definition markCandidateRemoved (mac : string) (d : D) : bool * D := ds_mark (CandidateKey mac) Gone d.
Definition markInterfaceChanged (ifname : string) (d : D) : bool * D := ds_mark (InterfaceKey ifname) Changed d.
Definition markInterfaceRemoved (ifname : string) (d : D) : bool * D := ds_mark (InterfaceKey ifname) Gone d.
Definition markLocalStateChanged (d : D) : bool * D := ds_mark LocalStateKey Changed d.
Definition tryTake (d : D) : option PendingPublication * D := ds_take d.
Definition waitAndTake (stop : bool) (d : D) : option (option PendingPublication) * D := ds_wait stop d.

(** * [ObservationService::onModelEvent] *)

Definition service_onModelEvent (event : ModelEvent) (d : D) : D :=
  match ev_kind event with
  | LocalInterfaceChanged | LocalAddressChanged =>
      let d := match ev_ifname event with Some n => (markInterfaceChanged n d).2 | None => d end in
      (markLocalStateChanged d).2
  | LocalInterfaceRemoved =>
      let d := match ev_ifname event with Some n => (markInterfaceRemoved n d).2 | None => d end in
      (markLocalStateChanged d).2
  | CandidateAdded | CandidateUpdated | CandidateConfirmed | CandidateAged | ClassificationChanged =>
      match ev_mac event with Some mac => (markCandidateChanged mac d).2 | None => d end
  | CandidateExpired | CandidateRemoved =>
      match ev_mac event with Some mac => (markCandidateRemoved mac d).2 | None => d end
  end.
End queue.

(** * Signals and transports *)

(** The calls of [IObservationTransport] that publish. *)
Inductive Signal :=
| PublishCandidateChanged (mac : string)
| PublishCandidateRemoved (mac : string)
| PublishInterfaceChanged (ifname : string)
| PublishInterfaceRemoved (ifname : string)
| PublishLocalStateChanged.

(** What a publishing call does: return, throw a [std::exception], throw anything else. *)
Inductive PublishOutcome := PReturns | PThrows (what : string) | PThrowsUnknown.

Record IObservationTransport := mkTransport {
  transport_name : string;
  transport_publish : Signal → PublishOutcome
}.

(** [dispatchPublication] with the three handlers of [publishBatch]: the
    operation name and the signal of each entry, in key order. *)
Definition entry_signal (e : PublicationKey * PublicationIntent) : string * Signal :=
  match e with
  | (CandidateKey mac, Changed) => ("publish_candidate_changed", PublishCandidateChanged mac)
  | (CandidateKey mac, Gone) => ("publish_candidate_removed", PublishCandidateRemoved mac)
  | (InterfaceKey n, Changed) => ("publish_interface_changed", PublishInterfaceChanged n)
  | (InterfaceKey n, Gone) => ("publish_interface_removed", PublishInterfaceRemoved n)
  | (LocalStateKey, _) => ("publish_local_state_changed", PublishLocalStateChanged)
  end.

Definition dispatchPublication (p : PendingPublication) : list (string * Signal) :=
  entry_signal <$> pending_iter p.

(** * Issues *)

Section issues.
Context (sanitizeField sanitizeMessage : string → string).
Implicit Types issues : ObservationIssues.

Definition makeTransportIssueCode (transportName operation : string) : string :=
  "observation.transport." +:+ sanitizeField transportName +:+ "." +:+ sanitizeField operation +:+ ".failed".

(** The flag tells whether the issue is logged, that is, whether it changed. *)
Definition reportIssue (issueCode severity component operation category identity message : string)
    (issues : ObservationIssues) : bool * ObservationIssues :=
  let fields : gmap string string := list_to_map
    [(NetObs.ISSUE_SEVERITY, sanitizeField severity);
     (NetObs.ISSUE_COMPONENT, sanitizeField component);
     (NetObs.ISSUE_OPERATION, sanitizeField operation);
     (NetObs.ISSUE_CATEGORY, sanitizeField category);
     (NetObs.ISSUE_IDENTITY, sanitizeField identity);
     (NetObs.ISSUE_MESSAGE, sanitizeMessage message)] in
  if decide (issues !! issueCode = Some fields) then (false, issues)
  else (true, <[issueCode := fields]> issues).

Definition clearIssue (issueCode : string) (issues : ObservationIssues) : bool * ObservationIssues :=
  (bool_decide (is_Some (issues !! issueCode)), delete issueCode issues).

Definition noteTransportPublishFailure (transportName operation message : string)
    (issues : ObservationIssues) : ObservationIssues :=
  (reportIssue (makeTransportIssueCode transportName operation) NetObs.SEVERITY_WARNING
     ("transport." +:+ sanitizeField transportName) operation "transport_publish_failed"
     transportName message issues).2.

Definition clearTransportPublishFailure (transportName operation : string)
    (issues : ObservationIssues) : ObservationIssues :=
  (clearIssue (makeTransportIssueCode transportName operation) issues).2.

(** One transport of [publishToAll]; the call made is recorded. *)
Definition publishOne (operation : string) (s : Signal)
    (acc : ObservationIssues * list (string * Signal)) (t : IObservationTransport)
    : ObservationIssues * list (string * Signal) :=
  let '(issues, calls) := acc in
  let calls := calls ++ [(transport_name t, s)] in
  match transport_publish t s with
  | PReturns => (clearTransportPublishFailure (transport_name t) operation issues, calls)
  | PThrows what => (noteTransportPublishFailure (transport_name t) operation what issues, calls)
  | PThrowsUnknown =>
      (noteTransportPublishFailure (transport_name t) operation "unknown exception" issues, calls)
  end.

Definition publishToAll (ts : list IObservationTransport) (operation : string) (s : Signal)
    (issues : ObservationIssues) : ObservationIssues * list (string * Signal) :=
  foldl (publishOne operation s) (issues, []) ts.

Definition publishBatch (ts : list IObservationTransport) (p : PendingPublication)
    (issues : ObservationIssues) : ObservationIssues * list (string * Signal) :=
  foldl (λ acc e, let '(issues, calls) := acc in
                  let '(issues, calls') := publishToAll ts e.1 e.2 issues in (issues, calls ++ calls'))
    (issues, []) (dispatchPublication p).

(** [ports/IObservationRuntime.h] *)
Record ObservationRuntimeHealth := mkHealth { health_running : bool; health_lldpAvailable : bool }.

Definition refreshRuntimeIssues (health : ObservationRuntimeHealth) (issues : ObservationIssues)
    : ObservationIssues :=
  let issues :=
    if negb (health_running health) then
      (reportIssue NetObs.ISSUE_CODE_RUNTIME_STOPPED NetObs.SEVERITY_ERROR "runtime" "poll_health"
         "runtime_stopped" "runtime" "runtime is not running" issues).2
    else (clearIssue NetObs.ISSUE_CODE_RUNTIME_STOPPED issues).2 in
  if negb (health_lldpAvailable health) then
    (reportIssue NetObs.ISSUE_CODE_LLDP_UNAVAILABLE NetObs.SEVERITY_WARNING "input.lldp" "poll_health"
       "input_degraded" "lldp" "LLDP observer is unavailable" issues).2
  else (clearIssue NetObs.ISSUE_CODE_LLDP_UNAVAILABLE issues).2.

(** How a worker ended: [ManagedWorker::Exit], with the text of the exception
    ([None]: not a [std::exception]). *)
Inductive WorkerExit := ExitNormal | ExitException (what : option string).

Definition exit_detail (what : option string) : string := default "unknown exception" what.

Definition onWorkerExit (code component operation identity : string) (exit : WorkerExit)
    (issues : ObservationIssues) : ObservationIssues :=
  match exit with
  | ExitNormal => issues
  | ExitException what =>
      (reportIssue code NetObs.SEVERITY_ERROR component operation "worker_loop_failed" identity
         (exit_detail what) issues).2
  end.

Definition onPublicationWorkerExit := onWorkerExit NetObs.ISSUE_CODE_PUBLICATION_LOOP_STOPPED
  "worker.publication" "publish" "publication".
Definition onAgingWorkerExit := onWorkerExit NetObs.ISSUE_CODE_AGING_LOOP_STOPPED
  "worker.aging" "age" "aging".
Definition onSupervisionWorkerExit := onWorkerExit NetObs.ISSUE_CODE_SUPERVISION_LOOP_STOPPED
  "worker.supervision" "tick" "supervision".
End issues.

(** * Queries of the service *)

Definition service_getInterface (ifname : string) (snapshot : LocalNetworkSnapshot)
    : option LocalInterfaceState := sn_interfaces snapshot !! ifname.

Definition service_getPhase (isRunning isReady : bool) : string :=
  if negb isRunning then NetObs.PHASE_STOPPED
  else if isReady then NetObs.PHASE_LIVE else NetObs.PHASE_INITIALIZING.

(** * The life cycle of the service

    [ServiceBase], [LifecycleCoordinator] and [ManagedWorker] are libraries;
    whether each start succeeds is an input, and the sequence of calls the
    service makes is the result. *)

Inductive ServicePart :=
| PBase | PQueue | PPublicationWorker | PRuntime | PAgingWorker | PSupervisionWorker.

#[export] Instance ServicePart_eq_dec : EqDecision ServicePart.
Proof. solve_decision. Defined.
#[export] Instance ServicePart_countable : Countable ServicePart.
Proof.
  refine (inj_countable'
    (λ p, match p with PBase => 0 | PQueue => 1 | PPublicationWorker => 2 | PRuntime => 3
                     | PAgingWorker => 4 | PSupervisionWorker => 5 end)
    (λ n, match n with 0 => PBase | 1 => PQueue | 2 => PPublicationWorker | 3 => PRuntime
                     | 4 => PAgingWorker | _ => PSupervisionWorker end) _).
  abstract (by intros []).
Defined.

(** [AStart p ok]: a start call and whether it succeeded; reopening and closing
    the publication queue are its start and stop. *)
Inductive ServiceAction :=
| AStart (p : ServicePart) (ok : bool)
| AStop (p : ServicePart)
| ARefreshIssues | ASetReady | AQuiesceQueries | AClearIssues.

(** [runtime_throws]: [runtime_->stop()] throws, which [stop] catches. *)
Record StartOutcomes := mkOutcomes {
  base_starts : bool; publication_starts : bool; runtime_starts : bool;
  aging_starts : bool; supervision_starts : bool
}.

Definition onStartFailedCleanUp : list ServiceAction :=
  [AStop PSupervisionWorker; AStop PAgingWorker; AStop PRuntime; AStop PQueue;
   AStop PPublicationWorker; AStop PBase].

(** [owned]: [beginStart] returned an owned transition. *)
Definition service_start (owned : bool) (o : StartOutcomes) : bool * list ServiceAction :=
  if negb owned then (true, [])
  else if negb (base_starts o) then (false, [AStart PBase false])
  else
    let tr := [AStart PBase true; AStart PQueue true; AStart PPublicationWorker (publication_starts o)] in
    if negb (publication_starts o) then (false, tr ++ [AStop PQueue; AStop PBase])
    else
      let tr := tr ++ [AStart PRuntime (runtime_starts o)] in
      if negb (runtime_starts o) then (false, tr ++ onStartFailedCleanUp)
      else
        let tr := tr ++ [ARefreshIssues; ASetReady; AStart PAgingWorker (aging_starts o)] in
        if negb (aging_starts o) then (false, tr ++ onStartFailedCleanUp)
        else
          let tr := tr ++ [AStart PSupervisionWorker (supervision_starts o)] in
          if negb (supervision_starts o) then (false, tr ++ onStartFailedCleanUp) else (true, tr).

(** [onWorker]: called from a worker thread; [owned]: [beginStop] succeeded. *)
Definition service_stop (onWorker owned : bool) : list ServiceAction :=
  if onWorker then []
  else if negb owned then []
  else [AQuiesceQueries; AStop PSupervisionWorker; AStop PAgingWorker; AStop PRuntime; AStop PQueue;
        AStop PPublicationWorker; AClearIssues; AStop PBase].

(** * Specification *)

(** The parts running after an action. *)
Definition run_action (R : gset ServicePart) (a : ServiceAction) : gset ServicePart :=
  match a with
  | AStart p true => {[p]} ∪ R
  | AStart p false => R
  | AStop p => R ∖ {[p]}
  | _ => R
  end.
Definition parts_after (R : gset ServicePart) (l : list ServiceAction) : gset ServicePart :=
  foldl run_action R l.

Definition all_parts : gset ServicePart :=
  {[PBase; PQueue; PPublicationWorker; PRuntime; PAgingWorker; PSupervisionWorker]}.

(** A running part finds running the parts it uses: the workers the runtime,
    the runtime (whose events it marks) the queue and its consumer, all the base. *)
Definition parts_ok (R : gset ServicePart) : bool :=
  bool_decide ((PSupervisionWorker ∈ R → PRuntime ∈ R) ∧ (PAgingWorker ∈ R → PRuntime ∈ R) ∧
    (PRuntime ∈ R → PQueue ∈ R ∧ PPublicationWorker ∈ R) ∧
    (PPublicationWorker ∈ R → PBase ∈ R) ∧ (PQueue ∈ R → PBase ∈ R)).

Fixpoint always_ok (R : gset ServicePart) (l : list ServiceAction) : bool :=
  parts_ok R && match l with [] => true | a :: l => always_ok (run_action R a) l end.

(** The candidates a client knows from the signals it receives. *)
Definition apply_signal (V : gset string) (s : Signal) : gset string :=
  match s with
  | PublishCandidateChanged mac => {[mac]} ∪ V
  | PublishCandidateRemoved mac => V ∖ {[mac]}
  | _ => V
  end.

(** Events marked by the model's thread and generations drained by the worker,
    in the order they happen. *)
Inductive PubStep := PEvent (ev : ModelEvent) | PDrain.

Section coalescing.
Context {D : Type} `{DirtySetLaws D}.

Definition drained_signals (p : option PendingPublication) : list Signal :=
  match p with Some p => (dispatchPublication p).*2 | None => [] end.

Definition pub_step (st : D * list Signal) (x : PubStep) : D * list Signal :=
  match x with
  | PEvent ev => (service_onModelEvent ev st.1, st.2)
  | PDrain => let '(p, d) := tryTake st.1 in (d, st.2 ++ drained_signals p)
  end.
Definition pub_run (d : D) (l : list PubStep) : D * list Signal := foldl pub_step (d, []) l.

Definition pub_events (l : list PubStep) : list ModelEvent :=
  omap (λ x, match x with PEvent ev => Some ev | PDrain => None end) l.

(** What the pending publications make of a client's view. *)
Definition overlaid (V : gset string) (p : PendingPublication) (k : string) : Prop :=
  match p !! CandidateKey k with Some Changed => True | Some Gone => False | None => k ∈ V end.

(** ** Signals of one generation *)

Lemma elem_of_pending_iter p k v : (k, v) ∈ pending_iter p ↔ p !! k = Some v.
Proof.
  unfold pending_iter. rewrite merge_sort_Permutation. apply elem_of_map_to_list.
Qed.

Lemma pending_iter_nodup p : NoDup (pending_iter p).*1.
Proof. unfold pending_iter. rewrite merge_sort_Permutation. apply NoDup_fst_map_to_list. Qed.

Lemma apply_entries (l : list (PublicationKey * PublicationIntent)) V k :
  NoDup l.*1 →
  k ∈ foldl apply_signal V ((entry_signal <$> l).*2) ↔
  ((CandidateKey k, Changed) ∈ l ∨ (¬ (CandidateKey k, Gone) ∈ l) ∧ k ∈ V).
Proof.
  revert V. induction l as [|[key v] l IH]; intros V; cbn; [set_solver|].
  intros [Hn Hnd]%NoDup_cons. rewrite IH by done.
  assert (Hkv : ∀ w, (key, w) ∉ l).
  { intros w Hw. apply Hn. by apply (list_elem_of_fmap_2 fst) in Hw. }
  destruct key as [s| |s], v; cbn; rewrite ?not_elem_of_cons, !elem_of_cons;
    pose proof (Hkv Changed); pose proof (Hkv Gone); set_solver.
Qed.

Lemma drained_view V p k : k ∈ foldl apply_signal V (dispatchPublication p).*2 ↔ overlaid V p k.
Proof.
  unfold dispatchPublication. rewrite apply_entries by apply pending_iter_nodup.
  rewrite !elem_of_pending_iter. unfold overlaid.
  destruct (p !! CandidateKey k) as [[]|]; naive_solver.
Qed.

(** ** Marking an event is applying it to the overlaid view *)

Definition event_marks (ev : ModelEvent) (p : PendingPublication) : PendingPublication :=
  match ev_kind ev with
  | LocalInterfaceChanged | LocalAddressChanged =>
      <[LocalStateKey := Changed]>
        (match ev_ifname ev with Some n => <[InterfaceKey n := Changed]> p | None => p end)
  | LocalInterfaceRemoved =>
      <[LocalStateKey := Changed]>
        (match ev_ifname ev with Some n => <[InterfaceKey n := Gone]> p | None => p end)
  | CandidateAdded | CandidateUpdated | CandidateConfirmed | CandidateAged | ClassificationChanged =>
      match ev_mac ev with Some mac => <[CandidateKey mac := Changed]> p | None => p end
  | CandidateExpired | CandidateRemoved =>
      match ev_mac ev with Some mac => <[CandidateKey mac := Gone]> p | None => p end
  end.

Lemma onModelEvent_open ev d : ds_closed (service_onModelEvent ev d) = ds_closed d.
Proof.
  unfold service_onModelEvent, markCandidateChanged, markCandidateRemoved, markInterfaceChanged,
    markInterfaceRemoved, markLocalStateChanged.
  destruct (ev_kind ev), (ev_ifname ev), (ev_mac ev); by rewrite ?mark_keeps_open.
Qed.

Lemma onModelEvent_pending ev d :
  ds_closed d = false → ds_pending (service_onModelEvent ev d) = event_marks ev (ds_pending d).
Proof.
  intros Ho. unfold service_onModelEvent, event_marks, markCandidateChanged, markCandidateRemoved,
    markInterfaceChanged, markInterfaceRemoved, markLocalStateChanged.
  destruct (ev_kind ev), (ev_ifname ev), (ev_mac ev); by rewrite ?mark_open by (by rewrite ?mark_keeps_open).
Qed.

Lemma event_marks_overlay V p ev W k :
  (overlaid V p k ↔ k ∈ W) → overlaid V (event_marks ev p) k ↔ k ∈ apply_event W ev.
Proof.
  intros Hv. unfold event_marks, apply_event, overlaid in *.
  destruct (ev_kind ev), (ev_ifname ev), (ev_mac ev) as [m|]; cbn;
    rewrite ?lookup_insert_ne by done; try done;
    (destruct (decide (m = k)) as [->|Hne];
      [rewrite lookup_insert_eq; set_solver | rewrite lookup_insert_ne by congruence; set_solver]).
Qed.

Lemma pub_run_view l d V :
  ds_closed d = false → ds_pending d = ∅ →
  let r := pub_run d l in
  ds_closed r.1 = false ∧
  ∀ k, overlaid (foldl apply_signal V r.2) (ds_pending r.1) k ↔ k ∈ foldl apply_event V (pub_events l).
Proof.
  intros Ho Hp. unfold pub_run.
  induction l as [|x l IH] using rev_ind; [by cbn; rewrite Hp|].
  rewrite foldl_app. unfold pub_events in *. rewrite omap_app, foldl_app.
  destruct IH as [Ho' Hv]. set (st := foldl pub_step (d, []) l) in *. destruct x as [ev|]; cbn.
  - rewrite onModelEvent_open, onModelEvent_pending by done. split; [done|].
    intros k. by apply event_marks_overlay.
  - unfold tryTake. pose proof (take_pending st.1) as Ht. pose proof (take_empties st.1) as He.
    pose proof (take_keeps_open st.1) as Hk.
    destruct (ds_take st.1) as [p d']. cbn in *. split; [congruence|]. intros k.
    rewrite <- Hv, He. unfold overlaid at 1. rewrite lookup_empty, foldl_app, Ht.
    case_decide as Hemp; cbn.
    + unfold overlaid. by rewrite Hemp, lookup_empty.
    + apply drained_view.
Qed.
End coalescing.

(** ** Failure isolation of [publishToAll] *)

Lemma publishToAll_calls sf sm ts op s issues :
  (publishToAll sf sm ts op s issues).2 = (λ t, (transport_name t, s)) <$> ts.
Proof.
  unfold publishToAll. assert (Hg : ∀ acc, (foldl (publishOne sf sm op s) acc ts).2 =
    acc.2 ++ ((λ t, (transport_name t, s)) <$> ts)).
  { induction ts as [|t ts IH]; intros [i c]; cbn; [by rewrite app_nil_r|].
    rewrite IH. destruct (transport_publish t s); cbn; by rewrite <- app_assoc. }
  apply Hg.
Qed.

Lemma reportIssue_code sf sm code sev comp op cat id msg issues code' :
  let r := (reportIssue sf sm code sev comp op cat id msg issues).2 in
  is_Some (r !! code') ↔ code' = code ∨ is_Some (issues !! code').
Proof.
  unfold reportIssue. case_decide as Hd; cbn.
  - split; [by right|]. intros [->|]; [|done]. rewrite Hd. by eexists.
  - destruct (decide (code = code')) as [->|Hne].
    + rewrite lookup_insert_eq. split; [by left|by eexists].
    + rewrite lookup_insert_ne by done. naive_solver.
Qed.

Lemma reportIssue_other sf sm code sev comp op cat id msg issues code' :
  code' ≠ code → (reportIssue sf sm code sev comp op cat id msg issues).2 !! code' = issues !! code'.
Proof. intros Hne. unfold reportIssue. case_decide; cbn; [done|]. by rewrite lookup_insert_ne. Qed.

(** One transport writes only under its own code, and leaves an issue there
    exactly when its call threw. *)
Lemma publishOne_issues sf sm op s acc t code :
  let issues' := (publishOne sf sm op s acc t).1 in
  (code ≠ makeTransportIssueCode sf (transport_name t) op → issues' !! code = acc.1 !! code) ∧
  (is_Some (issues' !! makeTransportIssueCode sf (transport_name t) op) ↔ transport_publish t s ≠ PReturns).
Proof.
  destruct acc as [issues calls]. unfold publishOne. destruct (transport_publish t s) as [|what|]; cbn.
  - split; [intros Hne; by rewrite lookup_delete_ne|]. rewrite lookup_delete_eq. split; [by intros []|done].
  - split; [apply reportIssue_other|]. unfold noteTransportPublishFailure.
    rewrite reportIssue_code. split; [done|by left].
  - split; [apply reportIssue_other|]. unfold noteTransportPublishFailure.
    rewrite reportIssue_code. split; [done|by left].
Qed.

Lemma publish_issues sf sm ts op s acc :
  let code t := makeTransportIssueCode sf (transport_name t) op in
  let r := foldl (publishOne sf sm op s) acc ts in
  NoDup (code <$> ts) →
  (∀ t, t ∈ ts → is_Some (r.1 !! code t) ↔ transport_publish t s ≠ PReturns) ∧
  (∀ c, c ∉ code <$> ts → r.1 !! c = acc.1 !! c).
Proof.
  intros code. cbn zeta. revert acc.
  induction ts as [|t ts IH]; intros acc; cbn; [intros _; split; [set_solver|done]|].
  intros [Hn Hnd]%NoDup_cons. destruct (IH (publishOne sf sm op s acc t) Hnd) as [Hin Hout].
  destruct (publishOne_issues sf sm op s acc t (code t)) as [_ Hsome]. split.
  - intros t' [->|Ht']%elem_of_cons; [|by apply Hin]. by rewrite Hout.
  - intros c [Hc Hc']%not_elem_of_cons. rewrite Hout by done. by apply publishOne_issues.
Qed.

(** * Properties *)

(** End to end, from observations to a D-Bus client: whatever announced
    inputs the model processes, and however the marking of its events interleaves
    with the drains of the publication worker, once the worker has drained the
    queue the candidate signals sent so far tell a client exactly the set of
    MACs the model publishes, although intermediate events were coalesced. *)
Theorem client_view_exact `{InetPton} {D} `{DirtySetLaws D} inputs config s (d : D) steps :
  ds_closed d = false → ds_pending d = ∅ → Forall announced inputs →
  let r := engine_run inputs (setEventSink (Some s) (engine_init config)) in
  pub_events steps = r.2.*2 →
  foldl apply_signal ∅ (pub_run d (steps ++ [PDrain])).2 = visible r.1.
Proof.
  intros Ho Hp Ha r Hev. apply set_eq. intros k.
  destruct (pub_run_view (steps ++ [PDrain]) d ∅ Ho Hp) as [_ Hv]. specialize (Hv k).
  assert (He : ds_pending (pub_run d (steps ++ [PDrain])).1 = ∅).
  { unfold pub_run. rewrite foldl_app. cbn. unfold tryTake.
    pose proof (take_empties (foldl pub_step (d, []) steps).1) as He.
    by destruct (ds_take (foldl pub_step (d, []) steps).1). }
  unfold overlaid in Hv. rewrite He, lookup_empty in Hv. rewrite Hv.
  unfold pub_events in *. rewrite omap_app, Hev. cbn. rewrite app_nil_r.
  destruct (events_track_aux inputs config s Ha) as [Ht _]. fold r in Ht. by rewrite <- Ht.
Qed.

(** C23: publication failures are isolated: every transport receives every
    publication, whatever the others do; when the issue codes of the transports
    are distinct, afterwards a transport has an issue for the operation exactly
    when its own call threw, and no other issue changes. *)
Theorem publish_isolated sf sm ts op s issues :
  let code t := makeTransportIssueCode sf (transport_name t) op in
  NoDup (code <$> ts) →
  let r := publishToAll sf sm ts op s issues in
  r.2 = (λ t, (transport_name t, s)) <$> ts ∧
  (∀ t, t ∈ ts → is_Some (r.1 !! code t) ↔ transport_publish t s ≠ PReturns) ∧
  (∀ c, c ∉ code <$> ts → r.1 !! c = issues !! c).
Proof.
  intros code Hnd r. split; [apply publishToAll_calls|].
  apply (publish_issues sf sm ts op s (issues, [])). exact Hnd.
Qed.

(** Start is all or nothing, and the order of starting and stopping is safe:
    a successful start leaves every part running, a failed one leaves none, a
    stop leaves none; and at every moment of a start, of a failed start's clean
    up and of a stop, the workers run only while the runtime runs, and the
    runtime only while the publication queue is open with its consumer running. *)
Theorem service_lifecycle_safe o :
  let '(ok, tr) := service_start true o in
  parts_after ∅ tr = (if ok then all_parts else ∅) ∧
  parts_after (parts_after ∅ tr) (service_stop false true) = ∅ ∧
  always_ok ∅ (tr ++ (if ok then service_stop false true else [])) = true.
Proof. destruct o as [[] [] [] [] []]; vm_compute; split_and!; reflexivity. Qed.

(** * Witnesses: a container with the documented behaviour *)

Record MapDirtySet := mkDirty { md_pending : PendingPublication; md_closed : bool }.

#[export] Instance map_dirty_set : DirtySet MapDirtySet := {
  ds_mark k v d := if md_closed d then (false, d) else (true, mkDirty (<[k := v]> (md_pending d)) false);
  ds_take d := (if decide (md_pending d = ∅) then None else Some (md_pending d), mkDirty ∅ (md_closed d));
  ds_wait stop d :=
    (if decide (md_pending d = ∅) then if stop || md_closed d then Some None else None else Some (Some (md_pending d)),
     mkDirty ∅ (md_closed d));
  ds_wake d := d;
  ds_close d := mkDirty (md_pending d) true;
  ds_reopen d := mkDirty ∅ false;
  ds_closed := md_closed
}.

#[export] Instance map_dirty_set_laws : DirtySetLaws MapDirtySet.
Proof.
  refine {| ds_pending := md_pending |}; try done.
  1-3: intros k v [p c]; cbn; by destruct c.
  intros stop [p c]. cbn. by destruct (decide (p = ∅)).
Defined.

Lemma client_view_exact_witness :
  let inputs := [IMarkLive 1; INeighbor (demo_neighbor EvPresent 5) 5 5;
                 INeighbor (demo_neighbor EvRemoved 8) 8 8; INeighbor (demo_neighbor EvPresent 9) 9 9] in
  let r := engine_run (H := demo_pton) inputs (setEventSink (Some 1) (engine_init default_model_config)) in
  foldl apply_signal ∅ (pub_run (mkDirty ∅ false) ((PEvent <$> r.2.*2) ++ [PDrain])).2 = visible r.1 ∧
  length r.2 = 3 ∧ length (pub_run (mkDirty ∅ false) ((PEvent <$> r.2.*2) ++ [PDrain])).2 = 1.
Proof.
  intros inputs r. split; [|split; vm_compute; reflexivity].
  apply (client_view_exact (H := demo_pton) inputs default_model_config 1); try done.
  - repeat constructor.
Defined.

Lemma publish_isolated_witness :
  let t1 := mkTransport "a" (λ _, PThrows "boom") in
  let t2 := mkTransport "b" (λ _, PReturns) in
  let id := λ x : string, x in
  let r := publishToAll id id [t1; t2] "op" PublishLocalStateChanged ∅ in
  is_Some (r.1 !! makeTransportIssueCode id "a" "op") ∧ length r.2 = 2.
Proof.
  intros t1 t2 id r.
  destruct (publish_isolated id id [t1; t2] "op" PublishLocalStateChanged ∅) as (Hc & Hi & _).
  { apply (bool_decide_unpack (NoDup _)). vm_compute. exact I. }
  split; [apply (Hi t1); [by left|done]|]. subst r. by rewrite Hc.
Defined.
