(* ===== verification/ServiceRun.v ===== *)
(** [service/ObservationService.{h,cpp}] at work: its construction and its
    transports, the queries it forwards to the runtime, and its three workers
    ([publicationLoop], [agingLoop], [supervisionLoop]) around the model, as steps
    that interleave. The parts they use are in [Publication].

    A turn of a loop is one step: it works on the model and on the queue in single
    calls under their locks, and what a publication turn sends was taken before. *)

From S2P Require Import Prelude Contract Observation LocalState Filter Engine EngineProps EngineEvents Publication.

(** * Construction *)

(** A transport of the base class, of this service's interface or another one. *)
Inductive BaseTransport := TObservation (t : IObservationTransport) | TOther.

Definition observationTransports (transports : list BaseTransport) : list IObservationTransport :=
  omap (λ t, match t with TObservation t => Some t | TOther => None end) transports.

Record ObservationService := mkService {
  sv_transports : list BaseTransport; sv_agingInterval : Z; sv_supervisionInterval : Z
}.

(** [runtime]: it is not null. The error is the text of the exception. *)
Definition new_ObservationService (runtime : bool) (transport : option IObservationTransport) (agingInterval : Z)
    : result string ObservationService :=
  if negb runtime then Err "ObservationService: runtime is null"
  else match transport with
       | None => Err "ObservationService: transport is null"
       | Some t => Ok (mkService [TObservation t] agingInterval agingInterval)
       end.

Definition service_addTransport (isRunning : bool) (transport : option IObservationTransport) (s : ObservationService)
    : result string ObservationService :=
  match transport with
  | None => Err "ObservationService::addTransport: transport is null"
  | Some t =>
      if isRunning then Err "ObservationService::addTransport: cannot add transports after start"
      else Ok (mkService (sv_transports s ++ [TObservation t]) (sv_agingInterval s) (sv_supervisionInterval s))
  end.

(** [initializeComponents]: the runtime's sink is the service, and every transport
    of its interface is bound to it. *)
Definition initializeComponents (self : nat) (s : ObservationService) (e : ObservationModelEngine)
    : bool * ObservationModelEngine * list string :=
  (true, setEventSink (Some self) e, transport_name <$> observationTransports (sv_transports s)).

(** * The state at work *)

(** [sv_calls]: the publishing calls of all transports, in order; a worker that
    ended has how it ended. *)
Record ServiceState (D : Type) := mkServiceState {
  sv_engine : ObservationModelEngine; sv_queue : D; sv_issues : ObservationIssues; sv_calls : list (string * Signal);
  sv_aging : option WorkerExit; sv_supervision : option WorkerExit; sv_publication : option WorkerExit
}.
Arguments mkServiceState {D}.
Arguments sv_engine {D}.
Arguments sv_queue {D}.
Arguments sv_issues {D}.
Arguments sv_calls {D}.
Arguments sv_aging {D}.
Arguments sv_supervision {D}.
Arguments sv_publication {D}.

(** ** Queries, forwarded to the runtime, that is, to the engine *)

Definition service_localSnapshot {D} (s : ServiceState D) : LocalNetworkSnapshot := localSnapshot (sv_engine s).
Definition service_remoteCandidates {D} (s : ServiceState D) : list RemoteCandidate := remoteCandidates (sv_engine s).
Definition service_getCandidateByMac {D} (mac : string) (s : ServiceState D) : option RemoteCandidate :=
  findCandidateByMac mac (sv_engine s).
Definition service_getIssues {D} (s : ServiceState D) : ObservationIssues := sv_issues s.
Definition service_isReady (baseReady : bool) : bool := baseReady.

(** * The workers *)

(** The waits of [agingLoop] and [supervisionLoop]: a stop before or during the
    wait, or the interval elapsed and the body runs; the body may throw. *)
Inductive Turn (A : Type) := TurnStopped | TurnThrows (what : option string) | TurnRuns (a : A).
Arguments TurnStopped {A}.
Arguments TurnThrows {A}.
Arguments TurnRuns {A}.

Record AgingInput := mkAgingInput { ai_now : time_point; ai_t2 : time_point; ai_health : ObservationRuntimeHealth }.

Section workers.
Context {D : Type} `{DirtySet D} (sf sm : string → string) (service : ObservationService).
Implicit Types s : ServiceState D.

(** What the model delivers is marked by the service, its sink. *)
Definition on_deliveries (r : ObservationModelEngine * Deliveries) (s : ServiceState D) : ServiceState D :=
  mkServiceState r.1 (foldl (λ d ev, service_onModelEvent ev d) (sv_queue s) r.2.*2) (sv_issues s) (sv_calls s)
    (sv_aging s) (sv_supervision s) (sv_publication s).

Definition with_issues (issues : ObservationIssues) (s : ServiceState D) : ServiceState D :=
  mkServiceState (sv_engine s) (sv_queue s) issues (sv_calls s) (sv_aging s) (sv_supervision s) (sv_publication s).

Definition aging_turn (t : Turn AgingInput) (s : ServiceState D) : ServiceState D :=
  let exit how s := mkServiceState (sv_engine s) (sv_queue s) (onAgingWorkerExit sf sm how (sv_issues s)) (sv_calls s)
                      (Some how) (sv_supervision s) (sv_publication s) in
  match t with
  | TurnStopped => exit ExitNormal s
  | TurnThrows what => exit (ExitException what) s
  | TurnRuns i =>
      let s := on_deliveries (age (ai_now i) (ai_t2 i) (sv_engine s)) s in
      with_issues (refreshRuntimeIssues sf sm (ai_health i) (sv_issues s)) s
  end.

(** [runtime_->tick] works on the runtime ([Runtime.tick]); what it observes
    reaches the model through the runtime's queue. *)
Definition supervision_turn (t : Turn unit) (s : ServiceState D) : ServiceState D :=
  let exit how s := mkServiceState (sv_engine s) (sv_queue s) (onSupervisionWorkerExit sf sm how (sv_issues s)) (sv_calls s)
                      (sv_aging s) (Some how) (sv_publication s) in
  match t with
  | TurnStopped => exit ExitNormal s
  | TurnThrows what => exit (ExitException what) s
  | TurnRuns _ => s
  end.

(** [while (auto pending = waitAndTake(st)) publishBatch(pending)]. *)
Definition publication_turn (stop : bool) (s : ServiceState D) : ServiceState D :=
  match waitAndTake stop (sv_queue s) with
  | (None, d) => mkServiceState (sv_engine s) d (sv_issues s) (sv_calls s) (sv_aging s) (sv_supervision s) (sv_publication s)
  | (Some None, d) =>
      mkServiceState (sv_engine s) d (onPublicationWorkerExit sf sm ExitNormal (sv_issues s)) (sv_calls s)
        (sv_aging s) (sv_supervision s) (Some ExitNormal)
  | (Some (Some pending), d) =>
      let '(issues, calls) := publishBatch sf sm (observationTransports (sv_transports service)) pending (sv_issues s) in
      mkServiceState (sv_engine s) d issues (sv_calls s ++ calls) (sv_aging s) (sv_supervision s) (sv_publication s)
  end.

(** The steps: an operation of the model on one of the runtime's threads; a turn
    of a worker that runs; closing the queue. *)
Inductive ServiceStep :=
| StepModel (i : EngineInput) | StepAging (t : Turn AgingInput) | StepSupervision (t : Turn unit)
| StepPublication (stop : bool) | StepClose.

Definition while_running (exit : option WorkerExit) (f : ServiceState D → ServiceState D) (s : ServiceState D) : ServiceState D :=
  match exit with None => f s | Some _ => s end.

Definition service_step `{InetPton} (s : ServiceState D) (x : ServiceStep) : ServiceState D :=
  match x with
  | StepModel i => on_deliveries (engine_step i (sv_engine s)) s
  | StepAging t => while_running (sv_aging s) (aging_turn t) s
  | StepSupervision t => while_running (sv_supervision s) (supervision_turn t) s
  | StepPublication stop => while_running (sv_publication s) (publication_turn stop) s
  | StepClose => mkServiceState (sv_engine s) (ds_close (sv_queue s)) (sv_issues s) (sv_calls s) (sv_aging s) (sv_supervision s) (sv_publication s)
  end.

(** From a started service: the queue reopened, the sink attached. *)
Definition service_begin (self : nat) (config : ModelConfig) (d : D) : ServiceState D :=
  mkServiceState (initializeComponents self service (engine_init config)).1.2 (ds_reopen d) ∅ [] None None None.

Definition service_run `{InetPton} (steps : list ServiceStep) (s : ServiceState D) : ServiceState D := foldl service_step s steps.
End workers.

(** * Lemmas *)

(** The signals one transport was asked to publish. *)
Definition calls_of (name : string) (calls : list (string * Signal)) : list Signal :=
  omap (λ c, if decide (c.1 = name) then Some c.2 else None) calls.

Lemma calls_of_app name l l' : calls_of name (l ++ l') = calls_of name l ++ calls_of name l'.
Proof. apply omap_app. Qed.

Lemma calls_of_one ts t s : NoDup (transport_name <$> ts) → t ∈ ts → calls_of (transport_name t) ((λ t, (transport_name t, s)) <$> ts) = [s].
Proof.
  assert (Hno : ∀ ts, transport_name t ∉ transport_name <$> ts → calls_of (transport_name t) ((λ t, (transport_name t, s)) <$> ts) = []).
  { clear. induction ts as [|t' ts IH]; [done|]. rewrite fmap_cons, not_elem_of_cons. intros [Hne Hn]. cbn.
    rewrite decide_False by done. by apply IH. }
  induction ts as [|t' ts IH]; [by intros _ ?%elem_of_nil|]. rewrite fmap_cons. intros [Hn Hnd]%NoDup_cons.
  intros [->|Ht]%elem_of_cons; cbn.
  - rewrite decide_True by done. f_equal. by apply Hno.
  - rewrite decide_False; [by apply IH|]. intros He. apply Hn. rewrite He. apply list_elem_of_fmap. by exists t.
Qed.

Lemma batch_calls sf sm ts p issues t :
  NoDup (transport_name <$> ts) → t ∈ ts →
  calls_of (transport_name t) (publishBatch sf sm ts p issues).2 = (dispatchPublication p).*2.
Proof.
  intros Hnd Ht. unfold publishBatch. assert (Hg : ∀ l acc, calls_of (transport_name t)
    (foldl (λ acc e, let '(issues, calls) := acc in
                     let '(issues, calls') := publishToAll sf sm ts e.1 e.2 issues in (issues, calls ++ calls')) acc l).2 =
    calls_of (transport_name t) acc.2 ++ l.*2); [|by rewrite Hg].
  induction l as [|e l IH]; intros [i c]; cbn [foldl snd]; [by rewrite app_nil_r|]. rewrite IH.
  pose proof (publishToAll_calls sf sm ts e.1 e.2 i) as Hc. destruct (publishToAll sf sm ts e.1 e.2 i) as [i' c']. cbn [snd] in *.
  by rewrite Hc, calls_of_app, calls_of_one, <- app_assoc.
Qed.

Section run.
Context `{InetPton} {D : Type} `{DirtySetLaws D} (sf sm : string → string) (service : ObservationService).
Abbreviation step := (service_step sf sm service).
Abbreviation ts := (observationTransports (sv_transports service)).

(** Marking the events of a delivery is applying them to the overlaid view. *)
Lemma marks_overlay evs k : ∀ (d : D) V W,
  ds_closed d = false → (overlaid V (ds_pending d) k ↔ k ∈ W) →
  let d' := foldl (λ d ev, service_onModelEvent ev d) d evs in
  ds_closed d' = false ∧ (overlaid V (ds_pending d') k ↔ k ∈ foldl apply_event W evs).
Proof.
  induction evs as [|ev evs IH]; intros d V W Ho Hv; [done|]. cbn [foldl]. apply IH; [by rewrite onModelEvent_open|].
  rewrite onModelEvent_pending by done. by apply event_marks_overlay.
Qed.

(** While the queue is open: the pending publications make of what each transport
    was sent about the MAC [k] what the model publishes. *)
Record in_sync (self : nat) (k : string) (s : ServiceState D) : Prop := mkInSync {
  is_open : ds_closed (sv_queue s) = false;
  is_sink : sink_ (sv_engine s) = Some self;
  is_counted : counted (localState_ (sv_engine s));
  is_view t : t ∈ ts → overlaid (foldl apply_signal ∅ (calls_of (transport_name t) (sv_calls s))) (ds_pending (sv_queue s)) k ↔
    k ∈ visible (sv_engine s)
}.

Definition announced_step (k : string) (x : ServiceStep) : Prop :=
  match x with StepModel i => announced_at k i | StepClose => False | _ => True end.

Lemma deliveries_in_sync self k s i :
  in_sync self k s → announced_at k i → in_sync self k (on_deliveries (engine_step i (sv_engine s)) s).
Proof.
  intros [Ho Hs Hc Hv] Ha. pose proof (step_tracks_at i (sv_engine s) self k _ Hs Hc Ha (iff_refl _)) as Ht. unfold apply_events in Ht.
  assert (Hm : ∀ t, t ∈ ts → _) by exact (λ t Ht', marks_overlay (engine_step i (sv_engine s)).2.*2 k (sv_queue s) _ _ Ho (Hv t Ht')).
  split; cbn [sv_queue sv_engine sv_calls on_deliveries].
  - assert (Hg : ∀ evs (d : D), ds_closed (foldl (λ d ev, service_onModelEvent ev d) d evs) = ds_closed d); [|by rewrite Hg].
    induction evs as [|ev evs IH]; intros d; cbn; [done|]. by rewrite IH, onModelEvent_open.
  - by rewrite (step_sink_at k).
  - by apply engine_step_counted.
  - intros t Hin. destruct (Hm t Hin) as [_ Hm']. rewrite Hm', Ht. done.
Qed.

(** The end of a turn that takes what is pending. *)
Lemma publication_spec stop (s : ServiceState D) :
  NoDup (transport_name <$> ts) →
  let s' := publication_turn sf sm service stop s in
  sv_engine s' = sv_engine s ∧ ds_pending (sv_queue s') = ∅ ∧ ds_closed (sv_queue s') = ds_closed (sv_queue s) ∧
  (∀ t V k, t ∈ ts → k ∈ foldl apply_signal V (calls_of (transport_name t) (sv_calls s')) ↔
    overlaid (foldl apply_signal V (calls_of (transport_name t) (sv_calls s))) (ds_pending (sv_queue s)) k) ∧
  sv_publication s' = (if decide (ds_pending (sv_queue s) = ∅) then if stop || ds_closed (sv_queue s) then Some ExitNormal else sv_publication s
                       else sv_publication s).
Proof.
  intros Hnd. unfold publication_turn, waitAndTake. rewrite wait_takes, take_pending.
  pose proof (take_empties (sv_queue s)) as He. pose proof (take_keeps_open (sv_queue s)) as Hk.
  destruct (decide (ds_pending (sv_queue s) = ∅)) as [Hp|Hp].
  - rewrite Hp. destruct (stop || ds_closed (sv_queue s)); cbn; split_and!; try done; intros t V k _; unfold overlaid; by rewrite lookup_empty.
  - pose proof (λ t Ht, batch_calls sf sm ts (ds_pending (sv_queue s)) (sv_issues s) t Hnd Ht) as Hb.
    destruct (publishBatch sf sm ts (ds_pending (sv_queue s)) (sv_issues s)) as [issues calls]. cbn [sv_engine sv_queue sv_calls sv_publication snd] in *.
    split_and!; try done. intros t V k Ht. rewrite calls_of_app, Hb, foldl_app by done. apply drained_view.
Qed.

Lemma step_in_sync self k s x : NoDup (transport_name <$> ts) → in_sync self k s → announced_step k x → in_sync self k (step s x).
Proof.
  intros Hnd Hs Hx. destruct x as [i|t|t|stop|]; cbn [service_step while_running announced_step] in *; [| | | |done].
  - by apply deliveries_in_sync.
  - destruct (sv_aging s); [done|]. destruct t as [|what|i]; cbn [while_running aging_turn]; [destruct Hs; by split..|].
    destruct (deliveries_in_sync self k s (IAge (ai_now i) (ai_t2 i)) Hs I) as [H1' H2' H3' H4']. by split.
  - destruct (sv_supervision s); [done|]. destruct t; cbn; destruct Hs; by split.
  - destruct (sv_publication s); [done|]. cbn [while_running]. destruct Hs as [Ho Hsk Hc Hv].
    destruct (publication_spec stop s Hnd) as (He & Hp & Hcl & Hcalls & _).
    split; rewrite ?He, ?Hcl, ?Hp; [done..|]. intros t Ht. unfold overlaid. rewrite lookup_empty, Hcalls by done. by apply Hv.
Qed.

Lemma run_in_sync self k steps s :
  NoDup (transport_name <$> ts) → in_sync self k s → Forall (announced_step k) steps → in_sync self k (service_run sf sm service steps s).
Proof.
  intros Hnd Hs Hall. revert s Hs. induction Hall as [|x steps Hx _ IH]; intros s Hs; [done|]. by apply IH, step_in_sync.
Qed.

Lemma begin_in_sync self k config (d : D) : in_sync self k (service_begin service self config d).
Proof.
  split; cbn; [apply reopen_open|done|apply (counted_clear default_tracker)|].
  intros t _. unfold overlaid. rewrite reopen_pending, lookup_empty. unfold visible. cbn. rewrite elem_of_keys_where.
  split; [by intros ?%elem_of_empty|by intros (? & ? & _)].
Qed.

(** Every transport is sent the same signals. *)
Definition same_calls (s : ServiceState D) : Prop :=
  ∀ t t', t ∈ ts → t' ∈ ts → calls_of (transport_name t) (sv_calls s) = calls_of (transport_name t') (sv_calls s).

Lemma run_same_calls steps s :
  NoDup (transport_name <$> ts) → same_calls s → same_calls (service_run sf sm service steps s).
Proof.
  intros Hnd. revert s. induction steps as [|x steps IH]; intros s Hs; [done|]. apply IH. clear IH.
  destruct x as [i|t|t|stop|]; cbn [service_step]; try exact Hs.
  - destruct (sv_aging s), t; exact Hs.
  - destruct (sv_supervision s), t; exact Hs.
  - destruct (sv_publication s); [exact Hs|]. cbn [while_running]. unfold publication_turn, waitAndTake. rewrite wait_takes.
    destruct (ds_take (sv_queue s)).1 as [p|]; [|destruct (stop || _); exact Hs].
    pose proof (λ t Ht, batch_calls sf sm ts p (sv_issues s) t Hnd Ht) as Hb.
    destruct (publishBatch sf sm ts p (sv_issues s)) as [issues calls]. intros t t' Ht Ht'. cbn [sv_calls snd] in *.
    by rewrite !calls_of_app, !Hb, (Hs t t').
Qed.

(** ** Issues of the loops *)

Lemma runtime_issues health issues :
  let r := refreshRuntimeIssues sf sm health issues in
  (is_Some (r !! NetObs.ISSUE_CODE_RUNTIME_STOPPED) ↔ health_running health = false) ∧
  (is_Some (r !! NetObs.ISSUE_CODE_LLDP_UNAVAILABLE) ↔ health_lldpAvailable health = false) ∧
  (∀ c, c ≠ NetObs.ISSUE_CODE_RUNTIME_STOPPED → c ≠ NetObs.ISSUE_CODE_LLDP_UNAVAILABLE → r !! c = issues !! c).
Proof.
  unfold refreshRuntimeIssues. destruct (health_running health), (health_lldpAvailable health); cbn [negb];
    (split_and!; [| |intros c H1' H2']); unfold clearIssue; cbn [snd];
    rewrite ?reportIssue_other, ?lookup_delete_ne, ?reportIssue_code, ?lookup_delete_eq, ?reportIssue_code by done;
    rewrite ?lookup_delete_eq, ?reportIssue_other by done; try done; try (split; [by intros []|done]); try (split; [done|by left]).
Qed.
End run.

(** * Properties *)


(** ** Witness: two transports, one of which always throws. *)
#[local] Instance demo_service_pton : InetPton := demo_pton.

Definition demo_service : ObservationService :=
  mkService [TObservation (mkTransport "a" (λ _, PThrows "boom")); TOther; TObservation (mkTransport "b" (λ _, PReturns))]
    (seconds 10) (seconds 10).
Definition demo_steps : list ServiceStep :=
  [StepModel (IMarkLive 1); StepModel (INeighbor (demo_neighbor EvPresent 5) 5 5); StepPublication false;
   StepModel (INeighbor (demo_neighbor EvRemoved 8) 8 8);
   StepAging (TurnRuns (mkAgingInput 9 9 (mkHealth true false))); StepModel (INeighbor (demo_neighbor EvPresent 9) 9 9)].

