(* ===== verification/NetlinkState.v ===== *)
(** [inputs/netlink/public/NetlinkTypes.h], [utils/NetlinkUtils.cpp],
    [state/NetlinkState.cpp] and [service/NetlinkObservationMapper.cpp]: the
    events of the netlink monitor, the state that removes duplicates from them
    and merges devices by MAC, and their mapping to observations.

    [if_indextoname] is a system call and enters as a parameter; the values of
    [NUD_*] are those of [<linux/neighbour.h>]. *)

From S2P Require Import Prelude Contract Observation LocalState Filter.

(** * [NetlinkTypes.h] *)

Record LinkEvent := mkLinkEvent {
  le_ifindex : Z; le_ifname : string; le_mac : string; le_adminUp : bool; le_running : bool;
  le_operState : Z; le_masterIfindex : option Z; le_masterIfname : option string; le_present : bool
}.
Record InterfaceIpEvent := mkInterfaceIpEvent {
  ie_ifname : string; ie_family : Z; ie_address : string; ie_prefixLen : Z; ie_present : bool
}.
Record FdbEvent := mkFdbEvent {
  fe_ifname : string; fe_mac : string; fe_present : bool; fe_local : bool; fe_permanent : bool
}.
Record NeighborEvent := mkNeighborEvent {
  ne_ifname : string; ne_mac : string; ne_family : Z; ne_ip : string; ne_nudState : Z; ne_present : bool
}.
Record DeviceEvent := mkDeviceEvent {
  de_ifname : string; de_mac : string; de_ipv4Addrs : gset string; de_ipv6Addrs : gset string;
  de_present : bool
}.

#[export] Instance LinkEvent_eq_dec : EqDecision LinkEvent.
Proof. solve_decision. Defined.
#[export] Instance FdbEvent_eq_dec : EqDecision FdbEvent.
Proof. solve_decision. Defined.
#[export] Instance NeighborEvent_eq_dec : EqDecision NeighborEvent.
Proof. solve_decision. Defined.
#[export] Instance DeviceEvent_eq_dec : EqDecision DeviceEvent.
Proof. solve_decision. Defined.

(** * [NetlinkUtils.cpp] *)

Definition NUD_INCOMPLETE : Z := 1.
Definition NUD_REACHABLE : Z := 2.
Definition NUD_STALE : Z := 4.
Definition NUD_DELAY : Z := 8.
Definition NUD_PROBE : Z := 16.
Definition NUD_FAILED : Z := 32.
Definition NUD_NOARP : Z := 64.
Definition NUD_PERMANENT : Z := 128.

Definition isIpv4 (family : Z) : bool := (family =? AF_INET)%Z.
Definition isIpv6 (family : Z) : bool := (family =? AF_INET6)%Z.
Definition isFdbLocal (state : Z) : bool := negb (Z.land state NUD_NOARP =? 0)%Z.
Definition isFdbPermanent (state : Z) : bool := negb (Z.land state NUD_PERMANENT =? 0)%Z.

(** [if_indextoname], called when an index is not in the cache. *)
Class IfIndexToName := if_indextoname : Z → option string.

Abbreviation IfindexCache := (gmap Z string).

(** [IfindexCache::resolve], which is [ifIndexToName]. *)
Definition ifIndexToName `{IfIndexToName} (ifindex : Z) (cache : IfindexCache) : string * IfindexCache :=
  match cache !! ifindex with
  | Some n => (n, cache)
  | None =>
      match if_indextoname ifindex with
      | Some n => (n, <[ifindex := n]> cache)
      | None => (pretty ifindex, cache)
      end
  end.

Definition invalidateIfIndex (ifindex : Z) (cache : IfindexCache) : IfindexCache := delete ifindex cache.

Definition updateIfIndexName (ifindex : Z) (ifname : string) (cache : IfindexCache) : IfindexCache :=
  <[ifindex := ifname]> cache.

(** [%02x] of an octet. *)
Definition hex_digit (n : Z) : Ascii.ascii :=
  Ascii.ascii_of_nat (Z.to_nat (if (n <? 10)%Z then n + 48 else n + 87)%Z).
Definition hex2 (b : Z) : string :=
  String (hex_digit (Z.shiftr b 4)) (String (hex_digit (Z.land b 15)) EmptyString).

Definition byte_at (data : list Z) (i : nat) : Z := nth i data 0%Z.

Definition formatMacAddress (data : list Z) (len : Z) : string :=
  if (len <? 6)%Z then "<invalid>"
  else hex2 (byte_at data 0) +:+ ":" +:+ hex2 (byte_at data 1) +:+ ":" +:+ hex2 (byte_at data 2) +:+ ":"
       +:+ hex2 (byte_at data 3) +:+ ":" +:+ hex2 (byte_at data 4) +:+ ":" +:+ hex2 (byte_at data 5).

Record InterfaceAddressKey := mkInterfaceAddressKey {
  ak_ifname : string; ak_family : Z; ak_address : string; ak_prefixLen : Z
}.
#[export] Instance InterfaceAddressKey_eq_dec : EqDecision InterfaceAddressKey.
Proof. solve_decision. Defined.
(** [InterfaceAddressKeyHash] on a 64-bit [std::size_t]; the hashes of the members
    are the library's. *)
Section hash.
Context (hash_string : string → Z) (hash_int : Z → Z).

Definition hash_mix (h member : Z) : Z :=
  Z.lxor h ((member + 0x9e3779b9 + Z.shiftl h 6 mod 2 ^ 64 + Z.shiftr h 2) mod 2 ^ 64).

Definition InterfaceAddressKeyHash (k : InterfaceAddressKey) : Z :=
  let h := hash_string (ak_ifname k) in
  let h := hash_mix h (hash_int (ak_family k)) in
  let h := hash_mix h (hash_string (ak_address k)) in
  hash_mix h (hash_int (ak_prefixLen k)).

Lemma hash_mix_size h member : (0 ≤ h < 2 ^ 64)%Z → (0 ≤ hash_mix h member < 2 ^ 64)%Z.
Proof.
  intros Hh. unfold hash_mix. set (x := (_ mod 2 ^ 64)%Z). assert (0 ≤ x < 2 ^ 64)%Z as Hx by (by apply Z.mod_pos_bound).
  clearbody x. assert (0 ≤ Z.lxor h x)%Z as H0 by (apply Z.lxor_nonneg; lia). split; [done|].
  destruct (decide (Z.lxor h x = 0)%Z) as [->|Hne]; [done|]. apply Z.log2_lt_pow2; [lia|].
  eapply Z.le_lt_trans; [apply Z.log2_lxor; lia|]. apply Z.max_lub_lt.
  - destruct (decide (h = 0)%Z) as [->|]; [done|]. apply Z.log2_lt_pow2; lia.
  - destruct (decide (x = 0)%Z) as [->|]; [done|]. apply Z.log2_lt_pow2; lia.
Qed.

Lemma InterfaceAddressKeyHash_size k :
  (∀ s, 0 ≤ hash_string s < 2 ^ 64)%Z → (0 ≤ InterfaceAddressKeyHash k < 2 ^ 64)%Z.
Proof. intros Hs. unfold InterfaceAddressKeyHash. cbv zeta. do 3 apply hash_mix_size. apply Hs. Qed.
End hash.

#[export] Program Instance InterfaceAddressKey_countable : Countable InterfaceAddressKey :=
  inj_countable' (λ k, (ak_ifname k, ak_family k, ak_address k, ak_prefixLen k))
    (λ p, mkInterfaceAddressKey p.1.1.1 p.1.1.2 p.1.2 p.2) _.
Next Obligation. by intros []. Qed.

Definition makeNeighborKey (ifname mac : string) (family : Z) (ip : string) : string :=
  ifname +:+ "|" +:+ mac +:+ "|" +:+ pretty family +:+ "|" +:+ ip.

(** * [NetlinkState.cpp] *)

Record MacAggregate := mkMacAggregate {
  ag_fdb : option FdbEvent; ag_ipv4Addrs : gset string; ag_ipv6Addrs : gset string
}.
Definition default_aggregate : MacAggregate := mkMacAggregate None ∅ ∅.

(** [interfaceAddresses_] maps its keys to [true], so it is the set of its keys. *)
Record NetlinkState := mkNetlinkState {
  linkStates_ : gmap string LinkEvent;
  interfaceAddresses_ : gset InterfaceAddressKey;
  fdbStatesByMac_ : gmap string FdbEvent;
  neighborStatesByKey_ : gmap string NeighborEvent;
  macAggregates_ : gmap string MacAggregate;
  deviceStatesByMac_ : gmap string DeviceEvent
}.
Definition netlink_empty : NetlinkState := mkNetlinkState ∅ ∅ ∅ ∅ ∅ ∅.

Definition eta_netlink (s : NetlinkState) : NetlinkState :=
  mkNetlinkState (linkStates_ s) (interfaceAddresses_ s) (fdbStatesByMac_ s) (neighborStatesByKey_ s)
    (macAggregates_ s) (deviceStatesByMac_ s).
#[export] Instance set_linkStates_ : Setter linkStates_ := ltac:(mk_setter eta_netlink linkStates_).
#[export] Instance set_interfaceAddresses_ : Setter interfaceAddresses_ :=
  ltac:(mk_setter eta_netlink interfaceAddresses_).
#[export] Instance set_fdbStatesByMac_ : Setter fdbStatesByMac_ := ltac:(mk_setter eta_netlink fdbStatesByMac_).
#[export] Instance set_neighborStatesByKey_ : Setter neighborStatesByKey_ :=
  ltac:(mk_setter eta_netlink neighborStatesByKey_).
#[export] Instance set_macAggregates_ : Setter macAggregates_ := ltac:(mk_setter eta_netlink macAggregates_).
#[export] Instance set_deviceStatesByMac_ : Setter deviceStatesByMac_ :=
  ltac:(mk_setter eta_netlink deviceStatesByMac_).

Definition on_interface (ifname : string) (k : InterfaceAddressKey) : Prop := ak_ifname k = ifname.
#[export] Instance on_interface_dec n k : Decision (on_interface n k).
Proof. unfold on_interface. apply _. Defined.

Definition updateLink (event : LinkEvent) (s : NetlinkState) : option LinkEvent * NetlinkState :=
  if negb (le_present event) then
    let hadLink := bool_decide (is_Some (linkStates_ s !! le_ifname event)) in
    let gone := filter (on_interface (le_ifname event)) (interfaceAddresses_ s) in
    let s' := s <| linkStates_ := delete (le_ifname event) (linkStates_ s) |>
                <| interfaceAddresses_ := interfaceAddresses_ s ∖ gone |> in
    (if hadLink || (0 <? size gone) then Some event else None, s')
  else
    let changed := bool_decide (linkStates_ s !! le_ifname event ≠ Some event) in
    let s' := s <| linkStates_ := <[le_ifname event := event]> (linkStates_ s) |> in
    (if changed then Some event else None, s').

Definition updateAddress (event : InterfaceIpEvent) (s : NetlinkState)
    : option InterfaceIpEvent * NetlinkState :=
  let key := mkInterfaceAddressKey (ie_ifname event) (ie_family event) (ie_address event) (ie_prefixLen event) in
  let present := bool_decide (key ∈ interfaceAddresses_ s) in
  let '(changed, s') :=
    if negb (ie_present event) then
      if present then (true, s <| interfaceAddresses_ := interfaceAddresses_ s ∖ {[key]} |>) else (false, s)
    else
      if present then (false, s) else (true, s <| interfaceAddresses_ := {[key]} ∪ interfaceAddresses_ s |>) in
  (if changed : bool then Some event else None, s').

(** The removal event of a known device. *)
Definition forget_device (mac : string) (s : NetlinkState) : option DeviceEvent * NetlinkState :=
  match deviceStatesByMac_ s !! mac with
  | Some existing =>
      (Some (mkDeviceEvent (de_ifname existing) (de_mac existing) ∅ ∅ false),
       s <| deviceStatesByMac_ := delete mac (deviceStatesByMac_ s) |>)
  | None => (None, s)
  end.

Definition merge_device (mac : string) (agg : MacAggregate) : DeviceEvent :=
  mkDeviceEvent
    (match ag_fdb agg with Some f => fe_ifname f | None => "" end) mac
    (ag_ipv4Addrs agg) (ag_ipv6Addrs agg)
    (match ag_fdb agg with Some f => fe_present f | None => false end).

Definition has_any_info (merged : DeviceEvent) : bool :=
  de_present merged || negb (bool_decide (de_ipv4Addrs merged = ∅))
  || negb (bool_decide (de_ipv6Addrs merged = ∅)) || negb (str_empty (de_ifname merged)).

Definition refreshMergedDeviceLocked (mac : string) (s : NetlinkState) : option DeviceEvent * NetlinkState :=
  match macAggregates_ s !! mac with
  | None => forget_device mac s
  | Some agg =>
      let merged := merge_device mac agg in
      if negb (has_any_info merged) then
        forget_device mac (s <| macAggregates_ := delete mac (macAggregates_ s) |>)
      else
        let changed := bool_decide (deviceStatesByMac_ s !! mac ≠ Some merged) in
        (if changed then Some merged else None,
         s <| deviceStatesByMac_ := <[mac := merged]> (deviceStatesByMac_ s) |>)
  end.

Definition aggregate_at (s : NetlinkState) (mac : string) : MacAggregate :=
  default default_aggregate (macAggregates_ s !! mac).

(** The result is the FDB event to emit, the device event passed to [onDevice]
    before it, and the new state. *)
Definition updateFdb (event : FdbEvent) (s : NetlinkState)
    : option FdbEvent * option DeviceEvent * NetlinkState :=
  let mac := fe_mac event in
  let changed := bool_decide (fdbStatesByMac_ s !! mac ≠ Some event) in
  let agg := aggregate_at s mac in
  let s :=
    if negb (fe_present event) then
      s <| fdbStatesByMac_ := delete mac (fdbStatesByMac_ s) |>
        <| macAggregates_ := <[mac := mkMacAggregate None (ag_ipv4Addrs agg) (ag_ipv6Addrs agg)]> (macAggregates_ s) |>
    else
      s <| fdbStatesByMac_ := <[mac := event]> (fdbStatesByMac_ s) |>
        <| macAggregates_ :=
             <[mac := mkMacAggregate (Some event) (ag_ipv4Addrs agg) (ag_ipv6Addrs agg)]> (macAggregates_ s) |> in
  let '(deviceEmit, s) := refreshMergedDeviceLocked mac s in
  (if changed then Some event else None, deviceEmit, s).

(** [f] inserts or erases the event's IP in the set of its family, if it has one. *)
Definition update_ips (f : gset string → gset string) (family : Z) (agg : MacAggregate) : MacAggregate :=
  if isIpv4 family then mkMacAggregate (ag_fdb agg) (f (ag_ipv4Addrs agg)) (ag_ipv6Addrs agg)
  else if isIpv6 family then mkMacAggregate (ag_fdb agg) (ag_ipv4Addrs agg) (f (ag_ipv6Addrs agg))
  else agg.

Definition updateNeighbor (event : NeighborEvent) (s : NetlinkState)
    : option NeighborEvent * option DeviceEvent * NetlinkState :=
  let mac := ne_mac event in
  let key := makeNeighborKey (ne_ifname event) mac (ne_family event) (ne_ip event) in
  let agg := aggregate_at s mac in
  let '(changed, s) :=
    if negb (ne_present event) then
      (bool_decide (is_Some (neighborStatesByKey_ s !! key)),
       s <| neighborStatesByKey_ := delete key (neighborStatesByKey_ s) |>
         <| macAggregates_ :=
              <[mac := update_ips (λ X, X ∖ {[ne_ip event]}) (ne_family event) agg]> (macAggregates_ s) |>)
    else
      (bool_decide (neighborStatesByKey_ s !! key ≠ Some event),
       s <| neighborStatesByKey_ := <[key := event]> (neighborStatesByKey_ s) |>
         <| macAggregates_ :=
              <[mac := update_ips (λ X, {[ne_ip event]} ∪ X) (ne_family event) agg]> (macAggregates_ s) |>) in
  let '(deviceEmit, s) := refreshMergedDeviceLocked mac s in
  (if changed : bool then Some event else None, deviceEmit, s).

(** Sorted by [(ifname, mac)]; by [ifname]. *)
Definition device_le (a b : DeviceEvent) : Prop :=
  de_ifname a ≠ de_ifname b ∧ String.le (de_ifname a) (de_ifname b)
  ∨ de_ifname a = de_ifname b ∧ String.le (de_mac a) (de_mac b).
#[export] Instance device_le_dec : RelDecision device_le.
Proof. intros a b. unfold device_le. apply _. Defined.

Definition getDevicesSnapshot (s : NetlinkState) : list DeviceEvent :=
  merge_sort device_le (map_to_list (deviceStatesByMac_ s)).*2.

Definition link_le (a b : LinkEvent) : Prop := String.le (le_ifname a) (le_ifname b).
#[export] Instance link_le_dec : RelDecision link_le.
Proof. intros a b. unfold link_le. apply _. Defined.

Definition getLinksSnapshot (s : NetlinkState) : list LinkEvent :=
  merge_sort link_le (map_to_list (linkStates_ s)).*2.

Definition netlink_clear (s : NetlinkState) : NetlinkState := netlink_empty.

(** * [NetlinkObservationMapper.cpp] *)

Definition nudToReachability (nudState : Z) : NeighborReachability :=
  if (nudState =? NUD_INCOMPLETE)%Z then Incomplete
  else if (nudState =? NUD_REACHABLE)%Z then Reachable
  else if (nudState =? NUD_STALE)%Z then Stale
  else if (nudState =? NUD_DELAY)%Z then Delay
  else if (nudState =? NUD_PROBE)%Z then Probe
  else if (nudState =? NUD_FAILED)%Z then Failed
  else if (nudState =? NUD_NOARP)%Z then NoArp
  else if (nudState =? NUD_PERMANENT)%Z then Permanent
  else NRUnknown.

Definition fdbToEntryKind (e : FdbEvent) : FdbEntryKind :=
  if fe_local e then Local else if fe_permanent e then Static else Dynamic.

Definition toObsEvent (present : bool) : ObservationEvent := if present then EvPresent else EvRemoved.

Definition makeCidr (e : InterfaceIpEvent) : string := ie_address e +:+ "/" +:+ pretty (ie_prefixLen e).

Definition toLinkObservation (e : LinkEvent) (at_ : time_point) : LinkObservation :=
  mkLinkObservation (mkBase KLink at_) (le_ifindex e) (le_ifname e) (le_mac e) (le_adminUp e)
    (le_running e) (pretty (le_operState e)) (le_masterIfname e) (toObsEvent (le_present e)).

Definition toAddressObservation (e : InterfaceIpEvent) (at_ : time_point) : AddressObservation :=
  mkAddressObservation (mkBase KAddress at_) (ie_ifname e) (toObsEvent (ie_present e)) (ie_family e) (makeCidr e).

Definition toNeighborObservation (e : NeighborEvent) (at_ : time_point) : NeighborObservation :=
  mkNeighborObservation (mkBase KNeighbor at_) (ne_ifname e) (toObsEvent (ne_present e)) (ne_family e)
    (ne_mac e) (ne_ip e) (nudToReachability (ne_nudState e)).

Definition toFdbObservation (e : FdbEvent) (at_ : time_point) : FdbObservation :=
  mkFdbObservation (mkBase KFdb at_) (fe_ifname e) (toObsEvent (fe_present e)) (fe_mac e) (fdbToEntryKind e).

(** The calls of the sinks, which a callback makes when the sink is set. *)
Inductive SinkCall :=
| SinkLink (obs : LinkObservation)
| SinkLinkStateForLldp (ifname : string) (up : bool)
| SinkAddress (obs : AddressObservation)
| SinkFdb (obs : FdbObservation)
| SinkNeighbor (obs : NeighborObservation).

Record ObservationSinks := mkSinks {
  has_onLink : bool; has_onAddress : bool; has_onNeighbor : bool; has_onFdb : bool;
  has_onLinkStateForLldp : bool
}.

Definition when (b : bool) (c : SinkCall) : list SinkCall := if b then [c] else [].

Definition cb_onLinkChanged (sinks : ObservationSinks) (now : time_point) (e : LinkEvent) : list SinkCall :=
  when (has_onLink sinks) (SinkLink (toLinkObservation e now)) ++
  when (has_onLinkStateForLldp sinks) (SinkLinkStateForLldp (le_ifname e) (le_present e && le_running e)).
Definition cb_onInterfaceIpChanged (sinks : ObservationSinks) (now : time_point) (e : InterfaceIpEvent)
    : list SinkCall := when (has_onAddress sinks) (SinkAddress (toAddressObservation e now)).
Definition cb_onFdbChanged (sinks : ObservationSinks) (now : time_point) (e : FdbEvent) : list SinkCall :=
  when (has_onFdb sinks) (SinkFdb (toFdbObservation e now)).
Definition cb_onNeighborChanged (sinks : ObservationSinks) (now : time_point) (e : NeighborEvent)
    : list SinkCall := when (has_onNeighbor sinks) (SinkNeighbor (toNeighborObservation e now)).

(** * The state as a transition system, and what a consumer of its events knows *)

Inductive NetInput :=
| NLink (e : LinkEvent) | NAddress (e : InterfaceIpEvent) | NFdb (e : FdbEvent) | NNeighbor (e : NeighborEvent).

Inductive NetEvent := EmitInput (i : NetInput) | EmitDevice (d : DeviceEvent).

Definition emit_input {A} (f : A → NetInput) (o : option A) : list NetEvent :=
  match o with Some e => [EmitInput (f e)] | None => [] end.
Definition emit_device (o : option DeviceEvent) : list NetEvent :=
  match o with Some d => [EmitDevice d] | None => [] end.

(** The monitor's filter: no watched interface at all means every interface. *)
Definition is_watched (watched : gset string) (ifname : string) : bool :=
  bool_decide (watched = ∅) || bool_decide (ifname ∈ watched).

(** The events the monitor delivers for one parsed kernel event, in order:
    [onLinkCallback], [onIpCallback], [onFdbCallback], [onNeighCallback]. *)
Definition net_step (watched : gset string) (i : NetInput) (s : NetlinkState) : list NetEvent * NetlinkState :=
  match i with
  | NLink e => let '(o, s) := updateLink e s in (emit_input NLink o, s)
  | NAddress e => let '(o, s) := updateAddress e s in (emit_input NAddress o, s)
  | NFdb e =>
      if negb (is_watched watched (fe_ifname e)) then ([], s)
      else let '(o, d, s) := updateFdb e s in (emit_device d ++ emit_input NFdb o, s)
  | NNeighbor e =>
      if negb (is_watched watched (ne_ifname e)) then ([], s)
      else let '(o, d, s) := updateNeighbor e s in (emit_device d ++ emit_input NNeighbor o, s)
  end.

Fixpoint net_run (watched : gset string) (l : list NetInput) (s : NetlinkState) : list NetEvent * NetlinkState :=
  match l with
  | [] => ([], s)
  | i :: l => let '(ev, s) := net_step watched i s in let '(ev', s) := net_run watched l s in (ev ++ ev', s)
  end.

Lemma net_run_app w l l' s :
  net_run w (l ++ l') s =
    let '(ev, s) := net_run w l s in let '(ev', s) := net_run w l' s in (ev ++ ev', s).
Proof.
  revert s. induction l as [|i l IH]; intros s; cbn; [by destruct (net_run w l' s)|].
  destruct (net_step w i s) as [ev1 s1]. rewrite IH. destruct (net_run w l s1) as [ev2 s2].
  destruct (net_run w l' s2) as [ev3 s3]. by rewrite (assoc_L (++)).
Qed.

(** A consumer keeps a copy from the delivered events only. *)
Record Mirror := mkMirror {
  mi_links : gmap string LinkEvent; mi_addresses : gset InterfaceAddressKey;
  mi_fdb : gmap string FdbEvent; mi_neighbors : gmap string NeighborEvent;
  mi_devices : gmap string DeviceEvent
}.
Definition mirror_of (s : NetlinkState) : Mirror :=
  mkMirror (linkStates_ s) (interfaceAddresses_ s) (fdbStatesByMac_ s) (neighborStatesByKey_ s)
    (deviceStatesByMac_ s).

(** A device event without presence and addresses is a removal. *)
Definition device_gone (d : DeviceEvent) : bool :=
  negb (de_present d) && bool_decide (de_ipv4Addrs d = ∅) && bool_decide (de_ipv6Addrs d = ∅).

Definition mirror_event (m : Mirror) (ev : NetEvent) : Mirror :=
  let 'mkMirror L A F N V := m in
  match ev with
  | EmitInput (NLink e) =>
      if le_present e then mkMirror (<[le_ifname e := e]> L) A F N V
      else mkMirror (delete (le_ifname e) L) (A ∖ filter (on_interface (le_ifname e)) A) F N V
  | EmitInput (NAddress e) =>
      let key := mkInterfaceAddressKey (ie_ifname e) (ie_family e) (ie_address e) (ie_prefixLen e) in
      mkMirror L (if ie_present e then {[key]} ∪ A else A ∖ {[key]}) F N V
  | EmitInput (NFdb e) =>
      mkMirror L A (if fe_present e then <[fe_mac e := e]> F else delete (fe_mac e) F) N V
  | EmitInput (NNeighbor e) =>
      let key := makeNeighborKey (ne_ifname e) (ne_mac e) (ne_family e) (ne_ip e) in
      mkMirror L A F (if ne_present e then <[key := e]> N else delete key N) V
  | EmitDevice d =>
      mkMirror L A F N (if device_gone d then delete (de_mac d) V else <[de_mac d := d]> V)
  end.

(** The aggregates agree with the FDB table and hold information, and the
    devices are the merged aggregates. *)
Record netlink_wf (s : NetlinkState) : Prop := mkNetlinkWf {
  wf_fdb mac : fdbStatesByMac_ s !! mac = macAggregates_ s !! mac ≫= ag_fdb;
  wf_present mac f : fdbStatesByMac_ s !! mac = Some f → fe_present f = true;
  wf_info mac agg : macAggregates_ s !! mac = Some agg → has_any_info (merge_device mac agg) = true;
  wf_device mac : deviceStatesByMac_ s !! mac = merge_device mac <$> macAggregates_ s !! mac
}.

(** * Merging *)

Definition fdb_present (agg : MacAggregate) : Prop := ∀ f, ag_fdb agg = Some f → fe_present f = true.

Lemma has_any_info_gone mac agg :
  fdb_present agg → has_any_info (merge_device mac agg) = negb (device_gone (merge_device mac agg)).
Proof.
  intros Hp. unfold has_any_info, device_gone, merge_device. cbn.
  destruct (ag_fdb agg) as [f|] eqn:Hf; [rewrite (Hp f Hf)|]; cbn;
    by destruct (bool_decide (ag_ipv4Addrs agg = ∅)), (bool_decide (ag_ipv6Addrs agg = ∅)).
Qed.

(** [refreshMergedDeviceLocked] restores the invariant for one MAC whose
    aggregate is [agg], whatever device is stored for it. *)
Lemma refresh_spec mac agg s :
  macAggregates_ s !! mac = Some agg → fdb_present agg →
  (∀ d, deviceStatesByMac_ s !! mac = Some d → de_mac d = mac) →
  let info := has_any_info (merge_device mac agg) in
  let '(o, s') := refreshMergedDeviceLocked mac s in
  linkStates_ s' = linkStates_ s ∧ interfaceAddresses_ s' = interfaceAddresses_ s ∧
  fdbStatesByMac_ s' = fdbStatesByMac_ s ∧ neighborStatesByKey_ s' = neighborStatesByKey_ s ∧
  macAggregates_ s' = (if info then macAggregates_ s else delete mac (macAggregates_ s)) ∧
  deviceStatesByMac_ s' = (if info then <[mac := merge_device mac agg]> (deviceStatesByMac_ s)
                           else delete mac (deviceStatesByMac_ s)) ∧
  foldl mirror_event (mirror_of s) (emit_device o) = mirror_of s'.
Proof.
  intros Ha Hp Hmac. unfold refreshMergedDeviceLocked. rewrite Ha. cbv zeta.
  pose proof (has_any_info_gone mac agg Hp) as Hg.
  destruct (has_any_info (merge_device mac agg)) eqn:Hi; cbn [negb].
  - split_and!; try done. symmetry in Hg. apply negb_true_iff in Hg.
    case_bool_decide as Hc; cbn; unfold mirror_of; cbn; [by rewrite Hg|].
    f_equal. symmetry. by apply insert_id.
  - unfold forget_device. cbn. destruct (deviceStatesByMac_ s !! mac) as [d|] eqn:Hd; cbn.
    + split_and!; try done. unfold mirror_of, device_gone. cbn. by rewrite (Hmac d eq_refl).
    + by rewrite (delete_id (deviceStatesByMac_ s)).
Qed.

Lemma wf_device_mac s mac d : netlink_wf s → deviceStatesByMac_ s !! mac = Some d → de_mac d = mac.
Proof.
  intros Hwf Hd. rewrite (wf_device s Hwf) in Hd. apply fmap_Some in Hd as (agg & _ & ->). done.
Qed.

(** Replacing the aggregate of one MAC, with the FDB table kept in step, and refreshing. *)
Lemma refresh_wf s s1 mac agg :
  netlink_wf s →
  macAggregates_ s1 = <[mac := agg]> (macAggregates_ s) →
  deviceStatesByMac_ s1 = deviceStatesByMac_ s →
  fdb_present agg →
  fdbStatesByMac_ s1 !! mac = ag_fdb agg →
  (∀ m, m ≠ mac → fdbStatesByMac_ s1 !! m = fdbStatesByMac_ s !! m) →
  let '(o, s') := refreshMergedDeviceLocked mac s1 in
  netlink_wf s' ∧ mirror_of s' = foldl mirror_event (mirror_of s1) (emit_device o) ∧
  fdbStatesByMac_ s' = fdbStatesByMac_ s1 ∧ neighborStatesByKey_ s' = neighborStatesByKey_ s1 ∧
  linkStates_ s' = linkStates_ s1 ∧ interfaceAddresses_ s' = interfaceAddresses_ s1.
Proof.
  intros Hwf Hagg Hdev Hp Hfdb Hother.
  pose proof (refresh_spec mac agg s1) as Hr. rewrite Hagg, lookup_insert_eq, Hdev in Hr.
  specialize (Hr eq_refl Hp (λ d, wf_device_mac s mac d Hwf)).
  destruct (refreshMergedDeviceLocked mac s1) as [o s'].
  destruct Hr as (Hl & Had & Hf & Hn & Ha & Hd & Hm). split_and!; try done.
  set (info := has_any_info (merge_device mac agg)) in *.
  assert (Hlook : ∀ m, macAggregates_ s' !! m =
     if decide (m = mac) then if info then Some agg else None else macAggregates_ s !! m).
  { intros m. rewrite Ha. destruct (decide (m = mac)) as [->|Hne]; destruct info;
      rewrite ?lookup_delete_eq, ?lookup_delete_ne, ?lookup_insert_eq, ?lookup_insert_ne by done; done. }
  assert (Hnone : info = false → ag_fdb agg = None).
  { intros Hi. destruct (ag_fdb agg) as [f|] eqn:E; [|done]. subst info.
    unfold has_any_info, merge_device in Hi. cbn in Hi. rewrite E, (Hp f E) in Hi. done. }
  split; intros m; rewrite ?Hlook, ?Hf.
  - case_decide as Hm'; [subst m; rewrite Hfdb; destruct info; cbn; auto|].
    rewrite Hother by done. apply Hwf.
  - intros f Hff. destruct (decide (m = mac)) as [->|Hm']; [rewrite Hfdb in Hff; by apply Hp|].
    rewrite Hother in Hff by done. by apply (wf_present s Hwf m).
  - intros agg' Hagg'. case_decide as Hm'; [|by apply (wf_info s Hwf)].
    subst m. destruct info eqn:Hi; [|done]. by injection Hagg' as <-.
  - rewrite Hd. case_decide as Hm'; [subst m|].
    + destruct info; cbn; [by rewrite lookup_insert_eq|by rewrite lookup_delete_eq].
    + destruct info; rewrite ?lookup_insert_ne, ?lookup_delete_ne by done; apply Hwf.
Qed.

Lemma aggregate_at_present s mac : netlink_wf s → fdb_present (aggregate_at s mac).
Proof.
  intros Hwf f Hf. unfold aggregate_at in Hf. destruct (macAggregates_ s !! mac) as [agg|] eqn:Ha; [|done].
  apply (wf_present s Hwf mac). rewrite (wf_fdb s Hwf), Ha. exact Hf.
Qed.

Lemma aggregate_at_fdb s mac : netlink_wf s → fdbStatesByMac_ s !! mac = ag_fdb (aggregate_at s mac).
Proof.
  intros Hwf. rewrite (wf_fdb s Hwf). unfold aggregate_at. by destruct (macAggregates_ s !! mac).
Qed.

Lemma ag_fdb_update_ips f fam agg : ag_fdb (update_ips f fam agg) = ag_fdb agg.
Proof. unfold update_ips. by destruct (isIpv4 fam), (isIpv6 fam). Qed.

(** ** Each step keeps the invariant, and its events update the mirror *)

Definition step_ok (s : NetlinkState) (r : list NetEvent * NetlinkState) : Prop :=
  netlink_wf r.2 ∧ foldl mirror_event (mirror_of s) r.1 = mirror_of r.2.

Lemma netlink_wf_ext s s' :
  fdbStatesByMac_ s' = fdbStatesByMac_ s → macAggregates_ s' = macAggregates_ s →
  deviceStatesByMac_ s' = deviceStatesByMac_ s → netlink_wf s → netlink_wf s'.
Proof. intros H1 H2 H3 []. split; intros ?; rewrite ?H1, ?H2, ?H3; eauto. Qed.

Lemma step_link w e s : netlink_wf s → step_ok s (net_step w (NLink e) s).
Proof.
  intros Hwf. unfold net_step, updateLink. destruct (le_present e) eqn:Hp; cbn.
  - split; [by apply (netlink_wf_ext s)|].
    case_bool_decide as Hc; cbn; unfold mirror_of; cbn; [by rewrite Hp|].
    f_equal. symmetry. by apply insert_id.
  - split; [by apply (netlink_wf_ext s)|].
    destruct (_ || _) eqn:Hb; cbn; unfold mirror_of; cbn; [by rewrite Hp|].
    apply orb_false_iff in Hb as [Hl%bool_decide_eq_false Hs].
    rewrite (delete_id (linkStates_ s)) by (by apply eq_None_not_Some).
    assert (filter (on_interface (le_ifname e)) (interfaceAddresses_ s) ≡ ∅) as Hemp.
    { apply size_empty_iff. by destruct (size _). }
    apply leibniz_equiv in Hemp. by rewrite Hemp, difference_empty_L.
Qed.

Lemma step_address w e s : netlink_wf s → step_ok s (net_step w (NAddress e) s).
Proof.
  intros Hwf. unfold net_step, updateAddress.
  destruct (ie_present e) eqn:Hp; cbn; case_bool_decide; cbn;
    (split; [by apply (netlink_wf_ext s)|]); cbn; unfold mirror_of; cbn; by rewrite ?Hp.
Qed.

Lemma step_fdb w e s : netlink_wf s → step_ok s (net_step w (NFdb e) s).
Proof.
  intros Hwf. unfold net_step. destruct (is_watched w (fe_ifname e)); [|by split]. unfold updateFdb. cbn [negb].
  set (agg := mkMacAggregate (if fe_present e then Some e else None) (ag_ipv4Addrs (aggregate_at s (fe_mac e)))
                (ag_ipv6Addrs (aggregate_at s (fe_mac e)))).
  set (F := if fe_present e then <[fe_mac e := e]> (fdbStatesByMac_ s) else delete (fe_mac e) (fdbStatesByMac_ s)).
  set (s1 := s <| fdbStatesByMac_ := F |> <| macAggregates_ := <[fe_mac e := agg]> (macAggregates_ s) |>).
  assert (Hs1 : (if negb (fe_present e) then
        s <| fdbStatesByMac_ := delete (fe_mac e) (fdbStatesByMac_ s) |>
          <| macAggregates_ := <[fe_mac e := mkMacAggregate None (ag_ipv4Addrs (aggregate_at s (fe_mac e)))
               (ag_ipv6Addrs (aggregate_at s (fe_mac e)))]> (macAggregates_ s) |>
      else
        s <| fdbStatesByMac_ := <[fe_mac e := e]> (fdbStatesByMac_ s) |>
          <| macAggregates_ := <[fe_mac e := mkMacAggregate (Some e) (ag_ipv4Addrs (aggregate_at s (fe_mac e)))
               (ag_ipv6Addrs (aggregate_at s (fe_mac e)))]> (macAggregates_ s) |>) = s1).
  { subst s1 agg F. by destruct (fe_present e). }
  cbv zeta in Hs1 |- *. rewrite Hs1.
  pose proof (refresh_wf s s1 (fe_mac e) agg Hwf) as Hr.
  destruct (refreshMergedDeviceLocked (fe_mac e) s1) as [o s'].
  destruct Hr as (Hwf' & Hm & HF & _); try done.
  { intros f. subst agg. cbn. destruct (fe_present e) eqn:E; [by intros [= <-]|done]. }
  { subst s1 F agg. cbn. destruct (fe_present e); [by rewrite lookup_insert_eq|by rewrite lookup_delete_eq]. }
  { intros m Hne. subst s1 F. cbn. destruct (fe_present e); [by rewrite lookup_insert_ne|by rewrite lookup_delete_ne]. }
  split; [done|]. cbn. rewrite foldl_app.
  assert (Hcomm : foldl mirror_event (foldl mirror_event (mirror_of s) (emit_device o))
      (emit_input NFdb (if bool_decide (fdbStatesByMac_ s !! fe_mac e ≠ Some e) then Some e else None)) =
      foldl mirror_event (mirror_of s1) (emit_device o)).
  { assert (HF0 : bool_decide (fdbStatesByMac_ s !! fe_mac e ≠ Some e) = false → F = fdbStatesByMac_ s).
    { intros Hb%bool_decide_eq_false%dec_stable. subst F. rewrite (wf_present s Hwf _ _ Hb).
      by apply insert_id. }
    case_bool_decide as Hc.
    - destruct o as [d|]; cbn; subst s1 F; by destruct (fe_present e).
    - specialize (HF0 eq_refl). destruct o as [d|]; cbn; unfold mirror_of; cbn; by rewrite HF0. }
  by rewrite Hcomm, Hm.
Qed.

Lemma step_neighbor w e s : netlink_wf s → step_ok s (net_step w (NNeighbor e) s).
Proof.
  intros Hwf. unfold net_step. destruct (is_watched w (ne_ifname e)); [|by split]. unfold updateNeighbor. cbn [negb].
  set (key := makeNeighborKey (ne_ifname e) (ne_mac e) (ne_family e) (ne_ip e)).
  set (op := λ X : gset string, if ne_present e then {[ne_ip e]} ∪ X else X ∖ {[ne_ip e]}).
  set (agg := update_ips op (ne_family e) (aggregate_at s (ne_mac e))).
  set (N := if ne_present e then <[key := e]> (neighborStatesByKey_ s) else delete key (neighborStatesByKey_ s)).
  set (ch := if ne_present e then bool_decide (neighborStatesByKey_ s !! key ≠ Some e)
             else bool_decide (is_Some (neighborStatesByKey_ s !! key))).
  set (s1 := s <| neighborStatesByKey_ := N |> <| macAggregates_ := <[ne_mac e := agg]> (macAggregates_ s) |>).
  match goal with |- context [if negb (ne_present e) then ?a else ?b] =>
    assert ((if negb (ne_present e) then a else b) = (ch, s1)) as -> end.
  { subst s1 agg N ch op. by destruct (ne_present e). }
  pose proof (refresh_wf s s1 (ne_mac e) agg Hwf) as Hr.
  destruct (refreshMergedDeviceLocked (ne_mac e) s1) as [o s'].
  destruct Hr as (Hwf' & Hm & _); try done.
  { intros f. subst agg. rewrite ag_fdb_update_ips. by apply aggregate_at_present. }
  { subst agg. rewrite ag_fdb_update_ips. exact (aggregate_at_fdb s (ne_mac e) Hwf). }
  split; [done|]. cbn [fst snd]. rewrite foldl_app, Hm.
  assert (HN : ch = false → N = neighborStatesByKey_ s).
  { subst ch N. destruct (ne_present e); intros Hb%bool_decide_eq_false.
    - apply insert_id. by apply dec_stable.
    - apply delete_id. by apply eq_None_not_Some. }
  destruct ch; cbn [emit_input foldl].
  - destruct o as [d|]; cbn; subst s1 N key; by destruct (ne_present e).
  - specialize (HN eq_refl). destruct o as [d|]; cbn; unfold mirror_of; cbn; by rewrite HN.
Qed.

Lemma net_step_ok w i s : netlink_wf s → step_ok s (net_step w i s).
Proof. destruct i; [apply step_link|apply step_address|apply step_fdb|apply step_neighbor]. Qed.

Lemma netlink_empty_wf : netlink_wf netlink_empty.
Proof. split; intros ?; try intros ?; rewrite ?lookup_empty; done. Qed.

Lemma net_run_ok w l s : netlink_wf s → step_ok s (net_run w l s).
Proof.
  revert s. induction l as [|i l IH]; intros s Hwf; cbn; [by split|].
  destruct (net_step_ok w i s Hwf) as [Hwf1 Hm1]. destruct (net_step w i s) as [ev s1]. cbn [fst snd] in *.
  destruct (IH s1 Hwf1) as [Hwf2 Hm2]. destruct (net_run w l s1) as [ev' s2]. cbn [fst snd] in *.
  split; [done|]. cbn [fst snd]. by rewrite foldl_app, Hm1.
Qed.

(** * Keys, MACs and CIDRs *)

Lemma str_has_app c s t : str_has c (s +:+ t) = str_has c s || str_has c t.
Proof.
  induction s as [|d s IH]; [done|].
  change (String d s +:+ t) with (String d (s +:+ t)). cbn [str_has]. by rewrite IH, orb_assoc.
Qed.

(** A separator after which only separator-free text follows is the last one. *)
Lemma str_has_sep c s t : str_has c (s +:+ String c t) = true.
Proof. rewrite str_has_app. cbn. by rewrite bool_decide_eq_true_2, orb_true_r. Qed.

Lemma split_at_last c s s' t t' :
  str_has c t = false → str_has c t' = false →
  s +:+ String c t = s' +:+ String c t' → s = s' ∧ t = t'.
Proof.
  intros Ht Ht'. revert s'. induction s as [|d s IH]; intros [|d' s'] He;
    try change (EmptyString +:+ ?x) with x in He;
    repeat match type of He with context [String ?a ?b +:+ ?x] =>
      change (String a b +:+ x) with (String a (b +:+ x)) in He end.
  - cbn in He. by injection He as ->.
  - cbn in He. injection He as <- He. by rewrite He, str_has_sep in Ht.
  - cbn in He. injection He as -> He. by rewrite <- He, str_has_sep in Ht'.
  - injection He as -> He. destruct (IH s' He) as [-> ->]. done.
Qed.

(** No decimal representation contains a separator. *)
Definition is_sep (c : Ascii.ascii) : Prop := c = "|"%char ∨ c = "/"%char.

Lemma pretty_N_char_not_sep x c : is_sep c → pretty_N_char x ≠ c.
Proof. intros [->| ->]; unfold pretty_N_char; by repeat case_match. Qed.

Lemma pretty_N_go_no_sep x s c : is_sep c → str_has c s = false → str_has c (pretty_N_go x s) = false.
Proof.
  intros Hc. revert s. induction (N.lt_wf_0 x) as [x _ IH]; intros s Hs.
  destruct (decide (0 < x)%N) as [Hx|Hx].
  - rewrite pretty_N_go_step by done. apply IH; [by apply N.div_lt|].
    cbn [str_has]. rewrite Hs, orb_false_r. apply bool_decide_eq_false. by apply pretty_N_char_not_sep.
  - assert (x = 0%N) as -> by lia. by rewrite pretty_N_go_0.
Qed.

Lemma pretty_N_no_sep (x : N) c : is_sep c → str_has c (pretty x) = false.
Proof.
  intros Hc. unfold pretty, pretty_N. case_decide.
  - by destruct Hc as [->| ->].
  - by apply pretty_N_go_no_sep.
Qed.

Lemma pretty_Z_no_sep (x : Z) c : is_sep c → str_has c (pretty x) = false.
Proof.
  intros Hc. destruct x as [|p|p].
  - by destruct Hc as [->| ->].
  - change (str_has c (pretty (N.pos p)) = false). by apply pretty_N_no_sep.
  - change (str_has c ("-" +:+ pretty (N.pos p)) = false).
    rewrite str_has_app, pretty_N_no_sep, orb_false_r by done. by destruct Hc as [->| ->].
Qed.

Lemma makeNeighborKey_inj ifname mac fam ip ifname' mac' fam' ip' :
  str_has "|" mac = false → str_has "|" ip = false → str_has "|" mac' = false → str_has "|" ip' = false →
  makeNeighborKey ifname mac fam ip = makeNeighborKey ifname' mac' fam' ip' →
  ifname = ifname' ∧ mac = mac' ∧ fam = fam' ∧ ip = ip'.
Proof.
  intros Hm Hi Hm' Hi'. unfold makeNeighborKey.
  assert (Hassoc : ∀ a b c d : string, a +:+ "|" +:+ b +:+ "|" +:+ c +:+ "|" +:+ d =
     ((a +:+ String "|" b) +:+ String "|" c) +:+ String "|" d).
  { intros a b c d. by rewrite !str_app_assoc. }
  rewrite !Hassoc. intros He.
  apply split_at_last in He as [He ->]; [|done..].
  apply split_at_last in He as [He Hf]; [|apply pretty_Z_no_sep; by left..].
  apply split_at_last in He as [-> ->]; [|done..].
  by apply (inj pretty) in Hf as ->.
Qed.

(** ** Octets *)

Definition is_octet (b : Z) : Prop := (0 ≤ b < 256)%Z.

Lemma octet_forall (P : Z → bool) :
  forallb P (Z.of_nat <$> seq 0 256) = true → ∀ b, is_octet b → P b = true.
Proof.
  intros Hall b Hb. rewrite forallb_forall in Hall. apply Hall.
  apply list_elem_of_In, list_elem_of_fmap. exists (Z.to_nat b). unfold is_octet in Hb.
  split; [lia|]. apply elem_of_seq. lia.
Qed.

Lemma hex2_ok b :
  is_octet b → ∃ h l, hex2 b = String h (String l EmptyString) ∧ isxdigit h = true ∧ isxdigit l = true ∧
    tolower h = h ∧ tolower l = l ∧ (16 * xdigit_val h + xdigit_val l = b)%Z.
Proof.
  intros Hb. eexists _, _. split; [reflexivity|].
  set (h := hex_digit _). set (l := hex_digit (Z.land b 15)).
  assert (Hc : isxdigit h && isxdigit l && bool_decide (tolower h = h) && bool_decide (tolower l = l) &&
               (16 * xdigit_val h + xdigit_val l =? b)%Z = true).
  { revert b Hb h l. apply (octet_forall (λ b, let h := hex_digit (Z.shiftr b 4) in
      let l := hex_digit (Z.land b 15) in isxdigit h && isxdigit l && bool_decide (tolower h = h) &&
      bool_decide (tolower l = l) && (16 * xdigit_val h + xdigit_val l =? b)%Z)).
    vm_compute. reflexivity. }
  rewrite !andb_true_iff, !bool_decide_eq_true, Z.eqb_eq in Hc. tauto.
Qed.

Lemma hex2_inj b b' : is_octet b → is_octet b' → hex2 b = hex2 b' → b = b'.
Proof.
  intros (h & l & He & _ & _ & _ & _ & Hv)%hex2_ok (h' & l' & He' & _ & _ & _ & _ & Hv')%hex2_ok Heq.
  rewrite He, He' in Heq. injection Heq as -> ->. by rewrite <- Hv, <- Hv'.
Qed.

Definition mac_text (h0 l0 h1 l1 h2 l2 h3 l3 h4 l4 h5 l5 : Ascii.ascii) : string :=
  String h0 (String l0 (String ":" (String h1 (String l1 (String ":" (String h2 (String l2 (String ":"
    (String h3 (String l3 (String ":" (String h4 (String l4 (String ":" (String h5 (String l5 EmptyString)))))))))))))))).

Lemma formatMacAddress_text data len :
  (6 ≤ len)%Z → (∀ i, i < 6 → is_octet (byte_at data i)) →
  let m := formatMacAddress data len in isMacLike m = true ∧ normalizeMac m = m.
Proof.
  intros Hlen Ho. unfold formatMacAddress. destruct (Z.ltb_spec len 6); [lia|]. cbn zeta.
  destruct (hex2_ok _ (Ho 0 ltac:(lia))) as (h0 & l0 & -> & ? & ? & E0 & F0 & _).
  destruct (hex2_ok _ (Ho 1 ltac:(lia))) as (h1 & l1 & -> & ? & ? & E1 & F1 & _).
  destruct (hex2_ok _ (Ho 2 ltac:(lia))) as (h2 & l2 & -> & ? & ? & E2 & F2 & _).
  destruct (hex2_ok _ (Ho 3 ltac:(lia))) as (h3 & l3 & -> & ? & ? & E3 & F3 & _).
  destruct (hex2_ok _ (Ho 4 ltac:(lia))) as (h4 & l4 & -> & ? & ? & E4 & F4 & _).
  destruct (hex2_ok _ (Ho 5 ltac:(lia))) as (h5 & l5 & -> & ? & ? & E5 & F5 & _).
  match goal with |- isMacLike ?m = true ∧ _ => assert (m = mac_text h0 l0 h1 l1 h2 l2 h3 l3 h4 l4 h5 l5) as -> by done end.
  unfold mac_text. split.
  - unfold isMacLike. cbn. unfold mac_char_ok. cbn.
    repeat match goal with H : isxdigit _ = true |- _ => rewrite H; clear H end. done.
  - cbn. by rewrite E0, F0, E1, F1, E2, F2, E3, F3, E4, F4, E5, F5.
Qed.

(** * Properties *)

(** C11: the netlink state loses nothing: a consumer that starts empty and applies
    exactly the delivered events (duplicates having been suppressed) holds, after
    any sequence of kernel events and whatever interfaces are watched, the same
    links, addresses, FDB entries, neighbours and merged devices as the state; and the devices are always the
    per-MAC merge of the FDB entry and the addresses, with no empty aggregate left. *)
Theorem netlink_state_mirrored watched l :
  let '(events, s) := net_run watched l netlink_empty in
  foldl mirror_event (mirror_of netlink_empty) events = mirror_of s ∧
  (∀ mac, deviceStatesByMac_ s !! mac = merge_device mac <$> macAggregates_ s !! mac) ∧
  (∀ mac agg, macAggregates_ s !! mac = Some agg → has_any_info (merge_device mac agg) = true) ∧
  (∀ mac, fdbStatesByMac_ s !! mac = macAggregates_ s !! mac ≫= ag_fdb).
Proof.
  destruct (net_run_ok watched l netlink_empty netlink_empty_wf) as [[] Hm].
  destruct (net_run watched l netlink_empty) as [events s]. by split_and!.
Qed.

(** The neighbour table's string keys are injective on what the kernel
    delivers: for MACs and IPs without a bar, whatever the interface name, two
    entries share a key only when they agree in interface, MAC, family and IP. *)
Theorem neighbor_key_injective e e' :
  str_has "|" (ne_mac e) = false → str_has "|" (ne_ip e) = false →
  str_has "|" (ne_mac e') = false → str_has "|" (ne_ip e') = false →
  makeNeighborKey (ne_ifname e) (ne_mac e) (ne_family e) (ne_ip e) =
    makeNeighborKey (ne_ifname e') (ne_mac e') (ne_family e') (ne_ip e') →
  ne_ifname e = ne_ifname e' ∧ ne_mac e = ne_mac e' ∧ ne_family e = ne_family e' ∧ ne_ip e = ne_ip e'.
Proof. apply makeNeighborKey_inj. Qed.

Lemma neighbor_key_injective_witness :
  let e := mkNeighborEvent "a|b" "02:00:00:00:00:07" AF_INET "10.0.0.7" 2 true in
  str_has "|" (ne_mac e) = false ∧ ne_ifname e = ne_ifname e.
Proof.
  intros e. split; [reflexivity|].
  apply (neighbor_key_injective e e); reflexivity.
Defined.

(** The MAC text made from a netlink address is canonical: for a link-layer
    address of at least six octets it is MAC-like and in normal form, so LLDP
    identity resolution maps it to itself and both sources use one candidate
    key; and two addresses have the same text only when their six octets agree. *)
Theorem mac_text_canonical data data' len p :
  (6 ≤ len)%Z → (∀ i, i < 6 → is_octet (byte_at data i)) → (∀ i, i < 6 → is_octet (byte_at data' i)) →
  let m := formatMacAddress data len in
  isMacLike m = true ∧ resolveLldpIdentity (Some m) p = m ∧
  (formatMacAddress data' len = m → ∀ i, i < 6 → byte_at data' i = byte_at data i).
Proof.
  intros Hlen Ho Ho' m. destruct (formatMacAddress_text data len Hlen Ho) as [Hm Hn]. fold m in Hm, Hn.
  split_and!; [done|unfold resolveLldpIdentity; by rewrite Hm|].
  intros He i Hi. apply hex2_inj; [by apply Ho'|by apply Ho|].
  revert He. subst m. unfold formatMacAddress. destruct (Z.ltb_spec len 6); [lia|]. intros He.
  assert (Hall : Forall (λ i, hex2 (byte_at data' i) = hex2 (byte_at data i)) [0;1;2;3;4;5]).
  { clear -He. unfold hex2 in *. cbn in He. injection He. intros. repeat constructor; congruence. }
  rewrite Forall_forall in Hall. apply Hall. set_unfold. lia.
Qed.

Lemma mac_text_canonical_witness :
  let d := [2; 0; 94; 0; 83; 255]%Z in
  formatMacAddress d 6 = "02:00:5e:00:53:ff" ∧ isMacLike (formatMacAddress d 6) = true.
Proof.
  intros d. split; [reflexivity|].
  apply (mac_text_canonical d d 6 None); [done|..];
    intros i Hi; do 6 (destruct i as [|i]; [unfold is_octet; cbn; lia|]); lia.
Defined.

(** An address event becomes a CIDR from which the model reads back exactly
    the address, for every address without a slash and every prefix length: a
    local address is never taken for malformed. *)
Theorem cidr_roundtrip e at_ :
  str_has "/" (ie_address e) = false →
  extractIpFromCidr (ao_cidr (toAddressObservation e at_)) = ie_address e.
Proof.
  intros Hs. unfold extractIpFromCidr. cbn. unfold makeCidr.
  change ("/" +:+ pretty (ie_prefixLen e)) with (String "/" (pretty (ie_prefixLen e))).
  by rewrite str_before_app.
Qed.

Lemma cidr_roundtrip_witness :
  extractIpFromCidr (ao_cidr (toAddressObservation (mkInterfaceIpEvent "eth0" AF_INET6 "fe80::1" 64 true) 0)) = "fe80::1".
Proof. apply (cidr_roundtrip (mkInterfaceIpEvent "eth0" AF_INET6 "fe80::1" 64 true)). reflexivity. Defined.

(** An FDB removal is emitted again each time it is repeated, unlike the
    removals of links, addresses and neighbours. *)
Lemma fdb_removal_not_deduplicated :
  let e := mkFdbEvent "eth0" "02:00:00:00:00:07" false false false in
  (net_run ∅ [NFdb e; NFdb e] netlink_empty).1 = [EmitInput (NFdb e); EmitInput (NFdb e)] ∧
  let n := mkNeighborEvent "eth0" "02:00:00:00:00:07" AF_INET "10.0.0.7" 2 false in
  (net_run ∅ [NNeighbor n; NNeighbor n] netlink_empty).1 = [].
Proof. split; vm_compute; reflexivity. Qed.

(** The merged device loses an address that another interface still reports. *)
Lemma device_drops_shared_ip :
  let n ifname present := NNeighbor (mkNeighborEvent ifname "02:00:00:00:00:07" AF_INET "10.0.0.7" 2 present) in
  let s := (net_run ∅ [n "eth0" true; n "eth1" true; n "eth0" false] netlink_empty).2 in
  size (neighborStatesByKey_ s) = 1 ∧ deviceStatesByMac_ s = ∅.
Proof. split; vm_compute; reflexivity. Qed.
