(* ===== verification/NetlinkParser.v ===== *)
(** [inputs/netlink/parser/NetlinkParser.cpp]: from the bytes of a netlink
    message to events.

    A message is the list of octets from its [nlmsghdr] to the end of the receive
    buffer. The code reads it through pointers; here every load is checked, and a
    load outside the buffer is the error [OutOfBounds], so that the theorem that
    parsing returns [Ok] is its memory safety. Loads are little-endian, as on the
    supported targets; structure layouts, [RTA_*], [NLMSG_*] and the constants
    are those of [<linux/netlink.h>], [<linux/rtnetlink.h>] and their includes.
    [inet_ntop] is a parameter. The callbacks are always set by the monitor. *)

From S2P Require Import Prelude Contract Observation LocalState Filter NetlinkState.

(** * Memory *)

Inductive Fault := OutOfBounds | OutOfFuel.

(** [n] octets at offset [off]. *)
Definition load (buf : list Z) (off : Z) (n : nat) : result Fault (list Z) :=
  if decide (0 ≤ off ∧ off + Z.of_nat n ≤ Z.of_nat (length buf))%Z
  then Ok (take n (drop (Z.to_nat off) buf)) else Err OutOfBounds.

Fixpoint le_value (l : list Z) : Z :=
  match l with [] => 0 | b :: l => b + 256 * le_value l end%Z.

Definition load_uint (n : nat) (buf : list Z) (off : Z) : result Fault Z :=
  l ← load buf off n; Ok (le_value l).
Definition load8 := load_uint 1.
Definition load16 := load_uint 2.
Definition load32 := load_uint 4.

(** Conversions between [int] and [unsigned int]. *)
Definition to_int32 (x : Z) : Z := let y := (x mod 2 ^ 32)%Z in if (2 ^ 31 <=? y)%Z then (y - 2 ^ 32)%Z else y.
Definition to_uint32 (x : Z) : Z := (x mod 2 ^ 32)%Z.

Definition align4 (n : Z) : Z := Z.land (n + 3) (Z.lnot 3).

(** * Constants *)

Definition NLMSG_HDRLEN : Z := 16.
Definition NLMSG_LENGTH (n : Z) : Z := (n + 16)%Z.
Definition NLMSG_ERROR : Z := 2.
Definition NLMSG_DONE : Z := 3.
Definition NLMSG_OVERRUN : Z := 4.
Definition RTM_NEWLINK : Z := 16.
Definition RTM_DELLINK : Z := 17.
Definition RTM_NEWADDR : Z := 20.
Definition RTM_DELADDR : Z := 21.
Definition RTM_NEWNEIGH : Z := 28.
Definition RTM_DELNEIGH : Z := 29.
Definition IFLA_ADDRESS : Z := 1.
Definition IFLA_IFNAME : Z := 3.
Definition IFLA_MASTER : Z := 10.
Definition IFLA_OPERSTATE : Z := 16.
Definition IFA_ADDRESS : Z := 1.
Definition IFA_LOCAL : Z := 2.
Definition NDA_DST : Z := 1.
Definition NDA_LLADDR : Z := 2.
Definition IFF_UP : Z := 1.
Definition IFF_RUNNING : Z := 64.

Definition sizeof_ifinfomsg : Z := 16.
Definition sizeof_ifaddrmsg : Z := 8.
Definition sizeof_ndmsg : Z := 12.
Definition sizeof_nlmsgerr : Z := 20.

(** [struct nlmsghdr] *)
Definition nlmsg_len (m : list Z) : result Fault Z := load32 m 0.
Definition nlmsg_type (m : list Z) : result Fault Z := load16 m 4.
Definition nlmsg_flags (m : list Z) : result Fault Z := load16 m 6.
Definition nlmsg_seq (m : list Z) : result Fault Z := load32 m 8.

(** * Attributes *)

(** An attribute: its type and its payload. *)
Record Attr := mkAttr { a_type : Z; a_data : list Z }.

(** The loop [for (attr = first; RTA_OK(attr, len); attr = RTA_NEXT(attr, len))]:
    the attributes it visits, from offset [off] with [len] octets left. *)
Fixpoint attr_loop (fuel : nat) (m : list Z) (off len : Z) : result Fault (list Attr) :=
  match fuel with
  | O => Err OutOfFuel
  | S fuel =>
      if (len <? 4)%Z then Ok []
      else
        rta_len ← load16 m off;
        if ((rta_len <? 4) || (len <? rta_len))%Z then Ok []
        else
          rta_type ← load16 m (off + 2)%Z;
          data ← load m (off + 4)%Z (Z.to_nat (rta_len - 4)%Z);
          rest ← attr_loop fuel m (off + align4 rta_len)%Z (len - align4 rta_len)%Z;
          Ok (mkAttr rta_type data :: rest)
  end.

(** [RTA_PAYLOAD] *)
Definition payload (a : Attr) : Z := Z.of_nat (length (a_data a)).

(** [getPayloadAndAttrLen<Msg>]: the length of the attributes, [None] when the
    message is shorter than its fixed part. *)
Definition getPayloadAndAttrLen (size : Z) (m : list Z) : result Fault (option Z) :=
  nlen ← nlmsg_len m;
  let messageLen := to_int32 nlen in
  if (messageLen <? NLMSG_LENGTH size)%Z then Ok None else Ok (Some (messageLen - NLMSG_LENGTH size)%Z).

(** [attrBegin]: after the fixed part, whose sizes are multiples of 4. *)
Definition attributes (size : Z) (m : list Z) (attrLen : Z) : result Fault (list Attr) :=
  attr_loop (S (length m)) m (NLMSG_HDRLEN + align4 size)%Z attrLen.

Definition bytes_to_string (l : list Z) : string :=
  foldr (λ b s, String (Ascii.ascii_of_nat (Z.to_nat b)) s) EmptyString l.

(** [std::string(p, p + len - (p[len - 1] == '\0' ? 1 : 0))] *)
Definition trim_nul (l : list Z) : list Z :=
  match last l with Some 0%Z => removelast l | _ => l end.

(** [inet_ntop(family, data, ...)]: the text of an address. *)
Class InetNtop := inet_ntop : Z → list Z → option string.

Section parser.
Context `{InetNtop, IfIndexToName}.

Definition formatIpAddress (family : Z) (data : list Z) : string :=
  default "<invalid>" (inet_ntop family data).

(** * [handleLink] *)

Record LinkParse := mkLinkParse {
  lp_event : LinkEvent; lp_hasIfname : bool; lp_cache : IfindexCache
}.

(** One iteration of the attribute loop; [idx] is [ifi_index]. *)
Definition link_attr (idx : Z) (st : LinkParse) (a : Attr) : LinkParse :=
  let 'mkLinkParse e named cache := st in
  let 'mkLinkEvent ifindex ifname mac adminUp running oper master masterName present := e in
  if (a_type a =? IFLA_OPERSTATE)%Z then
    if (1 <=? payload a)%Z then
      mkLinkParse (mkLinkEvent ifindex ifname mac adminUp running (byte_at (a_data a) 0) master masterName present)
        named cache
    else st
  else if (a_type a =? IFLA_ADDRESS)%Z then
    mkLinkParse (mkLinkEvent ifindex ifname (formatMacAddress (a_data a) (payload a)) adminUp running oper
                   master masterName present) named cache
  else if (a_type a =? IFLA_IFNAME)%Z then
    if (payload a <? 1)%Z then st
    else
      let name := bytes_to_string (trim_nul (a_data a)) in
      mkLinkParse (mkLinkEvent ifindex name mac adminUp running oper master masterName present) true
        (updateIfIndexName (to_uint32 idx) name cache)
  else if (a_type a =? IFLA_MASTER)%Z then
    if (4 <=? payload a)%Z then
      let masterIdx := to_int32 (le_value (take 4 (a_data a))) in
      let '(name, cache) := ifIndexToName (to_uint32 masterIdx) cache in
      mkLinkParse (mkLinkEvent ifindex ifname mac adminUp running oper (Some masterIdx) (Some name) present)
        named cache
    else st
  else st.

Definition handleLink (m : list Z) (cache : IfindexCache) : result Fault (list NetInput * IfindexCache) :=
  r ← getPayloadAndAttrLen sizeof_ifinfomsg m;
  match r with
  | None => Ok ([], cache)
  | Some attrLen =>
      ifi_index ← load32 m (NLMSG_HDRLEN + 4)%Z;
      ifi_flags ← load32 m (NLMSG_HDRLEN + 8)%Z;
      ty ← nlmsg_type m;
      let idx := to_int32 ifi_index in
      let present := negb (ty =? RTM_DELLINK)%Z in
      let event := mkLinkEvent idx "" "" (negb (Z.land ifi_flags IFF_UP =? 0)%Z)
                     (negb (Z.land ifi_flags IFF_RUNNING =? 0)%Z) 0 None None present in
      let cache := if negb present then invalidateIfIndex (to_uint32 idx) cache else cache in
      attrs ← attributes sizeof_ifinfomsg m attrLen;
      let 'mkLinkParse e named cache := foldl (link_attr idx) (mkLinkParse event false cache) attrs in
      if named : bool then Ok ([NLink e], cache)
      else
        let '(name, cache) := ifIndexToName (to_uint32 idx) cache in
        let 'mkLinkEvent i _ mac up run oper master masterName present := e in
        Ok ([NLink (mkLinkEvent i name mac up run oper master masterName present)], cache)
  end.

(** * [handleAddr] *)

(** The last attribute of type [ty], the one a loop of assignments keeps. *)
Definition last_attr (ty : Z) (l : list Attr) : option (list Z) :=
  a_data <$> last (filter (λ a, a_type a = ty) l).

Definition handleAddr (m : list Z) (cache : IfindexCache) : result Fault (list NetInput * IfindexCache) :=
  r ← getPayloadAndAttrLen sizeof_ifaddrmsg m;
  match r with
  | None => Ok ([], cache)
  | Some attrLen =>
      family ← load8 m NLMSG_HDRLEN;
      let v4 := isIpv4 family in
      let v6 := isIpv6 family in
      if negb v4 && negb v6 then Ok ([], cache)
      else
        ifa_index ← load32 m (NLMSG_HDRLEN + 4)%Z;
        prefixlen ← load8 m (NLMSG_HDRLEN + 1)%Z;
        let '(ifname, cache) := ifIndexToName ifa_index cache in
        ty ← nlmsg_type m;
        let isDelete := (ty =? RTM_DELADDR)%Z in
        attrs ← attributes sizeof_ifaddrmsg m attrLen;
        let v4local := if v4 then last_attr IFA_LOCAL attrs else None in
        let v4addr := if v4 then last_attr IFA_ADDRESS attrs else None in
        let v6addr := if v4 then None else if v6 then last_attr IFA_ADDRESS attrs else None in
        let emitIp (d : list Z) : list NetInput :=
          let len := Z.of_nat (length d) in
          if (len =? 0)%Z then []
          else if v4 && negb (len =? 4)%Z then []
          else if v6 && negb (len =? 16)%Z then []
          else [NAddress (mkInterfaceIpEvent ifname family (formatIpAddress family d) prefixlen (negb isDelete))] in
        let out4 := match v4local, v4addr with
                    | Some d, _ => emitIp d | None, Some d => emitIp d | None, None => [] end in
        let out6 := match v6addr with Some d => emitIp d | None => [] end in
        Ok (out4 ++ out6, cache)
  end.

(** * [handleNeigh], [handleFdb], [handleNeighborL3] *)

(** The text of the last [NDA_LLADDR] of at least six octets. *)
Definition lladdr (attrs : list Attr) : option string :=
  (λ a, formatMacAddress (a_data a) (payload a)) <$>
    last (filter (λ a, a_type a = NDA_LLADDR ∧ (6 ≤ payload a)%Z) attrs).

Definition handleFdb (ty state : Z) (ifname : string) (attrs : list Attr) : list NetInput :=
  match lladdr attrs with
  | None => []
  | Some mac =>
      [NFdb (mkFdbEvent ifname mac (negb (ty =? RTM_DELNEIGH)%Z) (isFdbLocal state) (isFdbPermanent state))]
  end.

(** The last [NDA_DST] whose length fits the family. *)
Definition neigh_dst (family : Z) (attrs : list Attr) : option string :=
  (λ a, formatIpAddress family (a_data a)) <$>
    last (filter (λ a, a_type a = NDA_DST ∧ ((family = AF_INET ∧ payload a = 4%Z) ∨
                                              (family = AF_INET6 ∧ payload a = 16%Z))) attrs).

Definition handleNeighborL3 (ty family state : Z) (ifname : string) (attrs : list Attr) : list NetInput :=
  match lladdr attrs, neigh_dst family attrs with
  | Some mac, Some ip => [NNeighbor (mkNeighborEvent ifname mac family ip state (negb (ty =? RTM_DELNEIGH)%Z))]
  | _, _ => []
  end.

Definition handleNeigh (m : list Z) (cache : IfindexCache) : result Fault (list NetInput * IfindexCache) :=
  r ← getPayloadAndAttrLen sizeof_ndmsg m;
  match r with
  | None => Ok ([], cache)
  | Some attrLen =>
      ndm_ifindex ← load32 m (NLMSG_HDRLEN + 4)%Z;
      family ← load8 m NLMSG_HDRLEN;
      state ← load16 m (NLMSG_HDRLEN + 8)%Z;
      ty ← nlmsg_type m;
      let '(ifname, cache) := ifIndexToName ndm_ifindex cache in
      if (family =? AF_BRIDGE)%Z then
        attrs ← attributes sizeof_ndmsg m attrLen; Ok (handleFdb ty state ifname attrs, cache)
      else if isIpv4 family || isIpv6 family then
        attrs ← attributes sizeof_ndmsg m attrLen; Ok (handleNeighborL3 ty family state ifname attrs, cache)
      else Ok ([], cache)
  end.

(** * [processMessage] *)

(** The error code of an [NLMSG_ERROR] is read, for the log. *)
Definition processMessage (m : list Z) (cache : IfindexCache) : result Fault (list NetInput * IfindexCache) :=
  ty ← nlmsg_type m;
  if ((ty =? RTM_NEWLINK) || (ty =? RTM_DELLINK))%Z then handleLink m cache
  else if ((ty =? RTM_NEWADDR) || (ty =? RTM_DELADDR))%Z then handleAddr m cache
  else if ((ty =? RTM_NEWNEIGH) || (ty =? RTM_DELNEIGH))%Z then handleNeigh m cache
  else if (ty =? NLMSG_ERROR)%Z then
    nlen ← nlmsg_len m;
    if (nlen <? NLMSG_LENGTH sizeof_nlmsgerr)%Z then Ok ([], cache)
    else _ ← load32 m NLMSG_HDRLEN; Ok ([], cache)
  else Ok ([], cache).
End parser.

(** [NLMSG_OK(header, remaining)] *)
Definition NLMSG_OK (m : list Z) (remaining : Z) : result Fault bool :=
  if (remaining <? NLMSG_HDRLEN)%Z then Ok false
  else nlen ← nlmsg_len m; Ok ((NLMSG_HDRLEN <=? nlen) && (nlen <=? remaining))%Z.

(** * Specification: the kernel's encoding of attributes *)

Definition le16 (n : Z) : list Z := [n mod 256; n / 256 mod 256]%Z.
Definition le32 (n : Z) : list Z := [n mod 256; n / 256 mod 256; n / 65536 mod 256; n / 16777216 mod 256]%Z.

Definition encode_attr (a : Attr) : list Z :=
  le16 (4 + payload a) ++ le16 (a_type a) ++ a_data a ++
  replicate (Z.to_nat (align4 (4 + payload a) - (4 + payload a))) 0%Z.

Definition attr_ok (a : Attr) : Prop := (payload a < 65532 ∧ 0 ≤ a_type a < 65536)%Z.

(** A message: its header, the fixed part and the attributes. *)
Definition encode_message (ty flags seq : Z) (fixed : list Z) (attrs : list Attr) : list Z :=
  le32 (16 + Z.of_nat (length fixed) + Z.of_nat (length (attrs ≫= encode_attr))) ++
  (le16 ty ++ le16 flags ++ le32 seq ++ le32 0) ++ fixed ++ (attrs ≫= encode_attr).

Definition encode_ndmsg (family state ifindex : Z) : list Z :=
  [family; 0; 0; 0]%Z ++ le32 ifindex ++ le16 state ++ [0; 0]%Z.
Definition encode_ifinfomsg (ifindex flags : Z) : list Z :=
  [0; 0; 0; 0]%Z ++ le32 ifindex ++ le32 flags ++ [255; 255; 255; 255]%Z.
Definition encode_ifaddrmsg (family prefixlen ifindex : Z) : list Z :=
  [family; prefixlen; 0; 0]%Z ++ le32 ifindex.

(** * Memory safety *)

Definition well_formed (m : list Z) : Prop :=
  Forall is_octet m ∧ ∃ nlen, nlmsg_len m = Ok nlen ∧ (16 ≤ nlen ≤ Z.of_nat (length m))%Z ∧
    (Z.of_nat (length m) < 2 ^ 31)%Z.

Lemma load_ok buf off n :
  (0 ≤ off)%Z → (off + Z.of_nat n ≤ Z.of_nat (length buf))%Z →
  load buf off n = Ok (take n (drop (Z.to_nat off) buf)).
Proof. intros. unfold load. by rewrite decide_True by lia. Qed.

Lemma load_uint_ok buf off n :
  (0 ≤ off)%Z → (off + Z.of_nat n ≤ Z.of_nat (length buf))%Z →
  ∃ x, load_uint n buf off = Ok x ∧ x = le_value (take n (drop (Z.to_nat off) buf)).
Proof. intros. unfold load_uint. rewrite load_ok by done. cbn. eauto. Qed.

Lemma align4_spec n : (0 ≤ n)%Z → (n ≤ align4 n ≤ n + 3)%Z ∧ (4 | align4 n)%Z.
Proof.
  intros Hn. assert (align4 n = 4 * ((n + 3) / 4))%Z as ->.
  { unfold align4. change (Z.lnot 3) with (Z.lnot (Z.ones 2)). rewrite <- Z.ldiff_land, Z.ldiff_ones_r by lia.
    rewrite Z.shiftl_mul_pow2, Z.shiftr_div_pow2 by lia. change (2 ^ 2)%Z with 4%Z. lia. }
  split; [|apply Z.divide_factor_l]. pose proof (Z.div_mod (n + 3) 4). pose proof (Z.mod_pos_bound (n + 3) 4). lia.
Qed.

(** The attribute loop stays in the buffer when what is left of the message does. *)
Lemma attr_loop_ok fuel m off len :
  (0 ≤ off)%Z → (off + len ≤ Z.of_nat (length m))%Z → (len < Z.of_nat fuel)%Z → 0 < fuel →
  ∃ l, attr_loop fuel m off len = Ok l.
Proof.
  revert off len. induction fuel as [|fuel IH]; intros off len Hoff Hlen Hfuel Hpos; [lia|]. cbn [attr_loop].
  destruct (Z.ltb_spec len 4); [by eexists|].
  destruct (load_uint_ok m off 2) as (rl & Hrl & _); [lia..|]. unfold load16. rewrite Hrl. cbn.
  destruct (Z.ltb_spec rl 4); cbn; [by eexists|]. destruct (Z.ltb_spec len rl); [by eexists|].
  destruct (load_uint_ok m (off + 2) 2) as (rt & Hrt & _); [lia..|]. rewrite Hrt. cbn.
  rewrite load_ok by lia. cbn.
  destruct (align4_spec rl) as [Hal _]; [lia|].
  destruct (IH (off + align4 rl)%Z (len - align4 rl)%Z) as [l Hl]; [lia..|]. rewrite Hl. by eexists.
Qed.

Lemma getPayload_ok size m nlen :
  nlmsg_len m = Ok nlen → (16 ≤ nlen < 2 ^ 31)%Z →
  getPayloadAndAttrLen size m =
    Ok (if decide (nlen < NLMSG_LENGTH size)%Z then None else Some (nlen - NLMSG_LENGTH size)%Z).
Proof.
  intros Hl Hb. unfold getPayloadAndAttrLen. rewrite Hl. cbn.
  assert (to_int32 nlen = nlen) as ->.
  { unfold to_int32. rewrite Z.mod_small by lia. by destruct (Z.leb_spec (2 ^ 31) nlen); [lia|]. }
  destruct (Z.ltb_spec nlen (NLMSG_LENGTH size)); [by rewrite decide_True|by rewrite decide_False by lia].
Qed.

Lemma attributes_ok size m attrLen :
  (0 ≤ size)%Z → align4 size = size →
  (NLMSG_LENGTH size + attrLen ≤ Z.of_nat (length m))%Z → ∃ l, attributes size m attrLen = Ok l.
Proof.
  intros Hs Ha Hl. unfold attributes, NLMSG_LENGTH, NLMSG_HDRLEN in *. rewrite Ha.
  apply attr_loop_ok; lia.
Qed.

(** Steps through the checked loads of a handler. *)
Ltac load_step :=
  match goal with
  | |- context [mbind _ (load_uint ?n ?m ?off)] =>
      let x := fresh "x" in let H := fresh in
      destruct (load_uint_ok m off n) as (x & H & _);
        [unfold NLMSG_HDRLEN, NLMSG_LENGTH, sizeof_ifinfomsg, sizeof_ifaddrmsg, sizeof_ndmsg, sizeof_nlmsgerr in *; lia..
        | rewrite H; clear H; cbn [mbind result_bind]]
  | |- context [mbind _ (attributes ?s ?m ?n)] =>
      let l := fresh "l" in let H := fresh in
      destruct (attributes_ok s m n) as (l & H);
        [by vm_compute | reflexivity | unfold NLMSG_LENGTH in *; lia
        | rewrite H; clear H; cbn [mbind result_bind]]
  end.

Ltac branch := match goal with |- context [if ?b then _ else _] => destruct b end.

Section safety.
Context `{InetNtop, IfIndexToName}.

Lemma handleLink_safe m cache : well_formed m → ∃ r, handleLink m cache = Ok r.
Proof.
  intros (_ & nlen & Hn & Hb & Hlt). unfold handleLink.
  rewrite (getPayload_ok _ m nlen Hn) by lia. cbn [mbind result_bind].
  case_decide as Hs; [by eexists|]. unfold load32, nlmsg_type, load16. repeat load_step.
  destruct (foldl _ _ _) as [[? ? ? ? ? ? ? ? ?] [] ?]; [by eexists|].
  destruct (ifIndexToName _ _). by eexists.
Qed.

Lemma handleAddr_safe m cache : well_formed m → ∃ r, handleAddr m cache = Ok r.
Proof.
  intros (_ & nlen & Hn & Hb & Hlt). unfold handleAddr.
  rewrite (getPayload_ok _ m nlen Hn) by lia. cbn [mbind result_bind].
  case_decide as Hs; [by eexists|]. unfold load32, nlmsg_type, load16, load8. load_step. cbv zeta.
  branch; [by eexists|]. repeat load_step.
  destruct (ifIndexToName _ _). repeat load_step. by eexists.
Qed.

Lemma handleNeigh_safe m cache : well_formed m → ∃ r, handleNeigh m cache = Ok r.
Proof.
  intros (_ & nlen & Hn & Hb & Hlt). unfold handleNeigh.
  rewrite (getPayload_ok _ m nlen Hn) by lia. cbn [mbind result_bind].
  case_decide as Hs; [by eexists|]. unfold load32, nlmsg_type, load16, load8. repeat load_step.
  destruct (ifIndexToName _ _). repeat (branch; [by eexists|]). by eexists.
Qed.

(** The parser is memory safe and total: for every buffer of octets that
    holds the message its header announces ([NLMSG_OK]), whatever the message
    type, the lengths of its attributes or their contents, processing it reads
    only inside the buffer and terminates. *)
Lemma processMessage_total m cache : well_formed m → ∃ r, processMessage m cache = Ok r.
Proof.
  intros Hwf. pose proof Hwf as (_ & nlen & Hn & Hb & Hlt). unfold processMessage, nlmsg_type, load16.
  load_step. branch; [by apply handleLink_safe|]. branch; [by apply handleAddr_safe|].
  branch; [by apply handleNeigh_safe|]. branch; [|by eexists].
  rewrite Hn. cbn [mbind result_bind]. destruct (Z.ltb_spec nlen (NLMSG_LENGTH sizeof_nlmsgerr)); [by eexists|].
  unfold load32. load_step. by eexists.
Qed.
End safety.

(** * Encoding and decoding *)

Lemma load_app pre x post n :
  length x = n → load (pre ++ x ++ post) (Z.of_nat (length pre)) n = Ok x.
Proof.
  intros <-. rewrite load_ok; [|lia|rewrite !length_app; lia].
  by rewrite Nat2Z.id, drop_app_length, take_app_length.
Qed.

Lemma le16_value n : (0 ≤ n < 65536)%Z → le_value (le16 n) = n.
Proof.
  intros Hn. cbn. pose proof (Z.div_mod n 256). pose proof (Z.div_lt_upper_bound n 256 256).
  rewrite (Z.mod_small (n / 256)) by (split; [apply Z.div_pos; lia|lia]). lia.
Qed.

Lemma le32_value n : (0 ≤ n < 2 ^ 32)%Z → le_value (le32 n) = n.
Proof.
  intros Hn. unfold le32. cbn [le_value].
  replace (n / 65536)%Z with (n / 256 / 256)%Z by (rewrite Z.div_div by lia; done).
  replace (n / 16777216)%Z with (n / 256 / 256 / 256)%Z by (rewrite !Z.div_div by lia; done).
  pose proof (Z.div_mod n 256 ltac:(lia)). pose proof (Z.div_mod (n / 256) 256 ltac:(lia)).
  pose proof (Z.div_mod (n / 256 / 256) 256 ltac:(lia)).
  assert (0 ≤ n / 256 / 256 / 256 < 256)%Z.
  { rewrite !Z.div_div by lia. split; [apply Z.div_pos; lia|apply Z.div_lt_upper_bound; lia]. }
  rewrite (Z.mod_small (n / 256 / 256 / 256)) by lia. lia.
Qed.

Lemma load16_app pre n post off :
  off = Z.of_nat (length pre) → (0 ≤ n < 65536)%Z → load16 (pre ++ le16 n ++ post) off = Ok n.
Proof.
  intros -> Hn. unfold load16, load_uint. rewrite load_app by done. cbn [mbind result_bind].
  by rewrite le16_value.
Qed.

Lemma load32_app pre n post off :
  off = Z.of_nat (length pre) → (0 ≤ n < 2 ^ 32)%Z → load32 (pre ++ le32 n ++ post) off = Ok n.
Proof.
  intros -> Hn. unfold load32, load_uint. rewrite load_app by done. cbn [mbind result_bind].
  by rewrite le32_value.
Qed.

Lemma length_encode_attr a : Z.of_nat (length (encode_attr a)) = align4 (4 + payload a).
Proof.
  unfold encode_attr. rewrite !length_app, length_replicate. unfold le16. cbn [length].
  destruct (align4_spec (4 + payload a)) as [Hb _]; unfold payload in *; lia.
Qed.

Lemma attr_loop_step fuel pre a post off n :
  attr_ok a → off = Z.of_nat (length pre) → (0 ≤ n)%Z →
  attr_loop (S fuel) (pre ++ encode_attr a ++ post) off (align4 (4 + payload a) + n) =
    (rest ← attr_loop fuel (pre ++ encode_attr a ++ post) (off + align4 (4 + payload a))%Z n; Ok (a :: rest)).
Proof.
  intros [Hp Ht] -> Hn. assert (Hpos : (0 ≤ payload a)%Z) by (unfold payload; lia).
  destruct (align4_spec (4 + payload a)) as [Hb _]; [lia|].
  unfold encode_attr. set (pad := replicate _ 0%Z). rewrite <- !(assoc_L (++)). cbn [attr_loop].
  destruct (Z.ltb_spec (align4 (4 + payload a) + n) 4); [lia|].
  rewrite (load16_app pre (4 + payload a) _ (Z.of_nat (length pre))) by (done || lia). cbn [mbind result_bind].
  destruct (Z.ltb_spec (4 + payload a) 4); [lia|].
  destruct (Z.ltb_spec (align4 (4 + payload a) + n) (4 + payload a)); [lia|]. cbn [orb].
  rewrite (assoc_L (++) pre (le16 (4 + payload a))).
  rewrite (load16_app (pre ++ le16 (4 + payload a)) (a_type a) _ (Z.of_nat (length pre) + 2)) by (rewrite ?length_app; cbn; lia).
  cbn [mbind result_bind]. rewrite (assoc_L (++) (pre ++ _) (le16 (a_type a))).
  assert (Z.of_nat (length pre) + 4 = Z.of_nat (length ((pre ++ le16 (4 + payload a)) ++ le16 (a_type a))))%Z as ->
    by (rewrite !length_app; cbn; lia).
  rewrite load_app by (unfold payload; lia). cbn [mbind result_bind].
  replace (align4 (4 + payload a) + n - align4 (4 + payload a))%Z with n by lia. by destruct a.
Qed.

Lemma attr_loop_encode l fuel pre post off :
  Forall attr_ok l → off = Z.of_nat (length pre) →
  (Z.of_nat (length (l ≫= encode_attr)) < Z.of_nat fuel)%Z →
  attr_loop fuel (pre ++ (l ≫= encode_attr) ++ post) off (Z.of_nat (length (l ≫= encode_attr))) = Ok l.
Proof.
  intros Hl. revert fuel pre off. induction Hl as [|a l Ha Hl IH]; intros fuel pre off -> Hf.
  - destruct fuel; [cbn in Hf; lia|]. reflexivity.
  - rewrite bind_cons in *. rewrite length_app, Nat2Z.inj_add, length_encode_attr in *.
    assert (Hpos : (0 ≤ payload a)%Z) by (unfold payload; lia).
    destruct (align4_spec (4 + payload a)) as [Hb _]; [lia|].
    destruct fuel as [|fuel]; [lia|]. rewrite <- (assoc_L (++)). rewrite attr_loop_step by (done || lia).
    rewrite (assoc_L (++) pre (encode_attr a)). rewrite IH; [done| |lia].
    rewrite length_app, Nat2Z.inj_add, length_encode_attr. done.
Qed.

(** What the parser reads of an encoded message, whatever follows it. *)
Definition message_ok (ty : Z) (fixed : list Z) (attrs : list Attr) : Prop :=
  Forall attr_ok attrs ∧ (0 ≤ ty < 65536)%Z ∧
  (16 + Z.of_nat (length fixed) + Z.of_nat (length (attrs ≫= encode_attr)) < 2 ^ 31)%Z.

Lemma encoded_len ty nlf seq fixed attrs post :
  message_ok ty fixed attrs →
  nlmsg_len (encode_message ty nlf seq fixed attrs ++ post) =
    Ok (16 + Z.of_nat (length fixed) + Z.of_nat (length (attrs ≫= encode_attr)))%Z.
Proof.
  intros (_ & _ & Hb). unfold nlmsg_len, encode_message. rewrite <- (assoc_L (++)).
  apply (load32_app []); [done|lia].
Qed.

Lemma encoded_type ty nlf seq fixed attrs post :
  message_ok ty fixed attrs → nlmsg_type (encode_message ty nlf seq fixed attrs ++ post) = Ok ty.
Proof.
  intros (_ & Ht & _). unfold nlmsg_type, encode_message. rewrite <- !(assoc_L (++)).
  by apply (load16_app (le32 _)).
Qed.

(** A load inside the fixed part. *)
Lemma encoded_load n ty nlf seq fixed attrs post off :
  (0 ≤ off)%Z → (off + Z.of_nat n ≤ Z.of_nat (length fixed))%Z →
  load_uint n (encode_message ty nlf seq fixed attrs ++ post) (NLMSG_HDRLEN + off) = load_uint n fixed off.
Proof.
  intros Hoff Hn. unfold load_uint. unfold encode_message. rewrite (assoc_L (++) (le32 _)).
  set (hd := le32 _ ++ _). rewrite <- !(assoc_L (++)).
  assert (Hhd : length hd = 16) by done. unfold NLMSG_HDRLEN.
  rewrite !load_ok by (rewrite ?length_app; lia). cbn [mbind result_bind]. do 2 f_equal.
  replace (Z.to_nat (16 + off)) with (length hd + Z.to_nat off) by lia.
  rewrite <- drop_drop, drop_app_length, drop_app_le by lia. rewrite take_app_le; [done|rewrite length_drop; lia].
Qed.

Lemma encoded_load_first n ty nlf seq fixed attrs post :
  (Z.of_nat n ≤ Z.of_nat (length fixed))%Z →
  load_uint n (encode_message ty nlf seq fixed attrs ++ post) NLMSG_HDRLEN = load_uint n fixed 0.
Proof. intros Hn. rewrite <- (encoded_load n ty nlf seq fixed attrs post 0) by lia. done. Qed.

Lemma encoded_payload size ty nlf seq fixed attrs post :
  message_ok ty fixed attrs → Z.of_nat (length fixed) = size →
  getPayloadAndAttrLen size (encode_message ty nlf seq fixed attrs ++ post) =
    Ok (Some (Z.of_nat (length (attrs ≫= encode_attr)))).
Proof.
  intros Hok <-. rewrite (getPayload_ok _ _ _ (encoded_len _ _ _ _ _ _ Hok)) by (destruct Hok as (_ & _ & ?); lia).
  unfold NLMSG_LENGTH. rewrite decide_False by lia. do 2 f_equal. lia.
Qed.

Lemma encoded_attributes size ty nlf seq fixed attrs post :
  message_ok ty fixed attrs → Z.of_nat (length fixed) = size → align4 size = size →
  attributes size (encode_message ty nlf seq fixed attrs ++ post) (Z.of_nat (length (attrs ≫= encode_attr))) = Ok attrs.
Proof.
  intros (Ha & _ & _) Hs Hal. unfold attributes. rewrite Hal. unfold encode_message.
  rewrite (assoc_L (++) (le32 _)), (assoc_L (++) _ fixed).
  match goal with |- context [(?h ++ fixed) ++ _] => set (hd := h ++ fixed) end. rewrite <- (assoc_L (++) hd).
  apply attr_loop_encode; [done| |rewrite !length_app; lia].
  unfold hd. rewrite length_app, Nat2Z.inj_add, <- Hs. done.
Qed.

Section roundtrip.
Context `{InetNtop, IfIndexToName}.

Lemma ndmsg_loads family state ifindex :
  (0 ≤ family < 256)%Z → (0 ≤ state < 65536)%Z → (0 ≤ ifindex < 2 ^ 32)%Z →
  load_uint 4 (encode_ndmsg family state ifindex) 4 = Ok ifindex ∧
  load_uint 1 (encode_ndmsg family state ifindex) 0 = Ok family ∧
  load_uint 2 (encode_ndmsg family state ifindex) 8 = Ok state.
Proof.
  intros Hf Hs Hi. unfold encode_ndmsg. split_and!.
  - by apply (load32_app [family; 0; 0; 0]%Z).
  - unfold load_uint. rewrite load_ok by (cbn; lia). change (Z.to_nat 0) with 0.
    cbn [app mbind result_bind drop take le_value]. f_equal. lia.
  - rewrite (assoc_L (++) [family; 0; 0; 0]%Z). by apply (load16_app ([family; 0; 0; 0]%Z ++ le32 ifindex)).
Qed.

(** A neighbour message is parsed to what its handlers make of its attributes. *)
Lemma neigh_decodes ty nlf seq family state ifindex attrs post cache :
  ty = RTM_NEWNEIGH ∨ ty = RTM_DELNEIGH →
  (0 ≤ family < 256)%Z → (0 ≤ state < 65536)%Z → (0 ≤ ifindex < 2 ^ 32)%Z →
  message_ok ty (encode_ndmsg family state ifindex) attrs →
  processMessage (encode_message ty nlf seq (encode_ndmsg family state ifindex) attrs ++ post) cache =
    Ok (let '(ifname, cache) := ifIndexToName ifindex cache in
        (if (family =? AF_BRIDGE)%Z then handleFdb ty state ifname attrs
         else if isIpv4 family || isIpv6 family then handleNeighborL3 ty family state ifname attrs else [],
         cache)).
Proof.
  intros Hty Hf Hs Hi Hok. destruct (ndmsg_loads family state ifindex) as (L1 & L2 & L3); [done..|].
  unfold processMessage. rewrite encoded_type by done. cbn [mbind result_bind].
  transitivity (handleNeigh (encode_message ty nlf seq (encode_ndmsg family state ifindex) attrs ++ post) cache);
    [by destruct Hty as [-> | ->]|].
  unfold handleNeigh, load32, load16, load8. rewrite encoded_payload by done. cbn [mbind result_bind].
  rewrite (encoded_load 4 _ _ _ _ _ _ 4), L1 by done. cbn [mbind result_bind].
  rewrite (encoded_load_first 1), L2 by done. cbn [mbind result_bind].
  rewrite (encoded_load 2 _ _ _ _ _ _ 8), L3, encoded_type by done. cbn [mbind result_bind].
  rewrite encoded_attributes by done. cbn [mbind result_bind].
  destruct (ifIndexToName _ _). by repeat branch.
Qed.

(** C24: whatever other attributes a neighbour message carries, and in whatever
    order, whatever its header flags and
    sequence number, and whatever follows it in the receive buffer, a message whose one
    link-layer address is [mac] and whose one destination is an address of the
    message's family is parsed to exactly one neighbour event: the name of the
    message's interface, the two addresses in text, the kernel's state, and
    presence as the type of the message says. *)
Theorem neighbor_roundtrip ty nlf seq family state ifindex attrs mac dst post cache :
  ty = RTM_NEWNEIGH ∨ ty = RTM_DELNEIGH →
  (family = AF_INET ∧ length dst = 4) ∨ (family = AF_INET6 ∧ length dst = 16) →
  (0 ≤ state < 65536)%Z → (0 ≤ ifindex < 2 ^ 32)%Z → length mac = 6 →
  message_ok ty (encode_ndmsg family state ifindex) attrs →
  filter (λ a, a_type a = NDA_LLADDR) attrs = [mkAttr NDA_LLADDR mac] →
  filter (λ a, a_type a = NDA_DST) attrs = [mkAttr NDA_DST dst] →
  processMessage (encode_message ty nlf seq (encode_ndmsg family state ifindex) attrs ++ post) cache =
    Ok ([NNeighbor (mkNeighborEvent (ifIndexToName ifindex cache).1 (formatMacAddress mac 6) family
                      (formatIpAddress family dst) state (bool_decide (ty = RTM_NEWNEIGH)))],
        (ifIndexToName ifindex cache).2).
Proof.
  intros Hty Hf Hs Hi Hm Hok Hl Hd.
  assert (Hfam : (0 ≤ family < 256)%Z ∧ (family =? AF_BRIDGE)%Z = false ∧ isIpv4 family || isIpv6 family = true)
    by (by destruct Hf as [[-> _]|[-> _]]).
  destruct Hfam as (Hf1 & Hf2 & Hf3). rewrite neigh_decodes by done. rewrite Hf2, Hf3.
  destruct (ifIndexToName ifindex cache) as [name cache']. cbn [fst snd]. unfold handleNeighborL3.
  assert (lladdr attrs = Some (formatMacAddress mac 6)) as ->.
  { unfold lladdr. rewrite <- (list_filter_filter_l _ (λ a, a_type a = NDA_LLADDR)) by (by intros ? []).
    rewrite Hl. rewrite filter_cons_True by (unfold payload; cbn; split; [done|lia]). cbn. unfold payload. cbn.
    by rewrite Hm. }
  assert (neigh_dst family attrs = Some (formatIpAddress family dst)) as ->.
  { unfold neigh_dst. rewrite <- (list_filter_filter_l _ (λ a, a_type a = NDA_DST)) by (by intros ? []).
    rewrite Hd. rewrite filter_cons_True; [done|]. split; [done|]. unfold payload. cbn.
    destruct Hf as [[-> ->]|[-> ->]]; auto. }
  do 5 f_equal. by destruct Hty as [-> | ->].
Qed.

Lemma ifinfomsg_loads ifindex flags :
  (0 ≤ ifindex < 2 ^ 32)%Z → (0 ≤ flags < 2 ^ 32)%Z →
  load_uint 4 (encode_ifinfomsg ifindex flags) 4 = Ok ifindex ∧
  load_uint 4 (encode_ifinfomsg ifindex flags) 8 = Ok flags.
Proof.
  intros Hi Hf. unfold encode_ifinfomsg. split; [by apply (load32_app [0; 0; 0; 0]%Z)|].
  rewrite (assoc_L (++) [0; 0; 0; 0]%Z). by apply (load32_app ([0; 0; 0; 0]%Z ++ le32 ifindex)).
Qed.

(** The attributes [handleLink] looks at. *)
Definition link_relevant (a : Attr) : Prop :=
  a_type a ∈ [IFLA_ADDRESS; IFLA_IFNAME; IFLA_MASTER; IFLA_OPERSTATE].

#[export] Instance link_relevant_dec a : Decision (link_relevant a).
Proof. unfold link_relevant. apply _. Defined.

Lemma link_attr_irrelevant idx st a : ¬ link_relevant a → link_attr idx st a = st.
Proof.
  unfold link_relevant. rewrite !elem_of_cons. intros Hn. unfold link_attr.
  destruct st as [[] ? ?]. repeat case_match; try done; rewrite ?Z.eqb_eq in *; naive_solver.
Qed.

Lemma link_attrs_relevant idx l : ∀ st, foldl (link_attr idx) st l = foldl (link_attr idx) st (filter link_relevant l).
Proof.
  induction l as [|a l IH]; intros st; [done|]. rewrite filter_cons. cbn [foldl].
  destruct (decide (link_relevant a)); cbn [foldl]; [apply IH|]. by rewrite link_attr_irrelevant, IH.
Qed.

Lemma to_int32_small n : (0 ≤ n < 2 ^ 31)%Z → to_int32 n = n.
Proof.
  intros. unfold to_int32. rewrite Z.mod_small by lia. by destruct (Z.leb_spec (2 ^ 31) n); [lia|].
Qed.

Lemma to_uint32_small n : (0 ≤ n < 2 ^ 32)%Z → to_uint32 n = n.
Proof. intros. unfold to_uint32. by rewrite Z.mod_small by lia. Qed.

Lemma trim_nul_app l : trim_nul (l ++ [0%Z]) = l.
Proof. unfold trim_nul. by rewrite last_snoc, removelast_last. Qed.

Lemma link_attr_ifname idx i n mac up run oper master mn present named cache name :
  (0 ≤ idx < 2 ^ 31)%Z →
  link_attr idx (mkLinkParse (mkLinkEvent i n mac up run oper master mn present) named cache)
    (mkAttr IFLA_IFNAME (name ++ [0%Z])) =
  mkLinkParse (mkLinkEvent i (bytes_to_string name) mac up run oper master mn present) true
    (updateIfIndexName idx (bytes_to_string name) cache).
Proof.
  intros Hi. unfold link_attr, payload. cbn [a_type a_data].
  destruct (Z.ltb_spec (Z.of_nat (length (name ++ [0%Z]))) 1) as [Hl|]; [rewrite length_app in Hl; cbn in Hl; lia|].
  by rewrite trim_nul_app, to_uint32_small by lia.
Qed.

Lemma link_attr_oper_mac idx i n mac up run oper ma mn present named cache o d :
  link_attr idx (link_attr idx (mkLinkParse (mkLinkEvent i n mac up run oper ma mn present) named cache)
    (mkAttr IFLA_OPERSTATE [o])) (mkAttr IFLA_ADDRESS d) =
  mkLinkParse (mkLinkEvent i n (formatMacAddress d (Z.of_nat (length d))) up run o ma mn present) named cache.
Proof. reflexivity. Qed.

Lemma link_attr_master idx i n mac up run oper ma mn present named cache m :
  (0 ≤ m < 2 ^ 31)%Z →
  link_attr idx (mkLinkParse (mkLinkEvent i n mac up run oper ma mn present) named cache)
    (mkAttr IFLA_MASTER (le32 m)) =
  mkLinkParse (mkLinkEvent i n mac up run oper (Some m) (Some (ifIndexToName m cache).1) present) named
    (ifIndexToName m cache).2.
Proof.
  intros Hm. unfold link_attr. cbn [a_type a_data]. change (payload (mkAttr IFLA_MASTER (le32 m))) with 4%Z.
  change (take 4 (le32 m)) with (le32 m).
  rewrite le32_value, (to_int32_small m), (to_uint32_small m) by lia. cbn. by destruct (ifIndexToName m cache).
Qed.

(** What the kernel sends for a link: its name, operational state, hardware
    address and, when it is enslaved, its master. *)
Definition link_attrs (name mac : list Z) (oper : Z) (master : option Z) : list Attr :=
  [mkAttr IFLA_IFNAME (name ++ [0%Z]); mkAttr IFLA_OPERSTATE [oper]; mkAttr IFLA_ADDRESS mac] ++
  match master with Some i => [mkAttr IFLA_MASTER (le32 i)] | None => [] end.

Lemma handleLink_decodes ty nlf seq ifindex flags attrs post cache :
  ty = RTM_NEWLINK ∨ ty = RTM_DELLINK →
  (0 ≤ ifindex < 2 ^ 31)%Z → (0 ≤ flags < 2 ^ 32)%Z →
  message_ok ty (encode_ifinfomsg ifindex flags) attrs →
  processMessage (encode_message ty nlf seq (encode_ifinfomsg ifindex flags) attrs ++ post) cache =
    let present := bool_decide (ty = RTM_NEWLINK) in
    let event := mkLinkEvent ifindex "" "" (negb (Z.land flags IFF_UP =? 0)%Z)
                   (negb (Z.land flags IFF_RUNNING =? 0)%Z) 0 None None present in
    let 'mkLinkParse e named cache :=
      foldl (link_attr ifindex)
        (mkLinkParse event false (if present then cache else invalidateIfIndex ifindex cache)) attrs in
    if named : bool then Ok ([NLink e], cache)
    else
      let '(name, cache) := ifIndexToName ifindex cache in
      let 'mkLinkEvent i _ mac up run oper master masterName present := e in
      Ok ([NLink (mkLinkEvent i name mac up run oper master masterName present)], cache).
Proof.
  intros Hty Hi Hf Hok. destruct (ifinfomsg_loads ifindex flags) as (L1 & L2); [lia..|].
  unfold processMessage. rewrite encoded_type by done. cbn [mbind result_bind].
  transitivity (handleLink (encode_message ty nlf seq (encode_ifinfomsg ifindex flags) attrs ++ post) cache);
    [by destruct Hty as [-> | ->]|].
  unfold handleLink, load32. rewrite encoded_payload by done. cbn [mbind result_bind].
  rewrite (encoded_load 4 _ _ _ _ _ _ 4), L1 by done. cbn [mbind result_bind].
  rewrite (encoded_load 4 _ _ _ _ _ _ 8), L2, encoded_type by done. cbn [mbind result_bind].
  rewrite encoded_attributes by done. cbn [mbind result_bind].
  rewrite (to_int32_small ifindex), to_uint32_small by lia.
  destruct Hty as [-> | ->]; reflexivity.
Qed.

End roundtrip.

(** * The cache after a removal *)

(** The removal of a link drops its name from the cache, and the name that the
    same message carries puts it back: a later message that names the index
    only resolves it to the removed interface. *)
Lemma removed_link_stays_cached `{InetNtop, IfIndexToName} nlf seq ifindex flags attrs name mac oper post cache :
  (0 ≤ ifindex < 2 ^ 31)%Z → (0 ≤ flags < 2 ^ 32)%Z →
  message_ok RTM_DELLINK (encode_ifinfomsg ifindex flags) attrs →
  filter link_relevant attrs = link_attrs name mac oper None →
  ∃ out cache', processMessage (encode_message RTM_DELLINK nlf seq (encode_ifinfomsg ifindex flags) attrs ++ post) cache
                  = Ok (out, cache') ∧
    ifIndexToName ifindex cache' = (bytes_to_string name, cache').
Proof.
  intros Hi Hf Hok Hat. rewrite handleLink_decodes by auto. cbv zeta.
  rewrite link_attrs_relevant, Hat. unfold link_attrs. cbn [app foldl].
  rewrite link_attr_ifname, link_attr_oper_mac by lia. do 2 eexists. split; [reflexivity|].
  unfold ifIndexToName, updateIfIndexName. by rewrite lookup_insert_eq.
Qed.

(** * Witnesses *)

Section demo.

#[local] Instance demo_ntop : InetNtop := λ f d,
  if (f =? AF_INET)%Z then Some (foldr (λ b s, pretty b +:+ "." +:+ s) "" d) else Some "v6".
#[local] Instance demo_names : IfIndexToName := λ i, if (i =? 2)%Z then Some "eth0" else None.

Definition demo_neigh_attrs : list Attr :=
  [mkAttr 3 [0; 0; 0; 0]; mkAttr NDA_DST [10; 0; 0; 7]; mkAttr NDA_LLADDR [2; 0; 0; 0; 0; 9]; mkAttr 8 [1]]%Z.
Definition demo_neigh : list Z := encode_message RTM_NEWNEIGH 0 0 (encode_ndmsg AF_INET 2 2) demo_neigh_attrs.

Lemma neighbor_roundtrip_witness :
  processMessage (demo_neigh ++ [7; 7]%Z) ∅ =
    Ok ([NNeighbor (mkNeighborEvent "eth0" "02:00:00:00:00:09" AF_INET "10.0.0.7." 2 true)], {[2%Z := "eth0"]}).
Proof.
  refine (neighbor_roundtrip RTM_NEWNEIGH 0 0 AF_INET 2 2 demo_neigh_attrs [2; 0; 0; 0; 0; 9]%Z [10; 0; 0; 7]%Z
            [7; 7]%Z ∅ _ _ _ _ _ _ _ _).
  - left. reflexivity.
  - left. split; reflexivity.
  - lia.
  - lia.
  - reflexivity.
  - split; [|split]; [|split; [vm_compute; discriminate|reflexivity]|vm_compute; reflexivity].
    repeat constructor; vm_compute; discriminate || reflexivity.
  - vm_compute. reflexivity.
  - vm_compute. reflexivity.
Defined.

Definition demo_link_attrs : list Attr :=
  [mkAttr IFLA_IFNAME [101; 49; 0]; mkAttr 13 [0; 0; 0; 1]; mkAttr IFLA_OPERSTATE [6];
   mkAttr 4 [220; 5; 0; 0]; mkAttr IFLA_ADDRESS [2; 0; 0; 0; 0; 1]; mkAttr IFLA_MASTER (le32 2)]%Z.

End demo.
