(* ===== verification/NetlinkIo.v ===== *)
(** [inputs/netlink/common/NetlinkIo.cpp], [inputs/netlink/dump/NetlinkInitialDump.cpp]
    and [inputs/netlink/live/NetlinkEventLoop.cpp]: waiting for and receiving
    datagrams, the five dump transactions and the live loop.

    System calls are inputs: [Io] lists what the successive calls of [send],
    [poll] and [recvmsg] return, and a call with no outcome left has not returned
    ([Blocked]). A datagram is its octets: the stale part of the receive buffer
    behind them does not exist here, so reading it is an out-of-bounds access.
    The message handlers are modelled by what they are called with, in order. *)

From S2P Require Import Prelude Contract Observation LocalState Filter NetlinkState NetlinkParser.

(** * Constants of the system headers *)

Definition EIO : Z := 5.
Definition EBADF : Z := 9.
Definition EINVAL : Z := 22.
Definition EPROTO : Z := 71.
Definition EMSGSIZE : Z := 90.
Definition ECONNRESET : Z := 104.
Definition ENOBUFS : Z := 105.
Definition POLLIN : Z := 1.
(** [POLLERR | POLLHUP | POLLNVAL] *)
Definition POLL_BROKEN : Z := 56.
Definition MSG_TRUNC : Z := 32.
Definition NLM_F_REQUEST : Z := 1.
Definition NLM_F_DUMP : Z := 768.
Definition NLM_F_DUMP_INTR : Z := 16.
Definition RTM_GETLINK : Z := 18.
Definition RTM_GETADDR : Z := 22.
Definition RTM_GETNEIGH : Z := 30.
Definition AF_UNSPEC : Z := 0.
Definition AF_PACKET : Z := 17.

(** * System calls *)

Inductive SendOutcome := SendError (errno : Z) | SendCount (n : Z).
(** [poll]: the events of the data and of the stop descriptor, and what
    [stopSignal.drain()] returns if it is called next. *)
Inductive PollOutcome := PollError (errno : Z) | PollReady (data stop drain : Z).
(** [recvmsg]: the message flags and the octets received. *)
Inductive RecvOutcome := RecvError (errno : Z) | RecvData (flags : Z) (data : list Z).

Record Io := mkIo { io_sends : list SendOutcome; io_polls : list PollOutcome; io_recvs : list RecvOutcome }.

Inductive Stuck := Blocked | Faulted (f : Fault).

Definition lift {A} (r : result Fault A) : result Stuck A :=
  match r with Ok a => Ok a | Err f => Err (Faulted f) end.

(** * [waitForNetlinkDataOrStop] *)

Inductive NetlinkWaitStatus :=
| data_ready | wait_stopped | wait_poll_failed | data_fd_failed | stop_fd_failed | wait_stop_drain_failed.

Definition has_events (revents mask : Z) : bool := negb (Z.land revents mask =? 0)%Z.

Fixpoint wait_loop (polls : list PollOutcome) : result Stuck (NetlinkWaitStatus * Z * list PollOutcome) :=
  match polls with
  | [] => Err Blocked
  | PollError errno :: rest =>
      if (errno =? EINTR)%Z then wait_loop rest else Ok (wait_poll_failed, errno, rest)
  | PollReady data stop drain :: rest =>
      if has_events stop POLLIN then
        if negb (drain =? 0)%Z then Ok (wait_stop_drain_failed, drain, rest) else Ok (wait_stopped, 0%Z, rest)
      else if has_events stop POLL_BROKEN then Ok (stop_fd_failed, EIO, rest)
      else if has_events data POLL_BROKEN then Ok (data_fd_failed, EIO, rest)
      else if has_events data POLLIN then Ok (data_ready, 0%Z, rest)
      else wait_loop rest
  end.

Definition waitForNetlinkDataOrStop (dataFd : Z) (polls : list PollOutcome)
    : result Stuck (NetlinkWaitStatus * Z * list PollOutcome) :=
  if (dataFd <? 0)%Z then Ok (data_fd_failed, EBADF, polls) else wait_loop polls.

(** * [receiveNetlinkDatagram] *)

Inductive NetlinkReceiveResult :=
| received (data : list Z) | receive_error (errno : Z) | receive_closed (errno : Z) | receive_truncated (errno : Z).

Fixpoint receiveNetlinkDatagram (bufferSize : Z) (recvs : list RecvOutcome)
    : result Stuck (NetlinkReceiveResult * list RecvOutcome) :=
  if (bufferSize =? 0)%Z then Ok (receive_error EINVAL, recvs)
  else
    match recvs with
    | [] => Err Blocked
    | RecvError errno :: rest =>
        if (errno =? EINTR)%Z then receiveNetlinkDatagram bufferSize rest else Ok (receive_error errno, rest)
    | RecvData flags data :: rest =>
        if negb (Z.land flags MSG_TRUNC =? 0)%Z then Ok (receive_truncated EMSGSIZE, rest)
        else match data with
             | [] => Ok (receive_closed ECONNRESET, rest)
             | _ => Ok (received data, rest)
             end
    end.

(** * The messages of a datagram *)

(** What the body of the loop does with a message. *)
Inductive MsgStep (R : Type) := MSkip | MHandle | MReturn (r : R).
Arguments MSkip {R}.
Arguments MHandle {R}.
Arguments MReturn {R} r.

(** [for (header = buffer; NLMSG_OK(header, remaining); header = NLMSG_NEXT(header, remaining))]:
    the messages handed to the handler, and the value returned from inside the
    loop or what [remaining] is after it. *)
Fixpoint msg_loop {R} (fuel : nat) (step : list Z → result Fault (MsgStep R)) (m : list Z) (remaining : Z)
    : result Fault (list (list Z) * (R + Z)) :=
  match fuel with
  | O => Err OutOfFuel
  | S fuel =>
      ok ← NLMSG_OK m remaining;
      if negb ok then Ok ([], inr remaining)
      else
        nlen ← nlmsg_len m;
        st ← step m;
        let next := msg_loop fuel step (drop (Z.to_nat (align4 nlen)) m) (remaining - align4 nlen)%Z in
        match st with
        | MReturn r => Ok ([], inl r)
        | MSkip => next
        | MHandle => '(l, e) ← next; Ok (m :: l, e)
        end
  end.

(** A datagram of [n] octets has at most [n] messages. *)
Definition datagram_loop {R} (step : list Z → result Fault (MsgStep R)) (data : list Z)
    : result Fault (list (list Z) * (R + Z)) :=
  msg_loop (S (length data)) step data (Z.of_nat (length data)).
#[global] Arguments datagram_loop {R} step data : simpl never.

(** * [NetlinkInitialDump] *)

Inductive DumpStatus :=
| completed | interrupted | dump_interrupted | send_failed | poll_failed | receive_failed | malformed_message
| kernel_error | stop_drain_failed.

Definition dump_statusName (s : DumpStatus) : string :=
  match s with
  | completed => "completed" | interrupted => "interrupted" | dump_interrupted => "dump_interrupted"
  | send_failed => "send_failed" | poll_failed => "poll_failed" | receive_failed => "receive_failed"
  | malformed_message => "malformed_message" | kernel_error => "kernel_error"
  | stop_drain_failed => "stop_drain_failed"
  end.

Record DumpResult := mkDumpResult { dr_status : DumpStatus; dr_error : Z }.

Definition dump_completed (r : DumpResult) : bool := match dr_status r with completed => true | _ => false end.

#[export] Instance DumpStatus_eq_dec : EqDecision DumpStatus.
Proof. solve_decision. Defined.

Record Request := mkRequest { rq_type : Z; rq_flags : Z; rq_seq : Z; rq_family : Z; rq_len : Z }.

(** What a dump does, in order: requests sent and messages handed over. *)
Inductive DumpAction := Sent (r : Request) | Handled (m : list Z).

Definition positiveKernelError (error : Z) : Z := if (error <? 0)%Z then (- error)%Z else error.

Definition dump_step (sequence : Z) (m : list Z) : result Fault (MsgStep DumpResult) :=
  seq ← nlmsg_seq m;
  if negb (seq =? sequence)%Z then Ok MSkip
  else
    ty ← nlmsg_type m;
    if (ty =? NLMSG_DONE)%Z then
      flags ← nlmsg_flags m;
      if has_events flags NLM_F_DUMP_INTR then Ok (MReturn (mkDumpResult dump_interrupted EINTR))
      else Ok (MReturn (mkDumpResult completed 0))
    else if (ty =? NLMSG_ERROR)%Z then
      nlen ← nlmsg_len m;
      if (nlen <? NLMSG_LENGTH sizeof_nlmsgerr)%Z then Ok (MReturn (mkDumpResult malformed_message EPROTO))
      else
        e ← load32 m NLMSG_HDRLEN;
        let error := to_int32 e in
        if (error =? 0)%Z then Ok MSkip
        else Ok (MReturn (mkDumpResult kernel_error (positiveKernelError error)))
    else if (ty =? NLMSG_OVERRUN)%Z then Ok (MReturn (mkDumpResult receive_failed ENOBUFS))
    else Ok MHandle.

Definition dumpReceiveBufferSize : Z := 16384.

(** Every round of the loop takes an outcome of [poll]. *)
Fixpoint readDumpResponses (fuel : nat) (fd sequence : Z) (io : Io)
    : result Stuck (list DumpAction * DumpResult * Io) :=
  match fuel with
  | O => Err (Faulted OutOfFuel)
  | S fuel =>
      '(status, error, polls) ← waitForNetlinkDataOrStop fd (io_polls io);
      let io := mkIo (io_sends io) polls (io_recvs io) in
      match status with
      | wait_stopped => Ok ([], mkDumpResult interrupted 0, io)
      | wait_stop_drain_failed => Ok ([], mkDumpResult stop_drain_failed error, io)
      | wait_poll_failed | data_fd_failed | stop_fd_failed => Ok ([], mkDumpResult poll_failed error, io)
      | data_ready =>
          '(r, recvs) ← receiveNetlinkDatagram dumpReceiveBufferSize (io_recvs io);
          let io := mkIo (io_sends io) polls recvs in
          match r with
          | receive_truncated e => Ok ([], mkDumpResult malformed_message e, io)
          | receive_error e | receive_closed e => Ok ([], mkDumpResult receive_failed e, io)
          | received data =>
              '(l, e) ← lift (datagram_loop (dump_step sequence) data);
              match e with
              | inl r => Ok (Handled <$> l, r, io)
              | inr remaining =>
                  if negb (remaining =? 0)%Z then
                    Ok (Handled <$> l, mkDumpResult malformed_message EPROTO, io)
                  else
                    '(t, r, io) ← readDumpResponses fuel fd sequence io;
                    Ok ((Handled <$> l) ++ t, r, io)
              end
          end
      end
  end.

(** The retries of [send]. *)
Fixpoint send_request (len : Z) (sends : list SendOutcome) : result Stuck (option DumpResult * list SendOutcome) :=
  match sends with
  | [] => Err Blocked
  | SendCount n :: rest =>
      if (n =? len)%Z then Ok (None, rest) else Ok (Some (mkDumpResult send_failed EIO), rest)
  | SendError errno :: rest =>
      if (errno =? EINTR)%Z then send_request len rest else Ok (Some (mkDumpResult send_failed errno), rest)
  end.

Definition requestDump (size type family : Z) (fd : Z) (nextSequence : Z) (io : Io)
    : result Stuck (list DumpAction * DumpResult * Io) :=
  let sequence := nextSequence in
  let request := mkRequest type (Z.lor NLM_F_REQUEST NLM_F_DUMP) sequence family (NLMSG_LENGTH size) in
  '(failed, sends) ← send_request (rq_len request) (io_sends io);
  let io := mkIo sends (io_polls io) (io_recvs io) in
  match failed with
  | Some r => Ok ([Sent request], r, io)
  | None =>
      '(t, r, io) ← readDumpResponses (S (length (io_polls io))) fd sequence io;
      Ok (Sent request :: t, r, io)
  end.

(** [if (!result.completed()) return result;] *)
Definition and_then (first : result Stuck (list DumpAction * DumpResult * Io))
    (k : Io → result Stuck (list DumpAction * DumpResult * Io)) : result Stuck (list DumpAction * DumpResult * Io) :=
  '(t, r, io) ← first;
  if negb (dump_completed r) then Ok (t, r, io)
  else '(t', r', io) ← k io; Ok (t ++ t', r', io).

(** A dump object is run once, with its sequence counter at 1. *)
Definition dump_run (fd : Z) (io : Io) : result Stuck (list DumpAction * DumpResult * Io) :=
  and_then (requestDump sizeof_ifinfomsg RTM_GETLINK AF_PACKET fd 1 io) (λ io,
  and_then (requestDump sizeof_ifaddrmsg RTM_GETADDR AF_INET fd 2 io) (λ io,
  and_then (requestDump sizeof_ifaddrmsg RTM_GETADDR AF_INET6 fd 3 io) (λ io,
  and_then (requestDump sizeof_ndmsg RTM_GETNEIGH AF_UNSPEC fd 4 io) (λ io,
  requestDump sizeof_ndmsg RTM_GETNEIGH AF_BRIDGE fd 5 io)))).

(** * [NetlinkEventLoop] *)

Inductive LoopStatus :=
| loop_stopped | loop_poll_failed | loop_receive_failed | loop_malformed_message | loop_truncated_message
| loop_socket_overrun | loop_stop_drain_failed.

Definition loop_statusName (s : LoopStatus) : string :=
  match s with
  | loop_stopped => "stopped" | loop_poll_failed => "poll_failed" | loop_receive_failed => "receive_failed"
  | loop_malformed_message => "malformed_message" | loop_truncated_message => "truncated_message"
  | loop_socket_overrun => "socket_overrun" | loop_stop_drain_failed => "stop_drain_failed"
  end.

Definition mapWaitFailure (status : NetlinkWaitStatus) (error : Z) : LoopStatus * Z :=
  match status with
  | wait_stop_drain_failed => (loop_stop_drain_failed, error)
  | wait_poll_failed | data_fd_failed | stop_fd_failed => (loop_poll_failed, error)
  | wait_stopped => (loop_stopped, 0%Z)
  | data_ready => (loop_poll_failed, EIO)
  end.

Definition live_step (m : list Z) : result Fault (MsgStep (LoopStatus * Z)) :=
  ty ← nlmsg_type m;
  if (ty =? NLMSG_OVERRUN)%Z then Ok (MReturn (loop_socket_overrun, ENOBUFS)) else Ok MHandle.

Definition liveReceiveBufferSize : Z := 65536.

(** [None]: the loop goes on. *)
Definition receiveAndDispatch (recvs : list RecvOutcome)
    : result Stuck (list (list Z) * option (LoopStatus * Z) * list RecvOutcome) :=
  '(r, recvs) ← receiveNetlinkDatagram liveReceiveBufferSize recvs;
  match r with
  | receive_truncated e => Ok ([], Some (loop_truncated_message, e), recvs)
  | receive_error e | receive_closed e => Ok ([], Some (loop_receive_failed, e), recvs)
  | received data =>
      '(l, e) ← lift (datagram_loop live_step data);
      match e with
      | inl r => Ok (l, Some r, recvs)
      | inr remaining =>
          Ok (l, if negb (remaining =? 0)%Z then Some (loop_malformed_message, EPROTO) else None, recvs)
      end
  end.

(** [NetlinkEventLoop::run]; [requested] lists what the successive calls of
    [stop_requested()] return, all [true] once the list is exhausted. *)
Fixpoint live_run (requested : list bool) (fd : Z) (io : Io)
    : result Stuck (list (list Z) * (LoopStatus * Z) * Io) :=
  match requested with
  | [] | true :: _ => Ok ([], (loop_stopped, 0%Z), io)
  | false :: requested =>
      '(status, error, polls) ← waitForNetlinkDataOrStop fd (io_polls io);
      let io := mkIo (io_sends io) polls (io_recvs io) in
      match status with
      | wait_stopped => Ok ([], (loop_stopped, 0%Z), io)
      | data_ready =>
          '(l, terminal, recvs) ← receiveAndDispatch (io_recvs io);
          let io := mkIo (io_sends io) polls recvs in
          match terminal with
          | Some r => Ok (l, r, io)
          | None => '(l', r, io) ← live_run requested fd io; Ok (l ++ l', r, io)
          end
      | _ => Ok ([], mapWaitFailure status error, io)
      end
  end.

(** * Safety *)

(** What the kernel guarantees of [recvmsg]: octets, no more than the buffer holds. *)
Definition recv_ok (r : RecvOutcome) : Prop :=
  match r with
  | RecvData _ d => Forall is_octet d ∧ (Z.of_nat (length d) ≤ liveReceiveBufferSize)%Z
  | RecvError _ => True
  end.

Definition io_ok (io : Io) : Prop := Forall recv_ok (io_recvs io).

Definition recv_okb (r : RecvOutcome) : bool :=
  match r with
  | RecvData _ d => forallb (λ b, (0 <=? b) && (b <? 256))%Z d && (Z.of_nat (length d) <=? liveReceiveBufferSize)%Z
  | RecvError _ => true
  end.

Lemma io_okb_ok io : forallb recv_okb (io_recvs io) = true → io_ok io.
Proof.
  unfold io_ok. induction (io_recvs io) as [|r l IH]; [constructor|]. cbn. rewrite andb_true_iff. intros [Hr Hl].
  constructor; [|auto]. destruct r as [e|f d]; [done|]. cbn in *. rewrite andb_true_iff, forallb_forall, Z.leb_le in Hr.
  destruct Hr as [H1 H2]. split; [|done]. apply Forall_forall. intros b Hb. apply list_elem_of_In in Hb.
  specialize (H1 b Hb). unfold is_octet. lia.
Qed.

(** A loop body that reads inside any well-formed message. *)
Definition step_safe {R} (step : list Z → result Fault (MsgStep R)) : Prop :=
  ∀ m, well_formed m → ∃ s, step m = Ok s.

Lemma le_value_nonneg l : Forall is_octet l → (0 ≤ le_value l)%Z.
Proof. unfold is_octet. induction 1; cbn; lia. Qed.

Lemma NLMSG_OK_spec m remaining :
  Forall is_octet m → (remaining ≤ Z.of_nat (length m))%Z → (Z.of_nat (length m) < 2 ^ 31)%Z →
  ∃ b, NLMSG_OK m remaining = Ok b ∧
    (b = true → well_formed m ∧ ∃ nlen, nlmsg_len m = Ok nlen ∧ (16 ≤ nlen ≤ remaining)%Z).
Proof.
  intros Hm Hr Hlt. unfold NLMSG_OK. destruct (Z.ltb_spec remaining NLMSG_HDRLEN) as [|Hrem];
    [by exists false|]. unfold NLMSG_HDRLEN in Hrem.
  unfold nlmsg_len, load32. destruct (load_uint_ok m 0 4) as (nlen & Hn & Hv); [lia..|]. rewrite Hn. cbn [mbind result_bind].
  eexists. split; [done|]. rewrite andb_true_iff, !Z.leb_le. unfold NLMSG_HDRLEN. intros [H1 H2]. split.
  - split; [done|]. exists nlen. split; [done|]. lia.
  - eauto.
Qed.

Lemma msg_loop_safe {R} (step : list Z → result Fault (MsgStep R)) fuel m remaining :
  step_safe step → Forall is_octet m → (remaining ≤ Z.of_nat (length m))%Z → (Z.of_nat (length m) < 2 ^ 31)%Z →
  (remaining < Z.of_nat fuel)%Z → 0 < fuel →
  ∃ l e, msg_loop fuel step m remaining = Ok (l, e) ∧ Forall well_formed l.
Proof.
  intros Hstep. revert m remaining. induction fuel as [|fuel IH]; intros m remaining Hm Hr Hlt Hf Hpos; [lia|].
  cbn [msg_loop]. destruct (NLMSG_OK_spec m remaining) as (b & Hb & Hwf); [done..|]. rewrite Hb. cbn [mbind result_bind].
  destruct b; cbn [negb]; [|by do 2 eexists].
  destruct (Hwf eq_refl) as (Hw & nlen & Hn & Hbnd). rewrite Hn. cbn [mbind result_bind].
  destruct (Hstep m Hw) as [s Hs]. rewrite Hs. cbn [mbind result_bind].
  destruct (align4_spec nlen) as [Hal _]; [lia|].
  destruct (IH (drop (Z.to_nat (align4 nlen)) m) (remaining - align4 nlen)%Z) as (l & e & Hl & Hwl).
  - by apply Forall_drop.
  - rewrite length_drop. lia.
  - rewrite length_drop. lia.
  - lia.
  - lia.
  - destruct s; rewrite ?Hl; cbn [mbind result_bind]; do 2 eexists; split; [done|by auto|done|auto|done|auto].
Qed.

Lemma datagram_loop_safe {R} (step : list Z → result Fault (MsgStep R)) data :
  step_safe step → recv_ok (RecvData 0 data) →
  ∃ l e, datagram_loop step data = Ok (l, e) ∧ Forall well_formed l.
Proof.
  intros Hs [Ho Hl]. unfold liveReceiveBufferSize in Hl. apply msg_loop_safe; auto; lia.
Qed.

Lemma dump_step_safe sequence : step_safe (dump_step sequence).
Proof.
  intros m (_ & nlen & Hn & Hb & Hlt). unfold dump_step, nlmsg_seq, nlmsg_type, nlmsg_flags, load32, load16.
  load_step. branch; [by eexists|]. load_step. branch; [load_step; branch; by eexists|].
  branch; [|branch; by eexists]. rewrite Hn. cbn [mbind result_bind].
  destruct (Z.ltb_spec nlen (NLMSG_LENGTH sizeof_nlmsgerr)) as [|Hge]; [by eexists|].
  load_step. branch; by eexists.
Qed.

Lemma live_step_safe : step_safe live_step.
Proof.
  intros m (_ & nlen & Hn & Hb & Hlt). unfold live_step, nlmsg_type, load16. load_step. branch; by eexists.
Qed.

(** * Progress of the loops *)

Lemma wait_loop_shrinks polls s e rest :
  wait_loop polls = Ok (s, e, rest) → length rest < length polls.
Proof.
  induction polls as [|[errno|d st dr] polls IH]; cbn; [done|..]; repeat case_match; intros; simplify_eq; lia || auto.
  all: etrans; [by apply IH|]; lia.
Qed.

Lemma wait_shrinks fd polls s e rest :
  waitForNetlinkDataOrStop fd polls = Ok (s, e, rest) → s ≠ data_fd_failed → length rest < length polls.
Proof.
  unfold waitForNetlinkDataOrStop. destruct (fd <? 0)%Z; [naive_solver|]. intros ? _. by eapply wait_loop_shrinks.
Qed.

Lemma receive_ok size recvs r rest :
  receiveNetlinkDatagram size recvs = Ok (r, rest) → Forall recv_ok recvs →
  Forall recv_ok rest ∧ (∀ d, r = received d → recv_ok (RecvData 0 d)).
Proof.
  induction recvs as [|[errno|fl d] recvs IH]; cbn; intros H Hok.
  - destruct (size =? 0)%Z; simplify_eq. done.
  - destruct (size =? 0)%Z; [by simplify_eq|]. inversion Hok; subst. destruct (errno =? EINTR)%Z; [auto|by simplify_eq].
  - destruct (size =? 0)%Z; [by simplify_eq|]. inversion Hok; subst. cbn in *.
    repeat case_match; simplify_eq; by split; [|intros ? [= <-]].
Qed.

(** The only way a run of system calls and loops can fail to return. *)
Definition only_blocked {A} (r : result Stuck A) : Prop := ∀ e, r = Err e → e = Blocked.

Lemma wait_only_blocked fd polls : only_blocked (waitForNetlinkDataOrStop fd polls).
Proof.
  unfold waitForNetlinkDataOrStop. destruct (fd <? 0)%Z; [by intros ?|].
  induction polls as [|[errno|d st dr] polls IH]; cbn; [by intros ? [= <-]|..]; repeat case_match; done || (by intros ?) || exact IH.
Qed.

Lemma receive_only_blocked size recvs : only_blocked (receiveNetlinkDatagram size recvs).
Proof.
  induction recvs as [|[errno|fl d] recvs IH]; cbn; repeat case_match; by intros ? [= <-] || (by intros ?) || exact IH.
Qed.

Lemma send_only_blocked len sends : only_blocked (send_request len sends).
Proof.
  induction sends as [|[errno|n] sends IH]; cbn; repeat case_match; by intros ? [= <-] || (by intros ?) || exact IH.
Qed.

Definition action_ok (a : DumpAction) : Prop := match a with Handled m => well_formed m | Sent _ => True end.

Definition dump_safe (r : result Stuck (list DumpAction * DumpResult * Io)) : Prop :=
  match r with Ok (t, _, io) => Forall action_ok t ∧ io_ok io | Err e => e = Blocked end.

Lemma handled_ok l : Forall well_formed l → Forall action_ok (Handled <$> l).
Proof. induction 1; cbn; auto. Qed.

Lemma readDumpResponses_safe fuel fd sequence io :
  io_ok io → length (io_polls io) < fuel → dump_safe (readDumpResponses fuel fd sequence io).
Proof.
  revert io. induction fuel as [|fuel IH]; intros io Hio Hf; [lia|]. cbn [readDumpResponses].
  destruct (waitForNetlinkDataOrStop fd (io_polls io)) as [[[status error] polls]|e] eqn:Hw;
    [|by apply (wait_only_blocked _ _ _ Hw)]. cbn [mbind result_bind].
  cbn [io_sends io_polls io_recvs]. destruct status; try (by split); [].
  destruct (receiveNetlinkDatagram dumpReceiveBufferSize (io_recvs io)) as [[r recvs]|e] eqn:Hr;
    [|by apply (receive_only_blocked _ _ _ Hr)]. cbn [mbind result_bind].
  destruct (receive_ok _ _ _ _ Hr Hio) as [Hrest Hd]. destruct r as [data| | |]; try (by split); [].
  destruct (datagram_loop_safe (dump_step sequence) data) as (l & e & Hl & Hwf);
    [apply dump_step_safe|by apply Hd|]. rewrite Hl. cbn [lift mbind result_bind].
  apply handled_ok in Hwf. destruct e as [res|remaining]; [by split|]. destruct (negb _); [by split|].
  specialize (IH (mkIo (io_sends io) polls recvs) Hrest).
  destruct (readDumpResponses _ _ _ _) as [[[t r] io']|e]; cbn in *.
  - destruct IH; [apply wait_shrinks in Hw; [lia|done]|]. rewrite Forall_app. tauto.
  - apply IH. apply wait_shrinks in Hw; [lia|done].
Qed.

Lemma requestDump_safe size type family fd next io :
  io_ok io → dump_safe (requestDump size type family fd next io).
Proof.
  intros Hio. unfold requestDump. destruct (send_request (rq_len (mkRequest type (Z.lor NLM_F_REQUEST NLM_F_DUMP) next family (NLMSG_LENGTH size))) (io_sends io)) as [[failed sends]|e] eqn:Hs;
    [|by apply (send_only_blocked _ _ _ Hs)]. cbn [mbind result_bind].
  destruct failed as [r|]; [by repeat constructor|].
  pose proof (readDumpResponses_safe (S (length (io_polls io))) fd next (mkIo sends (io_polls io) (io_recvs io)) Hio) as H.
  cbn [io_polls] in *. destruct (readDumpResponses _ _ _ _) as [[[t r] io']|e]; cbn in *; [|auto].
  destruct H; [lia|]. by repeat constructor.
Qed.

Lemma and_then_safe first k :
  dump_safe first → (∀ io, io_ok io → dump_safe (k io)) → dump_safe (and_then first k).
Proof.
  unfold and_then. destruct first as [[[t r] io]|e]; cbn; [|done]. intros [Ht Hio] Hk.
  destruct (negb _); [done|]. specialize (Hk io Hio). destruct (k io) as [[[t' r'] io']|e]; cbn in *; [|done].
  rewrite Forall_app. tauto.
Qed.

Lemma dump_run_safe fd io : io_ok io → dump_safe (dump_run fd io).
Proof.
  intros Hio. unfold dump_run. do 4 (apply and_then_safe; [by apply requestDump_safe|intros ? ?]).
  by apply requestDump_safe.
Qed.

Definition live_safe (r : result Stuck (list (list Z) * (LoopStatus * Z) * Io)) : Prop :=
  match r with Ok (l, _, io) => Forall well_formed l ∧ io_ok io | Err e => e = Blocked end.

Lemma receiveAndDispatch_safe recvs :
  Forall recv_ok recvs →
  match receiveAndDispatch recvs with
  | Ok (l, _, recvs) => Forall well_formed l ∧ Forall recv_ok recvs
  | Err e => e = Blocked
  end.
Proof.
  intros Hok. unfold receiveAndDispatch.
  destruct (receiveNetlinkDatagram liveReceiveBufferSize recvs) as [[r rest]|e] eqn:Hr; [|by apply (receive_only_blocked _ _ _ Hr)].
  cbn [mbind result_bind]. destruct (receive_ok _ _ _ _ Hr Hok) as [Hrest Hd].
  destruct r as [data| | |]; try (by split); [].
  destruct (datagram_loop_safe live_step data) as (l & e & Hl & Hwf); [apply live_step_safe|by apply Hd|].
  rewrite Hl. cbn [lift mbind result_bind]. by destruct e.
Qed.

Lemma live_run_safe requested fd io : io_ok io → live_safe (live_run requested fd io).
Proof.
  revert io. induction requested as [|[] requested IH]; intros io Hio; [by split..|]. cbn [live_run].
  destruct (waitForNetlinkDataOrStop fd (io_polls io)) as [[[status error] polls]|e] eqn:Hw;
    [|by apply (wait_only_blocked _ _ _ Hw)]. cbn [mbind result_bind].
  cbn [io_sends io_polls io_recvs]. destruct status; try (by split); [].
  pose proof (receiveAndDispatch_safe (io_recvs io) Hio) as H.
  destruct (receiveAndDispatch (io_recvs io)) as [[[l terminal] recvs]|e]; cbn [mbind result_bind]; [|done].
  destruct H as [Hl Hrest]. destruct terminal as [r|]; [by split|].
  specialize (IH (mkIo (io_sends io) polls recvs) Hrest).
  destruct (live_run _ _ _) as [[[l' r] io']|e]; cbn in *; [|done]. rewrite Forall_app. tauto.
Qed.

(** C12: no netlink input can make the input layer misbehave: for every sequence
    of datagrams of octets, whatever the kernel or an impostor puts in them,
    and every outcome of the system calls, the dump and the live loop read only
    inside what was received, their loops end, and they can only still be
    waiting for a system call; and each message they hand over is parsed
    without a fault, whatever the parser's cache holds. *)
Theorem netlink_input_safe `{InetNtop, IfIndexToName} requested fd io :
  io_ok io →
  (∀ f, dump_run fd io ≠ Err (Faulted f)) ∧
  (∀ f, live_run requested fd io ≠ Err (Faulted f)) ∧
  (∀ t r io' m cache, dump_run fd io = Ok (t, r, io') → Handled m ∈ t → ∃ out, processMessage m cache = Ok out) ∧
  (∀ l r io' m cache, live_run requested fd io = Ok (l, r, io') → m ∈ l → ∃ out, processMessage m cache = Ok out).
Proof.
  intros Hio. pose proof (dump_run_safe fd io Hio) as Hd. pose proof (live_run_safe requested fd io Hio) as Hl.
  split_and!.
  - intros f Hf. by rewrite Hf in Hd.
  - intros f Hf. by rewrite Hf in Hl.
  - intros t r io' m cache Hr Hm. rewrite Hr in Hd. destruct Hd as [Ht _]. rewrite Forall_forall in Ht.
    apply processMessage_total. exact (Ht _ Hm).
  - intros l r io' m cache Hr Hm. rewrite Hr in Hl. destruct Hl as [Ht _]. rewrite Forall_forall in Ht.
    apply processMessage_total. exact (Ht _ Hm).
Qed.

(** * What a dump sends and hands over *)

Definition sent_requests (t : list DumpAction) : list Request :=
  omap (λ a, match a with Sent r => Some r | Handled _ => None end) t.

(** A message of the answer to the request numbered [seq]. *)
Definition belongs (seq : Z) (m : list Z) : Prop :=
  nlmsg_seq m = Ok seq ∧ ∃ ty, nlmsg_type m = Ok ty ∧ ty ∉ [NLMSG_DONE; NLMSG_ERROR; NLMSG_OVERRUN].

(** Every message handed over belongs to the last request sent before it. *)
Fixpoint in_order (seq : Z) (t : list DumpAction) : Prop :=
  match t with
  | [] => True
  | Sent r :: t => in_order (rq_seq r) t
  | Handled m :: t => belongs seq m ∧ in_order seq t
  end.

Definition dump_requests : list Request :=
  [mkRequest RTM_GETLINK 769 1 AF_PACKET 32; mkRequest RTM_GETADDR 769 2 AF_INET 24;
   mkRequest RTM_GETADDR 769 3 AF_INET6 24; mkRequest RTM_GETNEIGH 769 4 AF_UNSPEC 28;
   mkRequest RTM_GETNEIGH 769 5 AF_BRIDGE 28]%Z.

Lemma msg_loop_handled {R} (step : list Z → result Fault (MsgStep R)) fuel m remaining l e :
  msg_loop fuel step m remaining = Ok (l, e) → Forall (λ m, step m = Ok MHandle) l.
Proof.
  revert m remaining l e. induction fuel as [|fuel IH]; intros m remaining l e; cbn; [done|].
  destruct (NLMSG_OK m remaining) as [b|]; cbn; [|done]. destruct b; cbn; [|by intros [= <- _]].
  destruct (nlmsg_len m) as [nlen|]; cbn; [|done]. destruct (step m) as [s|] eqn:Hs; cbn; [|done].
  destruct s; [by apply IH| |by intros [= <- _]].
  destruct (msg_loop fuel step _ _) as [[l' e']|] eqn:He; cbn; [|done]. intros [= <- <-].
  constructor; [done|]. by eapply IH.
Qed.

Lemma dump_step_handle seq m : dump_step seq m = Ok MHandle → belongs seq m.
Proof.
  unfold dump_step, belongs. destruct (nlmsg_seq m) as [s|]; cbn; [|done].
  destruct (Z.eqb_spec s seq) as [->|]; cbn; [|done]. destruct (nlmsg_type m) as [ty|]; cbn; [|done].
  destruct (Z.eqb_spec ty NLMSG_DONE); cbn; [destruct (nlmsg_flags m); cbn; [by case_match|done]|].
  destruct (Z.eqb_spec ty NLMSG_ERROR); cbn.
  { destruct (nlmsg_len m); cbn; [|done]. case_match; [done|]. destruct (load32 _ _); cbn; [|done]. by case_match. }
  destruct (Z.eqb_spec ty NLMSG_OVERRUN); cbn; [done|]. intros _. split; [done|]. exists ty. split; [done|].
  rewrite !elem_of_cons. intros [?|[?|[?|[]%elem_of_nil]]]; auto.
Qed.

Definition answers_to (seq : Z) (a : DumpAction) : Prop :=
  match a with Handled m => belongs seq m | Sent _ => False end.

Lemma readDumpResponses_answers fuel fd seq io t r io' :
  readDumpResponses fuel fd seq io = Ok (t, r, io') → Forall (answers_to seq) t.
Proof.
  revert io t r io'. induction fuel as [|fuel IH]; intros io t r io'; cbn; [done|].
  destruct (waitForNetlinkDataOrStop _ _) as [[[status error] polls]|]; cbn; [|done].
  destruct status; try (by intros [= <- _ _]).
  destruct (receiveNetlinkDatagram _ _) as [[rc recvs]|]; cbn; [|done].
  destruct rc as [data| | |]; try (by intros [= <- _ _]).
  destruct (datagram_loop (dump_step seq) data) as [[l e]|] eqn:Hl; cbn; [|done]. apply msg_loop_handled in Hl.
  assert (Forall (answers_to seq) (Handled <$> l)) as Hall
    by (apply Forall_fmap; eapply Forall_impl; [exact Hl|]; intros; by apply dump_step_handle).
  destruct e as [res|remaining]; [by intros [= <- _ _]|]. destruct (negb _); [by intros [= <- _ _]|].
  destruct (readDumpResponses fuel _ _ _) as [[[t' r'] io'']|] eqn:Hr; cbn; [|done].
  intros [= <- _ _]. apply Forall_app. split; [done|]. by eapply IH.
Qed.

Lemma requestDump_answers size type family fd seq io t r io' :
  requestDump size type family fd seq io = Ok (t, r, io') →
  ∃ t', t = Sent (mkRequest type 769 seq family (NLMSG_LENGTH size)) :: t' ∧ Forall (answers_to seq) t'.
Proof.
  unfold requestDump. cbn [rq_len]. destruct (send_request _ _) as [[[f|] sends]|]; cbn - [readDumpResponses]; [|..|done].
  - intros [= <- _ _]. by eexists.
  - match goal with |- context [readDumpResponses ?f ?d ?s ?i] =>
      destruct (readDumpResponses f d s i) as [[[t' r'] io'']|] eqn:Hr end; cbn; [|done]. intros [= <- _ _].
    eexists. split; [done|]. by eapply readDumpResponses_answers.
Qed.

Lemma in_order_app seq t t' : Forall (answers_to seq) t → in_order seq t' → in_order seq (t ++ t').
Proof. intros Ht Ht'. induction Ht as [|[r|m] t Ha Ht IH]; cbn; [done|by destruct Ha|by split]. Qed.

Lemma sent_answers seq t : Forall (answers_to seq) t → sent_requests t = [].
Proof. induction 1 as [|[r|m] t Ha Ht IH]; cbn; [done|by destruct Ha|done]. Qed.

(** The traces of the transactions [rqs], of which only the last may fail. *)
Definition transactions (rqs : list Request) (t : list DumpAction) (r : DumpResult) : Prop :=
  (∀ seq, in_order seq t) ∧
  ∃ n, 0 < n ≤ length rqs ∧ sent_requests t = take n rqs ∧ (dump_completed r = true → n = length rqs).

Lemma transaction_one size type family fd seq io t r io' :
  requestDump size type family fd seq io = Ok (t, r, io') →
  transactions [mkRequest type 769 seq family (NLMSG_LENGTH size)] t r.
Proof.
  intros (t' & -> & Ht)%requestDump_answers. split.
  - intros s. cbn. rewrite <- (app_nil_r t'). by apply (in_order_app seq).
  - exists 1. split_and!; [lia|cbn; lia| |done].
    unfold sent_requests. cbn. fold (sent_requests t'). by rewrite (sent_answers seq t').
Qed.

Lemma transaction_cons size type family fd seq io rqs k t r io' :
  and_then (requestDump size type family fd seq io) k = Ok (t, r, io') →
  (∀ io t r io', k io = Ok (t, r, io') → transactions rqs t r) →
  transactions (mkRequest type 769 seq family (NLMSG_LENGTH size) :: rqs) t r.
Proof.
  unfold and_then. destruct (requestDump size type family fd seq io) as [[[t1 r1] io1]|] eqn:Hr; cbn; [|done].
  destruct (requestDump_answers _ _ _ _ _ _ _ _ _ Hr) as (t1' & -> & Ht1).
  destruct (dump_completed r1) eqn:Hc; cbn.
  - destruct (k io1) as [[[t2 r2] io2]|] eqn:Hk; cbn; [|done]. intros [= <- <- <-] H.
    destruct (H _ _ _ _ Hk) as (Hord & n & Hn & Hs & Hd). split.
    + intros s. cbn. by apply (in_order_app seq).
    + exists (S n). split_and!; [lia|cbn; lia| |intros ?; cbn; f_equal; auto].
      unfold sent_requests in *. cbn. rewrite omap_app, Hs. fold (sent_requests t1'). by rewrite (sent_answers seq).
  - intros [= <- <- <-] _. split.
    + intros s. cbn. rewrite <- (app_nil_r t1'). by apply (in_order_app seq).
    + exists 1. split_and!; [lia|cbn; lia| |congruence].
      unfold sent_requests. cbn. fold (sent_requests t1'). by rewrite (sent_answers seq).
Qed.

(** A dump is five transactions in the documented order, whatever the kernel
    answers: the requests sent are links, IPv4 addresses, IPv6 addresses,
    neighbours and forwarding entries, numbered 1 to 5, up to the one that
    fails; all five when the result is [completed]; and every message handed to
    the handler carries the number of the transaction in progress and is not a
    control message. *)
Theorem dump_transactions fd io t r io' :
  dump_run fd io = Ok (t, r, io') →
  in_order 0 t ∧
  ∃ n, 0 < n ≤ 5 ∧ sent_requests t = take n dump_requests ∧ (dump_completed r = true → n = 5).
Proof.
  intros Hr. cut (transactions dump_requests t r); [by intros [? ?]|].
  apply (transaction_cons _ _ _ _ _ _ (drop 1 dump_requests) _ _ _ _ Hr). clear. intros io t r io' Hr.
  apply (transaction_cons _ _ _ _ _ _ (drop 2 dump_requests) _ _ _ _ Hr). clear. intros io t r io' Hr.
  apply (transaction_cons _ _ _ _ _ _ (drop 3 dump_requests) _ _ _ _ Hr). clear. intros io t r io' Hr.
  apply (transaction_cons _ _ _ _ _ _ (drop 4 dump_requests) _ _ _ _ Hr). clear. intros io t r io' Hr.
  apply (transaction_one _ _ _ _ _ _ _ _ _ Hr).
Qed.

(** * A well-behaved kernel *)

(** A message of an answer: type, fixed part, attributes. *)
Record KernelMessage := mkKernelMessage { km_type : Z; km_fixed : list Z; km_attrs : list Attr }.

Definition km_ok (k : KernelMessage) : Prop :=
  message_ok (km_type k) (km_fixed k) (km_attrs k) ∧ (4 | Z.of_nat (length (km_fixed k)))%Z ∧
  km_type k ∉ [NLMSG_DONE; NLMSG_ERROR; NLMSG_OVERRUN].

Definition km_octets (seq : Z) (k : KernelMessage) : list Z :=
  encode_message (km_type k) 2 seq (km_fixed k) (km_attrs k).

Definition done_octets (seq : Z) : list Z := encode_message NLMSG_DONE 2 seq [0; 0; 0; 0]%Z [].

(** The answer to one request: datagrams of messages, the last one ended by
    [NLMSG_DONE]. *)
Record Answer := mkAnswer { an_datagrams : list (list KernelMessage); an_last : list KernelMessage }.

Definition answer_messages (a : Answer) : list KernelMessage := concat (an_datagrams a) ++ an_last a.

Definition answer_ok (a : Answer) : Prop :=
  Forall (λ d, d ≠ []) (an_datagrams a) ∧ Forall km_ok (answer_messages a).

Definition answer_recvs (seq : Z) (a : Answer) : list RecvOutcome :=
  ((λ d, RecvData 0 (d ≫= km_octets seq)) <$> an_datagrams a) ++
  [RecvData 0 ((an_last a ≫= km_octets seq) ++ done_octets seq)].

Definition answer_polls (a : Answer) : list PollOutcome :=
  replicate (S (length (an_datagrams a))) (PollReady POLLIN 0 0).

(** [m] is the message [k], with whatever follows it in its datagram. *)
Definition is_message (seq : Z) (k : KernelMessage) (m : list Z) : Prop := ∃ post, m = km_octets seq k ++ post.

Definition handled (t : list DumpAction) : list (list Z) :=
  omap (λ a, match a with Handled m => Some m | Sent _ => None end) t.

Lemma align4_multiple n : (0 ≤ n)%Z → (4 | n)%Z → align4 n = n.
Proof. intros Hn [a ->]. destruct (align4_spec (a * 4)) as [Hb [b Hd]]; [lia|]. lia. Qed.

Lemma attrs_multiple l : (4 | Z.of_nat (length (l ≫= encode_attr)))%Z.
Proof.
  induction l as [|a l IH]; [by exists 0%Z|]. rewrite bind_cons, length_app, Nat2Z.inj_add.
  apply Z.divide_add_r; [|done]. rewrite length_encode_attr. apply align4_spec. unfold payload. lia.
Qed.

Lemma length_encode_message ty fl seq fixed attrs :
  Z.of_nat (length (encode_message ty fl seq fixed attrs)) =
    (16 + Z.of_nat (length fixed) + Z.of_nat (length (attrs ≫= encode_attr)))%Z.
Proof. unfold encode_message. rewrite !length_app. cbn [le32 le16 length]. lia. Qed.

Lemma encoded_seq ty nlf seq fixed attrs post :
  (0 ≤ seq < 2 ^ 32)%Z → nlmsg_seq (encode_message ty nlf seq fixed attrs ++ post) = Ok seq.
Proof.
  intros Hs. unfold nlmsg_seq, encode_message. rewrite <- !(assoc_L (++)).
  rewrite (assoc_L (++) (le32 _)), (assoc_L (++) _ (le16 nlf)). by apply load32_app.
Qed.

Lemma encoded_flags ty nlf seq fixed attrs post :
  (0 ≤ nlf < 65536)%Z → nlmsg_flags (encode_message ty nlf seq fixed attrs ++ post) = Ok nlf.
Proof.
  intros Hs. unfold nlmsg_flags, encode_message. rewrite <- !(assoc_L (++)).
  rewrite (assoc_L (++) (le32 _)). by apply load16_app.
Qed.

(** One turn of the loop on an encoded message. *)
Lemma msg_loop_encoded {R} (step : list Z → result Fault (MsgStep R)) fuel ty nlf seq fixed attrs rest n :
  message_ok ty fixed attrs → (4 | Z.of_nat (length fixed))%Z → (0 ≤ n)%Z →
  let enc := encode_message ty nlf seq fixed attrs in
  msg_loop (S fuel) step (enc ++ rest) (Z.of_nat (length enc) + n) =
    (st ← step (enc ++ rest);
     match st with
     | MReturn r => Ok ([], inl r)
     | MSkip => msg_loop fuel step rest n
     | MHandle => '(l, e) ← msg_loop fuel step rest n; Ok ((enc ++ rest) :: l, e)
     end).
Proof.
  intros Hok H4 Hn enc. pose proof (length_encode_message ty nlf seq fixed attrs) as Hlen. fold enc in Hlen.
  cbn [msg_loop]. unfold NLMSG_OK. destruct (Z.ltb_spec (Z.of_nat (length enc) + n) NLMSG_HDRLEN) as [Hlt|_];
    [unfold NLMSG_HDRLEN in Hlt; lia|].
  assert (Hnl : nlmsg_len (enc ++ rest) = Ok (Z.of_nat (length enc))) by (rewrite Hlen; by apply encoded_len).
  rewrite Hnl. cbn [mbind result_bind].
  destruct (Z.leb_spec NLMSG_HDRLEN (Z.of_nat (length enc))) as [_|Hlt]; [|unfold NLMSG_HDRLEN in Hlt; lia].
  destruct (Z.leb_spec (Z.of_nat (length enc)) (Z.of_nat (length enc) + n)) as [_|Hlt]; [|lia]. cbn [andb negb].
  cbn [mbind result_bind].
  destruct (step (enc ++ rest)) as [st|f]; [|done]. cbn [mbind result_bind].
  rewrite (align4_multiple (Z.of_nat (length enc))).
  - rewrite Nat2Z.id, drop_app_length. by replace (Z.of_nat (length enc) + n - Z.of_nat (length enc))%Z with n by lia.
  - lia.
  - rewrite Hlen. apply Z.divide_add_r; [apply Z.divide_add_r; [by exists 4%Z|done]|apply attrs_multiple].
Qed.

Lemma dump_step_message seq k post :
  (0 ≤ seq < 2 ^ 32)%Z → km_ok k → dump_step seq (km_octets seq k ++ post) = Ok MHandle.
Proof.
  intros Hs (Hok & _ & Hty). unfold dump_step, km_octets. rewrite encoded_seq by done. cbn [mbind result_bind].
  rewrite Z.eqb_refl, encoded_type by done. cbn [negb mbind result_bind].
  rewrite !elem_of_cons in Hty.
  destruct (Z.eqb_spec (km_type k) NLMSG_DONE); [tauto|]. destruct (Z.eqb_spec (km_type k) NLMSG_ERROR); [tauto|].
  by destruct (Z.eqb_spec (km_type k) NLMSG_OVERRUN); [tauto|].
Qed.

Lemma done_ok : message_ok NLMSG_DONE [0; 0; 0; 0]%Z [].
Proof. split; [done|]. by vm_compute. Qed.

Lemma dump_step_done seq post :
  (0 ≤ seq < 2 ^ 32)%Z → dump_step seq (done_octets seq ++ post) = Ok (MReturn (mkDumpResult completed 0)).
Proof.
  intros Hs. unfold dump_step, done_octets. rewrite encoded_seq by done. cbn [mbind result_bind].
  by rewrite Z.eqb_refl, (encoded_type _ _ _ _ _ _ done_ok), encoded_flags.
Qed.

Lemma length_km_octets seq k : 16 ≤ length (km_octets seq k).
Proof. pose proof (length_encode_message (km_type k) 2 seq (km_fixed k) (km_attrs k)). unfold km_octets. lia. Qed.

Lemma msg_loop_messages fuel seq ks fin :
  (0 ≤ seq < 2 ^ 32)%Z → Forall km_ok ks → length ks ≤ fuel →
  ∃ l, Forall2 (is_message seq) ks l ∧
    msg_loop fuel (dump_step seq) ((ks ≫= km_octets seq) ++ fin)
        (Z.of_nat (length (ks ≫= km_octets seq)) + Z.of_nat (length fin)) =
      ('(l', e) ← msg_loop (fuel - length ks) (dump_step seq) fin (Z.of_nat (length fin)); Ok (l ++ l', e)).
Proof.
  intros Hs Hks. revert fuel. induction Hks as [|k ks Hk Hks IH]; intros fuel Hf.
  - exists []. split; [done|]. cbn. rewrite Nat.sub_0_r.
    by destruct (msg_loop fuel _ fin _) as [[? ?]|].
  - destruct fuel as [|fuel]; [cbn in Hf; lia|]. destruct (IH fuel) as (l & Hl & He); [cbn in Hf; lia|].
    pose proof Hk as (Hok & H4 & _). rewrite bind_cons.
    exists ((km_octets seq k ++ (ks ≫= km_octets seq) ++ fin) :: l). split; [constructor; [by eexists|done]|].
    rewrite <- (assoc_L (++)), length_app, Nat2Z.inj_add, <- Z.add_assoc.
    unfold km_octets at 1 3. rewrite msg_loop_encoded; [|done|done|lia]. fold (km_octets seq k).
    rewrite dump_step_message by done. cbn [mbind result_bind]. rewrite He. cbn [length Nat.sub].
    by destruct (msg_loop (fuel - length ks) _ fin _) as [[? ?]|].
Qed.

Lemma length_messages seq ks : length ks ≤ length (ks ≫= km_octets seq).
Proof.
  induction ks as [|k ks IH]; [done|]. rewrite bind_cons, length_app. pose proof (length_km_octets seq k). cbn. lia.
Qed.

Lemma datagram_messages seq ks :
  (0 ≤ seq < 2 ^ 32)%Z → Forall km_ok ks →
  ∃ l, Forall2 (is_message seq) ks l ∧ datagram_loop (dump_step seq) (ks ≫= km_octets seq) = Ok (l, inr 0%Z).
Proof.
  intros Hs Hks. pose proof (length_messages seq ks) as Hle.
  destruct (msg_loop_messages (S (length (ks ≫= km_octets seq))) seq ks [] Hs Hks) as (l & Hl & He); [lia|].
  exists l. split; [done|]. unfold datagram_loop. rewrite app_nil_r, Z.add_0_r in He. rewrite He.
  destruct (S _ - _) as [|f] eqn:Hf; [lia|]. cbn [msg_loop]. change (NLMSG_OK [] _) with (@Ok Fault bool false).
  cbn. by rewrite app_nil_r.
Qed.

Lemma datagram_last seq ks :
  (0 ≤ seq < 2 ^ 32)%Z → Forall km_ok ks →
  ∃ l, Forall2 (is_message seq) ks l ∧
    datagram_loop (dump_step seq) ((ks ≫= km_octets seq) ++ done_octets seq) =
      Ok (l, inl (mkDumpResult completed 0)).
Proof.
  intros Hs Hks. pose proof (length_messages seq ks) as Hle. unfold datagram_loop. rewrite length_app.
  destruct (msg_loop_messages (S (length (ks ≫= km_octets seq) + length (done_octets seq))) seq ks (done_octets seq) Hs Hks)
    as (l & Hl & He); [lia|].
  exists l. split; [done|]. rewrite Nat2Z.inj_add, He.
  destruct (S _ - _) as [|f] eqn:Hf; [lia|].
  pose proof (msg_loop_encoded (dump_step seq) f NLMSG_DONE 2 seq [0; 0; 0; 0]%Z [] [] 0 done_ok) as Hd.
  cbv zeta in Hd. fold (done_octets seq) in Hd. rewrite Z.add_0_r, app_nil_r in Hd.
  rewrite Hd by (by exists 1%Z || lia). pose proof (dump_step_done seq [] Hs) as Hst. rewrite app_nil_r in Hst.
  rewrite Hst. cbn. by rewrite app_nil_r.
Qed.

Lemma wait_ready fd polls :
  (0 ≤ fd)%Z → waitForNetlinkDataOrStop fd (PollReady POLLIN 0 0 :: polls) = Ok (data_ready, 0%Z, polls).
Proof. intros Hfd. unfold waitForNetlinkDataOrStop. by destruct (Z.ltb_spec fd 0); [lia|]. Qed.

Lemma receive_data size data recvs :
  (size ≠ 0)%Z → data ≠ [] → receiveNetlinkDatagram size (RecvData 0 data :: recvs) = Ok (received data, recvs).
Proof. intros Hs Hd. cbn. destruct (Z.eqb_spec size 0); [done|]. by destruct data. Qed.

#[local] Arguments receiveNetlinkDatagram : simpl never.
#[local] Arguments waitForNetlinkDataOrStop : simpl never.
#[local] Arguments done_octets : simpl never.
#[local] Arguments km_octets : simpl never.

Lemma messages_nonempty seq ks fin : ks ≠ [] ∨ fin ≠ [] → (ks ≫= km_octets seq) ++ fin ≠ [].
Proof. intros [H|H] [He ->]%app_eq_nil; [|done]. destruct ks; [done|]. by destruct (app_eq_nil _ _ He). Qed.

Lemma read_answer fuel fd seq a s polls recvs :
  (0 ≤ fd)%Z → (0 ≤ seq < 2 ^ 32)%Z → answer_ok a → length (an_datagrams a) < fuel →
  ∃ l, Forall2 (is_message seq) (answer_messages a) l ∧
    readDumpResponses fuel fd seq (mkIo s (answer_polls a ++ polls) (answer_recvs seq a ++ recvs)) =
      Ok (Handled <$> l, mkDumpResult completed 0, mkIo s polls recvs).
Proof.
  intros Hfd Hs. destruct a as [ds last]. unfold answer_ok, answer_messages, answer_polls, answer_recvs. cbn.
  revert fuel. induction ds as [|d ds IH]; intros fuel [Hne Hok] Hf; (destruct fuel as [|fuel]; [lia|]); cbn in *.
  - rewrite wait_ready by done. cbn [mbind result_bind io_recvs io_sends].
    rewrite receive_data by (done || apply messages_nonempty; right; unfold done_octets, encode_message, le32; done).
    cbn [mbind result_bind]. destruct (datagram_last seq last Hs Hok) as (l & Hl & He). rewrite He.
    exists l. by split.
  - apply Forall_app in Hok as [Hok1 Hok]. rewrite <- (assoc_L (++)) in *. apply Forall_app in Hok1 as [Hd Hok1].
    destruct (IH fuel) as (l & Hl & He); [by rewrite Forall_app; inversion Hne|lia|].
    rewrite wait_ready by done. cbn [mbind result_bind io_recvs io_sends].
    rewrite receive_data.
    2: done. 2: { rewrite <- (app_nil_r (d ≫= _)). apply messages_nonempty. left. by inversion Hne. }
    cbn [mbind result_bind]. destruct (datagram_messages seq d Hs Hd) as (l1 & Hl1 & He1). rewrite He1.
    cbn [lift mbind result_bind]. change (negb (0 =? 0)%Z) with false. cbn match. rewrite He. cbn.
    exists (l1 ++ l). split; [by apply Forall2_app|]. by rewrite fmap_app.
Qed.

Lemma request_answer size type family fd seq a sends polls recvs :
  (0 ≤ fd)%Z → (0 ≤ seq < 2 ^ 32)%Z → answer_ok a →
  ∃ l, Forall2 (is_message seq) (answer_messages a) l ∧
    requestDump size type family fd seq
        (mkIo (SendCount (NLMSG_LENGTH size) :: sends) (answer_polls a ++ polls) (answer_recvs seq a ++ recvs)) =
      Ok (Sent (mkRequest type 769 seq family (NLMSG_LENGTH size)) :: (Handled <$> l),
          mkDumpResult completed 0, mkIo sends polls recvs).
Proof.
  intros Hfd Hs Ha. unfold requestDump. cbn [send_request io_sends io_polls io_recvs rq_len].
  rewrite Z.eqb_refl. cbn [mbind result_bind].
  destruct (read_answer (S (length (answer_polls a ++ polls))) fd seq a sends polls recvs) as (l & Hl & He);
    [done..| |].
  - rewrite length_app. unfold answer_polls. rewrite length_replicate. lia.
  - rewrite He. by exists l.
Qed.

Lemma and_then_answer size type family fd seq a sends polls recvs k n :
  (0 ≤ fd)%Z → (0 ≤ seq < 2 ^ 32)%Z → answer_ok a → n = NLMSG_LENGTH size →
  ∃ l, Forall2 (is_message seq) (answer_messages a) l ∧
    and_then (requestDump size type family fd seq
        (mkIo (SendCount n :: sends) (answer_polls a ++ polls) (answer_recvs seq a ++ recvs))) k =
      ('(t, r, io) ← k (mkIo sends polls recvs);
       Ok ((Sent (mkRequest type 769 seq family (NLMSG_LENGTH size)) :: (Handled <$> l)) ++ t, r, io)).
Proof.
  intros Hfd Hs Ha ->.
  destruct (request_answer size type family fd seq a sends polls recvs Hfd Hs Ha) as (l & Hl & He).
  exists l. split; [done|]. unfold and_then. by rewrite He.
Qed.

(** The system calls of a dump that the kernel answers with [a1] ... [a5]. *)
Definition answered (a1 a2 a3 a4 a5 : Answer) (rest : Io) : Io :=
  mkIo ((SendCount ∘ rq_len <$> dump_requests) ++ io_sends rest)
    (answer_polls a1 ++ answer_polls a2 ++ answer_polls a3 ++ answer_polls a4 ++ answer_polls a5 ++ io_polls rest)
    (answer_recvs 1 a1 ++ answer_recvs 2 a2 ++ answer_recvs 3 a3 ++ answer_recvs 4 a4 ++ answer_recvs 5 a5 ++
     io_recvs rest).

(** C26: a dump that the kernel answers completes and loses nothing: however the
    kernel splits its five answers into datagrams, the result is [completed]
    and the messages handed over are all the messages of the five answers, each
    exactly once and in order. *)
Theorem dump_snapshot fd a1 a2 a3 a4 a5 rest :
  (0 ≤ fd)%Z → Forall answer_ok [a1; a2; a3; a4; a5] →
  ∃ t l1 l2 l3 l4 l5,
    dump_run fd (answered a1 a2 a3 a4 a5 rest) = Ok (t, mkDumpResult completed 0, rest) ∧
    handled t = l1 ++ l2 ++ l3 ++ l4 ++ l5 ∧
    Forall2 (is_message 1) (answer_messages a1) l1 ∧ Forall2 (is_message 2) (answer_messages a2) l2 ∧
    Forall2 (is_message 3) (answer_messages a3) l3 ∧ Forall2 (is_message 4) (answer_messages a4) l4 ∧
    Forall2 (is_message 5) (answer_messages a5) l5.
Proof.
  intros Hfd Hok. rewrite !Forall_cons in Hok. destruct Hok as (H1 & H2 & H3 & H4 & H5 & _).
  assert (Hh : ∀ r l t, handled (Sent r :: (Handled <$> l) ++ t) = l ++ handled t).
  { intros r l t. unfold handled. cbn. rewrite omap_app. f_equal. induction l; cbn; congruence. }
  destruct rest as [s p r]. unfold dump_run, answered. cbn [io_sends io_polls io_recvs fmap list_fmap dump_requests app].
  unfold compose. cbn [rq_len].
  edestruct (and_then_answer sizeof_ifinfomsg RTM_GETLINK AF_PACKET fd 1 a1) as (l1 & L1 & ->); [done..|].
  edestruct (and_then_answer sizeof_ifaddrmsg RTM_GETADDR AF_INET fd 2 a2) as (l2 & L2 & ->); [done..|].
  edestruct (and_then_answer sizeof_ifaddrmsg RTM_GETADDR AF_INET6 fd 3 a3) as (l3 & L3 & ->); [done..|].
  edestruct (and_then_answer sizeof_ndmsg RTM_GETNEIGH AF_UNSPEC fd 4 a4) as (l4 & L4 & ->); [done..|].
  edestruct (request_answer sizeof_ndmsg RTM_GETNEIGH AF_BRIDGE fd 5 a5) as (l5 & L5 & ->); [done..|].
  eexists _, l1, l2, l3, l4, l5. split_and!; [reflexivity| |done..]. cbn [app].
  rewrite !Hh. do 4 f_equal. specialize (Hh (mkRequest RTM_GETNEIGH 769 5 AF_BRIDGE (NLMSG_LENGTH sizeof_ndmsg)) l5 []).
  by rewrite !app_nil_r in Hh.
Qed.

(** * Stopping *)

#[local] Arguments receiveNetlinkDatagram bufferSize !recvs.

(** A poll that reports the stop signal, whatever else it reports. *)
Definition stop_seen (p : PollOutcome) : Prop :=
  match p with PollReady _ stop _ => has_events stop POLLIN = true | PollError _ => False end.

(** Calls of [recvmsg] that return something else than [EINTR]. *)
Definition answering (r : RecvOutcome) : Prop := r ≠ RecvError EINTR.

#[export] Instance answering_dec r : Decision (answering r).
Proof. unfold answering. destruct r as [e|]; [destruct (decide (e = EINTR)) as [->|]|]; [right|left|left]; congruence || tauto. Defined.

Lemma wait_with_stop fd polls :
  Exists stop_seen polls →
  ∃ s e rest, waitForNetlinkDataOrStop fd polls = Ok (s, e, rest) ∧ (s = data_ready → Exists stop_seen rest).
Proof.
  unfold waitForNetlinkDataOrStop. destruct (fd <? 0)%Z; [by do 3 eexists|].
  induction 1 as [p polls Hp|p polls Hp IH].
  - destruct p as [|d st dr]; [done|]. cbn in *. rewrite Hp. case_match; by do 3 eexists.
  - destruct p as [errno|d st dr]; cbn; repeat case_match; try (by do 3 eexists); exact IH.
Qed.

Lemma receive_answering size recvs :
  0 < length (filter answering recvs) →
  ∃ r rest, receiveNetlinkDatagram size recvs = Ok (r, rest) ∧
    length (filter answering recvs) ≤ S (length (filter answering rest)).
Proof.
  induction recvs as [|[errno|fl d] recvs IH]; cbn [receiveNetlinkDatagram]; [cbn; lia|..]; rewrite !filter_cons.
  - destruct (size =? 0)%Z; [intros _; do 2 eexists; split; [done|]; rewrite filter_cons; lia|].
    destruct (decide (answering (RecvError errno))) as [Ha|Ha]; destruct (Z.eqb_spec errno EINTR) as [->|Hn].
    + by destruct Ha.
    + intros _. do 2 eexists. split; [done|]. cbn. lia.
    + exact IH.
    + destruct Ha. intros [= ?]. done.
  - destruct (size =? 0)%Z; [intros _; do 2 eexists; split; [done|]; rewrite filter_cons; lia|].
    rewrite decide_True by done. intros _. repeat case_match; do 2 eexists; (split; [done|]); cbn; lia.
Qed.

(** A wait with a stop ahead, followed by a receive: both return, and what they
    leave still satisfies the hypotheses. *)
Lemma stop_round fd size io :
  Exists stop_seen (io_polls io) → length (io_polls io) ≤ length (filter answering (io_recvs io)) →
  ∃ s e polls, waitForNetlinkDataOrStop fd (io_polls io) = Ok (s, e, polls) ∧
    (s = data_ready → ∃ r recvs, receiveNetlinkDatagram size (io_recvs io) = Ok (r, recvs) ∧
      Exists stop_seen polls ∧ length polls ≤ length (filter answering recvs) ∧
      length polls < length (io_polls io)).
Proof.
  intros Hstop Hlen. destruct (wait_with_stop fd _ Hstop) as (s & e & polls & Hw & Hrest).
  exists s, e, polls. split; [done|]. intros ->. specialize (Hrest eq_refl).
  pose proof (wait_shrinks _ _ _ _ _ Hw ltac:(done)) as Hsh.
  destruct (receive_answering size (io_recvs io)) as (r & recvs & Hr & Hle); [lia|].
  exists r, recvs. split_and!; [done|done|lia|lia].
Qed.

Lemma live_run_stops requested fd io :
  io_ok io → Exists stop_seen (io_polls io) → length (io_polls io) ≤ length (filter answering (io_recvs io)) →
  ∃ out, live_run requested fd io = Ok out.
Proof.
  revert io. induction requested as [|[] requested IH]; intros io Hio Hstop Hlen; [by eexists..|]. cbn [live_run].
  destruct (stop_round fd liveReceiveBufferSize io Hstop Hlen) as (s & e & polls & Hw & Hr).
  rewrite Hw. cbn [mbind result_bind io_recvs io_sends]. destruct s; try (by eexists); [].
  destruct (Hr eq_refl) as (r & recvs & Hrc & Hst & Hle & _).
  pose proof (receiveAndDispatch_safe (io_recvs io) Hio) as Hsafe. unfold receiveAndDispatch in *. rewrite Hrc in *.
  cbn [mbind result_bind] in *. destruct r as [data| | |]; cbn [mbind result_bind]; try (by eexists); [].
  destruct (datagram_loop live_step data) as [[l [x|x]]|]; cbn in *; [by eexists| |done].
  case_match; cbn; [by eexists|].
  destruct (IH (mkIo (io_sends io) polls recvs)) as [[[l' r'] io'] Ht]; [by destruct Hsafe|done..|].
  rewrite Ht. by eexists.
Qed.

Lemma readDumpResponses_stops fuel fd sequence io :
  io_ok io → Exists stop_seen (io_polls io) → length (io_polls io) ≤ length (filter answering (io_recvs io)) →
  length (io_polls io) < fuel → ∃ out, readDumpResponses fuel fd sequence io = Ok out.
Proof.
  revert io. induction fuel as [|fuel IH]; intros io Hio Hstop Hlen Hf; [lia|]. cbn [readDumpResponses].
  destruct (stop_round fd dumpReceiveBufferSize io Hstop Hlen) as (s & e & polls & Hw & Hr).
  rewrite Hw. cbn [mbind result_bind io_recvs io_sends]. destruct s; try (by eexists); [].
  destruct (Hr eq_refl) as (r & recvs & Hrc & Hst & Hle & Hlt). rewrite Hrc.
  destruct (receive_ok _ _ _ _ Hrc Hio) as [Hrest Hd]. cbn [mbind result_bind].
  destruct r as [data| | |]; try (by eexists); [].
  destruct (datagram_loop_safe (dump_step sequence) data) as (l & x & Hl & Hwf);
    [apply dump_step_safe|by apply Hd|]. rewrite Hl. cbn [lift mbind result_bind].
  destruct x as [res|remaining]; [by eexists|]. destruct (negb _); [by eexists|].
  destruct (IH (mkIo (io_sends io) polls recvs)) as [[[t r] io'] Ht]; [done..|cbn; lia|].
  rewrite Ht. by eexists.
Qed.

(** C27: a stop request ends the input layer, whatever the kernel does: once a
    [poll] reports the stop signal, the live loop and a dump that is reading
    its answer return, also under a flood of messages and of interrupted system
    calls; and a poll that reports both data and the signal stops, without
    reading the data. *)
Theorem stop_unblocks requested fd sequence io :
  io_ok io → Exists stop_seen (io_polls io) → length (io_polls io) ≤ length (filter answering (io_recvs io)) →
  (∃ out, live_run requested fd io = Ok out) ∧
  (∃ out, readDumpResponses (S (length (io_polls io))) fd sequence io = Ok out) ∧
  (∀ data stop polls sends recvs, (0 ≤ fd)%Z → has_events stop POLLIN = true →
    let io := mkIo sends (PollReady data stop 0 :: polls) recvs in
    live_run (false :: requested) fd io = Ok ([], (loop_stopped, 0%Z), mkIo sends polls recvs) ∧
    readDumpResponses (S (length (io_polls io))) fd sequence io =
      Ok ([], mkDumpResult interrupted 0, mkIo sends polls recvs)).
Proof.
  intros Hio Hstop Hlen. split_and!.
  - apply live_run_stops; done.
  - apply readDumpResponses_stops; auto.
  - intros data stop polls sends recvs Hfd Hs. cbn. unfold waitForNetlinkDataOrStop.
    destruct (Z.ltb_spec fd 0); [lia|]. cbn. by rewrite Hs.
Qed.

(** * Witnesses *)

Section demo.
#[local] Instance demo_ntop : InetNtop := λ f d, Some "10.0.0.7".
#[local] Instance demo_names : IfIndexToName := λ i, None.

Definition demo_messages : list KernelMessage :=
  [mkKernelMessage RTM_NEWLINK (encode_ifinfomsg 5 65) [mkAttr IFLA_IFNAME [101; 48; 0]%Z];
   mkKernelMessage RTM_NEWLINK (encode_ifinfomsg 6 65) [mkAttr IFLA_IFNAME [101; 49; 0]%Z]].

Definition demo_answer : Answer := mkAnswer [demo_messages] demo_messages.
Definition demo_empty : Answer := mkAnswer [] [].
Definition demo_rest : Io := mkIo [] [PollReady 1 1 0] [RecvError EINTR; RecvData 0 [1; 2; 3]%Z].
Definition demo_io : Io := answered demo_answer demo_empty demo_empty demo_empty demo_empty demo_rest.

Lemma demo_io_ok : io_ok demo_io.
Proof. apply io_okb_ok. vm_compute. reflexivity. Qed.

Lemma netlink_input_safe_witness :
  io_ok demo_io ∧ ∀ f, dump_run 3 demo_io ≠ Err (Faulted f).
Proof. split; [exact demo_io_ok|]. apply (netlink_input_safe [] 3 demo_io demo_io_ok). Defined.

Lemma demo_messages_ok : Forall km_ok demo_messages.
Proof.
  assert (∀ i n, attr_ok (mkAttr IFLA_IFNAME [101; n; 0]%Z) →
    km_ok (mkKernelMessage RTM_NEWLINK (encode_ifinfomsg i 65) [mkAttr IFLA_IFNAME [101; n; 0]%Z])) as H.
  { intros i n Ha. split; [split; [by constructor|]|split].
    - split; [by vm_compute|reflexivity].
    - by exists 4%Z.
    - apply (bool_decide_unpack _). reflexivity. }
  constructor; [apply H; by vm_compute|]. constructor; [apply H; by vm_compute|constructor].
Qed.

Lemma demo_answer_ok : Forall answer_ok [demo_answer; demo_empty; demo_empty; demo_empty; demo_empty].
Proof.
  assert (answer_ok demo_empty) by (split; constructor).
  constructor; [|by repeat constructor]. split; [by repeat constructor|].
  change (Forall km_ok ((demo_messages ++ []) ++ demo_messages)). rewrite app_nil_r.
  apply Forall_app. split; exact demo_messages_ok.
Qed.

Lemma dump_snapshot_witness :
  ∃ t, dump_run 3 demo_io = Ok (t, mkDumpResult completed 0, demo_rest) ∧ length (handled t) = 4.
Proof.
  destruct (dump_snapshot 3 demo_answer demo_empty demo_empty demo_empty demo_empty demo_rest)
    as (t & l1 & l2 & l3 & l4 & l5 & Hr & Hh & H1 & H2 & H3 & H4 & H5); [lia|exact demo_answer_ok|].
  exists t. split; [exact Hr|]. rewrite Hh, !length_app.
  rewrite <- (Forall2_length _ _ _ H1), <- (Forall2_length _ _ _ H2), <- (Forall2_length _ _ _ H3),
    <- (Forall2_length _ _ _ H4), <- (Forall2_length _ _ _ H5). reflexivity.
Defined.

Lemma dump_transactions_witness :
  ∃ t r io', dump_run 3 demo_io = Ok (t, r, io') ∧ in_order 0 t ∧ length (sent_requests t) = 5.
Proof.
  destruct (dump_run 3 demo_io) as [[[t r] io']|e] eqn:Hr; [|exfalso; vm_compute in Hr; discriminate Hr].
  exists t, r, io'. split; [reflexivity|]. destruct (dump_transactions 3 demo_io t r io' Hr) as (Ho & n & Hn & Hs & Hd).
  split; [exact Ho|]. assert (dump_completed r = true) as Hc.
  { assert (match dump_run 3 demo_io with Ok (_, r, _) => dump_completed r | _ => true end = true) as H
      by (vm_compute; reflexivity). rewrite Hr in H. exact H. }
  rewrite Hs, (Hd Hc). reflexivity.
Defined.

Lemma stop_unblocks_witness :
  ∃ out, live_run [false; false] 3 (mkIo [] [PollReady 1 0 0; PollError EINTR; PollReady 1 1 0]
    [RecvError EINTR; RecvData 0 (km_octets 0 (mkKernelMessage 16 [] [])); RecvError 5; RecvError 5]) = Ok out.
Proof.
  refine (proj1 (stop_unblocks [false; false] 3 0 _ _ _ _)).
  - repeat constructor; vm_compute; discriminate || reflexivity.
  - cbn. right. right. left. reflexivity.
  - vm_compute. lia.
Defined.
End demo.
