(* ===== verification/NetlinkSocket.v ===== *)
(** [inputs/netlink/common/NetlinkIo.{h,cpp}], the class [NetlinkRouteSocket], and
    the constructors of [NetlinkEventLoop] and [NetlinkInitialDump] that hold one:
    who owns a descriptor, through opening, borrowing, moving and destruction.

    [UniqueFd] is a library: a class with the laws of a unique owner. *)

From S2P Require Import Prelude.

(** * [UniqueFd] *)

(** [uf_move]: the new owner and what is left of the old one. [uf_move_assign]:
    what is closed, then the target and the source. *)
Class UniqueFd (U : Type) := {
  uf_none : U;
  uf_adopt : Z → U;
  uf_get : U → Z;
  uf_valid : U → bool;
  uf_move : U → U * U;
  uf_move_assign : U → U → list Z * U * U;
  uf_destroy : U → list Z
}.

Class UniqueFdLaws (U : Type) `{UniqueFd U} := {
  uf_none_get : uf_get uf_none = (-1)%Z;
  uf_adopt_get fd : uf_get (uf_adopt fd) = fd;
  uf_valid_get u : uf_valid u = (0 <=? uf_get u)%Z;
  uf_moved u : uf_get (uf_move u).1 = uf_get u ∧ uf_get (uf_move u).2 = (-1)%Z;
  uf_assigned u v : (uf_move_assign u v).1.1 = uf_destroy u ∧ uf_get (uf_move_assign u v).1.2 = uf_get v ∧
    uf_get (uf_move_assign u v).2 = (-1)%Z;
  uf_destroyed u : uf_destroy u = if uf_valid u then [uf_get u] else []
}.

(** * [NetlinkRouteSocket] *)

Record OpenOptions := mkOpenOptions { oo_groups : Z; oo_receiveBufferBytes : option Z }.

(** What the kernel answers: the new descriptor or the error of [socket], whether
    [setsockopt] and [bind] succeed, or the latter's error. *)
Record OpenInput := mkOpenInput { oi_socket : result Z Z; oi_setsockopt : bool; oi_bind : option Z }.

(** What happens at the kernel, in order. *)
Inductive SocketCall :=
| CallSocket (fd : Z) | CallSetsockopt (fd bytes : Z) (ok : bool) | CallBind (fd groups : Z) (ok : bool) | CallClose (fd : Z).

Section socket.
Context {U : Type} `{UniqueFd U}.

Record NetlinkRouteSocket := mkNetlinkSocket { ownedFd_ : U; fd_ : Z }.

Definition socket_fd (s : NetlinkRouteSocket) : Z := fd_ s.
Definition ownsDescriptor (s : NetlinkRouteSocket) : bool := uf_valid (ownedFd_ s).

Definition socket_borrow (fd : Z) : result string NetlinkRouteSocket :=
  if (fd <? 0)%Z then Err "NetlinkRouteSocket: invalid borrowed descriptor" else Ok (mkNetlinkSocket uf_none fd).

(** The private constructor; what is left of its argument is destroyed. *)
Definition socket_own (ownedFd : U) : list SocketCall * NetlinkRouteSocket :=
  let '(u, rest) := uf_move ownedFd in (CallClose <$> uf_destroy rest, mkNetlinkSocket u (uf_get u)).

(** The new socket, and the source. *)
Definition socket_move (other : NetlinkRouteSocket) : NetlinkRouteSocket * NetlinkRouteSocket :=
  let '(u, rest) := uf_move (ownedFd_ other) in (mkNetlinkSocket u (fd_ other), mkNetlinkSocket rest (-1)).

(** [same]: it is the same object. *)
Definition socket_move_assign (same : bool) (s other : NetlinkRouteSocket) : list SocketCall * NetlinkRouteSocket * NetlinkRouteSocket :=
  if negb same then
    let '(closed, u, rest) := uf_move_assign (ownedFd_ s) (ownedFd_ other) in
    (CallClose <$> closed, mkNetlinkSocket u (fd_ other), mkNetlinkSocket rest (-1))
  else ([], s, other).

Definition socket_destroy (s : NetlinkRouteSocket) : list SocketCall := CallClose <$> uf_destroy (ownedFd_ s).

(** An error ends it with an exception, which destroys [fd]. *)
Definition socket_open (options : OpenOptions) (i : OpenInput) : list SocketCall * result Z NetlinkRouteSocket :=
  match oi_socket i with
  | Err e => ([], Err e)
  | Ok n =>
      let fd := uf_adopt n in
      let calls := CallSocket n ::
        match oo_receiveBufferBytes options with Some bytes => [CallSetsockopt (uf_get fd) bytes (oi_setsockopt i)] | None => [] end in
      match oi_bind i with
      | Some e => (calls ++ [CallBind (uf_get fd) (oo_groups options) false] ++ (CallClose <$> uf_destroy fd), Err e)
      | None =>
          let '(closed, s) := socket_own fd in
          (calls ++ [CallBind (uf_get fd) (oo_groups options) true] ++ closed, Ok s)
      end
  end.

(** ** The members of the loop and of the dump *)

Definition RTMGRP_LINK : Z := 1.
Definition RTMGRP_NEIGH : Z := 4.
Definition RTMGRP_IPV4_IFADDR : Z := 0x10.
Definition RTMGRP_IPV6_IFADDR : Z := 0x100.

Definition liveSocketReceiveBufferBytes : Z := 256 * 1024.
Definition liveGroups : Z := Z.lor (Z.lor (Z.lor RTMGRP_LINK RTMGRP_IPV4_IFADDR) RTMGRP_IPV6_IFADDR) RTMGRP_NEIGH.

(** [validateHandler], at the end of a constructor: its exception destroys the
    socket. [handler]: the handler is not empty. *)
Definition validateHandler (what : string) (handler : bool) (s : NetlinkRouteSocket)
    : list SocketCall * result (string + Z) NetlinkRouteSocket :=
  if handler then ([], Ok s) else (socket_destroy s, Err (inl (what +:+ ": message handler is empty"))).

(** The socket of a new object: opened, or borrowed for a test. *)
Inductive SocketSource := Opens (i : OpenInput) | Borrows (fd : Z).

Definition new_holder (what : string) (options : OpenOptions) (source : SocketSource) (handler : bool)
    : list SocketCall * result (string + Z) NetlinkRouteSocket :=
  match source with
  | Opens i =>
      match socket_open options i with
      | (calls, Ok s) => let '(calls', r) := validateHandler what handler s in (calls ++ calls', r)
      | (calls, Err e) => (calls, Err (inr e))
      end
  | Borrows fd => match socket_borrow fd with Ok s => validateHandler what handler s | Err e => ([], Err (inl e)) end
  end.

Definition new_NetlinkEventLoop : SocketSource → bool → list SocketCall * result (string + Z) NetlinkRouteSocket :=
  new_holder "NetlinkEventLoop" (mkOpenOptions liveGroups (Some liveSocketReceiveBufferBytes)).

Definition new_NetlinkInitialDump : SocketSource → bool → list SocketCall * result (string + Z) NetlinkRouteSocket :=
  new_holder "NetlinkInitialDump" (mkOpenOptions 0 None).
End socket.
Arguments NetlinkRouteSocket : clear implicits.
Arguments mkNetlinkSocket {U}.

(** * Objects and descriptors *)

(** The process's open descriptors and its live sockets, by name. *)
Record World (U : Type) := mkWorld { w_open : gset Z; w_sockets : gmap nat (NetlinkRouteSocket U) }.
Arguments mkWorld {U}.
Arguments w_open {U}.
Arguments w_sockets {U}.

(** [None]: a descriptor is used or closed that is not open. *)
Definition kernel_call (open : gset Z) (c : SocketCall) : option (gset Z) :=
  match c with
  | CallSocket fd => Some ({[fd]} ∪ open)
  | CallSetsockopt fd _ _ | CallBind fd _ _ => if decide (fd ∈ open) then Some open else None
  | CallClose fd => if decide (fd ∈ open) then Some (open ∖ {[fd]}) else None
  end.

Fixpoint kernel_calls (calls : list SocketCall) (open : gset Z) : option (gset Z) :=
  match calls with [] => Some open | c :: calls => open ← kernel_call open c; kernel_calls calls open end.

(** What a program does with sockets: a construction under a new name; a
    construction or an assignment by move; a destruction. *)
Inductive SocketOp :=
| SockOpen (n : nat) (options : OpenOptions) (i : OpenInput)
| SockLoop (n : nat) (source : SocketSource) (handler : bool)
| SockDump (n : nat) (source : SocketSource) (handler : bool)
| SockMove (n m : nat)
| SockAssign (n m : nat)
| SockDestroy (n : nat).

Section world.
Context {U : Type} `{UniqueFd U}.
Implicit Types w : World U.

Definition constructed {E} (n : nat) (r : list SocketCall * result E (NetlinkRouteSocket U)) w : option (World U) :=
  open ← kernel_calls r.1 (w_open w);
  Some (mkWorld open match r.2 with Ok s => <[n := s]> (w_sockets w) | Err _ => w_sockets w end).

Definition socket_op (op : SocketOp) w : option (World U) :=
  match op with
  | SockOpen n options i => constructed n (socket_open options i) w
  | SockLoop n source handler => constructed n (new_NetlinkEventLoop source handler) w
  | SockDump n source handler => constructed n (new_NetlinkInitialDump source handler) w
  | SockMove n m =>
      match w_sockets w !! m with
      | Some other => let '(s, other) := socket_move other in Some (mkWorld (w_open w) (<[n := s]> (<[m := other]> (w_sockets w))))
      | None => Some w
      end
  | SockAssign n m =>
      match w_sockets w !! n, w_sockets w !! m with
      | Some s, Some other =>
          let '(calls, s, other) := socket_move_assign (bool_decide (n = m)) s other in
          open ← kernel_calls calls (w_open w);
          Some (mkWorld open (<[n := s]> (<[m := other]> (w_sockets w))))
      | _, _ => Some w
      end
  | SockDestroy n =>
      match w_sockets w !! n with
      | Some s => open ← kernel_calls (socket_destroy s) (w_open w); Some (mkWorld open (delete n (w_sockets w)))
      | None => Some w
      end
  end.

Fixpoint socket_ops (ops : list SocketOp) w : option (World U) :=
  match ops with [] => Some w | op :: ops => w ← socket_op op w; socket_ops ops w end.

(** A new descriptor is not open, a new name not in use. *)
Definition input_fresh (i : OpenInput) w : Prop := match oi_socket i with Ok fd => (0 ≤ fd)%Z ∧ fd ∉ w_open w | Err _ => True end.
Definition source_fresh (source : SocketSource) w : Prop := match source with Opens i => input_fresh i w | Borrows _ => True end.

Definition op_fresh (op : SocketOp) w : Prop :=
  match op with
  | SockOpen n _ i => w_sockets w !! n = None ∧ input_fresh i w
  | SockLoop n source _ | SockDump n source _ => w_sockets w !! n = None ∧ source_fresh source w
  | SockMove n _ => w_sockets w !! n = None
  | _ => True
  end.

Fixpoint ops_fresh (ops : list SocketOp) w : Prop :=
  match ops with [] => True | op :: ops => op_fresh op w ∧ match socket_op op w with Some w => ops_fresh ops w | None => True end end.
End world.

(** * One owner per descriptor *)

Section owners.
Context {U : Type} `{UniqueFdLaws U}.
Implicit Types (s : NetlinkRouteSocket U) (w : World U) (objects : gmap nat (NetlinkRouteSocket U)) (foreign : gset Z).

Definition owner s : option Z := if ownsDescriptor s then Some (uf_get (ownedFd_ s)) else None.

Record descriptors_ok foreign w : Prop := mkDescriptorsOk {
  do_fd n s fd : w_sockets w !! n = Some s → owner s = Some fd → socket_fd s = fd;
  do_one n n' s s' fd : w_sockets w !! n = Some s → w_sockets w !! n' = Some s' → owner s = Some fd → owner s' = Some fd → n = n';
  do_foreign n s fd : w_sockets w !! n = Some s → owner s = Some fd → fd ∉ foreign;
  do_open fd : fd ∈ w_open w ↔ fd ∈ foreign ∨ ∃ n s, w_sockets w !! n = Some s ∧ owner s = Some fd
}.

Lemma destroy_calls s : socket_destroy s = match owner s with Some fd => [CallClose fd] | None => [] end.
Proof. unfold socket_destroy, owner, ownsDescriptor. rewrite uf_destroyed. by destruct (uf_valid _). Qed.

Lemma none_owner fd : owner (mkNetlinkSocket uf_none fd) = None.
Proof. unfold owner, ownsDescriptor. cbn. by rewrite uf_valid_get, uf_none_get. Qed.

Lemma get_owner u u' fd fd' : uf_get u = uf_get u' → owner (mkNetlinkSocket u fd) = owner (mkNetlinkSocket u' fd').
Proof. intros Hu. unfold owner, ownsDescriptor. cbn. by rewrite !uf_valid_get, Hu. Qed.

Lemma moved_owner u fd : uf_get u = (-1)%Z → owner (mkNetlinkSocket u fd) = None.
Proof. intros Hu. unfold owner, ownsDescriptor. cbn. by rewrite uf_valid_get, Hu. Qed.

Lemma move_owner other :
  owner (socket_move other).1 = owner other ∧ socket_fd (socket_move other).1 = socket_fd other ∧
  owner (socket_move other).2 = None ∧ socket_fd (socket_move other).2 = (-1)%Z.
Proof.
  unfold socket_move. destruct (uf_moved (ownedFd_ other)) as [H1' H2']. destruct (uf_move (ownedFd_ other)) as [u rest]. cbn in *.
  split; [|split; [done|split; [by apply moved_owner|done]]]. destruct other as [v fd]. by apply get_owner.
Qed.

Lemma assign_owner s other :
  let r := socket_move_assign false s other in
  r.1.1 = socket_destroy s ∧ owner r.1.2 = owner other ∧ socket_fd r.1.2 = socket_fd other ∧ owner r.2 = None ∧ socket_fd r.2 = (-1)%Z.
Proof.
  unfold socket_move_assign, socket_destroy. cbn [negb]. destruct (uf_assigned (ownedFd_ s) (ownedFd_ other)) as (H1' & H2' & H3').
  destruct (uf_move_assign _ _) as [[closed u] rest]. cbn in *. subst closed. split; [done|].
  split; [|split; [done|split; [by apply moved_owner|done]]]. destruct other as [v fd]. by apply get_owner.
Qed.

Lemma own_socket fd : (0 ≤ fd)%Z → socket_own (uf_adopt fd) = ([], (socket_own (uf_adopt fd)).2) ∧
  owner (socket_own (uf_adopt fd)).2 = Some fd ∧ socket_fd (socket_own (uf_adopt fd)).2 = fd.
Proof.
  intros Hfd. unfold socket_own. destruct (uf_moved (uf_adopt fd)) as [H1' H2']. destruct (uf_move (uf_adopt fd)) as [u rest]. cbn in *.
  rewrite uf_destroyed, uf_valid_get, H2'. cbn. rewrite uf_adopt_get in H1'. split; [done|]. split; [|done].
  unfold owner, ownsDescriptor. cbn. rewrite uf_valid_get, H1'. by apply Z.leb_le in Hfd as ->.
Qed.

Lemma kernel_calls_app l l' open : kernel_calls (l ++ l') open = kernel_calls l open ≫= kernel_calls l'.
Proof. revert open. induction l as [|c l IH]; intros open; cbn; [done|]. destruct (kernel_call open c); cbn; [apply IH|done]. Qed.

(** Opening makes one descriptor with an owner, or leaves none. *)
Lemma open_calls options i open :
  match oi_socket i with Ok fd => (0 ≤ fd)%Z ∧ fd ∉ open | Err _ => True end →
  let '(calls, r) := socket_open (U := U) options i in
  match r with
  | Ok s => ∃ fd, oi_socket i = Ok fd ∧ kernel_calls calls open = Some ({[fd]} ∪ open) ∧ owner s = Some fd ∧ socket_fd s = fd
  | Err _ => kernel_calls calls open = Some open
  end.
Proof.
  unfold socket_open. destruct (oi_socket i) as [fd|e]; [|done]. intros [Hfd Hfresh].
  assert (Hin : fd ∈ {[fd]} ∪ open) by set_solver.
  assert (Hset : kernel_calls (CallSocket fd ::
      match oo_receiveBufferBytes options with Some bytes => [CallSetsockopt (uf_get (uf_adopt fd : U)) bytes (oi_setsockopt i)] | None => [] end) open
      = Some ({[fd]} ∪ open)).
  { destruct (oo_receiveBufferBytes options); cbn; [|done]. rewrite uf_adopt_get, decide_True by done. done. }
  destruct (own_socket fd Hfd) as (Ho & How & Hf). destruct (oi_bind i) as [e|].
  - rewrite kernel_calls_app, Hset. cbn [mbind option_bind app kernel_calls kernel_call].
    rewrite uf_adopt_get, decide_True by done. cbn [mbind option_bind]. rewrite uf_destroyed, uf_valid_get, uf_adopt_get.
    assert ((0 <=? fd)%Z = true) as -> by lia. cbn [fmap list_fmap kernel_calls kernel_call]. rewrite decide_True by done. cbn.
    f_equal. set_solver.
  - rewrite Ho. exists fd. split; [done|]. split; [|done]. rewrite kernel_calls_app, Hset.
    cbn [mbind option_bind app kernel_calls kernel_call]. by rewrite uf_adopt_get, decide_True.
Qed.

Lemma insert_owned foreign open objects n s fd :
  descriptors_ok foreign (mkWorld open objects) → objects !! n = None → owner s = Some fd → socket_fd s = fd → fd ∉ open →
  descriptors_ok foreign (mkWorld ({[fd]} ∪ open) (<[n := s]> objects)).
Proof.
  intros [D1 D2 D3 D4] Hn Ho Hf Hfd. cbn in *.
  assert (Hnew : ∀ n' s', objects !! n' = Some s' → owner s' ≠ Some fd) by (intros n' s' Hs Hs'; apply Hfd, D4; right; by exists n', s').
  split; cbn.
  - intros n' s' fd' [[<- <-]|[_ Hs]]%lookup_insert_Some Ho'; [congruence|by apply (D1 n')].
  - intros n1 n2 s1 s2 fd' [[<- <-]|[Hn1 Hs1]]%lookup_insert_Some [[<- <-]|[Hn2 Hs2]]%lookup_insert_Some Ho1 Ho2; [done|..].
    + destruct (Hnew _ _ Hs2). congruence.
    + destruct (Hnew _ _ Hs1). congruence.
    + by apply (D2 _ _ s1 s2 fd').
  - intros n' s' fd' [[<- <-]|[_ Hs]]%lookup_insert_Some Ho'; [|by apply (D3 n' s')]. intros Hin. apply Hfd, D4. left. congruence.
  - intros fd'. rewrite elem_of_union, elem_of_singleton, D4. split.
    + intros [->|[?|(n' & s' & Hs & Ho')]]; [right; exists n, s; by rewrite lookup_insert_eq|by left|right; exists n', s'].
      rewrite lookup_insert_ne by congruence. done.
    + intros [?|(n' & s' & [[<- <-]|[_ Hs]]%lookup_insert_Some & Ho')]; [by right; left|left; congruence|right; right; by exists n', s'].
Qed.

Lemma insert_unowned foreign open objects n s :
  descriptors_ok foreign (mkWorld open objects) → objects !! n = None → owner s = None →
  descriptors_ok foreign (mkWorld open (<[n := s]> objects)).
Proof.
  intros [D1 D2 D3 D4] Hn Ho. cbn in *. split; cbn.
  - intros n' s' fd [[<- <-]|[_ Hs]]%lookup_insert_Some Ho'; [congruence|by apply (D1 n')].
  - intros n1 n2 s1 s2 fd [[<- <-]|[Hn1 Hs1]]%lookup_insert_Some [[<- <-]|[Hn2 Hs2]]%lookup_insert_Some Ho1 Ho2; [done|congruence..|].
    by apply (D2 _ _ s1 s2 fd).
  - intros n' s' fd [[<- <-]|[_ Hs]]%lookup_insert_Some Ho'; [congruence|by apply (D3 n' s')].
  - intros fd. rewrite D4. split; (intros [?|(n' & s' & Hs & Ho')]; [by left|right]).
    + exists n', s'. by rewrite lookup_insert_ne by congruence.
    + apply lookup_insert_Some in Hs as [[<- <-]|[_ Hs]]; [congruence|by exists n', s'].
Qed.

Lemma destroy_ok foreign open objects n s :
  descriptors_ok foreign (mkWorld open objects) → objects !! n = Some s →
  ∃ open', kernel_calls (socket_destroy s) open = Some open' ∧ descriptors_ok foreign (mkWorld open' (delete n objects)) ∧
    open' = match owner s with Some fd => open ∖ {[fd]} | None => open end.
Proof.
  intros [D1 D2 D3 D4] Hn. cbn in *. rewrite destroy_calls. eexists. split; [|split; [|reflexivity]].
  - destruct (owner s) as [fd|] eqn:Ho; [|done]. cbn. rewrite decide_True; [done|]. apply D4. right. by exists n, s.
  - split; cbn.
    + intros n' s' fd [_ Hs]%lookup_delete_Some. by apply (D1 n').
    + intros n1 n2 s1 s2 fd [_ Hs1]%lookup_delete_Some [_ Hs2]%lookup_delete_Some. by apply D2.
    + intros n' s' fd [_ Hs]%lookup_delete_Some. by apply (D3 n').
    + intros fd. setoid_rewrite lookup_delete_Some. destruct (owner s) as [fd0|] eqn:Ho.
      * rewrite elem_of_difference, elem_of_singleton, D4. split.
        -- intros [[?|(n' & s' & Hs & Ho')] Hne]; [by left|right]. exists n', s'. split; [split; [congruence|done]|done].
        -- intros [Hf|(n' & s' & [Hne Hs] & Ho')]; (split; [eauto|]); intros ->; [by apply (D3 n s fd0)|].
           apply Hne. by apply (D2 n n' s s' fd0).
      * rewrite D4. split; (intros [?|(n' & s' & Hs & Ho')]; [by left|right]); exists n', s'; [|by destruct Hs].
        split; [split; [congruence|done]|done].
Qed.

(** Moving the ownership to a new name. *)
Lemma transfer_ok foreign open objects n m other s' other' :
  descriptors_ok foreign (mkWorld open objects) → objects !! n = None → objects !! m = Some other →
  owner s' = owner other → socket_fd s' = socket_fd other → owner other' = None →
  descriptors_ok foreign (mkWorld open (<[n := s']> (<[m := other']> objects))).
Proof.
  intros Hd Hn Hm Ho Hf Hnone. assert (n ≠ m) by congruence. rewrite insert_insert_ne by done.
  destruct (destroy_ok foreign open objects m other Hd Hm) as (open' & _ & Hd' & He).
  rewrite <- (insert_delete_eq (<[n := s']> objects) m other'), delete_insert_ne by done.
  apply insert_unowned; [|by rewrite lookup_insert_ne, lookup_delete_eq|done].
  destruct (owner other) as [fd|] eqn:Hown.
  - assert (open = {[fd]} ∪ open') as ->.
    { assert (fd ∈ open) as Hin by (apply (do_open _ _ Hd); right; by exists m, other). subst open'. by rewrite <- union_difference_L by set_solver. }
    apply (insert_owned _ _ _ _ _ fd); [done|by rewrite lookup_delete_ne|done| |set_solver].
    rewrite Hf. by apply (do_fd _ _ Hd m).
  - subst open'. apply insert_unowned; [done|by rewrite lookup_delete_ne|done].
Qed.

(** A holder's construction has a socket that owns a new descriptor, or borrows,
    or leaves nothing. *)
Lemma holder_calls what options source handler open :
  match source with Opens i => match oi_socket i with Ok fd => (0 ≤ fd)%Z ∧ fd ∉ open | Err _ => True end | Borrows _ => True end →
  let '(calls, r) := new_holder (U := U) what options source handler in
  match r with
  | Ok s => (∃ fd, kernel_calls calls open = Some ({[fd]} ∪ open) ∧ (fd ∉ open) ∧ owner s = Some fd ∧ socket_fd s = fd) ∨
      kernel_calls calls open = Some open ∧ owner s = None
  | Err _ => kernel_calls calls open = Some open
  end.
Proof.
  intros Hfresh. unfold new_holder. destruct source as [i|fd].
  - pose proof (open_calls options i open Hfresh) as Ho. destruct (socket_open options i) as [calls [s|e]]; [|done].
    destruct Ho as (fd & Hi & Hk & How & Hf). rewrite Hi in Hfresh. unfold validateHandler. destruct handler.
    + left. exists fd. rewrite app_nil_r. split_and!; [done|apply Hfresh|done|done].
    + rewrite kernel_calls_app, Hk. cbn [mbind option_bind]. rewrite destroy_calls, How. cbn.
      rewrite decide_True by set_solver. cbn. f_equal. set_solver.
  - unfold socket_borrow. destruct (fd <? 0)%Z; [done|]. unfold validateHandler. destruct handler; [right; split; [done|apply none_owner]|].
    by rewrite destroy_calls, none_owner.
Qed.

Lemma op_sound foreign op w : descriptors_ok foreign w → op_fresh op w → ∃ w', socket_op op w = Some w' ∧ descriptors_ok foreign w'.
Proof.
  destruct w as [open objects]. intros Hd Hf.
  destruct op as [n options i|n source handler|n source handler|n m|n m|n]; cbn [op_fresh socket_op constructed w_open w_sockets] in *.
  - destruct Hf as [Hn Hf]. pose proof (open_calls options i open Hf) as Ho. unfold constructed. cbn [w_open w_sockets].
    destruct (socket_open options i) as [calls [s|e]]; cbn [fst snd].
    + destruct Ho as (fd & Hi & -> & How & Hfd). unfold input_fresh in Hf. rewrite Hi in Hf. eexists. split; [done|].
      apply insert_owned; [done..|apply Hf].
    + rewrite Ho. by eexists.
  - destruct Hf as [Hn Hf]. pose proof (holder_calls "NetlinkEventLoop" (mkOpenOptions liveGroups (Some liveSocketReceiveBufferBytes)) source handler open Hf) as Ho.
    fold (new_NetlinkEventLoop (U := U) source handler) in Ho. unfold constructed. cbn [w_open w_sockets].
    destruct (new_NetlinkEventLoop source handler) as [calls [s|e]]; cbn [fst snd].
    + destruct Ho as [(fd & -> & Hin & How & Hfd)|[-> How]]; (eexists; split; [done|]); [by apply insert_owned|by apply insert_unowned].
    + rewrite Ho. by eexists.
  - destruct Hf as [Hn Hf]. pose proof (holder_calls "NetlinkInitialDump" (mkOpenOptions 0 None) source handler open Hf) as Ho.
    fold (new_NetlinkInitialDump (U := U) source handler) in Ho. unfold constructed. cbn [w_open w_sockets].
    destruct (new_NetlinkInitialDump source handler) as [calls [s|e]]; cbn [fst snd].
    + destruct Ho as [(fd & -> & Hin & How & Hfd)|[-> How]]; (eexists; split; [done|]); [by apply insert_owned|by apply insert_unowned].
    + rewrite Ho. by eexists.
  - destruct (objects !! m) as [other|] eqn:Hm; [|by eexists]. destruct (move_owner other) as (H1' & H2' & H3' & _).
    destruct (socket_move other) as [s rest]. eexists. split; [done|]. by eapply transfer_ok.
  - destruct (objects !! n) as [s|] eqn:Hn; [|by eexists]. destruct (objects !! m) as [other|] eqn:Hm; [|by eexists].
    destruct (decide (n = m)) as [<-|Hne]; [rewrite bool_decide_eq_true_2 by done|rewrite bool_decide_eq_false_2 by done].
    { cbn. assert (other = s) as -> by congruence. eexists. split; [done|]. by rewrite (insert_id objects n s), (insert_id objects n s). }
    destruct (destroy_ok foreign open objects n s Hd Hn) as (open' & Hk & Hd' & _).
    pose proof (assign_owner s other) as (Hc & H2' & H3' & H4' & _). destruct (socket_move_assign false s other) as [[calls s'] rest]. cbn [fst snd] in *.
    subst calls. rewrite Hk. cbn [mbind option_bind]. eexists. split; [done|].
    pose proof (transfer_ok foreign open' (delete n objects) n m other s' rest Hd') as Ht.
    rewrite lookup_delete_eq, lookup_delete_ne in Ht by done. specialize (Ht eq_refl Hm H2' H3' H4').
    by rewrite insert_insert_ne, insert_delete_eq, insert_insert_ne in Ht by done.
  - destruct (objects !! n) as [s|] eqn:Hn; [|by eexists]. destruct (destroy_ok foreign open objects n s Hd Hn) as (open' & Hk & Hd' & _).
    rewrite Hk. by eexists.
Qed.
End owners.

(** * Properties *)

(** C30: a descriptor of a netlink socket has one owner, which closes it once.
    Whatever sockets, loops and dumps are constructed, over new or borrowed
    descriptors, with any answers of the kernel and with or without a handler, and
    then moved, assigned and destroyed in any order: nothing is ever done to a
    descriptor that is not open, so none is closed twice; what is open is what the
    process had open before and one descriptor per owning object; no two objects
    own the same one, a borrowed or foreign one is never closed, and when no
    object is left nothing has leaked; a construction that fails leaves no
    descriptor, and assigning to itself changes nothing. *)
Theorem socket_descriptors_sound {U} `{UniqueFdLaws U} (foreign : gset Z) ops :
  ops_fresh ops (mkWorld foreign ∅) →
  ∃ w : World U, socket_ops ops (mkWorld foreign ∅) = Some w ∧ descriptors_ok foreign w ∧
    (w_sockets w = ∅ → w_open w = foreign) ∧
    (∀ n source handler w', op_fresh (SockLoop n source handler) w → socket_op (SockLoop n source handler) w = Some w' →
      (∃ e, (new_NetlinkEventLoop (U := U) source handler).2 = Err e) → w' = w) ∧
    (∀ n, socket_op (SockAssign n n) w = Some w).
Proof.
  assert (Hrun : ∀ ops w, descriptors_ok foreign w → ops_fresh ops w → ∃ w' : World U, socket_ops ops w = Some w' ∧ descriptors_ok foreign w').
  { clear ops. intros ops. induction ops as [|op ops IH]; intros w Hd Hf; [by exists w|]. destruct Hf as [Hf Hr].
    destruct (op_sound foreign op w Hd Hf) as (w1 & Hw1 & Hd1). rewrite Hw1 in Hr. destruct (IH w1 Hd1 Hr) as (w2 & Hw2 & Hd2).
    exists w2. split; [|done]. cbn. by rewrite Hw1. }
  intros Hf. destruct (Hrun ops (mkWorld foreign ∅)) as (w & Hw & Hd); [|done|].
  { split; cbn; try (intros *; rewrite lookup_empty; done). intros fd. split; [by left|]. intros [?|(n & s & Hs & _)]; [done|].
    by rewrite lookup_empty in Hs. }
  exists w. split; [done|]. split; [done|]. split; [|split].
  - intros He. apply set_eq. intros fd. rewrite (do_open foreign w Hd), He. split; [|by left].
    intros [?|(n & s & Hs & _)]; [done|]. by rewrite lookup_empty in Hs.
  - intros n source handler w' [_ Hfresh] Hop [e He].
    pose proof (holder_calls "NetlinkEventLoop" (mkOpenOptions liveGroups (Some liveSocketReceiveBufferBytes)) source handler (w_open w) Hfresh) as Ho.
    fold (new_NetlinkEventLoop (U := U) source handler) in Ho. cbn in Hop. unfold constructed in Hop.
    destruct (new_NetlinkEventLoop source handler) as [calls r]. cbn in *. subst r. rewrite Ho in Hop. cbn in Hop. by destruct w; simplify_eq.
  - intros n. cbn. destruct (w_sockets w !! n) as [s|] eqn:Hn; [|done]. rewrite bool_decide_eq_true_2 by done. cbn.
    rewrite (insert_id (w_sockets w) n s), (insert_id (w_sockets w) n s) by done. by destruct w.
Qed.

(** ** Witness: the loop's socket is replaced by the dump's and moved on; a failing
    bind and a missing handler in between; a borrowed descriptor. *)
Inductive OwnedFd := owned_fd (fd : Z).

Definition owned_get (u : OwnedFd) : Z := let 'owned_fd fd := u in fd.
Definition owned_close (u : OwnedFd) : list Z := if (0 <=? owned_get u)%Z then [owned_get u] else [].

#[export] Instance owned_unique : UniqueFd OwnedFd := {
  uf_none := owned_fd (-1); uf_adopt := owned_fd; uf_get := owned_get; uf_valid u := (0 <=? owned_get u)%Z;
  uf_move u := (u, owned_fd (-1)); uf_move_assign u v := (owned_close u, v, owned_fd (-1)); uf_destroy := owned_close
}.

#[export] Instance owned_unique_laws : UniqueFdLaws OwnedFd.
Proof. by split. Qed.

Definition demo_socket_ops : list SocketOp :=
  [SockLoop 0 (Opens (mkOpenInput (Ok 7%Z) false None)) true; SockDump 1 (Opens (mkOpenInput (Ok 8%Z) true None)) true;
   SockAssign 0 1; SockMove 2 0; SockLoop 3 (Opens (mkOpenInput (Ok 7%Z) true (Some 13%Z))) true;
   SockDump 4 (Opens (mkOpenInput (Ok 9%Z) true None)) false; SockLoop 5 (Borrows 5) true; SockDestroy 5].

Lemma socket_descriptors_sound_witness :
  ∃ w : World OwnedFd, socket_ops demo_socket_ops (mkWorld {[0; 1; 5]}%Z ∅) = Some w ∧ descriptors_ok {[0; 1; 5]}%Z w ∧
    elements (w_open w) ≡ₚ [0; 1; 5; 8]%Z.
Proof.
  destruct (socket_descriptors_sound (U := OwnedFd) {[0; 1; 5]}%Z demo_socket_ops) as (w & Hw & Hd & _).
  - vm_compute. repeat split; discriminate.
  - exists w. split; [exact Hw|]. split; [exact Hd|].
    assert (match socket_ops demo_socket_ops (mkWorld {[0; 1; 5]}%Z ∅) with
            | Some w => bool_decide (elements (w_open (w : World OwnedFd)) ≡ₚ [0; 1; 5; 8]%Z) | None => false end = true) as He by (vm_compute; reflexivity).
    rewrite Hw in He. by apply bool_decide_eq_true in He.
Defined.
