(* ===== verification/NetlinkMonitor.v ===== *)
(** [inputs/netlink/NetlinkNetworkMonitor.cpp]: the monitor that puts the parser,
    the state, the dump and the live loop together, with its life cycle.

    [LifecycleCoordinator], [ManagedWorker] and [EventFdSignal] are libraries:
    the outcomes of their operations are inputs. The callbacks of the client are
    modelled by the events they are called with. Threads are interleaved at the
    granularity of one operation, which the state's mutex justifies. *)

From S2P Require Import Prelude Contract Observation LocalState Filter NetlinkState NetlinkParser NetlinkIo.

(** * The state *)

Record NetlinkNetworkMonitor := mkMonitor {
  lifecycle_ : LifecycleState; workerFailed_ : bool; redumpInFlight_ : bool;
  stopSignal_ : bool; redumpStopSignal_ : bool; liveLoop_ : bool;   (** [optional]s: engaged or not *)
  worker_ : bool;                                                   (** joinable *)
  netlinkState_ : NetlinkState
}.

Definition eta_monitor (m : NetlinkNetworkMonitor) : NetlinkNetworkMonitor :=
  mkMonitor (lifecycle_ m) (workerFailed_ m) (redumpInFlight_ m) (stopSignal_ m) (redumpStopSignal_ m)
    (liveLoop_ m) (worker_ m) (netlinkState_ m).

#[export] Instance set_lifecycle_ : Setter lifecycle_ := ltac:(mk_setter eta_monitor lifecycle_).
#[export] Instance set_workerFailed_ : Setter workerFailed_ := ltac:(mk_setter eta_monitor workerFailed_).
#[export] Instance set_redumpInFlight_ : Setter redumpInFlight_ := ltac:(mk_setter eta_monitor redumpInFlight_).
#[export] Instance set_stopSignal_ : Setter stopSignal_ := ltac:(mk_setter eta_monitor stopSignal_).
#[export] Instance set_redumpStopSignal_ : Setter redumpStopSignal_ := ltac:(mk_setter eta_monitor redumpStopSignal_).
#[export] Instance set_liveLoop_ : Setter liveLoop_ := ltac:(mk_setter eta_monitor liveLoop_).
#[export] Instance set_worker_ : Setter worker_ := ltac:(mk_setter eta_monitor worker_).
#[export] Instance set_netlinkState_ : Setter netlinkState_ := ltac:(mk_setter eta_monitor netlinkState_).

Definition new_monitor : NetlinkNetworkMonitor :=
  mkMonitor LStopped false false false false false false netlink_empty.

Section monitor.
Context `{InetNtop, IfIndexToName}.

(** * Messages *)

(** [processSingleMessage]: the events delivered, the state and the cache. *)
Definition processSingleMessage (watched : gset string) (msg : list Z) (st : NetlinkState * IfindexCache)
    : result Fault (list NetEvent * (NetlinkState * IfindexCache)) :=
  '(inputs, cache) ← processMessage msg st.2;
  let '(events, s) := net_run watched inputs st.1 in Ok (events, (s, cache)).

Fixpoint processMessages (watched : gset string) (msgs : list (list Z)) (st : NetlinkState * IfindexCache)
    : result Fault (list NetEvent * (NetlinkState * IfindexCache)) :=
  match msgs with
  | [] => Ok ([], st)
  | msg :: msgs =>
      '(ev, st) ← processSingleMessage watched msg st;
      '(ev', st) ← processMessages watched msgs st;
      Ok (ev ++ ev', st)
  end.

(** * Life cycle *)

Definition closeResources (m : NetlinkNetworkMonitor) : NetlinkNetworkMonitor :=
  m <| liveLoop_ := false |> <| stopSignal_ := false |> <| redumpStopSignal_ := false |>.

(** The wake callback of the worker: the redump's signal is sent once, the worker's
    until it is not interrupted; [errors]: what sending gave, 0 when it was sent.
    [SignalFatal]: the process ends. *)
Inductive SignalEnd := SignalSent | SignalFatal (error : option Z).

Fixpoint signal_loop (errors : list Z) : option SignalEnd :=
  match errors with
  | [] => None
  | error :: errors =>
      if (error =? 0)%Z then Some SignalSent
      else if (error =? EINTR)%Z then signal_loop errors
      else Some (SignalFatal (Some error))
  end.

(** The first component: the redump was signalled. *)
Definition signalStop (errors : list Z) (m : NetlinkNetworkMonitor) : bool * option SignalEnd :=
  if negb (stopSignal_ m) then (false, Some (SignalFatal None)) else (redumpStopSignal_ m, signal_loop errors).

Definition rollbackStartup (m : NetlinkNetworkMonitor) : NetlinkNetworkMonitor :=
  (closeResources m) <| netlinkState_ := netlink_empty |> <| workerFailed_ := false |> <| lifecycle_ := LStopped |>.

Definition rollbackStartupWithWorker (m : NetlinkNetworkMonitor) : NetlinkNetworkMonitor :=
  rollbackStartup (m <| worker_ := false |>).

(** What a dump does to the monitor: the messages handed over, and its result,
    [None] when it throws. *)
Abbreviation DumpRun := (list (list Z) * option DumpResult)%type.

(** What the environment decides during a start: whether creating the signals
    and the live socket succeeded, what the dump did, whether
    cancellation was requested by the end of the dump, what starting the worker
    did, whether the worker had failed by then, and whether cancellation won
    after all. *)
Inductive WorkerStart := WsStarted | WsAlreadyRunning | WsThrew.

Definition run_completed (r : option DumpResult) : bool :=
  match r with Some r => dump_completed r | None => false end.

Record StartInputs := mkStartInputs {
  si_resources : bool; si_dump : DumpRun; si_cancelled : bool;
  si_worker : WorkerStart; si_failed : bool; si_completes : bool
}.

(** [start]: the result, the events delivered during the dump, the monitor and
    the cache. *)
Definition monitor_start (watched : gset string) (i : StartInputs) (m : NetlinkNetworkMonitor) (cache : IfindexCache)
    : result Fault (bool * list NetEvent * NetlinkNetworkMonitor * IfindexCache) :=
  if negb (bool_decide (lifecycle_ m = LStopped)) then Ok (false, [], m, cache)
  else
    let m := m <| lifecycle_ := LStarting |> <| workerFailed_ := false |> in
    if negb (si_resources i) then Ok (false, [], rollbackStartup m, cache)
    else
      let m := m <| stopSignal_ := true |> <| redumpStopSignal_ := true |> <| liveLoop_ := true |> in
      let '(msgs, r) := si_dump i in
      '(events, (s, cache)) ← processMessages watched msgs (netlinkState_ m, cache);
      let m := m <| netlinkState_ := s |> in
      if negb (run_completed r) then Ok (false, events, rollbackStartup m, cache)
      else if si_cancelled i then Ok (false, events, rollbackStartup m, cache)
      else
        match si_worker i with
        | WsAlreadyRunning => Ok (false, events, rollbackStartupWithWorker m, cache)
        | WsThrew => Ok (false, events, rollbackStartup m, cache)
        | WsStarted =>
            let m := m <| worker_ := true |> in
            if si_failed i then Ok (false, events, rollbackStartupWithWorker m, cache)
            else if negb (si_completes i) then Ok (false, events, rollbackStartupWithWorker m, cache)
            else Ok (true, events, m <| lifecycle_ := LRunning |>, cache)
        end.

(** [stop]; [onWorker]: called on the worker thread. [beginStop] grants the
    transition exactly when the monitor runs. *)
Definition monitor_stop (onWorker : bool) (m : NetlinkNetworkMonitor) : NetlinkNetworkMonitor :=
  if onWorker then m
  else if negb (bool_decide (lifecycle_ m = LRunning)) then m
  else
    let m := m <| lifecycle_ := LStopping |> <| worker_ := false |> <| workerFailed_ := false |> in
    (closeResources m) <| netlinkState_ := netlink_empty |> <| lifecycle_ := LStopped |>.

Definition monitor_isRunning (m : NetlinkNetworkMonitor) : bool :=
  bool_decide (lifecycle_ m = LRunning) && negb (workerFailed_ m).

(** The worker's exit: by an exception, by returning, or because it was asked to. *)
Inductive MonitorExit := MxException | MxReturned | MxStopRequested.

Definition monitor_onWorkerExit (x : MonitorExit) (m : NetlinkNetworkMonitor) : NetlinkNetworkMonitor :=
  match x with
  | MxException => m <| workerFailed_ := true |>
  | MxReturned =>
      if bool_decide (lifecycle_ m = LStarting) || bool_decide (lifecycle_ m = LRunning)
      then m <| workerFailed_ := true |> else m
  | MxStopRequested => m
  end.

(** What [runLiveLoop] makes of the result of the loop: it throws unless the
    loop was stopped. *)
Definition runLiveLoop (r : LoopStatus * Z) : option (string * Z) :=
  match r.1 with
  | loop_stopped => None
  | s => Some ("NetlinkEventLoop: " +:+ loop_statusName s, if (r.2 =? 0)%Z then EIO else r.2)
  end.

(** One datagram's messages on the live loop. *)
Definition monitor_live (watched : gset string) (msgs : list (list Z)) (m : NetlinkNetworkMonitor) (cache : IfindexCache)
    : result Fault (list NetEvent * NetlinkNetworkMonitor * IfindexCache) :=
  '(events, (s, cache)) ← processMessages watched msgs (netlinkState_ m, cache);
  Ok (events, m <| netlinkState_ := s |>, cache).

(** [requestRedump] up to its dump: [None] when it is rejected. Otherwise the
    redump is in flight, on an empty state. *)
Definition redump_begin (onWorker : bool) (m : NetlinkNetworkMonitor) : option NetlinkNetworkMonitor :=
  if onWorker then None
  else if negb (bool_decide (lifecycle_ m = LRunning)) then None
  else if redumpInFlight_ m then None
  else if negb (redumpStopSignal_ m) then None
  else Some (m <| redumpInFlight_ := true |> <| netlinkState_ := netlink_clear (netlinkState_ m) |>).

(** The destructor of [Clear]. *)
Definition redump_end (m : NetlinkNetworkMonitor) : NetlinkNetworkMonitor := m <| redumpInFlight_ := false |>.

(** [requestRedump], when nothing happens in between. *)
Definition requestRedump (watched : gset string) (onWorker : bool) (dump : DumpRun)
    (m : NetlinkNetworkMonitor) (cache : IfindexCache)
    : result Fault (bool * list NetEvent * NetlinkNetworkMonitor * IfindexCache) :=
  match redump_begin onWorker m with
  | None => Ok (false, [], m, cache)
  | Some m =>
      '(events, m, cache) ← monitor_live watched dump.1 m cache;
      Ok (run_completed dump.2, events, redump_end m, cache)
  end.
End monitor.

(** * Replaying *)

(** [j] was delivered, or is in [E]. *)
Definition delivered (E : NetInput → Prop) (ev : list NetEvent) (j : NetInput) : Prop := E j ∨ EmitInput j ∈ ev.

Definition input_present (i : NetInput) : Prop :=
  match i with
  | NLink e => le_present e = true | NAddress e => ie_present e = true
  | NFdb e => fe_present e = true | NNeighbor e => ne_present e = true
  end.

Definition input_watched (watched : gset string) (i : NetInput) : Prop :=
  match i with
  | NFdb e => is_watched watched (fe_ifname e) = true
  | NNeighbor e => is_watched watched (ne_ifname e) = true
  | _ => True
  end.

(** Every entry of the tables that suppress duplicates satisfies [E]. *)
Record covered (E : NetInput → Prop) (s : NetlinkState) : Prop := mkCovered {
  cov_link : ∀ k e, linkStates_ s !! k = Some e → E (NLink e);
  cov_address : ∀ k, k ∈ interfaceAddresses_ s →
    E (NAddress (mkInterfaceIpEvent (ak_ifname k) (ak_family k) (ak_address k) (ak_prefixLen k) true));
  cov_fdb : ∀ k e, fdbStatesByMac_ s !! k = Some e → E (NFdb e);
  cov_neighbor : ∀ k e, neighborStatesByKey_ s !! k = Some e → E (NNeighbor e)
}.

Lemma refresh_tables mac s :
  let s' := (refreshMergedDeviceLocked mac s).2 in
  linkStates_ s' = linkStates_ s ∧ interfaceAddresses_ s' = interfaceAddresses_ s ∧
  fdbStatesByMac_ s' = fdbStatesByMac_ s ∧ neighborStatesByKey_ s' = neighborStatesByKey_ s.
Proof. unfold refreshMergedDeviceLocked, forget_device. by repeat case_match. Qed.

Lemma covered_refresh E mac s : covered E s → covered E (refreshMergedDeviceLocked mac s).2.
Proof.
  destruct (refresh_tables mac s) as (H1 & H2 & H3 & H4). intros []. split; rewrite ?H1, ?H2, ?H3, ?H4; auto.
Qed.

(** The effect of a step on the covered tables: those of the state, or the
    event itself, which the step emitted unless it was an entry already. *)
Definition step_delivers (i : NetInput) (s : NetlinkState) (r : list NetEvent * NetlinkState) : Prop :=
  ∀ E, covered E s → covered (delivered E r.1) r.2 ∧ delivered E r.1 i.

Ltac covered_rest := try (intros; left; eauto; fail).

Lemma link_delivers w e s : le_present e = true → step_delivers (NLink e) s (net_step w (NLink e) s).
Proof.
  intros Hp E [Hl Ha Hf Hn]. unfold delivered, net_step, updateLink. rewrite Hp. cbn.
  case_bool_decide as Hd; cbn.
  - split; [|set_solver]. split; cbn; covered_rest.
    intros k e' [[<- <-]|[_ ?]]%lookup_insert_Some; [right; set_solver|left; eauto].
  - split; [|left; eauto]. split; cbn; covered_rest.
    intros k e' [[<- <-]|[_ ?]]%lookup_insert_Some; left; eauto.
Qed.

Lemma address_delivers w e s : ie_present e = true → step_delivers (NAddress e) s (net_step w (NAddress e) s).
Proof.
  intros Hp E [Hl Ha Hf Hn]. unfold delivered, net_step, updateAddress. rewrite Hp. cbn.
  destruct e as [n f a p pr]; cbn in *. subst pr. case_bool_decide as Hd; cbn.
  - split; [|left; by apply Ha in Hd]. split; covered_rest.
  - split; [|set_solver]. split; cbn; covered_rest.
    intros k [->%elem_of_singleton|Hk]%elem_of_union; [right; set_solver|left; eauto].
Qed.

Lemma fdb_delivers w e s :
  fe_present e = true → is_watched w (fe_ifname e) = true → step_delivers (NFdb e) s (net_step w (NFdb e) s).
Proof.
  intros Hp Hw E [Hl Ha Hf Hn]. unfold delivered, net_step, updateFdb. rewrite Hp, Hw. cbn [negb].
  match goal with |- context [refreshMergedDeviceLocked ?m ?s] =>
    destruct (refresh_tables m s) as (H1 & H2 & H3 & H4); destruct (refreshMergedDeviceLocked m s) as [d s'] end.
  cbn in *. destruct (bool_decide (fdbStatesByMac_ s !! fe_mac e ≠ Some e)) eqn:Hd; cbn.
  - split; [|right; rewrite elem_of_app; right; set_solver]. split; rewrite ?H1, ?H2, ?H3, ?H4; covered_rest.
    intros k e' [[<- <-]|[_ ?]]%lookup_insert_Some; [right; rewrite elem_of_app; set_solver|left; eauto].
  - apply bool_decide_eq_false, dec_stable in Hd. split; [|left; eauto].
    split; rewrite ?H1, ?H2, ?H3, ?H4; covered_rest.
    intros k e' [[<- <-]|[_ ?]]%lookup_insert_Some; left; eauto.
Qed.

Lemma neighbor_delivers w e s :
  ne_present e = true → is_watched w (ne_ifname e) = true →
  step_delivers (NNeighbor e) s (net_step w (NNeighbor e) s).
Proof.
  intros Hp Hw E [Hl Ha Hf Hn]. unfold delivered, net_step, updateNeighbor. rewrite Hp, Hw. cbn [negb].
  set (key := makeNeighborKey _ _ _ _).
  match goal with |- context [refreshMergedDeviceLocked ?m ?s] =>
    destruct (refresh_tables m s) as (H1 & H2 & H3 & H4); destruct (refreshMergedDeviceLocked m s) as [d s'] end.
  cbn in *. destruct (bool_decide (neighborStatesByKey_ s !! key ≠ Some e)) eqn:Hd; cbn.
  - split; [|right; rewrite elem_of_app; right; set_solver]. split; rewrite ?H1, ?H2, ?H3, ?H4; covered_rest.
    intros k e' [[<- <-]|[_ ?]]%lookup_insert_Some; [right; rewrite elem_of_app; set_solver|left; eauto].
  - apply bool_decide_eq_false, dec_stable in Hd. split; [|left; eauto].
    split; rewrite ?H1, ?H2, ?H3, ?H4; covered_rest.
    intros k e' [[<- <-]|[_ ?]]%lookup_insert_Some; left; eauto.
Qed.

Lemma net_step_delivers w i s :
  input_present i → input_watched w i → step_delivers i s (net_step w i s).
Proof.
  destruct i as [e|e|e|e]; intros Hp Hw.
  - exact (link_delivers w e s Hp).
  - exact (address_delivers w e s Hp).
  - exact (fdb_delivers w e s Hp Hw).
  - exact (neighbor_delivers w e s Hp Hw).
Qed.

Lemma net_step_unwatched w i s : ¬ input_watched w i → net_step w i s = ([], s).
Proof. destruct i as [e|e|e|e]; cbn; try tauto; by intros ->%not_true_is_false. Qed.

#[export] Instance input_watched_dec w i : Decision (input_watched w i).
Proof. destruct i; cbn; apply _. Defined.

(** Replaying present entries delivers every watched one that was not covered. *)
Lemma net_run_delivers w l s E :
  Forall input_present l → covered E s →
  ∀ i, i ∈ l → input_watched w i → delivered E (net_run w l s).1 i.
Proof.
  intros Hl. revert s E. induction Hl as [|j l Hj Hl IH]; intros s E Hc i Hi Hw; [by apply elem_of_nil in Hi|].
  cbn [net_run]. destruct (decide (input_watched w j)) as [Hwj|Hwj].
  - destruct (net_step_delivers w j s Hj Hwj E Hc) as [Hc' Hd]. destruct (net_step w j s) as [ev s']. cbn in Hc', Hd.
    destruct (net_run w l s') as [ev' s''] eqn:Hr. cbn. unfold delivered in *. rewrite elem_of_app.
    apply elem_of_cons in Hi as [->|Hi]; [tauto|].
    specialize (IH s' _ Hc' i Hi Hw). rewrite Hr in IH. cbn in IH. tauto.
  - rewrite net_step_unwatched by done. apply elem_of_cons in Hi as [->|Hi]; [done|].
    specialize (IH s E Hc i Hi Hw). destruct (net_run w l s) as [ev' s'']. exact IH.
Qed.

Lemma covered_empty : covered (λ _, False) netlink_empty.
Proof. split; cbn; intros *; rewrite ?lookup_empty; done || set_solver. Qed.

(** * Messages as events *)

(** Stopping wakes the worker however often it is interrupted, or ends the process:
    it never returns with the worker still asleep. *)
Lemma signalStop_wakes errors m :
  stopSignal_ m = true → Exists (λ e, e ≠ EINTR) errors →
  ∃ interrupted error rest, errors = interrupted ++ error :: rest ∧ Forall (eq EINTR) interrupted ∧ error ≠ EINTR ∧
    signalStop errors m = (redumpStopSignal_ m, Some (if (error =? 0)%Z then SignalSent else SignalFatal (Some error))).
Proof.
  intros Hs He. unfold signalStop. rewrite Hs. cbn [negb]. induction errors as [|error errors IH]; [by inversion He|]. cbn [signal_loop].
  destruct (Z.eqb_spec error EINTR) as [->|Hne].
  - inversion He as [|? ? He']; subst; [done|]. destruct (IH He') as (i & e & rest & -> & Hi & Hn & Hr).
    exists (EINTR :: i), e, rest. split_and!; [done|by constructor|done|exact Hr].
  - exists [], error, errors. split_and!; [done|done|done|]. by destruct (error =? 0)%Z.
Qed.

Section properties.
Context `{InetNtop, IfIndexToName}.

(** The events of the messages [msgs], in order. *)
Fixpoint parse_messages (msgs : list (list Z)) (cache : IfindexCache) : result Fault (list NetInput * IfindexCache) :=
  match msgs with
  | [] => Ok ([], cache)
  | msg :: msgs =>
      '(l, cache) ← processMessage msg cache;
      '(l', cache) ← parse_messages msgs cache;
      Ok (l ++ l', cache)
  end.

Lemma processMessages_parse w msgs s cache ev s' cache' :
  processMessages w msgs (s, cache) = Ok (ev, (s', cache')) ↔
  ∃ l, parse_messages msgs cache = Ok (l, cache') ∧ net_run w l s = (ev, s').
Proof.
  revert s cache ev. induction msgs as [|msg msgs IH]; intros s cache ev; cbn.
  - split; [intros [= <- <- <-]; by exists []|]. intros (l & [= <- <-] & [= <- <-]). done.
  - unfold processSingleMessage. cbn. destruct (processMessage msg cache) as [[l1 cache1]|]; cbn; [|naive_solver].
    destruct (net_run w l1 s) as [ev1 s1] eqn:H1. cbn. split.
    + destruct (processMessages w msgs (s1, cache1)) as [[ev2 [s2 cache2]]|] eqn:H2; cbn; [|done].
      intros [= <- <- <-]. apply IH in H2 as (l2 & -> & Hr). eexists. split; [reflexivity|]. by rewrite net_run_app, H1, Hr.
    + intros (l & Hp & Hr). destruct (parse_messages msgs cache1) as [[l2 cache2]|] eqn:H2; cbn in Hp; [|done].
      injection Hp as <- ->. rewrite net_run_app, H1 in Hr. destruct (net_run w l2 s1) as [ev2 s2] eqn:H3.
      injection Hr as <- <-. assert (processMessages w msgs (s1, cache1) = Ok (ev2, (s2, cache'))) as ->
        by (apply IH; by exists l2). done.
Qed.

(** C28: a redump repairs what a consumer missed. When it is accepted, the state
    it leaves and the events it delivers are those of the parsed messages
    replayed on an empty state, whatever the monitor held before, so that a
    consumer sees every present entry of a watched interface that the kernel
    reports, although duplicates are otherwise suppressed; and the rest of the
    monitor is as it was. When it is rejected nothing changes. *)
Theorem redump_replays watched onWorker dump m cache ok ev m' cache' :
  requestRedump watched onWorker dump m cache = Ok (ok, ev, m', cache') →
  (if negb onWorker && bool_decide (lifecycle_ m = LRunning) && negb (redumpInFlight_ m) && redumpStopSignal_ m then
     ok = run_completed dump.2 ∧ m' = m <| netlinkState_ := netlinkState_ m' |> ∧
     ∃ l, parse_messages dump.1 cache = Ok (l, cache') ∧ net_run watched l netlink_empty = (ev, netlinkState_ m') ∧
       (Forall input_present l → ∀ i, i ∈ l → input_watched watched i → EmitInput i ∈ ev)
   else ok = false ∧ ev = [] ∧ m' = m ∧ cache' = cache).
Proof.
  unfold requestRedump, redump_begin. destruct onWorker; cbn [negb andb]; [by intros [= <- <- <- <-]|].
  destruct (bool_decide (lifecycle_ m = LRunning)); cbn [negb andb]; [|by intros [= <- <- <- <-]].
  destruct (redumpInFlight_ m) eqn:Hf; cbn [negb andb]; [by intros [= <- <- <- <-]|].
  destruct (redumpStopSignal_ m); cbn [negb andb]; [|by intros [= <- <- <- <-]].
  unfold monitor_live, netlink_clear. cbn.
  destruct (processMessages watched dump.1 (netlink_empty, cache)) as [[ev1 [s1 cache1]]|] eqn:Hm; cbn; [|done].
  apply processMessages_parse in Hm as (l & Hp & Hr). intros [= <- <- <- <-]. split; [done|].
  split; [destruct m; cbn in *; by rewrite Hf|]. exists l. split_and!; [done|done|].
  intros Hl i Hi Hw. destruct (net_run_delivers watched l netlink_empty _ Hl covered_empty i Hi Hw) as [[]|Hd].
  by rewrite Hr in Hd.
Qed.

(** * Reachable monitors *)

(** The operations, interleaved. [stop] waits while a redump is in flight. *)
Inductive monitor_step (watched : gset string) : NetlinkNetworkMonitor * IfindexCache → NetlinkNetworkMonitor * IfindexCache → Prop :=
| step_start i m c ok ev m' c' : monitor_start watched i m c = Ok (ok, ev, m', c') → monitor_step watched (m, c) (m', c')
| step_stop onWorker m c : redumpInFlight_ m = false → monitor_step watched (m, c) (monitor_stop onWorker m, c)
| step_exit x m c : worker_ m = true → monitor_step watched (m, c) (monitor_onWorkerExit x m, c)
| step_live msgs m c ev m' c' :
    worker_ m = true → monitor_live watched msgs m c = Ok (ev, m', c') → monitor_step watched (m, c) (m', c')
| step_redump_begin onWorker m c m' : redump_begin onWorker m = Some m' → monitor_step watched (m, c) (m', c)
| step_redump_messages msgs m c ev m' c' :
    redumpInFlight_ m = true → monitor_live watched msgs m c = Ok (ev, m', c') → monitor_step watched (m, c) (m', c')
| step_redump_end m c : redumpInFlight_ m = true → monitor_step watched (m, c) (redump_end m, c).

(** A monitor is as new, or running with all its resources. *)
Definition monitor_ok (m : NetlinkNetworkMonitor) : Prop :=
  m = new_monitor ∨
  (lifecycle_ m = LRunning ∧ worker_ m = true ∧ liveLoop_ m = true ∧ stopSignal_ m = true ∧
   redumpStopSignal_ m = true ∧ netlink_wf (netlinkState_ m)).

Lemma processMessages_wf w msgs s cache ev s' cache' :
  netlink_wf s → processMessages w msgs (s, cache) = Ok (ev, (s', cache')) → netlink_wf s'.
Proof.
  intros Hwf (l & _ & Hr)%processMessages_parse. destruct (net_run_ok w l s Hwf) as [Hwf' _]. by rewrite Hr in Hwf'.
Qed.

Lemma start_ok w i m c ok ev m' c' :
  monitor_ok m → monitor_start w i m c = Ok (ok, ev, m', c') →
  monitor_ok m' ∧ (ok = true → monitor_isRunning m' = true) ∧
  (lifecycle_ m = LStopped → ok = false → m' = new_monitor).
Proof.
  intros Hm. unfold monitor_start. case_bool_decide as Hs; cbn [negb].
  2: { intros [= <- <- <- <-]. split_and!; [done..|naive_solver]. }
  destruct Hm as [->|[Hr _]]; [|congruence].
  destruct (si_resources i); cbn [negb]; [|by intros [= <- <- <- <-]; split_and!; [left|..]].
  destruct (si_dump i) as [msgs r].
  destruct (processMessages w msgs _) as [[ev1 [s1 c1]]|] eqn:Hp; cbn; [|done].
  apply processMessages_wf in Hp; [|apply netlink_empty_wf].
  repeat case_match; intros [= <- <- <- <-]; (split_and!; [by (left; reflexivity) || (right; cbn; tauto)|done|done]).
Qed.

Lemma monitor_live_ok w msgs m c ev m' c' :
  monitor_ok m → lifecycle_ m = LRunning → monitor_live w msgs m c = Ok (ev, m', c') → monitor_ok m'.
Proof.
  intros [->|(H1 & H2 & H3 & H4 & H5 & H6)] Hr; [done|]. unfold monitor_live.
  destruct (processMessages w msgs _) as [[ev1 [s1 c1]]|] eqn:Hp; cbn; [|done].
  apply processMessages_wf in Hp; [|done]. intros [= <- <- <-]. right. cbn. tauto.
Qed.

Lemma monitor_step_ok w x y :
  monitor_step w x y → monitor_ok x.1 → (redumpInFlight_ x.1 = true → lifecycle_ x.1 = LRunning) →
  monitor_ok y.1 ∧ (redumpInFlight_ y.1 = true → lifecycle_ y.1 = LRunning).
Proof.
  intros Hst. destruct Hst as [i m c ok ev m' c' Hs|onWorker m c Hf|x m c Hw|msgs m c ev m' c' Hw Hl
    |onWorker m c m' Hb|msgs m c ev m' c' Hf Hl|m c Hf]; cbn; intros Hm Hr.
  - destruct (start_ok _ _ _ _ _ _ _ _ Hm Hs) as (Hm' & _ & _). split; [done|]. by destruct Hm' as [->|[? _]].
  - unfold monitor_stop. destruct onWorker; [by split|]. case_bool_decide as Hrun; cbn [negb]; [|by split].
    cbn. rewrite Hf. split; [|done]. left. destruct m; cbn in *. by subst.
  - destruct Hm as [->|Hm]; [done|]. destruct x; cbn; try (split; [by right|done]).
    destruct Hm as [Hrun Hm]. rewrite Hrun. cbn. by repeat split; try right.
  - destruct Hm as [->|Hm]; [done|]. pose proof Hm as [Hrun _].
    pose proof (monitor_live_ok _ _ _ _ _ _ _ (or_intror Hm) Hrun Hl) as Hm'. split; [done|]. by destruct Hm' as [->|[? _]].
  - unfold redump_begin in Hb. destruct onWorker; [done|]. case_bool_decide as Hrun; cbn in Hb; [|done].
    destruct Hm as [->|Hm]; [done|]. repeat case_match; simplify_eq. cbn. split; [|done]. right. cbn.
    repeat split; try tauto. all: intros *; rewrite ?lookup_empty; done.
  - specialize (Hr Hf). pose proof (monitor_live_ok _ _ _ _ _ _ _ Hm Hr Hl) as Hm'. split; [done|].
    by destruct Hm' as [->|[? _]].
  - specialize (Hr Hf). destruct Hm as [->|Hm]; [done|]. split; [by right|done].
Qed.

End properties.

(** * The window between [requestRedump] and [stop]

    The two functions run on different threads. Their accesses to what they
    share, one at a time: [requestRedump] checks the life cycle, sets the flag,
    checks the signal, then polls it; [stop] claims the transition, waits for
    the flag twice, then destroys the signal. *)

Inductive RedumpPc := RdIdle | RdChecked | RdFlagged | RdPolling.
Inductive StopPc := StIdle | StClaimed | StWaited | StWaitedAgain | StDestroyed.

Record Race := mkRace { rc_redump : RedumpPc; rc_stop : StopPc; rc_running : bool; rc_flag : bool; rc_signal : bool }.

Inductive race_step : Race → Race → Prop :=
| race_check s f g : race_step (mkRace RdIdle s true f g) (mkRace RdChecked s true f g)
| race_flag s r g : race_step (mkRace RdChecked s r false g) (mkRace RdFlagged s r true g)
| race_poll s r : race_step (mkRace RdFlagged s r true true) (mkRace RdPolling s r true true)
| race_reject s r : race_step (mkRace RdFlagged s r true false) (mkRace RdIdle s r false false)
| race_done s r g : race_step (mkRace RdPolling s r true g) (mkRace RdIdle s r false g)
| race_claim d f g : race_step (mkRace d StIdle true f g) (mkRace d StClaimed false f g)
| race_wait d r g : race_step (mkRace d StClaimed r false g) (mkRace d StWaited r false g)
| race_wait_again d r g : race_step (mkRace d StWaited r false g) (mkRace d StWaitedAgain r false g)
| race_destroy d r f g : race_step (mkRace d StWaitedAgain r f g) (mkRace d StDestroyed r f false).

(** The flag does not exclude the two: a redump that passed the life cycle check
    before [stop] claimed the transition can set the flag after [stop] last
    read it and still find the signal, which is then destroyed under its poll. *)
Lemma redump_polls_destroyed_signal :
  rtc race_step (mkRace RdIdle StIdle true false true) (mkRace RdPolling StDestroyed false true false).
Proof.
  eapply rtc_l; [apply race_check|]. eapply rtc_l; [apply race_claim|]. eapply rtc_l; [apply race_wait|].
  eapply rtc_l; [apply race_wait_again|]. eapply rtc_l; [apply race_flag|]. eapply rtc_l; [apply race_poll|].
  eapply rtc_l; [apply race_destroy|]. reflexivity.
Qed.

(** * Witnesses *)

Section demo.
#[local] Instance demo_ntop : InetNtop := λ f d, Some "10.0.0.7".
#[local] Instance demo_names : IfIndexToName := λ i, None.

Definition demo_link : list Z :=
  encode_message RTM_NEWLINK 2 1 (encode_ifinfomsg 5 65) [mkAttr IFLA_IFNAME [101; 48; 0]%Z].
Definition demo_start : StartInputs :=
  mkStartInputs true ([demo_link], Some (mkDumpResult completed 0)) false WsStarted false true.
Definition demo_running : NetlinkNetworkMonitor :=
  match monitor_start ∅ demo_start new_monitor ∅ with Ok (_, _, m, _) => m | Err _ => new_monitor end.

Lemma demo_start_eq :
  monitor_start ∅ demo_start new_monitor ∅ =
    Ok (true, [EmitInput (NLink (mkLinkEvent 5 "e0" "" true true 0 None None true))], demo_running, {[5%Z := "e0"]}).
Proof. vm_compute. reflexivity. Qed.

(** A redump announces no removal: a consumer that missed the removal of a link
    keeps it, although the redump finds the kernel without it and succeeds. *)
Lemma redump_announces_no_removal :
  requestRedump ∅ false ([], Some (mkDumpResult completed 0)) demo_running ∅
    = Ok (true, [], demo_running <| netlinkState_ := netlink_empty |>, ∅) ∧
  linkStates_ (netlinkState_ demo_running) ≠ ∅.
Proof. split; [vm_compute; reflexivity|vm_compute; discriminate]. Qed.

Lemma redump_replays_witness :
  ∃ ok ev m' cache', requestRedump ∅ false ([demo_link], Some (mkDumpResult completed 0)) demo_running ∅
      = Ok (ok, ev, m', cache') ∧ ok = true ∧
    EmitInput (NLink (mkLinkEvent 5 "e0" "" true true 0 None None true)) ∈ ev.
Proof.
  destruct (requestRedump ∅ false ([demo_link], Some (mkDumpResult completed 0)) demo_running ∅)
    as [[[[ok ev] m'] cache']|f] eqn:Hr; [|exfalso; vm_compute in Hr; discriminate Hr].
  exists ok, ev, m', cache'. split; [reflexivity|].
  pose proof (redump_replays ∅ false _ demo_running ∅ ok ev m' cache' Hr) as H.
  assert (Hc : negb false && bool_decide (lifecycle_ demo_running = LRunning) &&
    negb (redumpInFlight_ demo_running) && redumpStopSignal_ demo_running = true) by (vm_compute; reflexivity).
  rewrite Hc in H. destruct H as (-> & _ & l & Hp & _ & Hd). split; [reflexivity|].
  assert (parse_messages [demo_link] ∅ =
    Ok ([NLink (mkLinkEvent 5 "e0" "" true true 0 None None true)], {[5%Z := "e0"]})) as He by (vm_compute; reflexivity).
  cbn [fst] in Hp. rewrite He in Hp. injection Hp as <- _. apply Hd.
  - constructor; [reflexivity|constructor].
  - apply list_elem_of_here.
  - exact I.
Defined.

End demo.
