(* ===== verification/LldpIo.v ===== *)
(** [inputs/lldp/lldpd/BoundedLldpConnection.cpp] and [BoundedLldpWatch.cpp]: the
    connection to lldpd with its own socket, bounded or interruptible, and the
    thread that watches for changes. The system calls and the calls of liblldpctl
    are inputs. *)

From S2P Require Import Prelude.

(** * Error numbers and results *)

Definition EAGAIN : Z := 11.
Definition EPIPE : Z := 32.
Definition ENAMETOOLONG : Z := 36.
Definition ENOMEM : Z := 12.
Definition ECONNRESET : Z := 104.
Definition ETIMEDOUT : Z := 110.
Definition EINPROGRESS : Z := 115.
Definition INT_MAX : Z := 2 ^ 31 - 1.

(** What the send and receive callbacks give the library: octets, or one of its
    error codes. *)
Inductive IoResult := IoBytes (n : Z) | IoEof | IoWouldBlock | IoCallbackFailure.

(** [send] or [recv]: the octets, at least 0, or the error. *)
Inductive SysIo := SysBytes (n : Z) | SysError (errno : Z).

(** * [BoundedLldpConnection] *)

Inductive Mode := Bounded | Interruptible.

#[export] Instance Mode_eq_dec : EqDecision Mode.
Proof. solve_decision. Defined.

(** [bc_wakeup]: there is a wakeup eventfd, and whether it was signalled.
    [bc_timeout]: the socket's receive and send timeouts, seconds and
    microseconds, where both 0 is none. *)
Record BoundedLldpConnection := mkConnection {
  bc_mode : Mode; bc_wakeup : option bool; bc_unblocked : bool; bc_timeout : Z * Z
}.

Definition sun_path_size : nat := 108.

(** [setIoTimeouts]: the [timeval] of a number of milliseconds. *)
Definition io_timeval (timeout : Z) : Z * Z :=
  let secs := Z.quot timeout 1000 in
  let usecs := ((timeout - secs * 1000) * 1000)%Z in (secs, usecs).

(** The timeout of the [poll] in [connectBounded]. *)
Definition connect_poll_ms (timeout : Z) : Z := Z.min (Z.max timeout 0) INT_MAX.

(** What the calls of [connectBounded] give: the errors of the two [fcntl]s before
    and the one after, [connect]'s, [poll]'s ready descriptors or error,
    [getsockopt]'s error and the socket's. *)
Record ConnectInput := mkConnectInput {
  cn_nonblock : option Z; cn_connect : option Z; cn_poll : result Z Z; cn_getsockopt : option Z; cn_so_error : Z;
  cn_restore : option Z
}.

Definition connectBounded (i : ConnectInput) : result Z unit :=
  match cn_nonblock i with
  | Some errno => Err errno
  | None =>
      _ ← (match cn_connect i with
           | None => Ok tt
           | Some errno =>
               if bool_decide (errno = EINPROGRESS) then
                 match cn_poll i with
                 | Err errno => Err errno
                 | Ok rc =>
                     if bool_decide (rc = 0%Z) then Err ETIMEDOUT
                     else match cn_getsockopt i with
                          | Some errno => Err errno
                          | None => throw_if (bool_decide (cn_so_error i ≠ 0%Z)) (cn_so_error i)
                          end
                 end
               else Err errno
           end);
      match cn_restore i with Some errno => Err errno | None => Ok tt end
  end.

(** What the constructor's calls give; the eventfd's class throws a text of its
    own, for which its error number stands. *)
Record SetupInput := mkSetupInput {
  su_socket : option Z; su_eventfd : option Z; su_connect : ConnectInput; su_setsockopt : option Z; su_lldpctl : bool
}.

Definition new_connection (ctlname : string) (ioTimeout : Z) (mode : Mode) (i : SetupInput)
    : result Z BoundedLldpConnection :=
  match su_socket i with
  | Some errno => Err errno
  | None =>
      wakeup ← (match mode with
                | Bounded => Ok None
                | Interruptible => match su_eventfd i with Some errno => Err errno | None => Ok (Some false) end
                end);
      _ ← throw_if (bool_decide (sun_path_size ≤ String.length ctlname)) ENAMETOOLONG;
      _ ← connectBounded (su_connect i);
      _ ← (match su_setsockopt i with Some errno => Err errno | None => Ok tt end);
      _ ← throw_if (negb (su_lldpctl i)) ENOMEM;
      Ok (mkConnection mode wakeup false (io_timeval ioTimeout))
  end.

Definition enterInterruptibleMode (setsockopt : option Z) (c : BoundedLldpConnection) : result Z BoundedLldpConnection :=
  if negb (bool_decide (bc_mode c = Interruptible)) then Ok c
  else match setsockopt with
       | Some errno => Err errno
       | None => Ok (mkConnection (bc_mode c) (bc_wakeup c) (bc_unblocked c) (io_timeval 0))
       end.

Definition unblock (c : BoundedLldpConnection) : BoundedLldpConnection :=
  match bc_wakeup c with
  | None => c
  | Some _ => mkConnection (bc_mode c) (Some true) true (bc_timeout c)
  end.

(** One [poll] of [waitReadable] without a timeout: it fails, or reports the
    socket (readable, hung up or in error) and the eventfd; [wr_unblock]: another
    thread called [unblock] meanwhile. *)
Record WaitRound := mkRound { wr_unblock : bool; wr_error : option Z; wr_wakeup : bool; wr_socket : bool }.

(** [None]: the rounds are used up while the poll still waits. *)
Fixpoint waitReadable (c : BoundedLldpConnection) (rounds : list WaitRound) : option (bool * BoundedLldpConnection) :=
  if bc_unblocked c then Some (false, c)
  else
    match rounds with
    | [] => None
    | r :: rounds =>
        let c := if wr_unblock r then unblock c else c in
        match wr_error r with
        | Some _ => Some (false, c)
        | None =>
            if wr_wakeup r then Some (false, c)
            else if wr_socket r then Some (true, c)
            else waitReadable c rounds
        end
    end.

Fixpoint recv_loop (recvs : list SysIo) : option IoResult :=
  match recvs with
  | [] => None
  | SysBytes n :: _ => Some (if bool_decide (0 < n)%Z then IoBytes n else IoEof)
  | SysError errno :: recvs =>
      if bool_decide (errno = EINTR) then recv_loop recvs
      else if bool_decide (errno = EAGAIN) then Some IoWouldBlock
      else if bool_decide (errno = ECONNRESET) then Some IoEof
      else Some IoCallbackFailure
  end.

(** [buffer]: the library gave a buffer of at least one octet. *)
Definition recvCb (buffer : bool) (rounds : list WaitRound) (recvs : list SysIo) (c : BoundedLldpConnection)
    : option (IoResult * BoundedLldpConnection) :=
  if negb buffer then Some (IoCallbackFailure, c)
  else
    match (if bool_decide (bc_mode c = Interruptible) && bool_decide (bc_wakeup c ≠ None)
           then waitReadable c rounds else Some (true, c)) with
    | None => None
    | Some (false, c) => Some (IoEof, c)
    | Some (true, c) => (λ r, (r, c)) <$> recv_loop recvs
    end.

Fixpoint sendCb (sends : list SysIo) : option IoResult :=
  match sends with
  | [] => None
  | SysBytes n :: _ => Some (IoBytes n)
  | SysError errno :: sends =>
      if bool_decide (errno = EINTR) then sendCb sends
      else if bool_decide (errno = EAGAIN) then Some IoWouldBlock
      else if bool_decide (errno = EPIPE) || bool_decide (errno = ECONNRESET) then Some IoEof
      else Some IoCallbackFailure
  end.

(** [interfaces]: [lldpctl_get_interfaces] gave a list. *)
Definition QueryInterfacesOk (interfaces : bool) : bool := interfaces.

Definition kProbeIoTimeout : Z := 2000.

(** [LldpdSource::Impl::isBackendAlive]: a connection of its own and one query. *)
Definition isBackendAlive (ctlname : string) (probe : SetupInput) (interfaces : bool) : bool :=
  match new_connection ctlname kProbeIoTimeout Bounded probe with Ok _ => QueryInterfacesOk interfaces | Err _ => false end.

(** * [BoundedLldpWatch] *)

(** [bw_callback]: the change handler, by what identifies it; [bw_exitHandler]
    likewise. [bw_leaving]: the thread's loop is over and found no stop requested,
    so that the thread goes on to call the exit handler. *)
Record BoundedLldpWatch := mkWatch {
  bw_conn : BoundedLldpConnection; bw_callback : option nat; bw_exitHandler : option nat; bw_exited : bool; bw_stop : bool;
  bw_leaving : bool
}.

(** [subscribe]: what [lldpctl_watch_callback2] gives, an error or success;
    [setsockopt]: the error of taking the timeouts back. *)
Definition new_watch (ctlname : string) (ioTimeout : Z) (callback : option nat) (i : SetupInput) (subscribe : result Z unit)
    (setsockopt : option Z) : result Z BoundedLldpWatch :=
  conn ← new_connection ctlname ioTimeout Interruptible i;
  _ ← subscribe;
  conn ← enterInterruptibleMode setsockopt conn;
  Ok (mkWatch conn callback None false false false).

Definition setCallback (callback : option nat) (w : BoundedLldpWatch) : BoundedLldpWatch :=
  mkWatch (bw_conn w) callback (bw_exitHandler w) (bw_exited w) (bw_stop w) (bw_leaving w).

Definition setExitHandler (onExit : option nat) (w : BoundedLldpWatch) : BoundedLldpWatch :=
  mkWatch (bw_conn w) (bw_callback w) onExit (bw_exited w) (bw_stop w) (bw_leaving w).

(** The handler called, which may throw: nothing comes of it. *)
Definition notifyExit (w : BoundedLldpWatch) : list nat * BoundedLldpWatch :=
  (option_list (bw_exitHandler w), mkWatch (bw_conn w) (bw_callback w) None (bw_exited w) (bw_stop w) (bw_leaving w)).

(** The end of the thread's loop, up to the test for a stop. *)
Definition watch_exit (w : BoundedLldpWatch) : BoundedLldpWatch :=
  mkWatch (bw_conn w) (bw_callback w) (bw_exitHandler w) true (bw_stop w) (negb (bw_stop w)).

(** One turn of the thread: [lldpctl_watch] with what it finds, below 0 or not;
    after the loop, the call of the handler. The stop may be requested between
    any two turns. *)
Definition watch_turn (failed : bool) (w : BoundedLldpWatch) : list nat * BoundedLldpWatch :=
  if bw_exited w then
    if bw_leaving w
    then notifyExit (mkWatch (bw_conn w) (bw_callback w) (bw_exitHandler w) true (bw_stop w) false)
    else ([], w)
  else if bw_stop w then ([], watch_exit w)
  else if failed then ([], watch_exit w)
  else ([], w).

(** The callback the library calls for a change: the handler it is given to. *)
Definition trampoline (w : BoundedLldpWatch) : list nat := option_list (bw_callback w).

(** The destructor up to joining the thread. *)
Definition destroy_begin (w : BoundedLldpWatch) : BoundedLldpWatch :=
  mkWatch (unblock (bw_conn w)) (bw_callback w) (bw_exitHandler w) (bw_exited w) true (bw_leaving w).

(** What happens to a watch: its thread, its owner. *)
Inductive WatchOp := WTurn (failed : bool) | WSetCallback (cb : option nat) | WSetExitHandler (h : option nat) | WDestroy.

Definition watch_op (o : WatchOp) (w : BoundedLldpWatch) : list nat * BoundedLldpWatch :=
  match o with
  | WTurn failed => watch_turn failed w
  | WSetCallback cb => ([], setCallback cb w)
  | WSetExitHandler h => ([], setExitHandler h w)
  | WDestroy => ([], destroy_begin w)
  end.

(** The exit handlers called, and the watch after. *)
Fixpoint watch_run (l : list WatchOp) (w : BoundedLldpWatch) : list nat * BoundedLldpWatch :=
  match l with
  | [] => ([], w)
  | o :: l => let '(out, w) := watch_op o w in let '(out', w) := watch_run l w in (out ++ out', w)
  end.

(** * Lemmas *)

Lemma io_timeval_exact t :
  (0 ≤ t)%Z → let '(s, u) := io_timeval t in
  (s * 1000000 + u = t * 1000)%Z ∧ (0 ≤ s)%Z ∧ (0 ≤ u < 1000000)%Z ∧ ((s, u) = (0, 0)%Z ↔ t = 0%Z).
Proof.
  intros Ht. unfold io_timeval. pose proof (Z.quot_rem t 1000 ltac:(lia)) as Hq.
  pose proof (Z.rem_bound_pos t 1000 ltac:(lia) ltac:(lia)) as Hr.
  assert (0 ≤ Z.quot t 1000)%Z by (apply Z.quot_pos; lia). split_and!; try lia. split; [intros [=]; lia|].
  intros ->. reflexivity.
Qed.

(** The outcomes that do not end a loop. *)
Definition interrupted (o : SysIo) : Prop := o = SysError EINTR.

Lemma recv_loop_waits recvs : recv_loop recvs = None ↔ Forall interrupted recvs.
Proof.
  induction recvs as [|[n|e] recvs IH]; cbn; [by split; [constructor|]| |].
  - split; [by intros [=]|]. by intros [[=] _]%Forall_cons.
  - case_bool_decide as He; [subst e|].
    + rewrite IH, Forall_cons. unfold interrupted. naive_solver.
    + split; [by repeat case_bool_decide|]. by intros [[=] _]%Forall_cons.
Qed.

Lemma sendCb_waits sends : sendCb sends = None ↔ Forall interrupted sends.
Proof.
  induction sends as [|[n|e] sends IH]; cbn; [by split; [constructor|]| |].
  - split; [by intros [=]|]. by intros [[=] _]%Forall_cons.
  - case_bool_decide as He; [subst e|].
    + rewrite IH, Forall_cons. unfold interrupted. naive_solver.
    + split; [by repeat case_bool_decide|]. by intros [[=] _]%Forall_cons.
Qed.

Lemma recv_loop_bytes recvs n : recv_loop recvs = Some (IoBytes n) → (0 < n)%Z ∧ SysBytes n ∈ recvs.
Proof.
  induction recvs as [|[m|e] recvs IH]; cbn; [done| |].
  - case_bool_decide; intros [= <-]. split; [done|]. by left.
  - case_bool_decide; [intros Hr; destruct (IH Hr); split; [done|by right]|]. by repeat case_bool_decide.
Qed.

(** Connections as they are set up. *)
Lemma new_connection_ok ctlname t mode i c :
  new_connection ctlname t mode i = Ok c →
  c = mkConnection mode (match mode with Bounded => None | Interruptible => Some false end) false (io_timeval t) ∧
  connectBounded (su_connect i) = Ok tt ∧ String.length ctlname < sun_path_size.
Proof.
  unfold new_connection. destruct (su_socket i); [done|]. intros (wk & Hwk & ([] & Hl & ([] & Hc & Hrest)%bind_ok)%bind_ok)%bind_ok.
  apply throw_if_ok, bool_decide_eq_false in Hl. destruct (su_setsockopt i); [done|]. cbn in Hrest.
  destruct (su_lldpctl i); [|done]. injection Hrest as <-. split; [|split; [done|lia]].
  destruct mode; [by injection Hwk as <-|]. destruct (su_eventfd i); [done|]. by injection Hwk as <-.
Qed.

Lemma connectBounded_ok i :
  connectBounded i = Ok tt →
  (cn_connect i = None ∨ cn_connect i = Some EINPROGRESS ∧ (∃ rc, cn_poll i = Ok rc ∧ rc ≠ 0%Z) ∧ cn_so_error i = 0%Z) ∧
  cn_nonblock i = None ∧ cn_restore i = None.
Proof.
  unfold connectBounded. destruct (cn_nonblock i); [done|]. intros ([] & Hc & Hr)%bind_ok. destruct (cn_restore i); [done|].
  split; [|done]. destruct (cn_connect i) as [e|]; [|by left]. right. case_bool_decide as He; [subst e|done].
  destruct (cn_poll i) as [rc|]; [|done]. case_bool_decide; [done|]. destruct (cn_getsockopt i); [done|].
  apply throw_if_ok, bool_decide_eq_false in Hc. split_and!; [done|by exists rc|]. by destruct (decide (cn_so_error i = 0%Z)).
Qed.

(** How many more times a watch may call an exit handler. *)
Definition exit_credit (w : BoundedLldpWatch) : nat :=
  if bw_exited w then (if bw_leaving w then 1 else 0) else if bw_stop w then 0 else 1.

Lemma watch_op_credit o w :
  let r := watch_op o w in
  length r.1 + exit_credit r.2 ≤ exit_credit w ∧ (r.1 ≠ [] → bw_exited r.2 = true) ∧
  (bw_exited w = true → bw_exited r.2 = true).
Proof.
  destruct w as [c cb h [] [] []], o as [[]|cb'|h'|]; unfold watch_op, watch_turn, notifyExit, exit_credit; cbn;
    try destruct h; cbn; (split; [lia|done]).
Qed.

Lemma watch_run_credit l w :
  let r := watch_run l w in
  length r.1 + exit_credit r.2 ≤ exit_credit w ∧ (r.1 ≠ [] → bw_exited r.2 = true) ∧
  (bw_exited w = true → bw_exited r.2 = true).
Proof.
  revert w. induction l as [|o l IH]; intros w; [cbn; split; [lia|done]|]. cbn [watch_run].
  destruct (watch_op_credit o w) as (Hc & Ho & Hx). destruct (watch_op o w) as [out w1]. cbn [fst snd] in *.
  destruct (IH w1) as (Hc' & Ho' & Hx'). destruct (watch_run l w1) as [out' w2]. cbn [fst snd] in *.
  rewrite length_app. split_and!; [lia| |auto]. destruct out; [done|]. intros _. by apply Hx', Ho.
Qed.


(** * What modelling showed *)

(** While it is set up a watch connection already waits in [waitReadable], which
    has no timeout: when lldpd accepts and then does not answer the subscription,
    the receive never ends, whatever [ioTimeout] is; a bounded one ends with what
    the socket's timeout gives. *)
Lemma watch_setup_unbounded ctlname t i c :
  new_connection ctlname t Interruptible i = Ok c →
  recvCb true [] [SysError EAGAIN] c = None ∧
  ∀ c', new_connection ctlname t Bounded i = Ok c' → recvCb true [] [SysError EAGAIN] c' = Some (IoWouldBlock, c').
Proof.
  intros Hc. destruct (new_connection_ok _ _ _ _ _ Hc) as (-> & _). split; [done|].
  intros c' Hc'. by destruct (new_connection_ok _ _ _ _ _ Hc') as (-> & _).
Qed.

(** A watch whose loop ends by itself calls the handler even when its destruction
    begins in between. *)
Lemma exit_handler_during_destruction c h :
  let w := mkWatch c None (Some h) false false false in
  (watch_run [WTurn true; WDestroy; WTurn true] w).1 = [h].
Proof. done. Qed.

(** [connect] on a UNIX socket reports a full backlog as [EAGAIN], which is thrown
    at once; the connect timeout does not matter. *)
Lemma full_backlog_not_awaited i :
  cn_nonblock i = None → cn_connect i = Some EAGAIN → connectBounded i = Err EAGAIN.
Proof. intros H1 H2. unfold connectBounded. by rewrite H1, H2. Qed.

(** * Witness *)

Definition demo_setup : SetupInput :=
  mkSetupInput None None (mkConnectInput None (Some EINPROGRESS) (Ok 1%Z) None 0 None) None true.

