(* ===== verification/LldpSource.v ===== *)
(** [inputs/lldp/lldpd]: the LLDP source: its neighbour cache
    ([LldpNeighborCache]), the observations it builds ([LldpObservationFactory]),
    the supervisor of the watch ([LldpWatchSupervisor]) and the source itself
    ([LldpdSource]).

    The lldpd library is an input: whether a watch can be built, the changes it
    reports and what an enumeration walks over. The admission gate and the
    life-cycle coordinator are libraries; the gate is an open flag and the number
    of leases held by callbacks that have not returned. Unordered maps are
    iterated in the order of stdpp's [map_to_list], which no theorem depends on. *)

From S2P Require Import Prelude Contract Observation.

(** * [LldpNeighborCache] *)

Record CachedLldpNeighbor := mkCached {
  rawChassisId : option string; rawPortId : option string; rawSystemName : option string
}.

Abbreviation NeighborCacheMap := (gmap string (gmap string CachedLldpNeighbor)).

Record LldpNeighborCache := mkLldpCache { byInterface_ : NeighborCacheMap; generation_ : Z }.

Definition lldp_cache_empty : LldpNeighborCache := mkLldpCache ∅ 0.

(** [generation_.fetch_add(1)] on a [std::uint64_t]. *)
Definition bump (g : Z) : Z := ((g + 1) mod 2 ^ 64)%Z.

Definition cache_apply (obs : LldpObservation) (c : LldpNeighborCache) : bool * LldpNeighborCache :=
  let key := resolveLldpIdentity (ll_remoteChassisId obs) (ll_remotePortId obs) in
  if str_empty key then (false, c)
  else
    let ifaceCache := default ∅ (byInterface_ c !! ll_localIfname obs) in
    let ifaceCache :=
      match ll_event obs with
      | EvRemoved => delete key ifaceCache
      | EvPresent =>
          <[key := mkCached (ll_remoteChassisId obs) (ll_remotePortId obs) (ll_remoteSystemName obs)]> ifaceCache
      end in
    (true, mkLldpCache (<[ll_localIfname obs := ifaceCache]> (byInterface_ c)) (bump (generation_ c))).

Definition flushInterface (ifname : string) (c : LldpNeighborCache) : list CachedLldpNeighbor * LldpNeighborCache :=
  match byInterface_ c !! ifname with
  | None => ([], c)
  | Some entries =>
      ((map_to_list entries).*2, mkLldpCache (delete ifname (byInterface_ c)) (bump (generation_ c)))
  end.

Definition cache_exchange (replacement : NeighborCacheMap) (c : LldpNeighborCache)
    : NeighborCacheMap * LldpNeighborCache :=
  (byInterface_ c, mkLldpCache replacement (bump (generation_ c))).

Definition cache_clear (c : LldpNeighborCache) : LldpNeighborCache :=
  if bool_decide (byInterface_ c = ∅) then c else mkLldpCache ∅ (bump (generation_ c)).

Definition cache_snapshot (c : LldpNeighborCache) : NeighborCacheMap * Z := (byInterface_ c, generation_ c).

Definition diffRemovedNeighbors (oldCache fresh : NeighborCacheMap) : list (string * CachedLldpNeighbor) :=
  map_to_list oldCache ≫= λ '(ifname, neighbors),
    map_to_list neighbors ≫= λ '(key, entry),
      if bool_decide (is_Some (fresh !! ifname ≫= λ m, m !! key)) then [] else [(ifname, entry)].

(** * [LldpObservationFactory] *)

Definition makeLldpObservation (now : time_point) (ifname : string) (event : ObservationEvent)
    (entry : CachedLldpNeighbor) (keepalive : bool) : LldpObservation :=
  mkLldpObservation (mkBase KLldp now) ifname event (rawChassisId entry) (rawPortId entry) (rawSystemName entry)
    keepalive.

(** * [LldpWatchSupervisor] *)

Record LldpWatchSupervisor := mkSupervisor { sv_watch : bool; sv_stopped : bool; sv_watchDied : bool }.

Definition new_supervisor : LldpWatchSupervisor := mkSupervisor false true false.

(** [built]: [buildSilent] returned a watch. *)
Definition supervisor_start (built : bool) (s : LldpWatchSupervisor) : bool * LldpWatchSupervisor :=
  if negb built then (false, s)
  else if sv_watch s && negb (sv_watchDied s) then (false, s)
  else (true, mkSupervisor true false false).

Definition supervisor_refresh (built : bool) (s : LldpWatchSupervisor) : bool * LldpWatchSupervisor :=
  if negb built then (false, s)
  else if sv_stopped s then (false, s)
  else (true, mkSupervisor true false false).

(** [locked]: the lock was obtained within the timeout. *)
Definition supervisor_stop (locked : bool) (s : LldpWatchSupervisor) : bool * LldpWatchSupervisor :=
  if negb locked then (false, s) else (true, mkSupervisor false true (sv_watchDied s)).

(** The exit handler. *)
Definition supervisor_died (s : LldpWatchSupervisor) : LldpWatchSupervisor :=
  mkSupervisor (sv_watch s) (sv_stopped s) true.

Definition supervisor_isWatchAlive (s : LldpWatchSupervisor) : bool :=
  if sv_watchDied s then false else sv_watch s && negb (sv_stopped s).

(** * [LldpdSource] *)

Record LldpSourceConfig := mkLldpConfig { lc_watchedInterfaces : list string; lc_emitRemovals : bool; lc_ctlSocketPath : string }.

(** [default_transport]: [lldpctl_get_default_transport()]. *)
Definition resolvedCtlPath (default_transport : string) (config : LldpSourceConfig) : string :=
  if str_empty (lc_ctlSocketPath config) then default_transport else lc_ctlSocketPath config.

(** [steady_clock::time_point::min()] *)
Definition time_min : time_point := (- 2 ^ 63)%Z.

Record LldpdSource := mkSource {
  ls_lifecycle : LifecycleState; ls_gate : bool; ls_active : nat; ls_supervisor : LldpWatchSupervisor;
  ls_teardownIncomplete : bool; ls_cache : LldpNeighborCache; ls_lastWatchEventAt : time_point
}.

Definition eta_source (s : LldpdSource) : LldpdSource :=
  mkSource (ls_lifecycle s) (ls_gate s) (ls_active s) (ls_supervisor s) (ls_teardownIncomplete s) (ls_cache s)
    (ls_lastWatchEventAt s).

#[export] Instance set_ls_lifecycle : Setter ls_lifecycle := ltac:(mk_setter eta_source ls_lifecycle).
#[export] Instance set_ls_gate : Setter ls_gate := ltac:(mk_setter eta_source ls_gate).
#[export] Instance set_ls_active : Setter ls_active := ltac:(mk_setter eta_source ls_active).
#[export] Instance set_ls_supervisor : Setter ls_supervisor := ltac:(mk_setter eta_source ls_supervisor).
#[export] Instance set_ls_teardown : Setter ls_teardownIncomplete := ltac:(mk_setter eta_source ls_teardownIncomplete).
#[export] Instance set_ls_cache : Setter ls_cache := ltac:(mk_setter eta_source ls_cache).
#[export] Instance set_ls_last : Setter ls_lastWatchEventAt := ltac:(mk_setter eta_source ls_lastWatchEventAt).

Definition new_source : LldpdSource :=
  mkSource LStopped false 0 new_supervisor false lldp_cache_empty time_min.

(** What the library knows of a neighbour. *)
Record Neighbor := mkNeighbor { nb_chassisId : option string; nb_portId : option string; nb_systemName : option string }.

Inductive LldpChange := lldpctl_c_added | lldpctl_c_updated | lldpctl_c_deleted.

#[export] Instance LldpChange_eq_dec : EqDecision LldpChange.
Proof. solve_decision. Defined.

Section source.
Variable config : LldpSourceConfig.

(** The observations handed to [downstream], and the new source. *)
Definition cacheAndForward (obs : LldpObservation) (s : LldpdSource) : list LldpObservation * LldpdSource :=
  ([obs], s <| ls_cache := (cache_apply obs (ls_cache s)).2 |>).

Definition lldp_watched (ifname : string) : bool :=
  match lc_watchedInterfaces config with [] => true | l => bool_decide (ifname ∈ l) end.

Definition dispatchChange (now : time_point) (ifname : string) (change : LldpChange) (nb : Neighbor)
    (s : LldpdSource) : list LldpObservation * LldpdSource :=
  let s := s <| ls_lastWatchEventAt := now |> in
  if negb (lldp_watched ifname) then ([], s)
  else if bool_decide (change = lldpctl_c_deleted) && negb (lc_emitRemovals config) then ([], s)
  else
    let obs := makeLldpObservation now ifname
                 (if bool_decide (change = lldpctl_c_deleted) then EvRemoved else EvPresent)
                 (mkCached (nb_chassisId nb) (nb_portId nb) (nb_systemName nb)) false in
    cacheAndForward obs s.

(** The watch callback: the lease, then the change. *)
Definition onWatchChange (now : time_point) (ifname : string) (change : LldpChange) (nb : Neighbor)
    (s : LldpdSource) : list LldpObservation * LldpdSource :=
  if negb (ls_gate s) then ([], s) else dispatchChange now ifname change nb s.

(** Not stamped as contact with lldpd. *)
Definition submitNeighborChangeForTest (now : time_point) (ifname : string) (event : ObservationEvent) (nb : Neighbor)
    (s : LldpdSource) : list LldpObservation * LldpdSource :=
  if negb (ls_gate s) then ([], s)
  else cacheAndForward (makeLldpObservation now ifname event (mkCached (nb_chassisId nb) (nb_portId nb) (nb_systemName nb)) false) s.

(** One interface of an enumeration: [stop_requested()] when it is visited, its
    name if it has one, its neighbours with whether a lease is granted for each;
    or an exception. *)
Inductive WalkStep := WalkInterface (cancelled : bool) (ifname : option string) (neighbors : list (bool * Neighbor)) | WalkThrows.

(** The neighbours of an interface; [true]: the walk was aborted. *)
Fixpoint walk_neighbors (now : time_point) (ifname : string) (l : list (bool * Neighbor)) (s : LldpdSource)
    : list LldpObservation * bool * LldpdSource :=
  match l with
  | [] => ([], false, s)
  | (lease, nb) :: l =>
      if negb (lease && ls_gate s) then ([], true, s)
      else
        let '(out, s) := dispatchChange now ifname lldpctl_c_added nb s in
        let '(out', aborted, s) := walk_neighbors now ifname l s in (out ++ out', aborted, s)
  end.

Fixpoint walk_interfaces (now : time_point) (l : list WalkStep) (s : LldpdSource)
    : list LldpObservation * bool * LldpdSource :=
  match l with
  | [] => ([], false, s)
  | WalkThrows :: _ => ([], true, s)
  | WalkInterface cancelled ifname neighbors :: l =>
      if cancelled then ([], true, s)
      else
        match ifname with
        | Some ifname =>
            if negb (lldp_watched ifname) then walk_interfaces now l s
            else
              let '(out, aborted, s) := walk_neighbors now ifname neighbors s in
              if aborted : bool then (out, true, s)
              else let '(out', aborted, s) := walk_interfaces now l s in (out ++ out', aborted, s)
        | None => walk_interfaces now l s
        end
  end.

(** [connected]: the bounded connection and the list of interfaces were obtained. *)
Definition enumerateInitialNeighbors (now : time_point) (connected : bool) (walk : list WalkStep) (s : LldpdSource)
    : list LldpObservation * LldpdSource :=
  if negb connected then ([], s)
  else
    let '(out, aborted, s) := walk_interfaces now walk s in
    (out, if aborted : bool then s else s <| ls_lastWatchEventAt := now |>).

Definition removeInterface (now : time_point) (ifname : string) (s : LldpdSource)
    : list LldpObservation * LldpdSource :=
  if negb (ls_gate s) then ([], s)
  else
    let '(removed, c) := flushInterface ifname (ls_cache s) in
    ((λ entry, makeLldpObservation now ifname EvRemoved entry false) <$> removed, s <| ls_cache := c |>).

Definition reconcileAfterRefresh (now : time_point) (oldCache : NeighborCacheMap) (s : LldpdSource)
    : list LldpObservation :=
  if negb (ls_gate s) then []
  else (λ '(ifname, entry), makeLldpObservation now ifname EvRemoved entry false) <$>
         diffRemovedNeighbors oldCache (byInterface_ (ls_cache s)).

Definition refreshAll (now : time_point) (built connected : bool) (walk : list WalkStep) (s : LldpdSource)
    : bool * list LldpObservation * LldpdSource :=
  if negb (bool_decide (ls_lifecycle s = LRunning)) then (false, [], s)
  else
    let '(ok, sv) := supervisor_refresh built (ls_supervisor s) in
    if negb ok then (false, [], s)
    else
      let '(oldCache, c) := cache_exchange ∅ (ls_cache s) in
      let s := s <| ls_supervisor := sv |> <| ls_cache := c |> <| ls_lastWatchEventAt := now |> in
      let '(out, s) := enumerateInitialNeighbors now connected walk s in
      (true, out ++ reconcileAfterRefresh now oldCache s, s).

(** The batch of [reassertAll]. *)
Definition keepalive_batch (now : time_point) (cache : NeighborCacheMap) : list LldpObservation :=
  map_to_list cache ≫= λ '(ifname, neighbors),
    (λ '(_, entry), makeLldpObservation now ifname EvPresent entry true) <$> map_to_list neighbors.

(** [emitBatch] up to its loop: the batch and the generation of the snapshot. *)
Definition emitBatch_begin (now : time_point) (s : LldpdSource) : list LldpObservation * Z :=
  let '(cache, generation) := cache_snapshot (ls_cache s) in (keepalive_batch now cache, generation).

(** One turn of the loop of [emitBatch]. *)
Definition emitBatch_next (batch : list LldpObservation * Z) (s : LldpdSource)
    : list LldpObservation * (list LldpObservation * Z) :=
  match batch.1 with
  | [] => ([], batch)
  | obs :: rest =>
      if bool_decide (generation_ (ls_cache s) ≠ batch.2) then ([], ([], batch.2)) else ([obs], (rest, batch.2))
  end.

(** [reassertAll] undisturbed: the loop of [emitBatch] over the whole batch. *)
Fixpoint emitBatch_loop (turns : nat) (batch : list LldpObservation * Z) (s : LldpdSource) : list LldpObservation :=
  match turns with
  | 0 => []
  | S turns => let '(out, batch) := emitBatch_next batch s in out ++ emitBatch_loop turns batch s
  end.

Definition reassertAll (now : time_point) (s : LldpdSource) : list LldpObservation :=
  if negb (ls_gate s) then [] else let batch := emitBatch_begin now s in emitBatch_loop (length batch.1) batch s.

(** * Life cycle of the source *)

Record SourceStart := mkSourceStart {
  ss_built : bool; ss_connected : bool; ss_walk : list WalkStep; ss_completes : bool; ss_locked : bool
}.

Definition source_start (now : time_point) (i : SourceStart) (s : LldpdSource)
    : bool * list LldpObservation * LldpdSource :=
  if negb (bool_decide (ls_lifecycle s = LStopped)) then (bool_decide (ls_lifecycle s = LRunning), [], s)
  else if negb (bool_decide (ls_active s = 0)) then (false, [], s)
  else if ls_teardownIncomplete s then (false, [], s)
  else
    let '(ok, sv) := supervisor_start (ss_built i) (ls_supervisor s) in
    if negb ok then (false, [], s <| ls_gate := false |>)
    else
      let s := s <| ls_gate := true |> <| ls_supervisor := sv |> <| ls_lastWatchEventAt := now |> in
      let '(out, s) := enumerateInitialNeighbors now (ss_connected i) (ss_walk i) s in
      if negb (ss_completes i) then
        let '(stopped, sv) := supervisor_stop (ss_locked i) (ls_supervisor s) in
        let s := if stopped then s else s <| ls_teardownIncomplete := true |> in
        (false, out, s <| ls_supervisor := sv |> <| ls_gate := false |> <| ls_cache := cache_clear (ls_cache s) |>)
      else (true, out, s <| ls_lifecycle := LRunning |>).

(** [locked]: the supervisor's lock was obtained in time. The drain succeeds
    when no lease is left. *)
Definition source_stop (locked : bool) (s : LldpdSource) : LldpdSource :=
  if negb (bool_decide (ls_lifecycle s = LRunning)) then s
  else
    let s := s <| ls_gate := false |> in
    let '(stopped, sv) := supervisor_stop locked (ls_supervisor s) in
    let s := s <| ls_supervisor := sv |> in
    let s := if negb stopped then s <| ls_teardownIncomplete := true |> else s in
    let s := if bool_decide (ls_active s = 0) then s <| ls_cache := cache_clear (ls_cache s) |> else s in
    s <| ls_lifecycle := LStopped |>.

Definition source_isRunning (s : LldpdSource) : bool := bool_decide (ls_lifecycle s = LRunning).

Definition lastEventAt (s : LldpdSource) : time_point := ls_lastWatchEventAt s.

Definition source_isWatchAlive (s : LldpdSource) : bool := supervisor_isWatchAlive (ls_supervisor s).
End source.

(** * What a consumer knows *)

(** The neighbour an observation is about: local interface and identity. *)
Definition obs_key (obs : LldpObservation) : string * string :=
  (ll_localIfname obs, resolveLldpIdentity (ll_remoteChassisId obs) (ll_remotePortId obs)).

(** A consumer that adds and removes neighbours as it is told, and like the
    cache ignores the ones without a MAC identity. *)
Definition apply_view (V : gset (string * string)) (obs : LldpObservation) : gset (string * string) :=
  if str_empty (obs_key obs).2 then V
  else match ll_event obs with EvPresent => {[obs_key obs]} ∪ V | EvRemoved => V ∖ {[obs_key obs]} end.

Definition cached (m : NeighborCacheMap) (p : string * string) : Prop := is_Some (m !! p.1 ≫= λ e, e !! p.2).

(** Entries are filed under the identity they resolve to. *)
Definition cache_wf (m : NeighborCacheMap) : Prop :=
  ∀ i e k x, m !! i = Some e → e !! k = Some x →
    resolveLldpIdentity (rawChassisId x) (rawPortId x) = k ∧ k ≠ "".

(** The consumer knows the cache, and [V0] besides. *)
Definition in_sync (V0 V : gset (string * string)) (m : NeighborCacheMap) : Prop :=
  ∀ p, p ∈ V ↔ p ∈ V0 ∨ cached m p.

Lemma lookup_default_insert (m : NeighborCacheMap) i e (p : string * string) :
  (<[i := e]> m !! p.1 ≫= λ e, e !! p.2) = if decide (p.1 = i) then e !! p.2 else m !! p.1 ≫= λ e, e !! p.2.
Proof. destruct (decide (p.1 = i)) as [->|]; [by rewrite lookup_insert_eq|by rewrite lookup_insert_ne]. Qed.

Lemma default_lookup (m : NeighborCacheMap) i k :
  default ∅ (m !! i) !! k = m !! i ≫= λ e, e !! k.
Proof. destruct (m !! i); cbn; [done|]. by rewrite lookup_empty. Qed.

Lemma cached_apply obs c p :
  cached (byInterface_ (cache_apply obs c).2) p ↔
    if decide (p = obs_key obs) then
      (if str_empty (obs_key obs).2 then cached (byInterface_ c) p else ll_event obs = EvPresent)
    else cached (byInterface_ c) p.
Proof.
  unfold cache_apply, obs_key. cbn. set (key := resolveLldpIdentity _ _).
  destruct (str_empty key); cbn [snd byInterface_]; [by destruct (decide _)|].
  unfold cached. rewrite lookup_default_insert. destruct p as [i k]. cbn.
  destruct (decide (i = ll_localIfname obs)) as [->|Hi]; [|by rewrite decide_False by congruence].
  destruct (decide (k = key)) as [->|Hk].
  - rewrite decide_True by done. destruct (ll_event obs); [rewrite lookup_insert_eq|rewrite lookup_delete_eq];
      (split; [by intros [? ?]|done]) || (split; [done|by eexists]).
  - rewrite decide_False by congruence.
    destruct (ll_event obs); [rewrite lookup_insert_ne|rewrite lookup_delete_ne]; auto; by rewrite default_lookup.
Qed.

Lemma cache_apply_wf obs c : cache_wf (byInterface_ c) → cache_wf (byInterface_ (cache_apply obs c).2).
Proof.
  intros Hwf. unfold cache_apply. set (key := resolveLldpIdentity _ _).
  destruct (str_empty key) eqn:Hk; [done|]. apply str_empty_false in Hk. cbn.
  intros i e k x [[<- <-]|[_ Hi]]%lookup_insert_Some; [|exact (Hwf i e k x Hi)].
  assert (Hold : ∀ k x, default ∅ (byInterface_ c !! ll_localIfname obs) !! k = Some x →
    resolveLldpIdentity (rawChassisId x) (rawPortId x) = k ∧ k ≠ "").
  { intros k' x'. rewrite default_lookup. intros (e & He & Hx)%bind_Some. by eapply Hwf. }
  destruct (ll_event obs).
  - intros [[<- <-]|[_ ?]]%lookup_insert_Some; [done|auto].
  - intros [_ ?]%lookup_delete_Some. auto.
Qed.

Lemma view_apply V obs p :
  p ∈ apply_view V obs ↔
    if decide (p = obs_key obs) then (if str_empty (obs_key obs).2 then p ∈ V else ll_event obs = EvPresent) else p ∈ V.
Proof.
  unfold apply_view. destruct (str_empty _); [by case_decide|]. case_decide as Hp; destruct (ll_event obs); set_solver.
Qed.

(** Forwarding an observation keeps a consumer in sync; a present one also when
    the consumer knows more than the cache. *)
Lemma apply_in_sync V0 V obs c :
  in_sync V0 V (byInterface_ c) → V0 = ∅ ∨ ll_event obs = EvPresent →
  in_sync V0 (apply_view V obs) (byInterface_ (cache_apply obs c).2).
Proof.
  intros Hs Hv p. rewrite view_apply, cached_apply. destruct (decide (p = obs_key obs)); [|apply Hs].
  destruct (str_empty (obs_key obs).2); [apply Hs|]. destruct Hv as [->| ->]; [|tauto]. set_solver.
Qed.

(** ** Generations *)

(** The cache [c'] is [c] after [n] mutations. *)
Definition moved (n : nat) (c c' : LldpNeighborCache) : Prop :=
  generation_ c' = ((generation_ c + Z.of_nat n) mod 2 ^ 64)%Z ∧ (n = 0 → c' = c).

Definition gen_ok (c : LldpNeighborCache) : Prop := (0 ≤ generation_ c < 2 ^ 64)%Z.

Lemma moved_0 c : gen_ok c → moved 0 c c.
Proof. intros Hg. split; [|done]. rewrite Z.add_0_r, Z.mod_small; done. Qed.

Lemma moved_ok n c c' : moved n c c' → gen_ok c'.
Proof. intros [Hg _]. unfold gen_ok. rewrite Hg. apply Z.mod_pos_bound. lia. Qed.

Lemma moved_trans n m c c' c'' : moved n c c' → moved m c' c'' → moved (n + m) c c''.
Proof.
  intros [H1 E1] [H2 E2]. split.
  - rewrite H2, H1, Zplus_mod_idemp_l. f_equal. lia.
  - intros ?. rewrite E2, E1 by lia. done.
Qed.

(** Fewer mutations than generations never go unnoticed. *)
Lemma moved_same n c c' :
  moved n c c' → gen_ok c → (Z.of_nat n < 2 ^ 64)%Z → generation_ c' = generation_ c → c' = c.
Proof.
  intros [Hg He] Hok Hn Heq. apply He. rewrite Hg in Heq. unfold gen_ok in Hok.
  destruct (decide (n = 0)) as [|Hn0]; [done|]. exfalso.
  destruct (decide (generation_ c + Z.of_nat n < 2 ^ 64)%Z) as [Hlt|Hge].
  - rewrite Z.mod_small in Heq by lia. lia.
  - replace (generation_ c + Z.of_nat n)%Z with (generation_ c + Z.of_nat n - 2 ^ 64 + 1 * 2 ^ 64)%Z in Heq by lia.
    rewrite Z.mod_add, Z.mod_small in Heq by lia. lia.
Qed.

Lemma moved_1 c m : moved 1 c (mkLldpCache m (bump (generation_ c))).
Proof. by split. Qed.

Lemma apply_moved obs c : gen_ok c → ∃ n, n ≤ 1 ∧ moved n c (cache_apply obs c).2.
Proof.
  intros Hg. unfold cache_apply. destruct (str_empty _); cbn; [exists 0; split; [lia|by apply moved_0]|].
  exists 1. split; [lia|apply moved_1].
Qed.

(** ** Operations *)

(** What an operation does to the consumer and the cache: [n] bounds the
    mutations; [V0] is what the consumer may know beyond the cache. *)
Definition keeps (n : nat) (V0 : gset (string * string)) (c : LldpNeighborCache)
    (r : list LldpObservation * LldpNeighborCache) : Prop :=
  (∃ k, k ≤ n ∧ moved k c r.2) ∧ (cache_wf (byInterface_ c) → cache_wf (byInterface_ r.2)) ∧
  ∀ V, in_sync V0 V (byInterface_ c) → in_sync V0 (foldl apply_view V r.1) (byInterface_ r.2).

Lemma keeps_nil n V0 c : gen_ok c → keeps n V0 c ([], c).
Proof. intros Hg. split_and!; [exists 0; split; [lia|by apply moved_0]|done|done]. Qed.

Lemma keeps_app n m V0 c out c' out' c'' :
  keeps n V0 c (out, c') → keeps m V0 c' (out', c'') → keeps (n + m) V0 c (out ++ out', c'').
Proof.
  intros ((k1 & Hk1 & M1) & W1 & S1) ((k2 & Hk2 & M2) & W2 & S2). split_and!; cbn in *.
  - exists (k1 + k2). split; [lia|]. by eapply moved_trans.
  - auto.
  - intros V HV. rewrite foldl_app. auto.
Qed.

Lemma keeps_gen n V0 c r : keeps n V0 c r → gen_ok r.2.
Proof. intros ((k & _ & M) & _). by eapply moved_ok. Qed.

Lemma keeps_weaken n m V0 c r : keeps n V0 c r → n ≤ m → keeps m V0 c r.
Proof. intros ((k & Hk & M) & W & S) Hn. split; [exists k; split; [lia|done]|by split]. Qed.

Section operations.
Variable config : LldpSourceConfig.
Implicit Types s : LldpdSource.

Lemma dispatch_keeps now ifname change nb s V0 :
  gen_ok (ls_cache s) → V0 = ∅ ∨ change ≠ lldpctl_c_deleted →
  let r := dispatchChange config now ifname change nb s in
  keeps 1 V0 (ls_cache s) (r.1, ls_cache r.2) ∧ ls_gate r.2 = ls_gate s ∧ ls_lifecycle r.2 = ls_lifecycle s.
Proof.
  intros Hg Hv. unfold dispatchChange, cacheAndForward.
  destruct (lldp_watched config ifname); cbn; [|split_and!; [by apply keeps_nil|done..]].
  destruct (_ && _); cbn; [split_and!; [by apply keeps_nil|done..]|].
  set (obs := makeLldpObservation _ _ _ _ _). split_and!; [|done..].
  split_and!; cbn; [by apply apply_moved|apply cache_apply_wf|]. intros V HV. apply apply_in_sync; [done|].
  destruct Hv as [|Hc]; [by left|right]. cbn. by rewrite bool_decide_eq_false_2.
Qed.

Definition walk_count (l : list WalkStep) : nat :=
  list_sum ((λ w, match w with WalkInterface _ _ nbs => length nbs | WalkThrows => 0 end) <$> l).

#[local] Arguments walk_count : simpl never.

Lemma walk_count_cons c i nbs l : walk_count (WalkInterface c i nbs :: l) = length nbs + walk_count l.
Proof. done. Qed.

Lemma walk_neighbors_keeps now ifname l s V0 :
  gen_ok (ls_cache s) →
  let r := walk_neighbors config now ifname l s in
  keeps (length l) V0 (ls_cache s) (r.1.1, ls_cache r.2) ∧ ls_gate r.2 = ls_gate s ∧ ls_lifecycle r.2 = ls_lifecycle s.
Proof.
  revert s. induction l as [|[lease nb] l IH]; intros s Hg; cbn; [split_and!; [by apply keeps_nil|done..]|].
  destruct (negb _); cbn; [split_and!; [by apply keeps_nil|done..]|].
  destruct (dispatch_keeps now ifname lldpctl_c_added nb s V0 Hg) as (K1 & G1 & L1); [by right|].
  destruct (dispatchChange _ _ _ _ _ _) as [out s1]. cbn in *. specialize (IH s1 (keeps_gen _ _ _ _ K1)).
  destruct (walk_neighbors config now ifname l s1) as [[out' ab] s2]. cbn in *. destruct IH as (K2 & G2 & L2).
  split_and!; [by apply (keeps_app 1 (length l) V0 _ _ _ _ _ K1)|congruence..].
Qed.

Lemma walk_interfaces_keeps now l s V0 :
  gen_ok (ls_cache s) →
  let r := walk_interfaces config now l s in
  keeps (walk_count l) V0 (ls_cache s) (r.1.1, ls_cache r.2) ∧ ls_gate r.2 = ls_gate s ∧
  ls_lifecycle r.2 = ls_lifecycle s.
Proof.
  revert s. induction l as [|[cancelled ifname nbs|] l IH]; intros s Hg; cbn; [split_and!; [by apply keeps_nil|done..]| |split_and!; [by apply keeps_nil|done..]].
  assert (Hskip : keeps (walk_count (WalkInterface cancelled ifname nbs :: l)) V0 (ls_cache s)
      ((walk_interfaces config now l s).1.1, ls_cache (walk_interfaces config now l s).2) ∧
      ls_gate (walk_interfaces config now l s).2 = ls_gate s ∧
      ls_lifecycle (walk_interfaces config now l s).2 = ls_lifecycle s).
  { destruct (IH s Hg) as (K & G & L). split_and!; [|done..]. eapply keeps_weaken; [exact K|]. rewrite walk_count_cons. lia. }
  destruct cancelled; cbn; [split_and!; [by apply keeps_nil|done..]|].
  destruct ifname as [ifname|]; [|exact Hskip]. destruct (lldp_watched config ifname); cbn; [|exact Hskip]. clear Hskip.
  destruct (walk_neighbors_keeps now ifname nbs s V0 Hg) as (K1 & G1 & L1).
  destruct (walk_neighbors config now ifname nbs s) as [[out ab] s1]. cbn in *. destruct ab; cbn.
  - split_and!; [|done..]. eapply keeps_weaken; [exact K1|]. rewrite walk_count_cons. lia.
  - specialize (IH s1 (keeps_gen _ _ _ _ K1)). destruct (walk_interfaces config now l s1) as [[out' ab] s2]. cbn in *.
    destruct IH as (K2 & G2 & L2). split_and!; [|congruence..].
    rewrite walk_count_cons. by apply (keeps_app (length nbs) (walk_count l) V0 _ _ _ _ _ K1).
Qed.

Lemma enumerate_keeps now connected walk s V0 :
  gen_ok (ls_cache s) →
  let r := enumerateInitialNeighbors config now connected walk s in
  keeps (walk_count walk) V0 (ls_cache s) (r.1, ls_cache r.2) ∧ ls_gate r.2 = ls_gate s ∧
  ls_lifecycle r.2 = ls_lifecycle s.
Proof.
  intros Hg. unfold enumerateInitialNeighbors. destruct connected; cbn; [|split_and!; [by apply keeps_nil|done..]].
  destruct (walk_interfaces_keeps now walk s V0 Hg) as (K & G & L).
  destruct (walk_interfaces config now walk s) as [[out ab] s1]. cbn in *. by destruct ab.
Qed.

Lemma view_removed l V p :
  Forall (λ obs, ll_event obs = EvRemoved) l →
  p ∈ foldl apply_view V l ↔ p ∈ V ∧ ¬ ∃ obs, obs ∈ l ∧ obs_key obs = p ∧ p.2 ≠ "".
Proof.
  intros Hl. revert V. induction Hl as [|obs l He Hl IH]; intros V; cbn [foldl].
  - split; [|tauto]. intros ?. split; [done|]. intros (obs & Ho & _). by apply elem_of_nil in Ho.
  - rewrite IH, view_apply, He. split.
    + intros [Hp Hn]. case_decide as Hk.
      * destruct (str_empty (obs_key obs).2) eqn:Hs; [|done]. apply str_empty_true in Hs. split; [done|].
        intros (obs' & Ho & Hk' & Hne). subst p. congruence.
      * split; [done|]. intros (obs' & [->|Ho]%elem_of_cons & Hk' & Hne); [congruence|]. apply Hn. eauto.
    + intros [Hp Hn]. split; [|intros (obs' & Ho & Hk'); apply Hn; exists obs'; split; [by right|done]].
      case_decide as Hk; [|done]. destruct (str_empty (obs_key obs).2) eqn:Hs; [done|]. exfalso. apply Hn.
      exists obs. subst p. split; [by left|]. split; [done|]. by apply str_empty_false in Hs.
Qed.

Lemma remove_keeps now ifname s :
  gen_ok (ls_cache s) → cache_wf (byInterface_ (ls_cache s)) →
  let r := removeInterface now ifname s in
  keeps 1 ∅ (ls_cache s) (r.1, ls_cache r.2) ∧ ls_gate r.2 = ls_gate s ∧ ls_lifecycle r.2 = ls_lifecycle s.
Proof.
  intros Hg Hwf. unfold removeInterface, flushInterface.
  destruct (ls_gate s) eqn:Hgate; cbn; [|split_and!; [by apply keeps_nil|done..]].
  destruct (byInterface_ (ls_cache s) !! ifname) as [entries|] eqn:He; cbn; [|split_and!; [by apply keeps_nil|done..]].
  split_and!; [|done..]. split_and!; cbn.
  - exists 1. split; [lia|apply moved_1].
  - intros _ i e k x [_ Hi]%lookup_delete_Some. exact (Hwf i e k x Hi).
  - intros V HV p. rewrite view_removed by (apply Forall_fmap, Forall_true; done). rewrite (HV p). unfold cached.
    destruct p as [i k]. cbn. destruct (decide (i = ifname)) as [->|Hi].
    + rewrite lookup_delete_eq, He. cbn. split; [|intros [Hp|[? ?]]; [by apply elem_of_empty in Hp|done]].
      intros [[Hp|[x Hx]] Hn]; [by left|]. destruct Hn. destruct (Hwf _ _ _ _ He Hx) as [Hk Hne].
      exists (makeLldpObservation now ifname EvRemoved x false). split; [|unfold obs_key; cbn; by rewrite Hk].
      apply list_elem_of_fmap. exists x. split; [done|]. apply list_elem_of_fmap. exists (k, x). split; [done|].
      by apply elem_of_map_to_list.
    + rewrite lookup_delete_ne by done. split; [tauto|]. intros Hp. split; [done|].
      intros (obs & (x & -> & _)%list_elem_of_fmap & Hk & _). unfold obs_key in Hk. cbn in Hk. congruence.
Qed.

Lemma elem_of_diff old fresh i x :
  (i, x) ∈ diffRemovedNeighbors old fresh ↔
    ∃ e k, old !! i = Some e ∧ e !! k = Some x ∧ ¬ cached fresh (i, k).
Proof.
  unfold diffRemovedNeighbors, cached. rewrite list_elem_of_bind. cbn. split.
  - intros ([i' e] & Hx & He%elem_of_map_to_list). apply list_elem_of_bind in Hx as ([k y] & Hy & Hk%elem_of_map_to_list).
    case_bool_decide as Hc; [by apply elem_of_nil in Hy|]. apply list_elem_of_singleton in Hy. simplify_eq. by exists e, k.
  - intros (e & k & He & Hk & Hc). exists (i, e). rewrite elem_of_map_to_list. split; [|done].
    apply list_elem_of_bind. exists (k, x). rewrite elem_of_map_to_list. split; [|done].
    rewrite bool_decide_eq_false_2 by done. by left.
Qed.

(** A reconnect: what the enumeration finds stays or appears, what it does not
    find goes. *)
Lemma refresh_keeps now built connected walk s :
  gen_ok (ls_cache s) → cache_wf (byInterface_ (ls_cache s)) → ls_gate s = true →
  let r := refreshAll config now built connected walk s in
  keeps (S (walk_count walk)) ∅ (ls_cache s) (r.1.2, ls_cache r.2) ∧ ls_gate r.2 = ls_gate s ∧
  ls_lifecycle r.2 = ls_lifecycle s.
Proof.
  intros Hg Hwf Hgate. unfold refreshAll.
  case_bool_decide; cbn [negb]; [|split_and!; [by apply keeps_nil|done..]].
  destruct (supervisor_refresh built (ls_supervisor s)) as [ok sv]. destruct ok; cbn [negb]; [|split_and!; [by apply keeps_nil|done..]].
  unfold cache_exchange. set (s1 := (s <| ls_supervisor := _ |> <| ls_cache := _ |> <| ls_lastWatchEventAt := _ |>)).
  set (V0 := list_to_set (map_to_list (byInterface_ (ls_cache s)) ≫= λ '(i, e), (λ '(k, _), (i, k)) <$> map_to_list e) : gset (string * string)).
  assert (HV0 : ∀ p, p ∈ V0 ↔ cached (byInterface_ (ls_cache s)) p).
  { intros [i k]. unfold V0, cached. rewrite elem_of_list_to_set, list_elem_of_bind. cbn. split.
    - intros ([i' e] & ([k' x] & Hp & Hx%elem_of_map_to_list)%list_elem_of_fmap & He%elem_of_map_to_list).
      injection Hp as <- <-. rewrite He. by exists x.
    - intros [x (e & He & Hx)%bind_Some]. exists (i, e). rewrite elem_of_map_to_list. split; [|done].
      apply list_elem_of_fmap. exists (k, x). by rewrite elem_of_map_to_list. }
  assert (Hc1 : byInterface_ (ls_cache s1) = ∅) by done.
  assert (Hg1 : gen_ok (ls_cache s1)) by (apply (moved_ok 1 (ls_cache s)), moved_1).
  destruct (enumerate_keeps now connected walk s1 V0 Hg1) as (((n & Hn & M) & W & S) & G & L).
  destruct (enumerateInitialNeighbors config now connected walk s1) as [out s2]. cbn [fst snd] in *.
  split_and!; [|exact G|exact L]. split_and!; cbn [fst snd].
  - exists (1 + n). split; [lia|]. eapply moved_trans; [apply moved_1|exact M].
  - intros _. apply W. rewrite Hc1. intros i e k x Hi. by rewrite lookup_empty in Hi.
  - intros V HV p. rewrite foldl_app. unfold reconcileAfterRefresh. rewrite G. change (ls_gate s1) with (ls_gate s).
    rewrite Hgate. cbn [negb].
    assert (HS : in_sync V0 V (byInterface_ (ls_cache s1))).
    { intros q. rewrite (HV q), HV0, Hc1. unfold cached at 3. rewrite lookup_empty. cbn.
      split; [intros [Hq|Hq]; [by apply elem_of_empty in Hq|by left]|intros [Hq|[? ?]]; [by right|done]]. }
    rewrite view_removed; [|apply Forall_fmap, Forall_true; by intros [? ?]].
    rewrite (S V HS p), HV0. split.
    + intros [[Ho|Hf] Hd]; [|by right]. destruct p as [i k]. right. destruct (decide (cached (byInterface_ (ls_cache s2)) (i, k))) as [|Hnf]; [done|].
      destruct Hd. unfold cached in Ho. cbn in Ho. destruct Ho as [x (e & He & Hx)%bind_Some].
      destruct (Hwf _ _ _ _ He Hx) as [Hk Hne].
      exists (makeLldpObservation now i EvRemoved x false). split; [|unfold obs_key; cbn; by rewrite Hk].
      apply list_elem_of_fmap. exists (i, x). split; [done|]. apply elem_of_diff. by exists e, k.
    + intros [Hp|Hp]; [by apply elem_of_empty in Hp|]. split; [by right|].
      intros (obs & ([i x] & -> & (e & k & He & Hx & Hc)%elem_of_diff)%list_elem_of_fmap & Hk & _).
      destruct (Hwf _ _ _ _ He Hx) as [Hk' _]. unfold obs_key in Hk. cbn in Hk. rewrite Hk' in Hk. by subst p.
Qed.
End operations.

(** * Runs of a started source *)

Inductive LldpOp :=
| OpChange (now : time_point) (ifname : string) (change : LldpChange) (nb : Neighbor)
| OpRemove (now : time_point) (ifname : string)
| OpRefresh (now : time_point) (built connected : bool) (walk : list WalkStep)
| OpReassert (now : time_point)   (** the snapshot of [reassertAll] *)
| OpEmit.                         (** one turn of its loop *)

Abbreviation Batch := (list LldpObservation * Z)%type.

(** The observations delivered, the source and what is left of the batch: the
    operations of other threads may come between the turns of [reassertAll]. *)
Definition lldp_op (config : LldpSourceConfig) (op : LldpOp) (st : LldpdSource * Batch)
    : list LldpObservation * (LldpdSource * Batch) :=
  let '(s, b) := st in
  match op with
  | OpChange now ifname change nb => let '(out, s) := onWatchChange config now ifname change nb s in (out, (s, b))
  | OpRemove now ifname => let '(out, s) := removeInterface now ifname s in (out, (s, b))
  | OpRefresh now built connected walk =>
      let '(_, out, s) := refreshAll config now built connected walk s in (out, (s, b))
  | OpReassert now => ([], (s, if ls_gate s then emitBatch_begin now s else b))
  | OpEmit => let '(out, b) := emitBatch_next b s in (out, (s, b))
  end.

Definition op_writes (op : LldpOp) : nat :=
  match op with
  | OpChange _ _ _ _ | OpRemove _ _ => 1
  | OpRefresh _ _ _ walk => S (walk_count walk)
  | OpReassert _ | OpEmit => 0
  end.

(** Each operation with what it delivers. *)
Fixpoint lldp_run (config : LldpSourceConfig) (ops : list LldpOp) (st : LldpdSource * Batch)
    : list LldpObservation * (LldpdSource * Batch) :=
  match ops with
  | [] => ([], st)
  | op :: ops =>
      let '(out, st) := lldp_op config op st in
      let '(out', st) := lldp_run config ops st in (out ++ out', st)
  end.

(** The keepalives left to deliver are about the cache their snapshot saw. *)
Definition batch_ok (W : nat) (c : LldpNeighborCache) (b : Batch) : Prop :=
  b.1 = [] ∨ ∃ n c0, n ≤ W ∧ moved n c0 c ∧ gen_ok c0 ∧ generation_ c0 = b.2 ∧
    Forall (λ obs, ll_event obs = EvPresent ∧ cached (byInterface_ c0) (obs_key obs)) b.1.

Record run_ok (W : nat) (V : gset (string * string)) (st : LldpdSource * Batch) : Prop := mkRunOk {
  ro_gate : ls_gate st.1 = true; ro_running : ls_lifecycle st.1 = LRunning; ro_gen : gen_ok (ls_cache st.1);
  ro_wf : cache_wf (byInterface_ (ls_cache st.1)); ro_sync : in_sync ∅ V (byInterface_ (ls_cache st.1));
  ro_batch : batch_ok W (ls_cache st.1) st.2
}.

Lemma batch_moved W n c c' b : batch_ok W c b → (∃ k, k ≤ n ∧ moved k c c') → batch_ok (W + n) c' b.
Proof.
  intros [Hb|(m & c0 & Hm & M & Hg & He & Hf)] (k & Hk & M'); [by left|right].
  exists (m + k), c0. split_and!; [lia|by eapply moved_trans|done..].
Qed.

Lemma keepalive_batch_ok now c :
  cache_wf (byInterface_ c) → gen_ok c → batch_ok 0 c (keepalive_batch now (byInterface_ c), generation_ c).
Proof.
  intros Hwf Hg. right. exists 0, c. split_and!; [lia|by apply moved_0|done..|]. apply Forall_forall.
  intros obs ([i e] & Ho & He%elem_of_map_to_list)%list_elem_of_bind.
  apply list_elem_of_fmap in Ho as ([k x] & -> & Hx%elem_of_map_to_list). cbn. split; [done|].
  destruct (Hwf _ _ _ _ He Hx) as [Hk _]. unfold obs_key, cached. cbn. rewrite Hk, He. by exists x.
Qed.

Lemma keeps_run_ok n W V s s' b out :
  run_ok W V (s, b) → keeps n ∅ (ls_cache s) (out, ls_cache s') → ls_gate s' = ls_gate s →
  ls_lifecycle s' = ls_lifecycle s → run_ok (W + n) (foldl apply_view V out) (s', b).
Proof.
  intros [H1 H2 H3 H4 H5 H6] K HG HL. pose proof (keeps_gen _ _ _ _ K) as Hg. destruct K as (M & Wf & S). cbn in *.
  split; cbn; [congruence..|done|auto|auto|]. by eapply batch_moved.
Qed.

Lemma emit_run_ok W V s b :
  run_ok W V (s, b) → (Z.of_nat W < 2 ^ 64)%Z →
  run_ok W (foldl apply_view V (emitBatch_next b s).1) (s, (emitBatch_next b s).2).
Proof.
  intros [H1 H2 H3 H4 H5 H6] HW. unfold emitBatch_next. destruct b as [[|obs rest] g]; cbn in *; [by split|].
  case_bool_decide as Hgen; cbn; [split; cbn; try done; by left|].
  destruct H6 as [|(n & c0 & Hn & M & Hg & He & [Hp Hc]%Forall_cons)]; [done|]. cbn in *.
  assert (ls_cache s = c0) as E by (eapply moved_same; [exact M|done|lia|congruence]).
  assert (Hin : obs_key obs ∈ V) by (apply H5; right; rewrite E; apply Hp).
  split; cbn; try done.
  - intros p. rewrite view_apply, <- (H5 p). destruct Hp as [Hp _]. rewrite Hp. case_decide as Hk; [|done].
    destruct (str_empty _); [done|]. subst p. tauto.
  - right. exists n, c0. split_and!; done.
Qed.

Lemma lldp_op_ok config op W V st :
  run_ok W V st → (Z.of_nat (W + op_writes op) < 2 ^ 64)%Z →
  run_ok (W + op_writes op) (foldl apply_view V (lldp_op config op st).1) (lldp_op config op st).2.
Proof.
  destruct st as [s b]. intros Hok HW. pose proof Hok as [H1 H2 H3 H4 H5 H6]. cbn in *.
  destruct op as [now ifname change nb|now ifname|now built connected walk|now|]; cbn [lldp_op op_writes] in *.
  - unfold onWatchChange. rewrite H1. cbn [negb].
    destruct (dispatch_keeps config now ifname change nb s ∅ H3) as (K & G & L); [by left|].
    destruct (dispatchChange _ _ _ _ _ _) as [out s']. cbn in *. by eapply keeps_run_ok.
  - destruct (remove_keeps now ifname s H3 H4) as (K & G & L).
    destruct (removeInterface now ifname s) as [out s']. cbn in *. by eapply keeps_run_ok.
  - destruct (refresh_keeps config now built connected walk s H3 H4 H1) as (K & G & L).
    destruct (refreshAll config now built connected walk s) as [[ok out] s']. cbn in *. by eapply keeps_run_ok.
  - rewrite H1, Nat.add_0_r. split; cbn; try done.
    destruct (keepalive_batch_ok now (ls_cache s) H4 H3) as [Hb|(n & c0 & Hn & Hr)]; [by left|right].
    exists n, c0. split; [lia|done].
  - rewrite Nat.add_0_r in *. pose proof (emit_run_ok W V s b Hok HW) as H.
    by destruct (emitBatch_next b s) as [out b'].
Qed.

Lemma lldp_run_ok config ops W V st :
  run_ok W V st → (Z.of_nat (W + list_sum (op_writes <$> ops)) < 2 ^ 64)%Z →
  run_ok (W + list_sum (op_writes <$> ops)) (foldl apply_view V (lldp_run config ops st).1) (lldp_run config ops st).2.
Proof.
  revert W V st. induction ops as [|op ops IH]; intros W V st Hok HW; [by rewrite Nat.add_0_r|].
  change (list_sum (op_writes <$> op :: ops)) with (op_writes op + list_sum (op_writes <$> ops)) in *.
  pose proof (lldp_op_ok config op W V st Hok ltac:(lia)) as H1. cbn [lldp_run].
  destruct (lldp_op config op st) as [out st1]. cbn in H1. specialize (IH _ _ _ H1 ltac:(lia)).
  destruct (lldp_run config ops st1) as [out' st2]. cbn in *. by rewrite foldl_app, Nat.add_assoc.
Qed.

Lemma start_run_ok config now i s out s1 :
  byInterface_ (ls_cache s) = ∅ → gen_ok (ls_cache s) → ls_lifecycle s = LStopped →
  source_start config now i s = (true, out, s1) → run_ok 0 (foldl apply_view ∅ out) (s1, ([], 0%Z)).
Proof.
  intros He Hg Hst. unfold source_start. rewrite Hst. rewrite bool_decide_eq_true_2 by done. cbn [negb].
  destruct (bool_decide (ls_active s = 0)); cbn [negb]; [|by intros [=]].
  destruct (ls_teardownIncomplete s); [by intros [=]|]. destruct (supervisor_start _ _) as [ok sv]. destruct ok; cbn [negb]; [|by intros [=]].
  set (s0 := (s <| ls_gate := true |> <| ls_supervisor := sv |> <| ls_lastWatchEventAt := now |>)).
  destruct (enumerate_keeps config now (ss_connected i) (ss_walk i) s0 ∅ Hg) as (K & G & L).
  pose proof (keeps_gen _ _ _ _ K) as Hg'. destruct K as (M & Wf & S).
  destruct (enumerateInitialNeighbors _ _ _ _ s0) as [out' s2]. cbn in *.
  destruct (ss_completes i); cbn; [|destruct (supervisor_stop _ _); by intros [=]]. intros [= <- <-].
  split; cbn; try done; [| |by left].
  - apply Wf. change (ls_cache s0) with (ls_cache s). rewrite He. intros ? ? ? ? Hi. by rewrite lookup_empty in Hi.
  - apply S. change (ls_cache s0) with (ls_cache s). rewrite He. intros p. unfold cached. rewrite lookup_empty. cbn.
    split; [by left|]. intros [?|[? ?]]; done.
Qed.


(** * Reachable sources *)

(** Callbacks of other threads hold leases between their admission and their
    return. *)
Inductive source_step (config : LldpSourceConfig) : LldpdSource → LldpdSource → Prop :=
| src_start now i s : source_step config s (source_start config now i s).2
| src_stop locked s : source_step config s (source_stop locked s)
| src_change now ifname change nb s : source_step config s (onWatchChange config now ifname change nb s).2
| src_remove now ifname s : source_step config s (removeInterface now ifname s).2
| src_refresh now built connected walk s : source_step config s (refreshAll config now built connected walk s).2
| src_died s : source_step config s (s <| ls_supervisor := supervisor_died (ls_supervisor s) |>)
| src_acquire s : ls_gate s = true → source_step config s (s <| ls_active := S (ls_active s) |>)
| src_release n s : ls_active s = S n → source_step config s (s <| ls_active := n |>).

Record source_ok (s : LldpdSource) : Prop := mkSourceOk {
  so_state : ls_lifecycle s = LStopped ∨ ls_lifecycle s = LRunning;
  so_gate : ls_gate s = source_isRunning s;
  so_running : ls_lifecycle s = LRunning → sv_watch (ls_supervisor s) = true ∧ sv_stopped (ls_supervisor s) = false;
  so_stopped : ls_lifecycle s = LStopped → ls_teardownIncomplete s = false → sv_watch (ls_supervisor s) = false
}.

(** What [source_ok] looks at is the same in both. *)
Definition same_shape (s s' : LldpdSource) : Prop :=
  ls_lifecycle s' = ls_lifecycle s ∧ ls_gate s' = ls_gate s ∧ ls_supervisor s' = ls_supervisor s ∧
  ls_teardownIncomplete s' = ls_teardownIncomplete s.

Lemma same_shape_ok s s' : same_shape s s' → source_ok s → source_ok s'.
Proof.
  intros (H1 & H2 & H3 & H4) [? ? ? ?]. unfold source_isRunning in *.
  split; unfold source_isRunning; rewrite ?H1, ?H2, ?H3, ?H4; done.
Qed.

Lemma same_shape_trans s s' s'' : same_shape s s' → same_shape s' s'' → same_shape s s''.
Proof. unfold same_shape. intuition congruence. Qed.

Lemma dispatch_shape config now ifname change nb s : same_shape s (dispatchChange config now ifname change nb s).2.
Proof. unfold dispatchChange, cacheAndForward. by repeat case_match. Qed.

Lemma walk_neighbors_shape config now ifname l s : same_shape s (walk_neighbors config now ifname l s).2.
Proof.
  revert s. induction l as [|[lease nb] l IH]; intros s; cbn; [done|]. destruct (negb _); [done|].
  pose proof (dispatch_shape config now ifname lldpctl_c_added nb s) as H1.
  destruct (dispatchChange _ _ _ _ _ _) as [out s1]. specialize (IH s1).
  destruct (walk_neighbors _ _ _ _ _) as [[out' ab] s2]. by eapply same_shape_trans.
Qed.

Lemma enumerate_shape config now connected walk s :
  same_shape s (enumerateInitialNeighbors config now connected walk s).2.
Proof.
  unfold enumerateInitialNeighbors. destruct connected; [|done]. cbn [negb].
  assert (same_shape s (walk_interfaces config now walk s).2) as H.
  { revert s. induction walk as [|[cancelled ifname nbs|] walk IH]; intros s; cbn; [done| |done].
    destruct cancelled; [done|]. destruct ifname as [ifname|]; [|apply IH].
    destruct (lldp_watched config ifname); cbn; [|apply IH].
    pose proof (walk_neighbors_shape config now ifname nbs s) as H1.
    destruct (walk_neighbors _ _ _ _ _) as [[out ab] s1]. destruct ab; [done|]. specialize (IH s1).
    destruct (walk_interfaces _ _ _ _) as [[out' ab] s2]. by eapply same_shape_trans. }
  destruct (walk_interfaces _ _ _ _) as [[out ab] s1]. by destruct ab.
Qed.

Lemma remove_shape now ifname s : same_shape s (removeInterface now ifname s).2.
Proof. unfold removeInterface. destruct (ls_gate s); [|done]. cbn. by destruct (flushInterface _ _). Qed.

Lemma start_source_ok config now i s : source_ok s → source_ok (source_start config now i s).2.
Proof.
  intros Hok. pose proof Hok as [Hst Hg Hr Hs]. unfold source_start.
  case_bool_decide as Hl; cbn [negb]; [|done]. case_bool_decide as Ha; cbn [negb]; [|done].
  destruct (ls_teardownIncomplete s) eqn:Ht; [done|].
  unfold supervisor_start. specialize (Hs Hl eq_refl). rewrite Hs. cbn [andb negb].
  assert (Hclosed : source_ok (s <| ls_gate := false |>)).
  { apply (same_shape_ok s); [|done]. unfold same_shape. cbn. rewrite Hg. unfold source_isRunning. by rewrite Hl. }
  destruct (ss_built i); cbn [negb]; [|done].
  match goal with |- context [enumerateInitialNeighbors ?c ?n ?k ?w ?x] =>
    pose proof (enumerate_shape c n k w x) as (H1 & H2 & H3 & H4); destruct (enumerateInitialNeighbors c n k w x) as [out s2] end.
  cbn in H1, H2, H3, H4. destruct (ss_completes i); cbn [negb].
  - split; cbn; rewrite ?H3; [by right|done|done|done].
  - unfold supervisor_stop. destruct (ss_locked i); cbn [negb snd].
    + split; cbn; unfold source_isRunning; cbn; rewrite ?H1, ?Hl; done || (by left) || (by intros).
    + split; cbn; unfold source_isRunning; cbn; rewrite ?H1, ?Hl; done || (by left) || (by intros).
Qed.

Lemma source_step_ok config s s' : source_step config s s' → source_ok s → source_ok s'.
Proof.
  intros Hstep Hok. destruct Hstep as [now i s|locked s|now ifname change nb s|now ifname s|now built connected walk s|s|s Hg|n s Ha].
  - by apply start_source_ok.
  - pose proof Hok as [Hst Hg Hr Hs]. unfold source_stop. case_bool_decide as Hl; cbn [negb]; [|done].
    destruct (Hr Hl) as [Hw Hss]. unfold supervisor_stop.
    destruct locked; cbn [negb]; (case_bool_decide; split; cbn; done || (by left) || (by intros)).
  - unfold onWatchChange. destruct (ls_gate s); [|done]. by eapply same_shape_ok; [apply dispatch_shape|].
  - by eapply same_shape_ok; [apply remove_shape|].
  - unfold refreshAll. case_bool_decide as Hl; cbn [negb]; [|done]. pose proof Hok as [Hst Hg Hr Hs].
    unfold supervisor_refresh. destruct built; cbn [negb]; [|done]. destruct (Hr Hl) as [Hw Hss]. rewrite Hss. cbn [negb].
    destruct (cache_exchange ∅ (ls_cache s)) as [old c].
    match goal with |- context [enumerateInitialNeighbors ?cf ?n ?k ?w ?x] =>
      pose proof (enumerate_shape cf n k w x) as Hsh; destruct (enumerateInitialNeighbors cf n k w x) as [out s2] end.
    eapply same_shape_ok; [exact Hsh|]. split; cbn; try done; congruence.
  - by destruct Hok as [? ? ? ?]; split.
  - by apply (same_shape_ok s).
  - by apply (same_shape_ok s).
Qed.


(** * A restart after a slow drain *)

Section demo.
Definition demo_config : LldpSourceConfig := mkLldpConfig [] true "".
Definition demo_nb (n : string) : Neighbor := mkNeighbor (Some ("02:00:00:00:00:0" +:+ n)) (Some "swp1") None.
Definition demo_source_start : SourceStart :=
  mkSourceStart true true [WalkInterface false (Some "eth0") [(true, demo_nb "1"); (true, demo_nb "2")]] true true.

Definition demo_started : LldpdSource := (source_start demo_config 1 demo_source_start new_source).2.

(** A callback that is still executing when [stop] gives up waiting and returns
    later leaves the cache as it was, and the source is not latched: the next
    start succeeds with the neighbours of the previous run in its cache, which
    keepalives then report although nothing was observed. *)
Lemma slow_drain_keeps_stale_neighbors :
  let s := demo_started <| ls_active := 1 |> in
  let s := (source_stop true s) <| ls_active := 0 |> in
  let i := mkSourceStart true true [] true true in
  let '(ok, out, s) := source_start demo_config 2 i s in
  ok = true ∧ out = [] ∧ length (emitBatch_begin 3 s).1 = 2.
Proof. vm_compute. split_and!; reflexivity. Qed.

Lemma demo_started_eq : source_start demo_config 1 demo_source_start new_source =
  (true, (source_start demo_config 1 demo_source_start new_source).1.2, demo_started).
Proof. vm_compute. reflexivity. Qed.


End demo.
