(* ===== verification/LldpObserver.v ===== *)
(** [inputs/lldp/public/ILldpSource.h] and [inputs/lldp/LldpObserver.cpp]: what a
    backend for LLDP promises, as a class with the documented laws; the observer
    over any backend, proved against the class; and [LldpdSource] as an instance. *)

From S2P Require Import Prelude Contract Observation LldpIo LldpSource.

(** * [ILldpSource] *)

(** [il_env]: what an operation meets outside (the clock, the backend). An
    operation that delivers gives the observations in order. *)
Class ILldpSource (S : Type) := {
  il_env : Type;
  il_start : il_env → S → bool * list LldpObservation * S;
  il_stop : il_env → S → S;
  il_isRunning : S → bool;
  il_isWatchAlive : S → bool;
  il_refreshAll : il_env → S → bool * list LldpObservation * S;
  il_refreshInterface : il_env → string → S → list LldpObservation * S;
  il_removeInterface : time_point → string → S → list LldpObservation * S;
  il_reassertAll : time_point → S → list LldpObservation;
  il_isBackendAlive : il_env → S → bool;
  il_lastEventAt : S → time_point
}.

(** The documented contract. [il_ok] holds of the sources that can be; [il_cached]:
    the neighbours cached, as interface and identity. *)
Class ILldpSourceContract (S : Type) `{ILldpSource S} := {
  il_ok : S → Prop;
  il_cached : S → string * string → Prop;
  il_start_ok env s : il_ok s → il_ok (il_start env s).2 ∧ il_isRunning (il_start env s).2 = (il_start env s).1.1;
  il_start_again env s : il_isRunning s = true → il_start env s = (true, [], s);
  il_start_view env s (V : gset (string * string)) :
    il_ok s → (∀ p, p ∈ V ↔ il_cached s p) → (il_start env s).1.1 = true →
    ∀ p, p ∈ foldl apply_view V (il_start env s).1.2 ↔ il_cached (il_start env s).2 p;
  il_stop_ok env s : il_ok s → il_ok (il_stop env s) ∧ il_isRunning (il_stop env s) = false;
  il_stop_again env s : il_isRunning s = false → il_stop env s = s;
  il_refresh_ok env s : il_ok s → il_ok (il_refreshAll env s).2 ∧ il_isRunning (il_refreshAll env s).2 = il_isRunning s;
  il_refresh_failed env s : (il_refreshAll env s).1.1 = false → il_refreshAll env s = (false, [], s);
  il_refresh_stopped env s : il_isRunning s = false → (il_refreshAll env s).1.1 = false;
  il_refresh_view env s (V : gset (string * string)) :
    il_ok s → (∀ p, p ∈ V ↔ il_cached s p) → ∀ p, p ∈ foldl apply_view V (il_refreshAll env s).1.2 ↔ il_cached (il_refreshAll env s).2 p;
  il_interface_ok env i s : il_ok s → il_ok (il_refreshInterface env i s).2 ∧ il_isRunning (il_refreshInterface env i s).2 = il_isRunning s;
  il_interface_stopped env i s : il_isRunning s = false → il_refreshInterface env i s = ([], s);
  il_interface_view env i s (V : gset (string * string)) :
    il_ok s → (∀ p, p ∈ V ↔ il_cached s p) →
    ∀ p, p ∈ foldl apply_view V (il_refreshInterface env i s).1 ↔ il_cached (il_refreshInterface env i s).2 p;
  il_remove_ok now i s : il_ok s →
    il_ok (il_removeInterface now i s).2 ∧ il_isRunning (il_removeInterface now i s).2 = il_isRunning s ∧
    il_lastEventAt (il_removeInterface now i s).2 = il_lastEventAt s;
  il_remove_stopped now i s : il_ok s → il_isRunning s = false → il_removeInterface now i s = ([], s);
  il_remove_view now i s (V : gset (string * string)) :
    il_ok s → (∀ p, p ∈ V ↔ il_cached s p) →
    ∀ p, p ∈ foldl apply_view V (il_removeInterface now i s).1 ↔ il_cached (il_removeInterface now i s).2 p;
  il_remove_only now i s obs : obs ∈ (il_removeInterface now i s).1 →
    ll_event obs = EvRemoved ∧ ll_keepalive obs = false ∧ ll_localIfname obs = i;
  il_remove_gone now i s k : il_ok s → il_isRunning s = true → ¬ il_cached (il_removeInterface now i s).2 (i, k);
  il_reassert_stopped now s : il_ok s → il_isRunning s = false → il_reassertAll now s = [];
  il_reassert_exact now s p : il_ok s → il_isRunning s = true →
    il_cached s p ↔ ∃ obs, obs ∈ il_reassertAll now s ∧ obs_key obs = p;
  il_reassert_keepalive now s obs : obs ∈ il_reassertAll now s → ll_event obs = EvPresent ∧ ll_keepalive obs = true
}.

(** * [LldpObserver] *)

(** Its only member is the source. *)
Section observer.
Context {S : Type} `{ILldpSource S}.
Implicit Types s : S.

Definition observer_start (env : il_env) s : bool * list LldpObservation * S := il_start env s.
Definition observer_stop (env : il_env) s : S := il_stop env s.
Definition observer_isRunning s : bool := il_isRunning s.
Definition observer_isWatchAlive s : bool := il_isWatchAlive s.
Definition observer_refreshAll (env : il_env) s : bool * list LldpObservation * S := il_refreshAll env s.
Definition observer_refreshInterface (env : il_env) (ifname : string) s : list LldpObservation * S := il_refreshInterface env ifname s.
Definition onInterfaceUp (env : il_env) (ifname : string) s : list LldpObservation * S := il_refreshInterface env ifname s.
Definition onInterfaceDown (now : time_point) (ifname : string) s : list LldpObservation * S := il_removeInterface now ifname s.
Definition onInterfaceRemoved (now : time_point) (ifname : string) s : list LldpObservation * S := il_removeInterface now ifname s.
Definition observer_reassertAll (now : time_point) s : list LldpObservation := il_reassertAll now s.
Definition observer_isBackendAlive (env : il_env) s : bool := il_isBackendAlive env s.
Definition observer_lastEventAt s : time_point := il_lastEventAt s.

(** The calls that deliver. *)
Inductive ObserverCall :=
| CallStart (env : il_env) | CallRefreshAll (env : il_env) | CallRefreshInterface (env : il_env) (ifname : string)
| CallUp (env : il_env) (ifname : string) | CallDown (now : time_point) (ifname : string) | CallRemoved (now : time_point) (ifname : string)
| CallReassert (now : time_point).

Definition observer_call (c : ObserverCall) s : list LldpObservation * S :=
  match c with
  | CallStart env => let '(_, out, s) := observer_start env s in (out, s)
  | CallRefreshAll env => let '(_, out, s) := observer_refreshAll env s in (out, s)
  | CallRefreshInterface env ifname => observer_refreshInterface env ifname s
  | CallUp env ifname => onInterfaceUp env ifname s
  | CallDown now ifname => onInterfaceDown now ifname s
  | CallRemoved now ifname => onInterfaceRemoved now ifname s
  | CallReassert now => (observer_reassertAll now s, s)
  end.

Fixpoint observer_calls (cs : list ObserverCall) s : list LldpObservation * S :=
  match cs with
  | [] => ([], s)
  | c :: cs => let '(out, s) := observer_call c s in let '(out', s) := observer_calls cs s in (out ++ out', s)
  end.
End observer.

(** * The observer follows its source *)

Section follows.
Context {S : Type} `{ILldpSourceContract S}.
Implicit Types s : S.

(** A consumer that adds and removes as told knows the cached neighbours. *)
Definition knows (V : gset (string * string)) s : Prop := ∀ p, p ∈ V ↔ il_cached s p.

Lemma keepalives_view (l : list LldpObservation) (V : gset (string * string)) :
  Forall (λ obs, ll_event obs = EvPresent ∧ obs_key obs ∈ V) l → ∀ p, p ∈ foldl apply_view V l ↔ p ∈ V.
Proof.
  induction l as [|obs l IH] in V |- *; [done|]. intros [[He Hk] Hl]%Forall_cons p. cbn [foldl].
  assert (Hv : ∀ q, q ∈ apply_view V obs ↔ q ∈ V).
  { intros q. unfold apply_view. rewrite He. destruct (str_empty _); [done|]. set_solver. }
  rewrite IH; [apply Hv|]. eapply Forall_impl; [exact Hl|]. intros obs' [? ?]. by rewrite Hv.
Qed.

Lemma call_follows c s V :
  il_ok s → il_isRunning s = true → knows V s →
  let r := observer_call c s in il_ok r.2 ∧ il_isRunning r.2 = true ∧ knows (foldl apply_view V r.1) r.2.
Proof.
  intros Hok Hrun HV r. unfold r. destruct c as [env|env|env i|env i|now i|now i|now]; cbn [observer_call].
  - unfold observer_start. by rewrite il_start_again.
  - pose proof (il_refresh_ok env s Hok) as [H1' H2']. pose proof (il_refresh_view env s V Hok HV) as Hv.
    unfold observer_refreshAll. destruct (il_refreshAll env s) as [[ok out] s']. cbn in *. split; [done|]. split; [congruence|exact Hv].
  - pose proof (il_interface_ok env i s Hok) as [H1' H2']. split; [done|]. split; [unfold observer_refreshInterface; congruence|].
    exact (il_interface_view env i s V Hok HV).
  - pose proof (il_interface_ok env i s Hok) as [H1' H2']. split; [done|]. split; [unfold onInterfaceUp; congruence|].
    exact (il_interface_view env i s V Hok HV).
  - pose proof (il_remove_ok now i s Hok) as (H1' & H2' & _). split; [done|]. split; [unfold onInterfaceDown; congruence|].
    exact (il_remove_view now i s V Hok HV).
  - pose proof (il_remove_ok now i s Hok) as (H1' & H2' & _). split; [done|]. split; [unfold onInterfaceRemoved; congruence|].
    exact (il_remove_view now i s V Hok HV).
  - split; [done|]. split; [done|]. intros p. cbn [fst snd]. rewrite keepalives_view; [apply HV|].
    apply Forall_forall. intros obs Ho. split; [by apply (il_reassert_keepalive now s)|]. apply HV, (il_reassert_exact now s _ Hok Hrun). by exists obs.
Qed.

Lemma calls_follow cs s V :
  il_ok s → il_isRunning s = true → knows V s →
  let r := observer_calls cs s in il_ok r.2 ∧ il_isRunning r.2 = true ∧ knows (foldl apply_view V r.1) r.2.
Proof.
  revert s V. induction cs as [|c cs IH]; intros s V Hok Hrun HV; [done|]. cbn [observer_calls].
  destruct (call_follows c s V Hok Hrun HV) as (Hok1 & Hrun1 & HV1). destruct (observer_call c s) as [out s1].
  destruct (IH s1 _ Hok1 Hrun1 HV1) as (Hok2 & Hrun2 & HV2). destruct (observer_calls cs s1) as [out' s2]. cbn in *.
  by rewrite foldl_app.
Qed.

(** Over any backend that keeps the contract: from a successful start on, whatever
    the calls, the consumer knows the cached neighbours; an interface that goes
    down or away takes its neighbours along, without counting as contact with the
    backend; a stopped observer delivers nothing. *)
Lemma observer_follows env s0 cs V :
  il_ok s0 → il_isRunning s0 = false → knows V s0 → (observer_start env s0).1.1 = true →
  let '(_, out, s1) := observer_start env s0 in
  let '(out', s2) := observer_calls cs s1 in
  knows (foldl apply_view V (out ++ out')) s2 ∧ observer_isRunning s2 = true ∧
  (∀ now i, let '(removed, s3) := onInterfaceDown now i s2 in
    (∀ k, (i, k) ∉ foldl apply_view V (out ++ out' ++ removed)) ∧ observer_lastEventAt s3 = observer_lastEventAt s2 ∧
    onInterfaceRemoved now i s2 = (removed, s3)) ∧
  (∀ env' c, let s3 := observer_stop env' s2 in
    observer_isRunning s3 = false ∧ observer_stop env' s3 = s3 ∧ match c with CallStart _ => True | c => observer_call c s3 = ([], s3) end).
Proof.
  intros Hok Hrun HV Hst. pose proof (il_start_ok env s0 Hok) as [Hok1 Hrun1]. pose proof (il_start_view env s0 V Hok HV Hst) as HV1.
  unfold observer_start in *. destruct (il_start env s0) as [[ok out] s1]. cbn in *. subst ok.
  destruct (calls_follow cs s1 _ Hok1 Hrun1 HV1) as (Hok2 & Hrun2 & HV2). destruct (observer_calls cs s1) as [out' s2]. cbn in *.
  rewrite <- foldl_app in HV2. split; [done|]. split; [done|]. split.
  - intros now i. pose proof (il_remove_ok now i s2 Hok2) as (_ & _ & Hl). pose proof (il_remove_view now i s2 _ Hok2 HV2) as Hv.
    pose proof (λ k, il_remove_gone now i s2 k Hok2 Hrun2) as Hg. unfold onInterfaceDown, onInterfaceRemoved.
    destruct (il_removeInterface now i s2) as [removed s3]. cbn in *. split; [|done]. intros k. rewrite app_assoc, foldl_app, Hv. apply Hg.
  - intros env' c. destruct (il_stop_ok env' s2 Hok2) as [Hok3 Hrun3].
    change (observer_stop env' s2) with (il_stop env' s2). set (s3 := il_stop env' s2) in *.
    split; [done|]. split; [by apply il_stop_again|]. destruct c as [?|env2|env2 i|env2 i|now i|now i|now]; cbn [observer_call]; [done|..].
    + pose proof (il_refresh_failed env2 s3 (il_refresh_stopped env2 s3 Hrun3)) as Hf. unfold observer_refreshAll. by rewrite Hf.
    + by apply il_interface_stopped.
    + by apply il_interface_stopped.
    + by apply il_remove_stopped.
    + by apply il_remove_stopped.
    + unfold observer_reassertAll. by rewrite il_reassert_stopped.
Qed.
End follows.

(** * [LldpdSource] is such a source *)

(** [en_probe]: the probe's connection, and whether its query was answered. *)
Record LldpdEnv := mkLldpdEnv {
  en_now : time_point; en_start : SourceStart; en_locked : bool; en_built : bool; en_connected : bool; en_walk : list WalkStep;
  en_transport : string; en_probe : SetupInput * bool
}.

#[export] Instance lldpd_source (config : LldpSourceConfig) : ILldpSource LldpdSource := {
  il_env := LldpdEnv;
  il_start env := source_start config (en_now env) (en_start env);
  il_stop env := source_stop (en_locked env);
  il_isRunning := source_isRunning;
  il_isWatchAlive := source_isWatchAlive;
  il_refreshAll env := LldpSource.refreshAll config (en_now env) (en_built env) (en_connected env) (en_walk env);
  il_refreshInterface _ _ s := ([], s);
  il_removeInterface := removeInterface;
  il_reassertAll := reassertAll;
  il_isBackendAlive env _ := isBackendAlive (resolvedCtlPath (en_transport env) config) (en_probe env).1 (en_probe env).2;
  il_lastEventAt := lastEventAt
}.

Definition lldpd_ok (s : LldpdSource) : Prop :=
  source_ok s ∧ gen_ok (ls_cache s) ∧ cache_wf (byInterface_ (ls_cache s)).

Section lldpd.
Context (config : LldpSourceConfig).
Implicit Types s : LldpdSource.

(** What [keeps] gives to a consumer that knows the cache. *)
Lemma keeps_follows n c out c' :
  keeps n ∅ c (out, c') → cache_wf (byInterface_ c) →
  gen_ok c' ∧ cache_wf (byInterface_ c') ∧
  ∀ V : gset (string * string), (∀ p, p ∈ V ↔ cached (byInterface_ c) p) → ∀ p, p ∈ foldl apply_view V out ↔ cached (byInterface_ c') p.
Proof.
  intros K Hwf. split; [by apply (keeps_gen _ _ _ _ K)|]. destruct K as (_ & Wf & Sy). split; [by apply Wf|]. intros V HV p.
  assert (Hn : ∀ P : Prop, p ∈ (∅ : gset (string * string)) ∨ P ↔ P) by set_solver.
  rewrite <- (Hn (cached (byInterface_ c') p)). apply (Sy V). intros q. rewrite HV. set_solver.
Qed.

Lemma clear_ok c : gen_ok c → cache_wf (byInterface_ c) → gen_ok (cache_clear c) ∧ cache_wf (byInterface_ (cache_clear c)).
Proof.
  intros Hg Hwf. unfold cache_clear. case_bool_decide; [done|]. split; [by apply (moved_ok 1 c), moved_1|].
  intros i e k x Hi. cbn in Hi. by rewrite lookup_empty in Hi.
Qed.

Lemma start_contract now i s :
  lldpd_ok s →
  let r := source_start config now i s in
  lldpd_ok r.2 ∧ source_isRunning r.2 = r.1.1 ∧ (r.1.1 = true → ∃ n, keeps n ∅ (ls_cache s) (r.1.2, ls_cache r.2)).
Proof.
  intros (Hok & Hg & Hwf) r. pose proof (start_source_ok config now i s Hok) as Hok'. fold r in Hok'.
  enough (gen_ok (ls_cache r.2) ∧ cache_wf (byInterface_ (ls_cache r.2)) ∧ source_isRunning r.2 = r.1.1 ∧
    (r.1.1 = true → ∃ n, keeps n ∅ (ls_cache s) (r.1.2, ls_cache r.2))) as (? & ? & ? & ?) by by split_and!.
  assert (Hsame : ∀ b out, source_isRunning s = b → (b = true → out = []) →
    gen_ok (ls_cache s) ∧ cache_wf (byInterface_ (ls_cache s)) ∧ source_isRunning s = b ∧ (b = true → ∃ n, keeps n ∅ (ls_cache s) (out, ls_cache s))).
  { intros b out Hb Ho. split; [done|]. split; [done|]. split; [done|]. intros Ht. rewrite (Ho Ht). exists 0%nat. by apply keeps_nil. }
  clear Hok'. unfold r, source_start. pose proof (so_state s Hok) as Hst.
  destruct (decide (ls_lifecycle s = LStopped)) as [Hl|Hl]; rewrite ?(bool_decide_eq_true_2 _ Hl), ?(bool_decide_eq_false_2 _ Hl); cbn [negb].
  2: { destruct Hst as [Hl'|Hl']; [done|]. apply Hsame; [done|]. by intros _. }
  assert (Hs : bool_decide (ls_lifecycle s = LRunning) = false) by (rewrite Hl; done).
  destruct (bool_decide (ls_active s = 0)); cbn [negb]; [|by apply Hsame].
  destruct (ls_teardownIncomplete s); [by apply Hsame|]. destruct (supervisor_start _ _) as [ok sv]. destruct ok; cbn [negb]; [|by apply Hsame].
  match goal with |- context [enumerateInitialNeighbors _ _ _ _ ?x] => set (s0 := x) end.
  destruct (enumerate_keeps config now (ss_connected i) (ss_walk i) s0 ∅ Hg) as (K & _ & L).
  destruct (enumerateInitialNeighbors _ _ _ _ s0) as [out s2]. cbn [fst snd] in *. change (ls_cache s0) with (ls_cache s) in K.
  change (ls_lifecycle s0) with (ls_lifecycle s) in L.
  destruct (keeps_follows _ _ _ _ K Hwf) as (Hg2 & Hwf2 & _). destruct (ss_completes i); cbn [negb].
  - split; [done|]. split; [done|]. split; [done|]. intros _. by eexists.
  - destruct (supervisor_stop _ _) as [stopped sv']. cbn. destruct (clear_ok _ Hg2 Hwf2) as [Hg3 Hwf3].
    destruct stopped; (split; [done|]); (split; [done|]); (split; [|done]); unfold source_isRunning; cbn; by rewrite L.
Qed.

Lemma stop_contract locked s : lldpd_ok s → lldpd_ok (source_stop locked s) ∧ source_isRunning (source_stop locked s) = false.
Proof.
  intros (Hok & Hg & Hwf). pose proof (source_step_ok config _ _ (src_stop config locked s) Hok) as Hok'.
  destruct (clear_ok _ Hg Hwf) as [Hg' Hwf']. unfold source_stop in *. destruct (decide (ls_lifecycle s = LRunning)) as [Hl|Hl];
    rewrite ?(bool_decide_eq_true_2 _ Hl), ?(bool_decide_eq_false_2 _ Hl) in *; cbn [negb] in *.
  - destruct (supervisor_stop _ _) as [stopped sv]. split; [|done]. split; [done|].
    destruct (bool_decide (ls_active _ = 0)), stopped; done.
  - split; [done|]. by apply bool_decide_eq_false_2.
Qed.

Lemma refresh_contract now built connected walk s :
  lldpd_ok s →
  let r := LldpSource.refreshAll config now built connected walk s in
  lldpd_ok r.2 ∧ source_isRunning r.2 = source_isRunning s ∧ ∃ n, keeps n ∅ (ls_cache s) (r.1.2, ls_cache r.2).
Proof.
  intros (Hok & Hg & Hwf) r. pose proof (source_step_ok config _ _ (src_refresh config now built connected walk s) Hok) as Hok'. fold r in Hok'.
  destruct (source_isRunning s) eqn:Hrun.
  - destruct (refresh_keeps config now built connected walk s Hg Hwf) as (K & _ & L); [by rewrite (so_gate s Hok)|]. fold r in K, L.
    destruct (keeps_follows _ _ _ _ K Hwf) as (Hg' & Hwf' & _). split; [by split|]. split; [|by eexists].
    unfold source_isRunning in *. by rewrite L.
  - assert (r = (false, [], s)) as ->; [|split; [done|]; split; [done|]; exists 0%nat; by apply keeps_nil].
    unfold r, LldpSource.refreshAll. unfold source_isRunning in Hrun. by rewrite Hrun.
Qed.

Lemma remove_contract now ifname s :
  lldpd_ok s →
  let r := removeInterface now ifname s in
  lldpd_ok r.2 ∧ source_isRunning r.2 = source_isRunning s ∧ lastEventAt r.2 = lastEventAt s ∧ keeps 1 ∅ (ls_cache s) (r.1, ls_cache r.2).
Proof.
  intros (Hok & Hg & Hwf) r. pose proof (source_step_ok config _ _ (src_remove config now ifname s) Hok) as Hok'. fold r in Hok'.
  destruct (remove_keeps now ifname s Hg Hwf) as (K & _ & L). fold r in K, L. destruct (keeps_follows _ _ _ _ K Hwf) as (Hg' & Hwf' & _).
  split; [by split|]. split; [unfold source_isRunning; by rewrite L|]. split; [|done].
  unfold r, removeInterface, lastEventAt. destruct (negb _); [done|]. by destruct (flushInterface _ _).
Qed.

(** Undisturbed, a batch is delivered in full. *)
Lemma emitBatch_all turns batch g s : generation_ (ls_cache s) = g → turns = length batch → emitBatch_loop turns (batch, g) s = batch.
Proof.
  intros Hg ->. induction batch as [|obs batch IH]; [done|]. cbn [length emitBatch_loop]. unfold emitBatch_next. cbn [fst snd].
  rewrite bool_decide_eq_false_2 by (rewrite Hg; tauto). cbn [app]. by rewrite IH.
Qed.

Lemma elem_of_keepalive now m obs :
  obs ∈ keepalive_batch now m ↔ ∃ i e k x, m !! i = Some e ∧ e !! k = Some x ∧ obs = makeLldpObservation now i EvPresent x true.
Proof.
  unfold keepalive_batch. rewrite list_elem_of_bind. split.
  - intros ([i e] & Ho & He%elem_of_map_to_list). apply list_elem_of_fmap in Ho as ([k x] & -> & Hx%elem_of_map_to_list). by exists i, e, k, x.
  - intros (i & e & k & x & He & Hx & ->). exists (i, e). split; [|by apply elem_of_map_to_list].
    apply list_elem_of_fmap. exists (k, x). split; [done|]. by apply elem_of_map_to_list.
Qed.

Lemma reassert_all now s : ls_gate s = true → reassertAll now s = keepalive_batch now (byInterface_ (ls_cache s)).
Proof. intros Hg. unfold reassertAll. rewrite Hg. cbn [negb]. unfold emitBatch_begin, cache_snapshot. cbn [fst]. by apply emitBatch_all. Qed.

#[export, refine] Instance lldpd_contract : @ILldpSourceContract LldpdSource (lldpd_source config) := {
  il_ok := lldpd_ok;
  il_cached s := cached (byInterface_ (ls_cache s))
}.
Proof.
  - intros env s Hok. by destruct (start_contract (en_now env) (en_start env) s Hok) as (? & ? & _).
  - intros env s Hr. cbn in *. unfold source_isRunning in Hr. apply bool_decide_eq_true in Hr. unfold source_start. by rewrite Hr.
  - intros env s V Hok HV Hst. destruct (start_contract (en_now env) (en_start env) s Hok) as (_ & _ & K). destruct (K Hst) as [n K'].
    apply (keeps_follows _ _ _ _ K'); [apply Hok|done].
  - intros env s Hok. by apply stop_contract.
  - intros env s Hr. cbn in *. unfold source_isRunning in Hr. unfold source_stop. by rewrite Hr.
  - intros env s Hok. by destruct (refresh_contract (en_now env) (en_built env) (en_connected env) (en_walk env) s Hok) as (? & ? & _).
  - intros env s. cbn. unfold LldpSource.refreshAll. destruct (negb (bool_decide _)); [done|].
    destruct (supervisor_refresh _ _) as [ok sv]. destruct ok; cbn [negb]; [|done]. destruct (cache_exchange _ _).
    by destruct (enumerateInitialNeighbors _ _ _ _ _).
  - intros env s Hr. cbn in *. unfold source_isRunning in Hr. unfold LldpSource.refreshAll. by rewrite Hr.
  - intros env s V Hok HV. destruct (refresh_contract (en_now env) (en_built env) (en_connected env) (en_walk env) s Hok) as (_ & _ & n & K).
    apply (keeps_follows _ _ _ _ K); [apply Hok|done].
  - done.
  - done.
  - intros env i s V Hok HV. exact HV.
  - intros now i s Hok. by destruct (remove_contract now i s Hok) as (? & ? & ? & _).
  - intros now i s (Hok & _) Hr. cbn in *. unfold removeInterface. by rewrite (so_gate s Hok), Hr.
  - intros now i s V Hok HV. destruct (remove_contract now i s Hok) as (_ & _ & _ & K). apply (keeps_follows _ _ _ _ K); [apply Hok|done].
  - intros now i s obs. cbn. unfold removeInterface. destruct (negb _); [by intros ?%elem_of_nil|]. destruct (flushInterface _ _) as [gone c].
    by intros (x & -> & _)%list_elem_of_fmap.
  - intros now i s k (Hok & _) Hr. cbn in *. unfold removeInterface. rewrite (so_gate s Hok), Hr. cbn [negb]. unfold flushInterface, cached.
    destruct (byInterface_ (ls_cache s) !! i) eqn:Hi; cbn; [rewrite lookup_delete_eq; by intros []|rewrite Hi; by intros []].
  - intros now s (Hok & _) Hr. cbn in *. unfold reassertAll. by rewrite (so_gate s Hok), Hr.
  - intros now s p (Hok & _ & Hwf) Hr. cbn in *. rewrite reassert_all by (by rewrite (so_gate s Hok)). setoid_rewrite elem_of_keepalive.
    unfold cached, obs_key. destruct p as [i k]. cbn. split.
    + intros [x Hx]. destruct (byInterface_ (ls_cache s) !! i) as [e|] eqn:He; [|done]. cbn in Hx. eexists. split; [by exists i, e, k, x|].
      cbn. by destruct (Hwf _ _ _ _ He Hx) as [-> _].
    + intros (obs & (i' & e & k' & x & He & Hx & ->) & Hk). cbn in Hk. destruct (Hwf _ _ _ _ He Hx) as [Hid _]. rewrite Hid in Hk.
      injection Hk as -> ->. rewrite He. by exists x.
  - intros now s obs. cbn. unfold reassertAll. destruct (ls_gate s) eqn:Hg; cbn [negb]; [|by intros ?%elem_of_nil].
    unfold emitBatch_begin, cache_snapshot. cbn [fst]. rewrite emitBatch_all by done. by intros (? & ? & ? & ? & _ & _ & ->)%elem_of_keepalive.
Defined.
End lldpd.

(** * Where the source does not keep to its documentation *)

(** Without [emitRemovals] a deletion that lldpd reports is dropped before the cache
    is told, so the keepalives go on for a neighbour that was reported deleted. *)
Lemma unreported_deletion_kept_alive :
  let config := mkLldpConfig [] false "" in
  let '(_, s) := source_start config 1 demo_source_start new_source in
  let '(out, s) := onWatchChange config 2 "eth0" lldpctl_c_deleted (demo_nb "1") s in
  out = [] ∧ ((λ o, (ll_event o, ll_keepalive o, obs_key o)) <$> reassertAll 3 s) =
    [(EvPresent, true, ("eth0", "02:00:00:00:00:01")); (EvPresent, true, ("eth0", "02:00:00:00:00:02"))].
Proof. vm_compute. split; reflexivity. Qed.
