(* ===== verification/Runtime.v ===== *)
(** [service/ObservationItem.h], [service/BoundedObservationQueue.h] and
    [service/NetlinkLldpObservationRuntime.cpp]: the queue between the producers
    and the model, the supervision of the LLDP observer, the repair of dropped
    observations, and the runtime's life cycle.

    [bounded_queue] and [ManagedWorker] are libraries: the queue is a class with
    the laws its documentation states, the outcomes of starts are inputs. *)

From S2P Require Import Prelude Contract Observation LocalState Filter Engine EngineProps EngineEvents.

(** * [ObservationItem] *)

Inductive ObservationSource := SrcNetlink | SrcLldp.

#[export] Instance ObservationSource_eq_dec : EqDecision ObservationSource.
Proof. solve_decision. Defined.

(** The enumerators' values. *)
Definition source_index (s : ObservationSource) : Z := match s with SrcNetlink => 0 | SrcLldp => 1 end.

(** [1u << source] *)
Definition sourceBit (s : ObservationSource) : Z := Z.shiftl 1 (source_index s).

Inductive ObservationPayload :=
| PLink (o : LinkObservation) | PAddress (o : AddressObservation) | PNeighbor (o : NeighborObservation)
| PFdb (o : FdbObservation) | PLldp (o : LldpObservation).

Record ObservationItem := mkItem { it_source : ObservationSource; it_payload : ObservationPayload }.

(** * [thread_safe::bounded_queue] *)

(** [bq_push] also gives the items the drop hook is called with. *)
Class BoundedQueue (Q : Type) := {
  bq_push : ObservationItem → Q → bool * list ObservationItem * Q;
  bq_tryPop : Q → option ObservationItem * Q;
  bq_discardAll : Q → Q;
  bq_reopen : Q → Q;
  bq_close : Q → Q;
  bq_items : Q → list ObservationItem;
  bq_closed : Q → bool;
  bq_capacity : Q → nat
}.

Class BoundedQueueLaws (Q : Type) `{BoundedQueue Q} := {
  bq_bound q : 0 < bq_capacity q ∧ length (bq_items q) ≤ bq_capacity q;
  bq_push_closed x q : bq_closed q = true → bq_push x q = (true, [], q);
  bq_push_room x q : bq_closed q = false → length (bq_items q) < bq_capacity q →
    (bq_push x q).1 = (true, []) ∧ bq_items (bq_push x q).2 = bq_items q ++ [x] ∧ bq_closed (bq_push x q).2 = false;
  bq_push_full x q y l : bq_closed q = false → bq_items q = y :: l → length (bq_items q) = bq_capacity q →
    (bq_push x q).1 = (false, [y]) ∧ bq_items (bq_push x q).2 = l ++ [x] ∧ bq_closed (bq_push x q).2 = false;
  bq_pop_empty q : bq_items q = [] → bq_tryPop q = (None, q);
  bq_pop_item q y l : bq_items q = y :: l →
    (bq_tryPop q).1 = Some y ∧ bq_items (bq_tryPop q).2 = l ∧ bq_closed (bq_tryPop q).2 = bq_closed q;
  bq_discarded q : bq_items (bq_discardAll q) = [] ∧ bq_closed (bq_discardAll q) = bq_closed q;
  bq_reopened q : bq_items (bq_reopen q) = [] ∧ bq_closed (bq_reopen q) = false;
  bq_closing q : bq_items (bq_close q) = bq_items q ∧ bq_closed (bq_close q) = true
}.

(** * [BoundedObservationQueue] *)

Section queue.
Context {Q : Type} `{BoundedQueueLaws Q}.

Record BoundedObservationQueue := mkQueue { resyncMask_ : Z; queue_ : Q }.

(** The drop hook raises the bit of the source of the discarded item. *)
Definition queue_push (x : ObservationItem) (q : BoundedObservationQueue) : bool * BoundedObservationQueue :=
  let '(kept, discarded, inner) := bq_push x (queue_ q) in
  (kept, mkQueue (foldl (λ m y, Z.lor m (sourceBit (it_source y))) (resyncMask_ q) discarded) inner).

Definition queue_tryPop (q : BoundedObservationQueue) : option ObservationItem * BoundedObservationQueue :=
  let '(x, inner) := bq_tryPop (queue_ q) in (x, mkQueue (resyncMask_ q) inner).

Definition queue_discardAll (q : BoundedObservationQueue) : BoundedObservationQueue :=
  mkQueue (resyncMask_ q) (bq_discardAll (queue_ q)).

Definition takeResyncMask (q : BoundedObservationQueue) : Z * BoundedObservationQueue :=
  (resyncMask_ q, mkQueue 0 (queue_ q)).

Definition raiseResync (s : ObservationSource) (q : BoundedObservationQueue) : BoundedObservationQueue :=
  mkQueue (Z.lor (resyncMask_ q) (sourceBit s)) (queue_ q).

Definition queue_reopen (q : BoundedObservationQueue) : BoundedObservationQueue := mkQueue 0 (bq_reopen (queue_ q)).

Definition queue_close (q : BoundedObservationQueue) : BoundedObservationQueue :=
  mkQueue (resyncMask_ q) (bq_close (queue_ q)).

(** The sinks of [makeCallbacks] and the downstream of [createLldpObserver]: an
    observation is queued under the source that made it. *)
Definition makeCallbacks_sink (p : ObservationPayload) (q : BoundedObservationQueue) : bool * BoundedObservationQueue :=
  queue_push (mkItem SrcNetlink p) q.

Definition createLldpObserver_downstream (o : LldpObservation) (q : BoundedObservationQueue)
    : bool * BoundedObservationQueue := queue_push (mkItem SrcLldp (PLldp o)) q.

(** * The consumer *)

Definition applyObservation `{InetPton} (now t2 : time_point) (item : ObservationItem) (e : ObservationModelEngine)
    : ObservationModelEngine * Deliveries :=
  match it_payload item with
  | PLink o => onLinkObservation o now e
  | PAddress o => onAddressObservation o now e
  | PNeighbor o => onNeighborObservation o now t2 e
  | PFdb o => onFdbObservation o now t2 e
  | PLldp o => onLldpObservation o now t2 e
  end.

(** * Supervision of the LLDP observer *)

Definition kLldpRetryInterval : Z := seconds 30.
Definition kLldpProbeInterval : Z := seconds 60.
Definition kLldpReconnectFailureLimit : Z := 5.

(** [std::clamp(candidateAgeout / 2, 10s, 300s)], [candidateAgeout] in seconds. *)
Definition deriveReassertInterval (candidateAgeoutSeconds : Z) : Z :=
  seconds (Z.min (Z.max (Z.quot candidateAgeoutSeconds 2) 10) 300).

(** The members the tick thread touches; [rt_observer]: an observer is published. *)
Record Supervision := mkSupervision {
  rt_observer : bool; rt_lastReassert : time_point; rt_lastLldpAttempt : time_point;
  rt_lastLldpReconnect : time_point; rt_lastLldpProbe : time_point;
  rt_reconnectFailures : Z; rt_retryCount : Z
}.

Definition eta_supervision (s : Supervision) : Supervision :=
  mkSupervision (rt_observer s) (rt_lastReassert s) (rt_lastLldpAttempt s) (rt_lastLldpReconnect s)
    (rt_lastLldpProbe s) (rt_reconnectFailures s) (rt_retryCount s).

#[export] Instance set_rt_observer : Setter rt_observer := ltac:(mk_setter eta_supervision rt_observer).
#[export] Instance set_rt_lastReassert : Setter rt_lastReassert := ltac:(mk_setter eta_supervision rt_lastReassert).
#[export] Instance set_rt_lastLldpAttempt : Setter rt_lastLldpAttempt :=
  ltac:(mk_setter eta_supervision rt_lastLldpAttempt).
#[export] Instance set_rt_lastLldpReconnect : Setter rt_lastLldpReconnect :=
  ltac:(mk_setter eta_supervision rt_lastLldpReconnect).
#[export] Instance set_rt_lastLldpProbe : Setter rt_lastLldpProbe := ltac:(mk_setter eta_supervision rt_lastLldpProbe).
#[export] Instance set_rt_failures : Setter rt_reconnectFailures := ltac:(mk_setter eta_supervision rt_reconnectFailures).
#[export] Instance set_rt_retryCount : Setter rt_retryCount := ltac:(mk_setter eta_supervision rt_retryCount).

(** What the observer answers during a tick: [isRunning], [isWatchAlive],
    [isBackendAlive] and [refreshAll]. *)
Record ObserverAnswers := mkAnswers {
  oa_running : bool; oa_watchAlive : bool; oa_backendAlive : bool; oa_refresh : bool
}.

(** The current observer, whether a candidate starts and what it answers if it
    is published, and whether a redump succeeds ([monitor_] included). *)
Record TickInputs := mkTickInputs {
  ti_current : ObserverAnswers; ti_starts : bool; ti_candidate : ObserverAnswers; ti_redump : bool
}.

(** Calls on the observer, in order; [TDrop]: it is unpublished, because
    it stopped or because its repair keeps failing. *)
Inductive TickAction :=
| TRefresh (ok : bool) | TProbe (ok : bool) | TDrop (stopped : bool) | TAcquire (ok : bool) | TReassert
| TDiscardBacklog | TRedump (ok : bool).

(** [reconnectLldp] on an observer that answers [a]. *)
Definition reconnectLldp (a : ObserverAnswers) (now : time_point) (s : Supervision)
    : bool * list TickAction * Supervision :=
  if (now - rt_lastLldpReconnect s <? kLldpRetryInterval)%Z then (false, [], s)
  else
    let s := s <| rt_lastLldpReconnect := now |> in
    if negb (oa_refresh a) then (false, [TRefresh false], s <| rt_reconnectFailures := (rt_reconnectFailures s + 1)%Z |>)
    else (true, [TRefresh true], s <| rt_reconnectFailures := 0%Z |>).

(** The part of [superviseLldp] for a missing observer. *)
Definition acquireLldp (i : TickInputs) (now : time_point) (s : Supervision) : list TickAction * Supervision :=
  if (now - rt_lastLldpAttempt s <? kLldpRetryInterval)%Z then ([], s)
  else
    let s := s <| rt_lastLldpAttempt := now |> in
    if negb (ti_starts i) then ([TAcquire false], s <| rt_retryCount := (rt_retryCount s + 1)%Z |>)
    else ([TAcquire true],
          s <| rt_observer := true |> <| rt_retryCount := 0%Z |> <| rt_reconnectFailures := 0%Z |>
            <| rt_lastLldpReconnect := 0%Z |>).

Definition superviseLldp (i : TickInputs) (now : time_point) (s : Supervision) : list TickAction * Supervision :=
  let a := ti_current i in
  let '(acts, s) :=
    if rt_observer s && negb (oa_running a) then ([TDrop true], s <| rt_observer := false |>) else ([], s) in
  if rt_observer s then
    if negb (oa_watchAlive a) then
      let '(ok, acts1, s) := reconnectLldp a now s in
      if ok : bool then (acts ++ acts1, s)
      else if (rt_reconnectFailures s <? kLldpReconnectFailureLimit)%Z then (acts ++ acts1, s)
      else
        let s := s <| rt_observer := false |> <| rt_reconnectFailures := 0%Z |> <| rt_lastLldpReconnect := 0%Z |>
                   <| rt_lastLldpAttempt := 0%Z |> in
        let '(acts2, s) := acquireLldp i now s in (acts ++ acts1 ++ [TDrop false] ++ acts2, s)
    else if (kLldpProbeInterval <=? now - rt_lastLldpProbe s)%Z then
      let s := s <| rt_lastLldpProbe := now |> in
      if negb (oa_backendAlive a) then
        let '(_, acts1, s) := reconnectLldp a now s in (acts ++ [TProbe false] ++ acts1, s)
      else (acts ++ [TProbe true], s)
    else (acts, s)
  else let '(acts2, s) := acquireLldp i now s in (acts ++ acts2, s).

(** The observer that is published after [superviseLldp]: the candidate if one
    was acquired. *)
Definition acquired (acts : list TickAction) : bool :=
  existsb (λ a, match a with TAcquire true => true | _ => false end) acts.

Definition reassertLldpNeighbors (reassertInterval : Z) (a : ObserverAnswers) (now : time_point) (s : Supervision)
    : list TickAction * Supervision :=
  if negb (rt_observer s) || negb (oa_running a) then ([], s)
  else if (now - rt_lastReassert s <? reassertInterval)%Z then ([], s)
  else ([TReassert], s <| rt_lastReassert := now |>).

Definition performResync (redump : bool) (a : ObserverAnswers) (now : time_point) (q : BoundedObservationQueue)
    (s : Supervision) : list TickAction * BoundedObservationQueue * Supervision :=
  let '(mask, q) := takeResyncMask q in
  if (mask =? 0)%Z then ([], q, s)
  else
    let '(acts1, q) :=
      if negb (Z.land mask (sourceBit SrcNetlink) =? 0)%Z then
        let q := queue_discardAll q in
        ([TDiscardBacklog; TRedump redump], if negb redump then raiseResync SrcNetlink q else q)
      else ([], q) in
    if negb (Z.land mask (sourceBit SrcLldp) =? 0)%Z then
      if negb (rt_observer s) then (acts1, q, s)
      else
        let '(ok, acts2, s) := reconnectLldp a now s in
        (acts1 ++ acts2, if negb ok then raiseResync SrcLldp q else q, s)
    else (acts1, q, s).

Definition tick (reassertInterval : Z) (i : TickInputs) (now : time_point) (q : BoundedObservationQueue)
    (s : Supervision) : list TickAction * BoundedObservationQueue * Supervision :=
  let '(acts1, s) := superviseLldp i now s in
  let a := if acquired acts1 then ti_candidate i else ti_current i in
  let '(acts2, s) := reassertLldpNeighbors reassertInterval a now s in
  let '(acts3, q, s) := performResync (ti_redump i) a now q s in
  (acts1 ++ acts2 ++ acts3, q, s).

(** * Life cycle *)

(** Calls on the parts, in order, with the outcome where there is one. *)
Inductive RuntimeAction :=
| RPrepareForRestart | RReopenQueue | RStartConsumer (ok : bool) | RStartLldp (ok : bool) | RStartMonitor (ok : bool)
| RMarkLive | RStopMonitor | RStopLldp | RCloseQueue | RStopConsumer | RDetachSink.

(** [rn_monitor]: [monitor_] is set. *)
Record Runtime := mkRuntime {
  rn_monitor : bool; observationWorkerFailed_ : bool; rn_supervision : Supervision; observationQueue_ : BoundedObservationQueue
}.

(** Whether the consumer, the LLDP observer and the monitor start. *)
Record RuntimeOutcomes := mkRuntimeOutcomes { ro_consumer : bool; ro_lldp : bool; ro_monitor : bool }.

(** The steps [stop] and [cleanUpFailedStart] share. *)
Definition stop_parts (r : Runtime) : list RuntimeAction * Runtime :=
  ((if rn_monitor r then [RStopMonitor] else []) ++ (if rt_observer (rn_supervision r) then [RStopLldp] else []) ++
     [RCloseQueue; RStopConsumer],
   mkRuntime false (observationWorkerFailed_ r) ((rn_supervision r) <| rt_observer := false |>)
     (queue_close (observationQueue_ r))).

Definition cleanUpFailedStart (r : Runtime) : list RuntimeAction * Runtime := stop_parts r.

Definition runtime_start (o : RuntimeOutcomes) (r : Runtime) : bool * list RuntimeAction * Runtime :=
  if rn_monitor r then (false, [], r)
  else
    let r := mkRuntime false false (rn_supervision r) (queue_reopen (observationQueue_ r)) in
    let tr := [RPrepareForRestart; RReopenQueue; RStartConsumer (ro_consumer o)] in
    if negb (ro_consumer o) then let '(acts, r) := cleanUpFailedStart r in (false, tr ++ acts, r)
    else
      let s := if ro_lldp o then
        (rn_supervision r) <| rt_observer := true |> <| rt_reconnectFailures := 0%Z |> <| rt_lastLldpReconnect := 0%Z |>
      else rn_supervision r in
      let r := mkRuntime true false s (observationQueue_ r) in
      let tr := tr ++ [RStartLldp (ro_lldp o); RStartMonitor (ro_monitor o)] in
      if negb (ro_monitor o) then let '(acts, r) := cleanUpFailedStart r in (false, tr ++ acts, r)
      else (true, tr ++ [RMarkLive], r).

Definition runtime_stop (r : Runtime) : list RuntimeAction * Runtime :=
  let '(acts, r) := stop_parts r in (acts ++ [RDetachSink], r).

(** [exception]: the consumer ended with one. *)
Definition onObservationWorkerExit (exception : bool) (r : Runtime) : Runtime :=
  if negb exception then r else mkRuntime (rn_monitor r) true (rn_supervision r) (observationQueue_ r).

(** [monitorRunning]: [monitor_->isRunning()]. *)
Definition runtime_isRunning (monitorRunning : bool) (r : Runtime) : bool :=
  if observationWorkerFailed_ r then false else rn_monitor r && monitorRunning.

(** [running] and [lldpAvailable]. *)
Definition runtime_health (monitorRunning observerRunning : bool) (r : Runtime) : bool * bool :=
  (runtime_isRunning monitorRunning r, rt_observer (rn_supervision r) && observerRunning).

(** ** Construction *)

Definition kObservationQueueCapacity : nat := Z.to_nat 4096.

(** [bq_new]: the constructor of the container. *)
Definition new_runtime_queue (bq_new : nat → Q) : Runtime :=
  mkRuntime false false (mkSupervision false 0 0 0 0 0 0) (mkQueue 0 (bq_new kObservationQueueCapacity)).

(** The keepalive period, the model and the rest. *)
Definition new_NetlinkLldpObservationRuntime (bq_new : nat → Q) (config : ModelConfig) : Z * ObservationModelEngine * Runtime :=
  (deriveReassertInterval (Z.quot (candidateAgeout config) (seconds 1)), engine_init config, new_runtime_queue bq_new).

(** With an injected model. *)
Definition new_runtime_with (bq_new : nat → Q) (model : ObservationModelEngine) (reassertInterval : Z)
    : Z * ObservationModelEngine * Runtime := (reassertInterval, model, new_runtime_queue bq_new).

Definition setLldpSourceFactoryForTest {F} (factory : F) (monitorRunning : bool) (r : Runtime) (current : F) : result string F :=
  if runtime_isRunning monitorRunning r then Err "setLldpSourceFactoryForTest: must be called before start()" else Ok factory.

(** ** Calls that go on to the model *)

Definition runtime_setEventSink (sink : option nat) (model : ObservationModelEngine) : ObservationModelEngine := setEventSink sink model.
Definition runtime_setInterfacePolicy (policy : IInterfacePolicy) (model : ObservationModelEngine) : ObservationModelEngine :=
  setInterfacePolicy policy model.
Definition runtime_setClassifier (classifier : ICandidateClassifier) (model : ObservationModelEngine) : ObservationModelEngine :=
  setClassifier classifier model.
Definition runtime_localSnapshot (model : ObservationModelEngine) : LocalNetworkSnapshot := localSnapshot model.
Definition runtime_remoteCandidates (model : ObservationModelEngine) : list RemoteCandidate := remoteCandidates model.
Definition runtime_findCandidateByMac (mac : string) (model : ObservationModelEngine) : option RemoteCandidate :=
  findCandidateByMac mac model.
Definition runtime_age (now t2 : time_point) (model : ObservationModelEngine) : ObservationModelEngine * Deliveries := age now t2 model.
End queue.
Arguments BoundedObservationQueue : clear implicits.
Arguments mkQueue {Q} resyncMask_ queue_.
Arguments Runtime : clear implicits.
Arguments mkRuntime {Q} rn_monitor observationWorkerFailed_ rn_supervision observationQueue_.
Arguments rn_monitor {Q} r.
Arguments observationWorkerFailed_ {Q} r.
Arguments rn_supervision {Q} r.
Arguments observationQueue_ {Q} r.

(** * Specification: runs of the queue *)

Section accounting.
Context {Q : Type} `{BoundedQueueLaws Q}.

(** Producers push, the consumer pops, the tick takes the mask. *)
Inductive QueueOp := QPush (x : ObservationItem) | QPop | QTake.

(** The queue, what was popped in order, and every bit taken so far. *)
Definition QueueRun : Type := BoundedObservationQueue Q * list ObservationItem * Z.

Definition queue_op (op : QueueOp) (st : QueueRun) : QueueRun :=
  let '(q, popped, taken) := st in
  match op with
  | QPush x => ((queue_push x q).2, popped, taken)
  | QPop => let '(x, q) := queue_tryPop q in (q, popped ++ option_list x, taken)
  | QTake => let '(mask, q) := takeResyncMask q in (q, popped, Z.lor taken mask)
  end.

Definition pushes (ops : list QueueOp) : list ObservationItem :=
  omap (λ op, match op with QPush x => Some x | _ => None end) ops.

Definition has_bit (m : Z) (s : ObservationSource) : Prop := Z.land m (sourceBit s) ≠ 0%Z.

Lemma has_bit_testbit m s : has_bit m s ↔ Z.testbit m (source_index s) = true.
Proof.
  unfold has_bit, sourceBit. set (n := source_index s).
  assert (Hn : (0 ≤ n)%Z) by (subst n; destruct s; cbn; lia). rewrite Z.shiftl_1_l. split.
  - intros Hne. destruct (Z.testbit m n) eqn:Hb; [done|]. destruct Hne. apply Z.bits_inj'. intros k Hk.
    rewrite Z.land_spec, Z.bits_0, Z.pow2_bits_eqb by done. destruct (Z.eqb_spec n k) as [<-|]; [by rewrite Hb|apply andb_false_r].
  - intros Hb He. apply (f_equal (λ z, Z.testbit z n)) in He. rewrite Z.land_spec, Hb, Z.bits_0, Z.pow2_bits_true in He; done.
Qed.

Lemma has_bit_lor m m' s : has_bit (Z.lor m m') s ↔ has_bit m s ∨ has_bit m' s.
Proof. rewrite !has_bit_testbit, Z.lor_spec. apply orb_true_iff. Qed.

Lemma has_bit_source s s' : has_bit (sourceBit s) s' ↔ s = s'.
Proof. rewrite has_bit_testbit. destruct s, s'; split; done. Qed.

Lemma has_bit_0 s : ¬ has_bit 0 s.
Proof. unfold has_bit. rewrite Z.land_0_l. congruence. Qed.

Lemma sublist_all {A} (l k : list A) : l `sublist_of` k → length l = length k → l = k.
Proof.
  induction 1 as [|x l k Hs IH|x l k Hs IH]; cbn; intros Hl; [done|f_equal; apply IH; congruence|].
  apply sublist_length in Hs. lia.
Qed.

(** The accounting: what was pushed is popped, queued or dropped, and a drop is
    on record. *)
Record accounted (pushed : list ObservationItem) (st : QueueRun) : Prop := mkAccounted {
  ac_open : bq_closed (queue_ st.1.1) = false;
  ac_order : (st.1.2 ++ bq_items (queue_ st.1.1)) `sublist_of` pushed;
  ac_dropped : ∃ dropped, pushed ≡ₚ st.1.2 ++ bq_items (queue_ st.1.1) ++ dropped ∧
    Forall (λ x, has_bit (Z.lor (resyncMask_ st.1.1) st.2) (it_source x)) dropped
}.

Lemma accounted_push x pushed st : accounted pushed st → accounted (pushed ++ [x]) (queue_op (QPush x) st).
Proof.
  destruct st as [[q popped] taken]. intros [Ho Hs (dropped & Hp & Hd)]. cbn in *. unfold queue_push.
  destruct (bq_bound (queue_ q)) as [Hcap Hlen].
  destruct (decide (length (bq_items (queue_ q)) < bq_capacity (queue_ q))) as [Hlt|Hge].
  - destruct (bq_push_room x (queue_ q) Ho Hlt) as (H1 & H2 & H3).
    destruct (bq_push x (queue_ q)) as [[kept disc] inner]. cbn in *. injection H1 as -> ->. cbn.
    split; cbn; rewrite ?H2; [done| |].
    + rewrite (assoc_L (++)). by apply sublist_app.
    + exists dropped. split; [|done]. rewrite Hp. solve_Permutation.
  - destruct (bq_items (queue_ q)) as [|y l] eqn:Hi; [cbn in *; lia|].
    destruct (bq_push_full x (queue_ q) y l Ho Hi) as (H1 & H2 & H3); [rewrite Hi; lia|].
    destruct (bq_push x (queue_ q)) as [[kept disc] inner]. cbn in *. injection H1 as -> ->. cbn.
    split; cbn; rewrite ?H2; [done| |].
    + rewrite (assoc_L (++)). apply sublist_app; [|done]. etrans; [|exact Hs]. apply sublist_app; [done|].
      by apply sublist_cons.
    + exists (y :: dropped). split; [rewrite Hp; solve_Permutation|]. constructor.
      * rewrite !has_bit_lor, has_bit_source. auto.
      * eapply Forall_impl; [exact Hd|]. intros z. cbn. rewrite !has_bit_lor. tauto.
Qed.

Lemma accounted_op op pushed st : accounted pushed st → accounted (pushed ++ pushes [op]) (queue_op op st).
Proof.
  destruct op as [x| |]; [apply accounted_push|..]; cbn [pushes omap list_omap]; rewrite app_nil_r;
    destruct st as [[q popped] taken]; intros [Ho Hs (dropped & Hp & Hd)]; cbn in *.
  - unfold queue_tryPop. destruct (bq_items (queue_ q)) as [|y l] eqn:Hi.
    + rewrite (bq_pop_empty _ Hi). split; cbn; rewrite ?Hi, ?(app_nil_r popped); [done|by rewrite app_nil_r in Hs|by exists dropped].
    + destruct (bq_pop_item _ y l Hi) as (H1 & H2 & H3). destruct (bq_tryPop (queue_ q)) as [o inner]. cbn in *.
      subst o. split; cbn; rewrite ?H2, <- ?(assoc_L (++)); [congruence|done|].
      exists dropped. by rewrite <- (assoc_L (++)).
  - split; cbn; [done|done|]. exists dropped. split; [done|]. eapply Forall_impl; [exact Hd|].
    intros z. cbn. rewrite !has_bit_lor. tauto.
Qed.

Lemma accounted_run ops pushed st : accounted pushed st → accounted (pushed ++ pushes ops) (foldl (λ st op, queue_op op st) st ops).
Proof.
  revert pushed st. induction ops as [|op ops IH]; intros pushed st Ha; [by rewrite app_nil_r|].
  apply (accounted_op op) in Ha. apply IH in Ha. cbn [foldl].
  assert (pushes (op :: ops) = pushes [op] ++ pushes ops) as -> by (destruct op; done).
  by rewrite (assoc_L (++)).
Qed.

(** Without a drop, what was popped and what is left are what was pushed. *)
Lemma accounted_lossless pushed st :
  accounted pushed st → Z.lor (resyncMask_ st.1.1) st.2 = 0%Z → st.1.2 ++ bq_items (queue_ st.1.1) = pushed.
Proof.
  intros [_ Hs (dropped & Hp & Hd)] Hz. destruct dropped as [|x dropped].
  - rewrite app_nil_r in Hp. apply sublist_all; [done|]. by rewrite Hp.
  - apply Forall_inv in Hd. rewrite Hz in Hd. by apply has_bit_0 in Hd.
Qed.

Lemma queue_accounted q0 ops :
  bq_items (queue_ q0) = [] → bq_closed (queue_ q0) = false → resyncMask_ q0 = 0%Z →
  accounted (pushes ops) (foldl (λ st op, queue_op op st) (q0, [], 0%Z) ops).
Proof.
  intros Hi Hc Hm. apply (accounted_run ops []). split; cbn; rewrite ?Hi; [done|done|]. by exists [].
Qed.

(** Observations do not get lost without a trace between the producers and
    the model: however pushes, pops and mask reads interleave, what the model
    was given and what is still queued are, in order, what was pushed less the
    dropped items, and the source of every dropped item has its bit in the mask
    or had it when the mask was read; with no bit ever raised the model gets
    exactly what was observed, in order. *)
Theorem queue_drops_accounted q0 ops :
  bq_items (queue_ q0) = [] → bq_closed (queue_ q0) = false → resyncMask_ q0 = 0%Z →
  let '(q, popped, taken) := foldl (λ st op, queue_op op st) (q0, [], 0%Z) ops in
  let left := bq_items (queue_ q) in
  (popped ++ left) `sublist_of` pushes ops ∧
  (∃ dropped, pushes ops ≡ₚ popped ++ left ++ dropped ∧
    Forall (λ x, has_bit (Z.lor (resyncMask_ q) taken) (it_source x)) dropped) ∧
  (Z.lor (resyncMask_ q) taken = 0%Z → popped ++ left = pushes ops).
Proof.
  intros Hi Hc Hm. pose proof (queue_accounted q0 ops Hi Hc Hm) as Ha. pose proof (accounted_lossless _ _ Ha) as Hl.
  destruct (foldl _ _ ops) as [[q popped] taken]. destruct Ha as [_ Hs Hd]. cbn in *. by split_and!.
Qed.
End accounting.

(** * Specification: runs of the supervision *)

Section supervision.
Context {Q : Type} `{BoundedQueueLaws Q} (reassertInterval : Z).

(** Producers and the consumer between the ticks. *)
Inductive RuntimeOp := ROffer (x : ObservationItem) | RConsume | RTick (i : TickInputs) (now : time_point).

Definition TickLog : Type := list (time_point * TickAction).

Definition runtime_op (op : RuntimeOp) (st : BoundedObservationQueue Q * Supervision)
    : TickLog * (BoundedObservationQueue Q * Supervision) :=
  let '(q, s) := st in
  match op with
  | ROffer x => ([], ((queue_push x q).2, s))
  | RConsume => ([], ((queue_tryPop q).2, s))
  | RTick i now => let '(acts, q, s) := tick reassertInterval i now q s in (pair now <$> acts, (q, s))
  end.

Fixpoint runtime_run (ops : list RuntimeOp) (st : BoundedObservationQueue Q * Supervision)
    : TickLog * (BoundedObservationQueue Q * Supervision) :=
  match ops with
  | [] => ([], st)
  | op :: ops => let '(l1, st) := runtime_op op st in let '(l2, st) := runtime_run ops st in (l1 ++ l2, st)
  end.

(** The protocol an observer is supervised by: absent, or present with the
    failures since it was last known good and the time of its last refresh. *)
Definition Supervised : Type := option (Z * time_point).

Definition supervised (s : Supervision) : Supervised :=
  if rt_observer s then Some (rt_reconnectFailures s, rt_lastLldpReconnect s) else None.

(** [None]: the action violates the protocol. *)
Definition protocol_step (st : Supervised) (ta : time_point * TickAction) : option Supervised :=
  match st, ta.2 with
  | _, (TDiscardBacklog | TRedump _) => Some st
  | Some (f, last), TRefresh ok =>
      if (ta.1 - last <? kLldpRetryInterval)%Z then None else Some (Some (if ok then 0%Z else (f + 1)%Z, ta.1))
  | Some _, (TProbe _ | TReassert | TDrop true) => Some (match ta.2 with TDrop _ => None | _ => st end)
  | Some (f, _), TDrop false => if (f <? kLldpReconnectFailureLimit)%Z then None else Some None
  | None, TAcquire ok => Some (if ok then Some (0, 0)%Z else None)
  | _, _ => None
  end.

Fixpoint protocol (st : Supervised) (l : TickLog) : option Supervised :=
  match l with [] => Some st | ta :: l => st ← protocol_step st ta; protocol st l end.

Lemma protocol_app st l1 l2 : protocol st (l1 ++ l2) = st ← protocol st l1; protocol st l2.
Proof. revert st. induction l1 as [|ta l1 IH]; intros st; [done|]. cbn. destruct (protocol_step st ta); cbn; auto. Qed.

Lemma reconnect_protocol a now s :
  rt_observer s = true →
  let '(_, acts, s') := reconnectLldp a now s in
  rt_observer s' = true ∧ protocol (supervised s) (pair now <$> acts) = Some (supervised s').
Proof.
  intros Ho. unfold reconnectLldp, supervised.
  destruct (now - rt_lastLldpReconnect s <? kLldpRetryInterval)%Z eqn:Ht; [by rewrite Ho|].
  destruct (oa_refresh a); cbn; rewrite Ho; cbn; rewrite Ht; done.
Qed.

Lemma acquire_protocol i now s :
  rt_observer s = false →
  let '(acts, s') := acquireLldp i now s in protocol None (pair now <$> acts) = Some (supervised s').
Proof.
  intros Ho. unfold acquireLldp, supervised.
  destruct (now - rt_lastLldpAttempt s <? kLldpRetryInterval)%Z; [by rewrite Ho|].
  destruct (ti_starts i); cbn; by rewrite ?Ho.
Qed.

Lemma supervise_protocol i now s :
  let '(acts, s') := superviseLldp i now s in protocol (supervised s) (pair now <$> acts) = Some (supervised s').
Proof.
  unfold superviseLldp. destruct (rt_observer s) eqn:Ho; cbn [andb]; [|].
  - destruct (oa_running (ti_current i)); cbn [negb].
    + rewrite Ho. destruct (oa_watchAlive (ti_current i)); cbn [negb].
      * destruct (kLldpProbeInterval <=? now - rt_lastLldpProbe s)%Z; [|done].
        destruct (oa_backendAlive (ti_current i)); cbn [negb].
        -- unfold supervised; cbn. by rewrite Ho.
        -- pose proof (reconnect_protocol (ti_current i) now (s <| rt_lastLldpProbe := now |>)) as Hr.
           destruct (reconnectLldp _ _ _) as [[ok acts] s']. destruct (Hr Ho) as [_ Hp].
           cbn. unfold supervised in *. cbn in *. rewrite Ho in *. done.
      * pose proof (reconnect_protocol (ti_current i) now s Ho) as Hr.
        destruct (reconnectLldp _ _ s) as [[ok acts] s']. destruct Hr as [Ho' Hp].
        destruct ok; [done|].
        destruct (rt_reconnectFailures s' <? kLldpReconnectFailureLimit)%Z eqn:Hf; [done|].
        match goal with |- context [acquireLldp i now ?s2] => pose proof (acquire_protocol i now s2 eq_refl) as Ha end.
        destruct (acquireLldp _ _ _) as [acts2 s2]. cbn [app]. rewrite fmap_app, protocol_app, Hp. cbn.
        unfold supervised at 1. rewrite Ho'. cbn. by rewrite Hf.
    + match goal with |- context [acquireLldp i now ?s2] => pose proof (acquire_protocol i now s2 eq_refl) as Ha end.
      cbn. destruct (acquireLldp _ _ _) as [acts2 s2]. cbn. unfold supervised at 1. by rewrite Ho.
  - rewrite Ho. pose proof (acquire_protocol i now s Ho) as Ha. destruct (acquireLldp _ _ _) as [acts s']. cbn.
    unfold supervised at 1. by rewrite Ho.
Qed.

Lemma resync_protocol redump a now q s :
  let '(acts, _, s') := performResync redump a now q s in
  protocol (supervised s) (pair now <$> acts) = Some (supervised s').
Proof.
  assert (Hn : protocol (supervised s) (pair now <$> [TDiscardBacklog; TRedump redump]) = Some (supervised s)).
  { unfold supervised. by destruct (rt_observer s). }
  unfold performResync. destruct (takeResyncMask q) as [mask q1]. destruct (mask =? 0)%Z; [done|].
  destruct (negb (Z.land mask (sourceBit SrcNetlink) =? 0)%Z);
    (destruct (negb (Z.land mask (sourceBit SrcLldp) =? 0)%Z); [|done]);
    (destruct (rt_observer s) eqn:Ho; cbn [negb]; [|done]);
    pose proof (reconnect_protocol a now s Ho) as Hr; destruct (reconnectLldp a now s) as [[ok acts] s'];
    rewrite fmap_app, protocol_app, ?Hn; apply Hr.
Qed.

Lemma reassert_protocol a now s :
  let '(acts, s') := reassertLldpNeighbors reassertInterval a now s in
  protocol (supervised s) (pair now <$> acts) = Some (supervised s').
Proof.
  unfold reassertLldpNeighbors. destruct (negb (rt_observer s) || negb (oa_running a)) eqn:Hn; [done|].
  destruct (now - rt_lastReassert s <? reassertInterval)%Z; [done|].
  destruct (rt_observer s) eqn:Ho; [|done]. unfold supervised. cbn. by rewrite Ho.
Qed.

Lemma tick_protocol i now q s :
  let '(acts, _, s') := tick reassertInterval i now q s in
  protocol (supervised s) (pair now <$> acts) = Some (supervised s').
Proof.
  unfold tick. pose proof (supervise_protocol i now s) as H1. destruct (superviseLldp i now s) as [acts1 s1].
  set (a := if acquired acts1 then _ else _). pose proof (reassert_protocol a now s1) as H2.
  destruct (reassertLldpNeighbors reassertInterval a now s1) as [acts2 s2].
  pose proof (resync_protocol (ti_redump i) a now q s2) as H3.
  destruct (performResync (ti_redump i) a now q s2) as [[acts3 q3] s3].
  rewrite !fmap_app, !protocol_app, H1. cbn [mbind option_bind]. by rewrite protocol_app, H2.
Qed.

(** The supervision of the LLDP observer keeps its protocol in every run of
    ticks, producers and consumer, whatever the observer answers: at most one
    observer at a time, only a missing one is acquired, refreshes of one
    observer are at least the retry interval apart, and an observer is only
    given up when it stopped or after five failures in a row. *)
Theorem lldp_supervision_protocol ops st :
  let '(l, st') := runtime_run ops st in protocol (supervised st.2) l = Some (supervised st'.2).
Proof.
  revert st. induction ops as [|op ops IH]; intros [q s]; [done|]. cbn [runtime_run].
  assert (Hop : let '(l, st') := runtime_op op (q, s) in protocol (supervised s) l = Some (supervised st'.2)).
  { destruct op as [x| |i now]; [done..|]. cbn. pose proof (tick_protocol i now q s) as Ht.
    by destruct (tick reassertInterval i now q s) as [[acts q1] s1]. }
  destruct (runtime_op op (q, s)) as [l1 st1]. specialize (IH st1). destruct (runtime_run ops st1) as [l2 st2].
  cbn [snd]. by rewrite protocol_app, Hop.
Qed.

(** * Repair of dropped observations *)

(** An action that re-reads what the source reports. *)
Definition repairs (src : ObservationSource) (a : TickAction) : bool :=
  match src, a with
  | SrcNetlink, TRedump true | SrcLldp, TRefresh true | SrcLldp, TAcquire true => true
  | _, _ => false
  end.

Definition repaired (src : ObservationSource) (acts : list TickAction) : Prop := existsb (repairs src) acts = true.

Lemma repaired_app src l1 l2 : repaired src (l1 ++ l2) ↔ repaired src l1 ∨ repaired src l2.
Proof. unfold repaired. rewrite existsb_app. apply orb_true_iff. Qed.

(** The repair is still owed: by the mask, or by the acquisition of an observer. *)
Definition owed (src : ObservationSource) (q : BoundedObservationQueue Q) (s : Supervision) : Prop :=
  has_bit (resyncMask_ q) src ∨ src = SrcLldp ∧ rt_observer s = false.

Lemma has_bit_foldl m l src :
  has_bit m src → has_bit (foldl (λ m y, Z.lor m (sourceBit (it_source y))) m l) src.
Proof. revert m. induction l as [|y l IH]; intros m Hm; [done|]. apply IH, has_bit_lor. auto. Qed.

Lemma has_bit_raised src (q : BoundedObservationQueue Q) : has_bit (resyncMask_ (raiseResync src q)) src.
Proof. apply has_bit_lor. right. by apply has_bit_source. Qed.

Lemma has_bit_eqb m src : has_bit m src → negb (Z.land m (sourceBit src) =? 0)%Z = true.
Proof. intros Hb. apply negb_true_iff, Z.eqb_neq, Hb. Qed.

Lemma reconnect_repairs a now s :
  let '(ok, acts, s') := reconnectLldp a now s in
  (ok = true → repaired SrcLldp acts) ∧ rt_observer s' = rt_observer s.
Proof.
  unfold reconnectLldp. destruct (now - rt_lastLldpReconnect s <? kLldpRetryInterval)%Z; [done|].
  by destruct (oa_refresh a).
Qed.

Lemma acquire_repairs i now s :
  rt_observer s = false →
  let '(acts, s') := acquireLldp i now s in repaired SrcLldp acts ∨ rt_observer s' = false.
Proof.
  intros Ho. unfold acquireLldp. destruct (now - rt_lastLldpAttempt s <? kLldpRetryInterval)%Z; [by right|].
  destruct (ti_starts i); [by left|by right].
Qed.

Lemma supervise_repairs i now s :
  rt_observer s = false →
  let '(acts, s') := superviseLldp i now s in repaired SrcLldp acts ∨ rt_observer s' = false.
Proof.
  intros Ho. unfold superviseLldp. rewrite Ho. cbn [andb]. rewrite Ho.
  pose proof (acquire_repairs i now s Ho) as Ha. by destruct (acquireLldp i now s).
Qed.

Lemma reassert_observer a now s : rt_observer (reassertLldpNeighbors reassertInterval a now s).2 = rt_observer s.
Proof.
  unfold reassertLldpNeighbors. destruct (negb (rt_observer s) || negb (oa_running a)); [done|].
  by destruct (now - rt_lastReassert s <? reassertInterval)%Z.
Qed.

Lemma resync_owes redump a now q s src :
  owed src q s →
  let '(acts, q', s') := performResync redump a now q s in repaired src acts ∨ owed src q' s'.
Proof.
  pose proof (reconnect_repairs a now s) as Hr. unfold performResync, owed. cbn. intros Hb.
  destruct (Z.eqb_spec (resyncMask_ q) 0) as [Hz|_].
  { destruct Hb as [Hb|Hb]; [|by right; right]. rewrite Hz in Hb. by apply has_bit_0 in Hb. }
  destruct src.
  - destruct Hb as [Hb|[? _]]; [|done]. rewrite (has_bit_eqb _ _ Hb).
    assert (Hn : ∀ acts q', q' = (if negb redump then raiseResync SrcNetlink (queue_discardAll (mkQueue 0 (queue_ q)))
        else queue_discardAll (mkQueue 0 (queue_ q))) →
      repaired SrcNetlink ([TDiscardBacklog; TRedump redump] ++ acts) ∨ has_bit (resyncMask_ q') SrcNetlink).
    { intros acts q' ->. destruct redump; [by left|right; apply has_bit_raised]. }
    destruct (negb (Z.land (resyncMask_ q) (sourceBit SrcLldp) =? 0)%Z); [|destruct (Hn [] _ eq_refl); auto].
    destruct (rt_observer s); cbn [negb]; [|destruct (Hn [] _ eq_refl); auto].
    destruct (reconnectLldp a now s) as [[ok acts] s']. cbv beta iota. destruct (Hn acts _ eq_refl) as [?|Hb']; [by left|].
    right; left. destruct ok; [done|]. apply has_bit_lor. by left.
  - destruct (rt_observer s) eqn:Ho; cycle 1.
    { cbn [negb]. destruct (negb (Z.land (resyncMask_ q) (sourceBit SrcNetlink) =? 0)%Z),
        (negb (Z.land (resyncMask_ q) (sourceBit SrcLldp) =? 0)%Z); by right; right. }
    destruct Hb as [Hb|[_ ?]]; [|done]. rewrite (has_bit_eqb _ _ Hb). cbn [negb].
    destruct (negb (Z.land (resyncMask_ q) (sourceBit SrcNetlink) =? 0)%Z);
      destruct (reconnectLldp a now s) as [[[] acts] s']; destruct Hr as [Hr _]; cbv beta iota;
      rewrite ?repaired_app; first [left; right; by apply Hr | left; by apply Hr | right; left; apply has_bit_raised].
Qed.

Lemma tick_owes i now q s src :
  owed src q s →
  let '(acts, q', s') := tick reassertInterval i now q s in repaired src acts ∨ owed src q' s'.
Proof.
  intros Hb. unfold tick. pose proof (supervise_repairs i now s) as H1. destruct (superviseLldp i now s) as [acts1 s1].
  set (a := if acquired acts1 then _ else _). pose proof (reassert_observer a now s1) as H2.
  destruct (reassertLldpNeighbors reassertInterval a now s1) as [acts2 s2].
  pose proof (resync_owes (ti_redump i) a now q s2 src) as H3.
  destruct (performResync (ti_redump i) a now q s2) as [[acts3 q3] s3]. rewrite !repaired_app.
  destruct Hb as [Hb|[-> Ho]].
  - destruct H3 as [?|?]; [by left|auto..].
  - destruct (H1 Ho) as [?|Ho1]; [auto|]. destruct H3 as [?|?]; [|auto..]. right. split; [done|]. cbn in H2. congruence.
Qed.

(** C14: a dropped observation is always repaired or still owed: once the bit of
    a source is raised, every run of producers, consumer and ticks either
    contains a successful re-read of that source - a redump, a refresh of the
    LLDP observer or the acquisition of a new one, which enumerates from scratch -
    or ends with the bit raised, or, for LLDP, with an observer to be acquired. *)
Theorem resync_not_lost ops q s src :
  has_bit (resyncMask_ q) src →
  let '(l, (q', s')) := runtime_run ops (q, s) in
  repaired src l.*2 ∨ has_bit (resyncMask_ q') src ∨ src = SrcLldp ∧ rt_observer s' = false.
Proof.
  intros Hb. assert (Ho : owed src q s) by (by left). clear Hb. revert q s Ho.
  induction ops as [|op ops IH]; intros q s Ho; [by right|]. cbn [runtime_run].
  assert (Hop : let '(l, st') := runtime_op op (q, s) in repaired src l.*2 ∨ owed src st'.1 st'.2).
  { destruct op as [x| |i now]; cbn.
    - right. destruct Ho as [Hb|?]; [left|by right]. unfold queue_push. destruct (bq_push x (queue_ q)) as [[]].
      by apply has_bit_foldl.
    - right. destruct Ho as [Hb|?]; [left|by right]. unfold queue_tryPop. by destruct (bq_tryPop (queue_ q)).
    - pose proof (tick_owes i now q s src Ho) as Ht. destruct (tick reassertInterval i now q s) as [[acts q1] s1].
      by rewrite <- list_fmap_compose, list_fmap_id. }
  destruct (runtime_op op (q, s)) as [l1 [q1 s1]]. specialize (IH q1 s1).
  destruct (runtime_run ops (q1, s1)) as [l2 [q2 s2]]. rewrite fmap_app, repaired_app.
  destruct Hop as [?|Ho1]; [auto|]. destruct (IH Ho1); auto.
Qed.

(** * A dead watch *)

(** The observer runs, its watch is dead and it cannot be repaired, but a new
    one would start. *)
Definition dead_inputs (i : TickInputs) : bool :=
  oa_running (ti_current i) && negb (oa_watchAlive (ti_current i)) && negb (oa_refresh (ti_current i)) && ti_starts i.

(** Ticks on dead inputs at most [d] apart, the first within [d] of [prev]; the
    last is at [last]. *)
Fixpoint dead_run (d : Z) (prev : time_point) (ops : list RuntimeOp) (last : time_point) : Prop :=
  match ops with
  | [] => prev = last
  | RTick i now :: ops => dead_inputs i = true ∧ (prev ≤ now ≤ prev + d)%Z ∧ dead_run d now ops last
  | _ :: ops => dead_run d prev ops last
  end.

(** No more than one failure behind schedule: the [k]-th failed refresh is at
    most [k] periods after [t0]. *)
Definition on_schedule (d t0 : Z) (prev : time_point) (s : Supervision) : Prop :=
  rt_observer s = true ∧ (0 ≤ rt_reconnectFailures s < kLldpReconnectFailureLimit)%Z ∧
  (rt_lastLldpReconnect s ≤ t0 + rt_reconnectFailures s * (kLldpRetryInterval + d))%Z ∧
  (prev < t0 + rt_reconnectFailures s * (kLldpRetryInterval + d) + kLldpRetryInterval)%Z.

(** The observer was replaced. *)
Definition replaced (l : TickLog) (deadline : time_point) : Prop :=
  ∃ pre t post, l = pre ++ [(t, TDrop false); (t, TAcquire true)] ++ post ∧ (t ≤ deadline)%Z.

Lemma replaced_app l1 l2 dl : replaced l1 dl ∨ replaced l2 dl → replaced (l1 ++ l2) dl.
Proof.
  intros [(pre & t & post & -> & Ht)|(pre & t & post & -> & Ht)].
  - exists pre, t, (post ++ l2). split; [|done]. by rewrite <- !(assoc_L (++)).
  - exists (l1 ++ pre), t, post. split; [|done]. by rewrite <- !(assoc_L (++)).
Qed.

(** A supervised dead watch: throttled, refreshed in vain, or replaced. *)
Lemma supervise_dead i now s :
  dead_inputs i = true → rt_observer s = true → (kLldpRetryInterval ≤ now)%Z →
  let f := rt_reconnectFailures s in
  let throttled := (now - rt_lastLldpReconnect s <? kLldpRetryInterval)%Z in
  let f' := if throttled then f else (f + 1)%Z in
  superviseLldp i now s =
    let acts := if throttled then [] else [TRefresh false] in
    if (f' <? kLldpReconnectFailureLimit)%Z then
      (acts, if throttled then s else s <| rt_lastLldpReconnect := now |> <| rt_reconnectFailures := f' |>)
    else (acts ++ [TDrop false; TAcquire true], (superviseLldp i now s).2).
Proof.
  unfold dead_inputs. intros Hd Ho Ht. destruct (oa_running (ti_current i)) eqn:Hr; [|done].
  destruct (oa_watchAlive (ti_current i)) eqn:Hw; [done|]. destruct (oa_refresh (ti_current i)) eqn:Hf; [done|].
  cbn in Hd. unfold superviseLldp, reconnectLldp. rewrite Ho, Hr. cbn [andb negb]. rewrite Ho, Hw, Hf. cbn [negb].
  destruct (now - rt_lastLldpReconnect s <? kLldpRetryInterval)%Z; cbn;
    match goal with |- context [(?f <? 5)%Z] => change (f <? 5)%Z with (f <? kLldpReconnectFailureLimit)%Z end || idtac.
  all: match goal with |- context [(?f <? kLldpReconnectFailureLimit)%Z] => destruct (f <? kLldpReconnectFailureLimit)%Z end;
    [done|].
  all: unfold acquireLldp; cbn; rewrite Z.sub_0_r, (proj2 (Z.ltb_ge now kLldpRetryInterval) Ht), Hd; done.
Qed.

Lemma resync_throttled redump a now q s :
  (now - rt_lastLldpReconnect s <? kLldpRetryInterval)%Z = true → (performResync redump a now q s).2 = s.
Proof.
  intros Ht. unfold performResync, reconnectLldp. rewrite Ht. destruct (takeResyncMask q) as [mask q1].
  destruct (mask =? 0)%Z; [done|].
  by destruct (negb (Z.land mask (sourceBit SrcNetlink) =? 0)%Z), (negb (Z.land mask (sourceBit SrcLldp) =? 0)%Z),
    (negb (rt_observer s)).
Qed.

Lemma reassert_keeps a now s :
  let s' := (reassertLldpNeighbors reassertInterval a now s).2 in
  rt_observer s' = rt_observer s ∧ rt_reconnectFailures s' = rt_reconnectFailures s ∧
  rt_lastLldpReconnect s' = rt_lastLldpReconnect s.
Proof.
  unfold reassertLldpNeighbors. destruct (negb (rt_observer s) || negb (oa_running a)); [done|].
  by destruct (now - rt_lastReassert s <? reassertInterval)%Z.
Qed.

(** Before the limit, a tick on dead inputs stays on schedule. *)
Lemma supervise_schedule d t0 prev i now s :
  dead_inputs i = true → (kLldpRetryInterval ≤ now)%Z → (prev ≤ now ≤ prev + d)%Z → on_schedule d t0 prev s →
  let '(acts, s') := superviseLldp i now s in
  replaced (pair now <$> acts) (t0 + 5 * (kLldpRetryInterval + d)) ∨
  on_schedule d t0 now s' ∧ (now - rt_lastLldpReconnect s' <? kLldpRetryInterval)%Z = true.
Proof.
  intros Hd Hn Hp (Ho & Hf & Hl & Hs). pose proof (supervise_dead i now s Hd Ho Hn) as E. cbn zeta in E. unfold on_schedule.
  set (R := kLldpRetryInterval) in *. set (f := rt_reconnectFailures s) in *.
  assert (HR : (0 < R)%Z) by done. set (L := kLldpReconnectFailureLimit) in *. assert (HL : L = 5%Z) by done. clearbody R L.
  destruct (now - rt_lastLldpReconnect s <? R)%Z eqn:Ht.
  - rewrite (proj2 (Z.ltb_lt f L)) in E by lia. rewrite E. right. split; [|done]. apply Z.ltb_lt in Ht.
    split_and!; [done|lia|lia|done|]. fold f. lia.
  - apply Z.ltb_ge in Ht. destruct (f + 1 <? L)%Z eqn:Hlim; rewrite E.
    + apply Z.ltb_lt in Hlim. right. split; [|cbn; apply Z.ltb_lt; lia].
      split_and!; cbn; [done|lia|lia|nia|nia].
    + apply Z.ltb_ge in Hlim. left. exists [(now, TRefresh false)], now, []. split; [done|]. nia.
Qed.

Lemma tick_schedule d t0 prev i now q s :
  dead_inputs i = true → (kLldpRetryInterval ≤ now)%Z → (prev ≤ now ≤ prev + d)%Z → on_schedule d t0 prev s →
  let '(acts, _, s') := tick reassertInterval i now q s in
  replaced (pair now <$> acts) (t0 + 5 * (kLldpRetryInterval + d)) ∨ on_schedule d t0 now s'.
Proof.
  intros Hd Hn Hp Hs. unfold tick. pose proof (supervise_schedule d t0 prev i now s Hd Hn Hp Hs) as H1.
  destruct (superviseLldp i now s) as [acts1 s1]. set (a := if acquired acts1 then _ else _).
  pose proof (reassert_keeps a now s1) as H2. destruct (reassertLldpNeighbors reassertInterval a now s1) as [acts2 s2].
  destruct H2 as (H2a & H2b & H2c). cbn in H2a, H2b, H2c. pose proof (resync_throttled (ti_redump i) a now q s2) as H3.
  destruct (performResync (ti_redump i) a now q s2) as [[acts3 q3] s3]. rewrite fmap_app.
  destruct H1 as [Hr|[Ho Ht]]; [left; apply replaced_app; by left|right].
  cbn in H3. rewrite H2c in H3. rewrite (H3 Ht). unfold on_schedule in *. by rewrite H2a, H2b, H2c.
Qed.

(** C32: a dead LLDP watch does not persist: with ticks at most [d] apart, an
    observer that runs but whose watch stays dead and whose repairs keep failing
    is dropped and replaced by a new one - which starts when a candidate does -
    at the latest five times the retry interval plus [d] after the watch died,
    whatever the producers, the consumer and the resync do meanwhile. *)
Theorem dead_watch_replaced d t0 ops last q s :
  (0 ≤ d)%Z → rt_observer s = true → (0 ≤ rt_reconnectFailures s < kLldpReconnectFailureLimit)%Z →
  (rt_lastLldpReconnect s ≤ t0)%Z → (kLldpRetryInterval ≤ t0)%Z →
  dead_run d t0 ops last → (t0 + 5 * (kLldpRetryInterval + d) ≤ last)%Z →
  replaced (runtime_run ops (q, s)).1 (t0 + 5 * (kLldpRetryInterval + d)).
Proof.
  intros Hd Ho Hf Hl Ht Hrun Hlast.
  assert (HR : (0 < kLldpRetryInterval)%Z) by done.
  assert (Hs : on_schedule d t0 t0 s) by (unfold on_schedule; split_and!; [done|lia|lia|nia|nia]).
  clear Ho Hf Hl. enough (∀ prev, on_schedule d t0 prev s → (t0 ≤ prev)%Z → dead_run d prev ops last →
    replaced (runtime_run ops (q, s)).1 (t0 + 5 * (kLldpRetryInterval + d))) by eauto using Z.le_refl.
  clear Hs Hrun. revert q s.
  induction ops as [|op ops IH]; intros q s prev Hs Hp Hrun.
  - cbn in Hrun. subst prev. destruct Hs as (_ & Hf & _ & Hs). unfold kLldpReconnectFailureLimit in Hf. nia.
  - cbn [runtime_run]. destruct op as [x| |i now]; cbn [runtime_op].
    + specialize (IH (queue_push x q).2 s prev Hs Hp Hrun). by destruct (runtime_run ops _).
    + specialize (IH (queue_tryPop q).2 s prev Hs Hp Hrun). by destruct (runtime_run ops _).
    + destruct Hrun as (Hi & Hn & Hrun). pose proof (tick_schedule d t0 prev i now q s Hi ltac:(lia) Hn Hs) as Hk.
      destruct (tick reassertInterval i now q s) as [[acts q1] s1]. specialize (IH q1 s1 now).
      destruct (runtime_run ops (q1, s1)) as [l2 st2]. apply replaced_app.
      destruct Hk as [?|Hs']; [by left|right]. apply IH; [done|lia|done].
Qed.
End supervision.

(** * Specification: life cycle *)

Section lifecycle.
Context {Q : Type} `{BoundedQueueLaws Q} (reassertInterval : Z).

(** What is open or running. *)
Record Parts := mkParts { p_queue : bool; p_consumer : bool; p_lldp : bool; p_monitor : bool }.

Definition guard_parts (b : bool) (w : Parts) : option Parts := if b then Some w else None.

(** The documented order: the model is prepared with nothing running, producers
    only run into an open queue with a consumer, the queue is closed once they
    are silent, the consumer joined once the queue is closed, the sink detached
    once all are still. [None]: violated. *)
Definition parts_step (w : Parts) (a : RuntimeAction) : option Parts :=
  let '(mkParts q c l m) := w in
  match a with
  | RPrepareForRestart => guard_parts (negb c && negb l && negb m) w
  | RReopenQueue => guard_parts (negb c && negb l && negb m) (mkParts true c l m)
  | RStartConsumer ok => guard_parts q (mkParts q ok l m)
  | RStartLldp ok => guard_parts (q && c && negb l) (mkParts q c ok m)
  | RStartMonitor ok => guard_parts (q && c && negb m) (mkParts q c l ok)
  | RMarkLive => guard_parts (q && c && m) w
  | RStopMonitor => Some (mkParts q c l false)
  | RStopLldp => Some (mkParts q c false m)
  | RCloseQueue => guard_parts (negb l && negb m) (mkParts false c l m)
  | RStopConsumer => guard_parts (negb q) (mkParts q false l m)
  | RDetachSink => guard_parts (negb c && negb l && negb m) w
  end.

Fixpoint parts_run (w : Parts) (acts : list RuntimeAction) : option Parts :=
  match acts with [] => Some w | a :: acts => w ← parts_step w a; parts_run w acts end.

(** Calls on the runtime; the service ticks only while it is started. *)
Inductive RuntimeCall := CStart (o : RuntimeOutcomes) | CStop | CTick (i : TickInputs) (now : time_point) | CWorkerExit (exception : bool).

Definition runtime_call (c : RuntimeCall) (wr : Parts * Runtime Q) : option (Parts * Runtime Q) :=
  let '(w, r) := wr in
  match c with
  | CStart o => let '(_, acts, r) := runtime_start o r in w ← parts_run w acts; Some (w, r)
  | CStop => let '(acts, r) := runtime_stop r in w ← parts_run w acts; Some (w, r)
  | CTick i now =>
      if rn_monitor r then
        let '(_, q, s) := tick reassertInterval i now (observationQueue_ r) (rn_supervision r) in
        Some (mkParts (p_queue w) (p_consumer w) (rt_observer s) (p_monitor w), mkRuntime true (observationWorkerFailed_ r) s q)
      else Some wr
  | CWorkerExit exception => Some (w, onObservationWorkerExit exception r)
  end.

Fixpoint runtime_calls (cs : list RuntimeCall) (wr : Parts * Runtime Q) : option (Parts * Runtime Q) :=
  match cs with [] => Some wr | c :: cs => wr ← runtime_call c wr; runtime_calls cs wr end.

(** The parts agree with the members: everything runs into an open queue, or
    nothing runs. *)
Definition parts_agree (wr : Parts * Runtime Q) : Prop :=
  let '(w, r) := wr in
  p_queue w = negb (bq_closed (queue_ (observationQueue_ r))) ∧ p_lldp w = rt_observer (rn_supervision r) ∧
  p_monitor w = rn_monitor r ∧ p_consumer w = rn_monitor r ∧
  if rn_monitor r then p_queue w = true else rt_observer (rn_supervision r) = false.

Lemma resync_closed redump a now (q : BoundedObservationQueue Q) s :
  bq_closed (queue_ (performResync redump a now q s).1.2) = bq_closed (queue_ q).
Proof.
  destruct (bq_discarded (queue_ q)) as [_ Hc]. unfold performResync. cbn. destruct (resyncMask_ q =? 0)%Z; [done|].
  destruct (negb (Z.land (resyncMask_ q) (sourceBit SrcNetlink) =? 0)%Z),
    (negb (Z.land (resyncMask_ q) (sourceBit SrcLldp) =? 0)%Z), (negb (rt_observer s)), redump; cbn; try done;
    by destruct (reconnectLldp a now s) as [[[]]].
Qed.

Lemma tick_closed i now (q : BoundedObservationQueue Q) s :
  bq_closed (queue_ (tick reassertInterval i now q s).1.2) = bq_closed (queue_ q).
Proof.
  unfold tick. destruct (superviseLldp i now s) as [acts1 s1]. set (a := if acquired acts1 then _ else _).
  destruct (reassertLldpNeighbors reassertInterval a now s1) as [acts2 s2]. rewrite <- (resync_closed (ti_redump i) a now q s2).
  by destruct (performResync (ti_redump i) a now q s2) as [[]].
Qed.

Lemma call_agrees c wr : parts_agree wr → ∃ wr', runtime_call c wr = Some wr' ∧ parts_agree wr'.
Proof.
  destruct wr as [[wq wc wl wm] [m failed s q]]. intros (Hq & Hl & Hm & Hc & Hr). cbn in *. subst.
  destruct (bq_reopened (queue_ q)) as [_ Hro], (bq_closing (queue_ q)) as [_ Hcl],
    (bq_closing (bq_reopen (queue_ q))) as [_ Hcl2].
  destruct c as [[oc ol om]| |i now|[]].
  - unfold runtime_call, runtime_start, cleanUpFailedStart, stop_parts. cbn.
    destruct m; [eexists; split; [done|]; by split_and!|]. rewrite Hr.
    destruct oc, ol, om; cbn; rewrite ?Hr; cbn; (eexists; split; [done|]); cbn; rewrite ?Hro, ?Hcl2; by split_and!.
  - unfold runtime_call, runtime_stop, stop_parts. cbn.
    destruct m, (rt_observer s); try done; cbn; (eexists; split; [done|]); cbn; rewrite Hcl; by split_and!.
  - cbn. destruct m; [|eexists; split; [done|]; by split_and!]. pose proof (tick_closed i now q s) as Ht.
    destruct (tick reassertInterval i now q s) as [[acts q'] s']. eexists; split; [done|]. cbn in *. by rewrite Ht.
  - eexists; split; [done|]. by split_and!.
  - eexists; split; [done|]. by split_and!.
Qed.

End lifecycle.

(** * What modelling showed *)

(** The backlog a Netlink repair discards includes the LLDP observations, and
    nothing raises the LLDP bit for them. *)
Lemma discard_loses_lldp {Q} `{BoundedQueueLaws Q} a now (q : BoundedObservationQueue Q) s :
  resyncMask_ q = sourceBit SrcNetlink →
  let '(acts, q', s') := performResync true a now q s in
  acts = [TDiscardBacklog; TRedump true] ∧ bq_items (queue_ q') = [] ∧ ¬ has_bit (resyncMask_ q') SrcLldp.
Proof.
  intros Hm. unfold performResync. cbn. rewrite Hm. cbn. split; [done|]. split; [apply bq_discarded|apply has_bit_0].
Qed.

(** For an age-out of at most ten seconds the keepalive period is not below it. *)
Lemma reassert_not_below_small_ageout ageout :
  (0 < ageout ≤ 10)%Z → (seconds ageout ≤ deriveReassertInterval ageout)%Z.
Proof.
  intros Ha. unfold deriveReassertInterval, seconds. assert (Z.quot ageout 2 ≤ 10)%Z by (apply Z.quot_le_upper_bound; lia). lia.
Qed.

(** * Witnesses: a queue with the documented behaviour *)

(** Two places. *)
Record ListQueue := mkListQueue { lq_items : list ObservationItem; lq_closed : bool }.

#[export] Instance list_queue : BoundedQueue ListQueue := {
  bq_push x q :=
    if lq_closed q then (true, [], q)
    else match take 2 (lq_items q) with
         | [y; z] => (false, [y], mkListQueue [z; x] false)
         | l => (true, [], mkListQueue (l ++ [x]) false)
         end;
  bq_tryPop q := match take 2 (lq_items q) with [] => (None, q) | y :: l => (Some y, mkListQueue l (lq_closed q)) end;
  bq_discardAll q := mkListQueue [] (lq_closed q);
  bq_reopen q := mkListQueue [] false;
  bq_close q := mkListQueue (lq_items q) true;
  bq_items q := take 2 (lq_items q);
  bq_closed := lq_closed;
  bq_capacity _ := 2
}.

#[export] Instance list_queue_laws : BoundedQueueLaws ListQueue.
Proof.
  split; cbn; try done.
  - intros q. rewrite length_take. lia.
  - by intros x [l c] ->.
  - intros x [[|y [|z l]] c] ->; cbn; [done|done|lia].
  - intros x [[|y' [|z [|? l]]] c] y k -> E Hl; cbn in *; try done; by simplify_eq.
  - intros [[|y [|z l]] c]; cbn; done.
  - intros [[|y' [|z l]] c] y k E; cbn in *; by simplify_eq.
Defined.

Definition demo_queue : BoundedObservationQueue ListQueue := mkQueue 0 (mkListQueue [] false).
Definition demo_item (at_ : time_point) : ObservationItem := mkItem SrcNetlink (PNeighbor (demo_neighbor EvPresent at_)).
Definition demo_lldp_item : ObservationItem := mkItem SrcLldp (PLldp (demo_lldp false 3)).
Definition demo_supervision (observer : bool) : Supervision := mkSupervision observer 0 0 0 0 0 0.
Definition demo_dead : TickInputs := mkTickInputs (mkAnswers true false true false) true (mkAnswers true true true true) false.

Lemma queue_drops_accounted_witness :
  let ops := [QPush demo_lldp_item; QPush (demo_item 1); QTake; QPush (demo_item 2); QPop] in
  let '(q, popped, taken) := foldl (λ st op, queue_op op st) (demo_queue, [], 0%Z) ops in
  (popped ++ bq_items (queue_ q)) `sublist_of` pushes ops ∧ popped = [demo_item 1] ∧ resyncMask_ q = 2%Z.
Proof.
  intros ops. pose proof (queue_drops_accounted demo_queue ops eq_refl eq_refl eq_refl) as Hq.
  split; [apply Hq|split; vm_compute; reflexivity].
Defined.

Lemma resync_not_lost_witness :
  let q := raiseResync SrcNetlink demo_queue in
  let i ok := mkTickInputs (mkAnswers true true true true) true (mkAnswers true true true true) ok in
  let '(l, (q', _)) := runtime_run 0 [RTick (i false) (seconds 1); ROffer (demo_item 1); RTick (i true) (seconds 2)] (q, demo_supervision true) in
  (repaired SrcNetlink l.*2 ∨ has_bit (resyncMask_ q') SrcNetlink) ∧ resyncMask_ q' = 0%Z.
Proof.
  intros q i. pose proof (resync_not_lost 0 [RTick (i false) (seconds 1); ROffer (demo_item 1); RTick (i true) (seconds 2)]
    q (demo_supervision true) SrcNetlink) as Hr.
  split; [|vm_compute; reflexivity]. destruct Hr as [Hr|[Hr|[Hr _]]]; [discriminate|by left|by right|discriminate].
Defined.

Lemma dead_watch_replaced_witness :
  let ops := (λ k, RTick demo_dead (seconds (40 + 30 * Z.of_nat k))) <$> seq 0 11 in
  replaced (runtime_run (seconds 30) ops (demo_queue, demo_supervision true)).1
    (seconds 40 + 5 * (kLldpRetryInterval + seconds 30)).
Proof.
  intros ops. apply (dead_watch_replaced (seconds 30) (seconds 30) (seconds 40) ops (seconds 340)).
  all: vm_compute; repeat split; discriminate.
Defined.

