(* ===== verification/Variant.v ===== *)
(** What the D-Bus codecs share: the interface of [DBus::Variant] (dbus-cxx),
    the decode errors, the ingress checks, and loops over maps that may throw. *)

From S2P Require Import Prelude Contract.

(** * [DBus::Variant] *)

(** [DBus::DataType], the types the codecs look at. *)
Inductive DataType := DT_BOOLEAN | DT_INT32 | DT_INT64 | DT_UINT32 | DT_UINT64 | DT_STRING | DT_OTHER.

#[export] Instance DataType_eq_dec : EqDecision DataType.
Proof. solve_decision. Defined.

(** The constructors and accessors the codecs call; [to_vector] and [to_map]
    throw when the variant holds something else ([None]). *)
Class DbusVariant (V : Type) := {
  v_type : V → DataType;
  of_bool : bool → V; of_int32 : Z → V; of_int64 : Z → V; of_uint64 : Z → V; of_string : string → V;
  of_vector : list V → V; of_map : gmap string V → V;
  to_bool : V → bool; to_int32 : V → Z; to_int64 : V → Z; to_uint32 : V → Z; to_uint64 : V → Z; to_string : V → string;
  to_vector : V → option (list V); to_map : V → option (gmap string V)
}.

Definition int_in (lo hi z : Z) : Prop := (lo ≤ z < hi)%Z.
Definition int32 : Z → Prop := int_in (- 2 ^ 31) (2 ^ 31).
Definition int64 : Z → Prop := int_in (- 2 ^ 63) (2 ^ 63).
Definition uint64 : Z → Prop := int_in 0 (2 ^ 64).

(** A variant gives back the value and the type it was made of. *)
Class DbusVariantLaws (V : Type) `{DbusVariant V} := {
  bool_type b : v_type (of_bool b) = DT_BOOLEAN;
  int32_type z : v_type (of_int32 z) = DT_INT32;
  int64_type z : v_type (of_int64 z) = DT_INT64;
  uint64_type z : v_type (of_uint64 z) = DT_UINT64;
  string_type s : v_type (of_string s) = DT_STRING;
  bool_back b : to_bool (of_bool b) = b;
  int32_back z : int32 z → to_int32 (of_int32 z) = z;
  int64_back z : int64 z → to_int64 (of_int64 z) = z;
  uint64_back z : uint64 z → to_uint64 (of_uint64 z) = z;
  string_back s : to_string (of_string s) = s;
  vector_back l : to_vector (of_vector l) = Some l;
  map_back m : to_map (of_map m) = Some m
}.

(** * Errors and ingress checks *)

Inductive DecodeErrorCode := limit_exceeded | missing_required_field | invalid_type | invalid_value.

Definition validateKey (key : string) : result DecodeErrorCode unit :=
  throw_if (bool_decide (Ingress.kMaxKeyLength < String.length key)) limit_exceeded.

Definition validateString (value : string) : result DecodeErrorCode unit :=
  throw_if (bool_decide (Ingress.kMaxStringLength < String.length value)) limit_exceeded.

(** [if (o) validateString( *o )] *)
Definition validateOptional (o : option string) : result DecodeErrorCode unit :=
  match o with Some s => validateString s | None => Ok tt end.

(** A step that is known to succeed with [a]. *)
Lemma bind_step {E A B} (c : result E A) (k : A → result E B) a r : c = Ok a → k a = r → (c ≫= k) = r.
Proof. by intros -> <-. Qed.

(** * Loops over maps *)

(** A loop over a [std::map] that stores what [f] makes of each entry under the
    same key; the first exception leaves it. *)
Definition map_traverse {E A B} (f : string → A → result E B) (m : gmap string A) : result E (gmap string B) :=
  l ← mapM (λ '(k, a), b ← f k a; Ok (k, b)) (map_iter m); Ok (list_to_map l).

Lemma mapM_ok {E A B} (f : A → result E B) l l' : mapM f l = Ok l' ↔ Forall2 (λ x y, f x = Ok y) l l'.
Proof.
  revert l'. induction l as [|x l IH]; intros l'; cbn.
  - split; [intros [= <-]; constructor|by inversion 1].
  - split.
    + intros (y & Hy & (k & Hk & [= <-])%bind_ok)%bind_ok. constructor; [done|by apply IH].
    + inversion 1 as [|? y ? k Hy Hk]; subst. rewrite Hy. cbn. apply IH in Hk. by rewrite Hk.
Qed.

(** Both maps have the same keys, and [f] makes the values of the second. *)
Definition map_image {E A B} (f : string → A → result E B) (m : gmap string A) (m' : gmap string B) : Prop :=
  (∀ k a, m !! k = Some a → ∃ b, m' !! k = Some b ∧ f k a = Ok b) ∧ (∀ k, m !! k = None → m' !! k = None).

Lemma map_traverse_entries {E A B} (f : string → A → result E B) m l' :
  Forall2 (λ x y, (λ '(k, a), b ← f k a; Ok (k, b)) x = Ok y) (map_iter m) l' →
  map_image f m (list_to_map l').
Proof.
  intros Hl.
  assert (Hk : l'.*1 = (map_iter m).*1).
  { induction Hl as [|[k a] [k' b] l l' Hx Hl IH]; [done|]. cbn. apply bind_ok in Hx as (? & _ & [= <- <-]). by rewrite IH. }
  assert (Hn : NoDup l'.*1) by (rewrite Hk; apply map_iter_nodup_fst). split.
  - intros k a Ha. apply elem_of_map_iter, list_elem_of_lookup in Ha as [i Hi].
    destruct (Forall2_lookup_l _ _ _ _ _ Hl Hi) as ([k' b] & Hi' & Hx). apply bind_ok in Hx as (? & Hf & [= <- <-]).
    exists x. split; [|done]. apply elem_of_list_to_map_1; [done|]. by apply list_elem_of_lookup_2 in Hi'.
  - intros k Hm. apply not_elem_of_list_to_map_1. rewrite Hk. intros ([k' a] & -> & Ha)%list_elem_of_fmap.
    apply elem_of_map_iter in Ha. cbn in Hm. congruence.
Qed.

Lemma map_image_unique {E A B} (f : string → A → result E B) m m1 m2 : map_image f m m1 → map_image f m m2 → m1 = m2.
Proof.
  intros [H1 H1n] [H2 H2n]. apply map_eq. intros k. destruct (m !! k) as [a|] eqn:Hk; [|by rewrite H1n, H2n].
  destruct (H1 k a Hk) as (b1 & -> & Hb1), (H2 k a Hk) as (b2 & -> & Hb2). congruence.
Qed.

Lemma map_traverse_ok {E A B} (f : string → A → result E B) m m' : map_traverse f m = Ok m' ↔ map_image f m m'.
Proof.
  unfold map_traverse. split.
  - intros (l & Hl & [= <-])%bind_ok. apply mapM_ok in Hl. by apply map_traverse_entries.
  - intros Hi. destruct (mapM _ (map_iter m)) as [l|e] eqn:Hl.
    + cbn. f_equal. apply mapM_ok, map_traverse_entries in Hl. by apply (map_image_unique f m).
    + exfalso. assert (Ha : Forall (λ x, ∃ b, f x.1 x.2 = Ok b) (map_iter m)).
      { apply Forall_forall. intros [k a] Hx%elem_of_map_iter. destruct (proj1 Hi k a Hx) as (b & _ & Hb). by exists b. }
      clear Hi. revert e Hl. induction Ha as [|[k a] l [b Hb] _ IH]; intros e; cbn; [done|]. cbn in Hb. rewrite Hb. cbn.
      destruct (mapM _ l) eqn:Hl; [done|]. intros [= ->]. by eapply IH.
Qed.

(** A loop that undoes another one. *)
Lemma map_traverse_inv {E E' A B} (f : string → A → result E B) (g : string → B → result E' A) m m' :
  map_traverse f m = Ok m' → (∀ k a b, m !! k = Some a → f k a = Ok b → g k b = Ok a) → map_traverse g m' = Ok m.
Proof.
  intros [Hf Hn]%map_traverse_ok Hg. apply map_traverse_ok. split.
  - intros k b Hb. destruct (m !! k) as [a|] eqn:Ha; [|by rewrite Hn in Hb].
    destruct (Hf k a Ha) as (b' & Hb' & Hfa). exists a. split; [done|]. apply (Hg k); [done|congruence].
  - intros k Hk. destruct (m !! k) as [a|] eqn:Ha; [|done]. destruct (Hf k a Ha) as (b & ? & _). congruence.
Qed.

Lemma map_traverse_size {E A B} (f : string → A → result E B) m m' : map_traverse f m = Ok m' → size m' = size m.
Proof.
  intros [Hf Hn]%map_traverse_ok. rewrite <- !size_dom. f_equal. apply set_eq. intros k. rewrite !elem_of_dom.
  destruct (m !! k) as [a|] eqn:Ha.
  - destruct (Hf k a Ha) as (b & -> & _). by split.
  - by rewrite Hn.
Qed.

(** * Maps built by insertions *)

(** [if (o) m[key] = DBus::Variant( *o )] *)
Definition put_optional {V} `{DbusVariant V} (key : string) (o : option string) (m : gmap string V) : gmap string V :=
  match o with Some v => <[key := of_string v]> m | None => m end.

Section put_optional.
Context {V : Type} `{DbusVariant V}.
Implicit Types m : gmap string V.

Lemma lookup_put_optional m key o : put_optional key o m !! key = match o with Some s => Some (of_string s) | None => m !! key end.
Proof. destruct o; cbn; [apply lookup_insert_eq|done]. Qed.

Lemma lookup_put_optional_ne m key k o : key ≠ k → put_optional key o m !! k = m !! k.
Proof. intros Hk. destruct o; cbn; [by apply lookup_insert_ne|done]. Qed.

Lemma size_insert_le m key v : size (<[key := v]> m) ≤ S (size m).
Proof. rewrite map_size_insert. destruct (m !! key); unfold id; lia. Qed.

Lemma size_put_optional_le m key o : size (put_optional key o m) ≤ S (size m).
Proof. destruct o; cbn; [apply size_insert_le|lia]. Qed.
End put_optional.

(** A map built by insertions is small enough. *)
Ltac solve_size :=
  repeat first [etrans; [apply size_insert_le|]; apply le_n_S | etrans; [apply size_put_optional_le|]; apply le_n_S];
  rewrite map_size_empty; lia.

(** A key of a map built by insertions, the check of a known key, or a check the
    encoder did. *)
Ltac solve_lookup :=
  match goal with |- validateKey _ = Ok tt => vm_compute; reflexivity | _ => idtac end;
  try assumption;
  repeat first [rewrite lookup_insert_eq | rewrite lookup_insert_ne by done |
    rewrite lookup_put_optional_ne by done | rewrite lookup_put_optional]; try done;
  try match goal with |- match ?o with Some _ => _ | None => _ end = _ => by destruct o end.

(** Splits off the checks that [H : c = Ok _] starts with. *)
Ltac take_steps H :=
  repeat match type of H with @mbind _ _ unit _ _ _ = Ok _ =>
    let E := fresh "E" in apply bind_ok in H; destruct H as ([] & E & H) end.

(** * A variant with the documented behaviour *)

#[warnings="-register-all"]
Inductive PlainVariant :=
| PvBool (b : bool) | PvInt32 (z : Z) | PvInt64 (z : Z) | PvUint32 (z : Z) | PvUint64 (z : Z) | PvString (s : string)
| PvVector (l : list PlainVariant) | PvMap (l : list (string * PlainVariant)).

#[export] Instance plain_variant : DbusVariant PlainVariant := {
  v_type v := match v with
              | PvBool _ => DT_BOOLEAN | PvInt32 _ => DT_INT32 | PvInt64 _ => DT_INT64 | PvUint32 _ => DT_UINT32
              | PvUint64 _ => DT_UINT64 | PvString _ => DT_STRING | _ => DT_OTHER
              end;
  of_bool := PvBool; of_int32 := PvInt32; of_int64 := PvInt64; of_uint64 := PvUint64; of_string := PvString;
  of_vector := PvVector; of_map m := PvMap (map_iter m);
  to_bool v := match v with PvBool b => b | _ => false end;
  to_int32 v := match v with PvInt32 z => z | _ => 0%Z end;
  to_int64 v := match v with PvInt64 z => z | _ => 0%Z end;
  to_uint32 v := match v with PvUint32 z => z | _ => 0%Z end;
  to_uint64 v := match v with PvUint64 z => z | _ => 0%Z end;
  to_string v := match v with PvString s => s | _ => "" end;
  to_vector v := match v with PvVector l => Some l | _ => None end;
  to_map v := match v with PvMap l => Some (list_to_map l) | _ => None end
}.

#[export] Instance plain_variant_laws : DbusVariantLaws PlainVariant.
Proof. split; try done. intros m. cbn. by rewrite list_to_map_map_iter. Defined.
