(* ===== verification/ObsCodec.v ===== *)
(** [transports/dbus/NetworkObservationDbusCodec.cpp] and
    [transports/dbus/NetworkObservationQueryHandler.cpp]: the wire form of
    interfaces, candidates, snapshots and issues, what decoding admits, and the
    answers of the query methods. *)

From S2P Require Import Prelude Contract Observation LocalState Filter Engine EngineProps Variant.

Section codec.
Context {V : Type} `{DbusVariant V}.

Abbreviation VariantMap := (gmap string V).

(** * Checks *)

Definition kRequiredIssueFields : list string :=
  [NetObs.ISSUE_SEVERITY; NetObs.ISSUE_MESSAGE; NetObs.ISSUE_COMPONENT; NetObs.ISSUE_OPERATION;
   NetObs.ISSUE_CATEGORY; NetObs.ISSUE_IDENTITY].

Definition validateRequiredIssueFields (fields : ObservationIssueFields) : result DecodeErrorCode unit :=
  check_all (λ k, throw_if (bool_decide (fields !! k = None)) missing_required_field) kRequiredIssueFields.

Definition requireField (m : VariantMap) (key : string) : result DecodeErrorCode V :=
  match m !! key with Some v => Ok v | None => Err missing_required_field end.

Definition validateStringSet (values : gset string) : result DecodeErrorCode unit :=
  _ ← throw_if (bool_decide (Ingress.obs_kMaxStringSetEntries < size values)) limit_exceeded;
  check_all validateString (set_iter values).

(** The type check and the limit every string passes. *)
Definition checkedString (v : V) : result DecodeErrorCode string :=
  _ ← throw_if (bool_decide (v_type v ≠ DT_STRING)) invalid_type;
  let value := to_string v in
  _ ← validateString value; Ok value.

Definition requireString (m : VariantMap) (key : string) : result DecodeErrorCode string :=
  _ ← validateKey key; field ← requireField m key; checkedString field.

Definition optionalString (m : VariantMap) (key : string) : result DecodeErrorCode (option string) :=
  match m !! key with
  | None => Ok None
  | Some v => value ← checkedString v; Ok (Some value)
  end.

Definition requireBool (m : VariantMap) (key : string) : result DecodeErrorCode bool :=
  _ ← validateKey key; field ← requireField m key;
  _ ← throw_if (bool_decide (v_type field ≠ DT_BOOLEAN)) invalid_type;
  Ok (to_bool field).

Definition requireInt32 (m : VariantMap) (key : string) : result DecodeErrorCode Z :=
  _ ← validateKey key; field ← requireField m key;
  _ ← throw_if (bool_decide (v_type field ≠ DT_INT32)) invalid_type;
  Ok (to_int32 field).

Definition requireStringSet (m : VariantMap) (key : string) : result DecodeErrorCode (gset string) :=
  _ ← validateKey key; field ← requireField m key;
  match to_vector field with
  | None => Err invalid_type
  | Some values =>
      _ ← throw_if (bool_decide (Ingress.obs_kMaxStringSetEntries < length values)) limit_exceeded;
      items ← mapM checkedString values;
      Ok (list_to_set items)
  end.

Definition parseClassification (value : string) : result DecodeErrorCode CandidateClassification :=
  let parsed := classificationFromString value in
  if bool_decide (parsed = Unknown) && bool_decide (value ≠ "Unknown") then Err invalid_value else Ok parsed.

Definition parseStatus (value : string) : result DecodeErrorCode CandidateStatus :=
  if decide (value = "Provisional") then Ok Provisional
  else if decide (value = "Confirmed") then Ok Confirmed
  else if decide (value = "Aged") then Ok Aged
  else if decide (value = "Expired") then Ok Expired
  else if decide (value = "Removed") then Ok Removed
  else Err invalid_value.

Definition validateMapLimit (m : VariantMap) (limit : nat) : result DecodeErrorCode unit :=
  throw_if (bool_decide (limit < size m)) limit_exceeded.

(** * Encoding *)

Definition of_strings (s : gset string) : V := of_vector (of_string <$> set_iter s).

Definition toVariantMap_iface (iface : LocalInterfaceState) : result DecodeErrorCode VariantMap :=
  _ ← validateString (if_ifname iface); _ ← validateString (if_mac iface); _ ← validateString (if_operstate iface);
  _ ← validateOptional (if_masterIfname iface);
  _ ← validateStringSet (if_ipv4 iface); _ ← validateStringSet (if_ipv6 iface);
  let d := <[NetObs.K_OPERSTATE := of_string (if_operstate iface)]>
    (<[NetObs.K_RUNNING := of_bool (if_running iface)]> (<[NetObs.K_ADMINUP := of_bool (if_adminUp iface)]>
      (<[NetObs.K_MAC := of_string (if_mac iface)]> (<[NetObs.K_IFNAME := of_string (if_ifname iface)]>
        (<[NetObs.K_IFINDEX := of_int32 (if_ifindex iface)]> ∅))))) in
  let d := put_optional NetObs.K_MASTER (if_masterIfname iface) d in
  Ok (<[NetObs.K_IPV6 := of_strings (if_ipv6 iface)]> (<[NetObs.K_IPV4 := of_strings (if_ipv4 iface)]> d)).

Definition toVariantMap_candidate (c : WireCandidate) : result DecodeErrorCode VariantMap :=
  _ ← validateString (w_mac c); _ ← validateOptional (w_bridgePort c); _ ← validateOptional (w_remoteChassisId c);
  _ ← validateOptional (w_remotePortId c); _ ← validateOptional (w_remoteSystemName c);
  _ ← validateStringSet (w_neighborIfaces c); _ ← validateStringSet (w_ipv4 c); _ ← validateStringSet (w_ipv6 c);
  let cand := <[NetObs.K_SEEN_IN_LLDP := of_bool (w_seenInLldp c)]>
    (<[NetObs.K_SEEN_IN_NEIGH := of_bool (w_seenInNeigh c)]> (<[NetObs.K_SEEN_IN_FDB := of_bool (w_seenInFdb c)]>
      (<[NetObs.K_STATUS := of_string (statusToString (w_status c))]>
        (<[NetObs.K_CLASSIFICATION := of_string (classificationToString (w_classification c))]>
          (<[NetObs.K_MAC := of_string (w_mac c)]> ∅))))) in
  let cand := put_optional NetObs.K_REMOTE_SYSTEM_NAME (w_remoteSystemName c)
    (put_optional NetObs.K_REMOTE_PORT_ID (w_remotePortId c)
      (put_optional NetObs.K_REMOTE_CHASSIS_ID (w_remoteChassisId c)
        (put_optional NetObs.K_BRIDGE_PORT (w_bridgePort c) cand))) in
  Ok (<[NetObs.K_IPV6 := of_strings (w_ipv6 c)]> (<[NetObs.K_IPV4 := of_strings (w_ipv4 c)]>
        (<[NetObs.K_NEIGHBOR_IFACES := of_strings (w_neighborIfaces c)]> cand))).

Definition encodeIssues (issues : ObservationIssues) : result DecodeErrorCode (gmap string VariantMap) :=
  _ ← throw_if (bool_decide (Ingress.obs_kMaxIssues < size issues)) limit_exceeded;
  map_traverse (λ issueCode fields,
    _ ← validateKey issueCode; _ ← validateRequiredIssueFields fields;
    _ ← throw_if (bool_decide (Ingress.obs_kMaxIssueFields < size fields)) limit_exceeded;
    map_traverse (λ name value, _ ← validateKey name; _ ← validateString value; Ok (of_string value)) fields) issues.

Definition encodeLocalSnapshot (snapshot : WireSnapshot) : result DecodeErrorCode VariantMap :=
  _ ← throw_if (bool_decide (Ingress.obs_kMaxInterfaces < size (ws_interfaces snapshot))) limit_exceeded;
  map_traverse (λ name interface,
    _ ← validateKey name;
    _ ← throw_if (bool_decide (name ≠ if_ifname interface)) invalid_value;
    m ← toVariantMap_iface interface; Ok (of_map m)) (ws_interfaces snapshot).

Definition encodeCandidateMacs (macs : list string) : result DecodeErrorCode (list string) :=
  _ ← throw_if (bool_decide (Ingress.obs_kMaxCandidates < length macs)) limit_exceeded;
  _ ← check_all validateString macs; Ok macs.

(** * Decoding *)

Definition fromVariantMapIface (m : VariantMap) : result DecodeErrorCode LocalInterfaceState :=
  _ ← validateMapLimit m 9;
  ifindex ← requireInt32 m NetObs.K_IFINDEX;
  ifname ← requireString m NetObs.K_IFNAME;
  mac ← requireString m NetObs.K_MAC;
  adminUp ← requireBool m NetObs.K_ADMINUP;
  running ← requireBool m NetObs.K_RUNNING;
  operstate ← requireString m NetObs.K_OPERSTATE;
  masterIfname ← optionalString m NetObs.K_MASTER;
  ipv4 ← requireStringSet m NetObs.K_IPV4;
  ipv6 ← requireStringSet m NetObs.K_IPV6;
  Ok (mkLocalInterfaceState ifindex ifname mac adminUp running operstate masterIfname ipv4 ipv6).

Definition fromVariantMapCandidate (m : VariantMap) : result DecodeErrorCode WireCandidate :=
  _ ← validateMapLimit m 13;
  mac ← requireString m NetObs.K_MAC;
  cls ← requireString m NetObs.K_CLASSIFICATION; classification ← parseClassification cls;
  st ← requireString m NetObs.K_STATUS; status ← parseStatus st;
  seenInFdb ← requireBool m NetObs.K_SEEN_IN_FDB;
  seenInNeigh ← requireBool m NetObs.K_SEEN_IN_NEIGH;
  seenInLldp ← requireBool m NetObs.K_SEEN_IN_LLDP;
  bridgePort ← optionalString m NetObs.K_BRIDGE_PORT;
  remoteChassisId ← optionalString m NetObs.K_REMOTE_CHASSIS_ID;
  remotePortId ← optionalString m NetObs.K_REMOTE_PORT_ID;
  remoteSystemName ← optionalString m NetObs.K_REMOTE_SYSTEM_NAME;
  neighborIfaces ← requireStringSet m NetObs.K_NEIGHBOR_IFACES;
  ipv4 ← requireStringSet m NetObs.K_IPV4;
  ipv6 ← requireStringSet m NetObs.K_IPV6;
  Ok (mkWireCandidate mac classification status seenInFdb seenInNeigh seenInLldp bridgePort remoteChassisId
        remotePortId remoteSystemName neighborIfaces ipv4 ipv6).

Definition fromVariantMapLocalSnapshot (m : VariantMap) : result DecodeErrorCode WireSnapshot :=
  _ ← validateMapLimit m Ingress.obs_kMaxInterfaces;
  interfaces ← map_traverse (λ name value,
    _ ← validateKey name;
    match to_map value with
    | None => Err invalid_type
    | Some ifaceMap =>
        interface ← fromVariantMapIface ifaceMap;
        _ ← throw_if (bool_decide (name ≠ if_ifname interface)) invalid_value;
        Ok interface
    end) m;
  Ok (mkWireSnapshot interfaces).

Definition obs_decodeIssues (issues : gmap string VariantMap) : result DecodeErrorCode ObservationIssues :=
  _ ← throw_if (bool_decide (Ingress.obs_kMaxIssues < size issues)) limit_exceeded;
  map_traverse (λ issueCode fields,
    _ ← validateKey issueCode;
    _ ← throw_if (bool_decide (Ingress.obs_kMaxIssueFields < size fields)) limit_exceeded;
    decodedFields ← map_traverse (λ name value, _ ← validateKey name; checkedString value) fields;
    _ ← validateRequiredIssueFields decodedFields;
    Ok decodedFields) issues.

(** * The query handler *)

Definition toWireSnapshot (snapshot : LocalNetworkSnapshot) : WireSnapshot := mkWireSnapshot (sn_interfaces snapshot).

Definition toWireCandidate (c : RemoteCandidate) : WireCandidate :=
  mkWireCandidate (c_mac c) (c_classification c) (c_status c) (c_seenInFdb c) (c_seenInNeigh c) (c_seenInLldp c)
    (c_bridgePort c) (c_remoteChassisId c) (c_remotePortId c) (c_remoteSystemName c) (c_neighborIfaces c)
    (c_ipv4 c) (c_ipv6 c).

(** [bound]: the binding grants the lease. A query that throws answers with the
    fallback. *)
Definition invokeQuery {R} (bound : bool) (fallback : R) (r : result DecodeErrorCode R) : R :=
  if negb bound then fallback else match r with Ok v => v | Err _ => fallback end.

Definition handler_getLocalSnapshot (bound : bool) (e : ObservationModelEngine) : VariantMap :=
  invokeQuery bound ∅ (encodeLocalSnapshot (toWireSnapshot (localSnapshot e))).

Definition handler_getInterface (bound : bool) (ifname : string) (e : ObservationModelEngine) : VariantMap :=
  invokeQuery bound ∅
    (match sn_interfaces (localSnapshot e) !! ifname with Some i => toVariantMap_iface i | None => Ok ∅ end).

Definition handler_getRemoteCandidateMacs (bound : bool) (e : ObservationModelEngine) : list string :=
  invokeQuery bound [] (encodeCandidateMacs (c_mac <$> remoteCandidates e)).

Definition handler_getCandidateByMac (bound : bool) (mac : string) (e : ObservationModelEngine) : VariantMap :=
  invokeQuery bound ∅
    (match findCandidateByMac mac e with Some c => toVariantMap_candidate (toWireCandidate c) | None => Ok ∅ end).

Definition handler_getIssues (bound : bool) (issues : ObservationIssues) : gmap string VariantMap :=
  invokeQuery bound ∅ (encodeIssues issues).

Definition handler_getReady (bound ready : bool) : bool := invokeQuery bound false (Ok ready).
Definition handler_getPhase (bound : bool) (phase : string) : string :=
  invokeQuery bound NetObs.PHASE_STOPPED (Ok phase).
End codec.

(** * Lemmas *)

Section facts.
Context {V : Type} `{DbusVariantLaws V}.
Abbreviation VariantMap := (gmap string V).
Implicit Types m : VariantMap.

Lemma requireField_ok m key v : m !! key = Some v → requireField m key = Ok v.
Proof. unfold requireField. by intros ->. Qed.

Lemma checkedString_ok s : validateString s = Ok tt → checkedString (of_string s) = Ok s.
Proof.
  intros Hs. unfold checkedString. rewrite string_type, string_back. cbn. by rewrite Hs.
Qed.

Lemma requireString_ok m key s :
  validateKey key = Ok tt → validateString s = Ok tt → m !! key = Some (of_string s) → requireString m key = Ok s.
Proof. intros Hk Hs Hm. unfold requireString. rewrite Hk, (requireField_ok _ _ _ Hm). by apply checkedString_ok. Qed.

Lemma optionalString_ok m key o :
  validateOptional o = Ok tt → m !! key = of_string <$> o → optionalString m key = Ok o.
Proof.
  intros Ho Hm. unfold optionalString. rewrite Hm. destruct o as [s|]; [|done].
  cbn [fmap option_fmap option_map]. by rewrite (checkedString_ok s Ho).
Qed.

Lemma requireBool_ok m key b :
  validateKey key = Ok tt → m !! key = Some (of_bool b) → requireBool m key = Ok b.
Proof.
  intros Hk Hm. unfold requireBool. rewrite Hk, (requireField_ok _ _ _ Hm). cbn. by rewrite bool_type, bool_back.
Qed.

Lemma requireInt32_ok m key z :
  validateKey key = Ok tt → int32 z → m !! key = Some (of_int32 z) → requireInt32 m key = Ok z.
Proof.
  intros Hk Hz Hm. unfold requireInt32. rewrite Hk, (requireField_ok _ _ _ Hm). cbn. by rewrite int32_type, int32_back.
Qed.

Lemma validateStringSet_ok s :
  validateStringSet s = Ok tt →
  size s ≤ Ingress.obs_kMaxStringSetEntries ∧ Forall (λ x, validateString x = Ok tt) (set_iter s).
Proof.
  unfold validateStringSet. intros ([] & Hs & Hc)%bind_ok. apply throw_if_ok, bool_decide_eq_false in Hs.
  apply check_all_ok in Hc. split; [lia|done].
Qed.

Lemma requireStringSet_ok m key s :
  validateKey key = Ok tt → validateStringSet s = Ok tt → m !! key = Some (of_strings s) → requireStringSet m key = Ok s.
Proof.
  intros Hk [Hs Hc]%validateStringSet_ok Hm. unfold requireStringSet, of_strings in *.
  rewrite Hk, (requireField_ok _ _ _ Hm). cbn [mbind result_bind]. rewrite vector_back, length_fmap, length_set_iter.
  rewrite bool_decide_eq_false_2 by lia. cbn [throw_if mbind result_bind].
  assert (mapM checkedString (of_string <$> set_iter s) = Ok (set_iter s)) as ->.
  { apply mapM_ok, Forall2_fmap_l, Forall2_same_length_lookup_2; [done|]. intros i x y Hx Hy.
    rewrite Hx in Hy. injection Hy as ->. apply checkedString_ok. exact (Forall_lookup_1 _ _ _ _ Hc Hx). }
  cbn. by rewrite list_to_set_set_iter.
Qed.

Lemma validateMapLimit_ok m n : size m ≤ n → validateMapLimit m n = Ok tt.
Proof. intros Hm. apply throw_if_ok, bool_decide_eq_false. lia. Qed.
End facts.

(** One step of a decoder: [L] says that it gives [a]. *)
Tactic Notation "decode_step" uconstr(a) "by" constr(L) :=
  apply (bind_step _ _ a); [apply L; solve_lookup|cbv beta].

Section roundtrip.
Context {V : Type} `{DbusVariantLaws V}.

Lemma iface_roundtrip iface m :
  int32 (if_ifindex iface) → toVariantMap_iface iface = Ok m → fromVariantMapIface m = Ok iface.
Proof.
  intros Hi Hm. unfold toVariantMap_iface in Hm. take_steps Hm. injection Hm as <-. unfold fromVariantMapIface.
  rewrite validateMapLimit_ok by solve_size. cbn [mbind result_bind].
  decode_step (if_ifindex iface) by requireInt32_ok. decode_step (if_ifname iface) by requireString_ok.
  decode_step (if_mac iface) by requireString_ok. decode_step (if_adminUp iface) by requireBool_ok.
  decode_step (if_running iface) by requireBool_ok. decode_step (if_operstate iface) by requireString_ok.
  decode_step (if_masterIfname iface) by optionalString_ok.
  decode_step (if_ipv4 iface) by requireStringSet_ok. decode_step (if_ipv6 iface) by requireStringSet_ok.
  by destruct iface.
Qed.

Lemma parseClassification_ok c : parseClassification (classificationToString c) = Ok c.
Proof. by destruct c. Qed.

Lemma parseStatus_ok s : parseStatus (statusToString s) = Ok s.
Proof. by destruct s. Qed.

Lemma enum_strings_ok c s : validateString (classificationToString c) = Ok tt ∧ validateString (statusToString s) = Ok tt.
Proof. split; [destruct c|destruct s]; vm_compute; reflexivity. Qed.

Lemma candidate_roundtrip c m : toVariantMap_candidate c = Ok m → fromVariantMapCandidate m = Ok c.
Proof.
  intros Hm. unfold toVariantMap_candidate in Hm. take_steps Hm. injection Hm as <-. unfold fromVariantMapCandidate.
  destruct (enum_strings_ok (w_classification c) (w_status c)) as [Hc Hs].
  rewrite validateMapLimit_ok by solve_size. cbn [mbind result_bind].
  decode_step (w_mac c) by requireString_ok.
  decode_step (classificationToString (w_classification c)) by requireString_ok. rewrite parseClassification_ok.
  cbn [mbind result_bind].
  decode_step (statusToString (w_status c)) by requireString_ok. rewrite parseStatus_ok. cbn [mbind result_bind].
  decode_step (w_seenInFdb c) by requireBool_ok. decode_step (w_seenInNeigh c) by requireBool_ok.
  decode_step (w_seenInLldp c) by requireBool_ok.
  decode_step (w_bridgePort c) by optionalString_ok.
  decode_step (w_remoteChassisId c) by optionalString_ok.
  decode_step (w_remotePortId c) by optionalString_ok.
  decode_step (w_remoteSystemName c) by optionalString_ok.
  decode_step (w_neighborIfaces c) by requireStringSet_ok. decode_step (w_ipv4 c) by requireStringSet_ok.
  decode_step (w_ipv6 c) by requireStringSet_ok. by destruct c.
Qed.

Lemma snapshot_roundtrip s m :
  map_Forall (λ _ i, int32 (if_ifindex i)) (ws_interfaces s) →
  encodeLocalSnapshot s = Ok m → fromVariantMapLocalSnapshot m = Ok s.
Proof.
  intros Hi ([] & Hs & Hm)%bind_ok. apply throw_if_ok, bool_decide_eq_false in Hs. unfold fromVariantMapLocalSnapshot.
  rewrite validateMapLimit_ok by (rewrite (map_traverse_size _ _ _ Hm); lia). cbn [mbind result_bind].
  apply (bind_step _ _ (ws_interfaces s)); [|by destruct s].
  apply (map_traverse_inv _ _ _ _ Hm). intros k i v Hk Hv. take_steps Hv. apply bind_ok in Hv as (mi & Hmi & [= <-]).
  rewrite E. cbn [mbind result_bind]. rewrite map_back, (iface_roundtrip i mi) by (try done; by apply (Hi k)).
  cbn [mbind result_bind]. by rewrite E0.
Qed.

Lemma issues_roundtrip issues m : encodeIssues issues = Ok m → obs_decodeIssues m = Ok issues.
Proof.
  intros ([] & Hs & Hm)%bind_ok. apply throw_if_ok, bool_decide_eq_false in Hs. unfold obs_decodeIssues.
  rewrite (map_traverse_size _ _ _ Hm), bool_decide_eq_false_2 by lia. cbn [throw_if mbind result_bind].
  apply (map_traverse_inv _ _ _ _ Hm). intros k fields em _ Hv. take_steps Hv. rewrite E. cbn [mbind result_bind].
  rewrite (map_traverse_size _ _ _ Hv), E1. cbn [mbind result_bind].
  apply (bind_step _ _ fields); [|by rewrite E0]. apply (map_traverse_inv _ _ _ _ Hv).
  intros name value v _ Hx. take_steps Hx. injection Hx as <-. rewrite E2. by apply checkedString_ok.
Qed.

(** C37: what the daemon encodes the client decodes: whenever encoding an
    interface, a candidate, a snapshot or the issues succeeds, decoding the
    result gives it back exactly, within every limit the decoder checks. *)
Theorem obs_codec_roundtrip :
  (∀ iface (m : gmap string V), int32 (if_ifindex iface) → toVariantMap_iface iface = Ok m → fromVariantMapIface m = Ok iface) ∧
  (∀ c (m : gmap string V), toVariantMap_candidate c = Ok m → fromVariantMapCandidate m = Ok c) ∧
  (∀ s (m : gmap string V), map_Forall (λ _ i, int32 (if_ifindex i)) (ws_interfaces s) →
    encodeLocalSnapshot s = Ok m → fromVariantMapLocalSnapshot m = Ok s) ∧
  (∀ issues (m : gmap string (gmap string V)), encodeIssues issues = Ok m → obs_decodeIssues m = Ok issues).
Proof. exact (conj iface_roundtrip (conj candidate_roundtrip (conj snapshot_roundtrip issues_roundtrip))). Qed.
End roundtrip.

(** * What the query methods answer *)

(** The ingress limits. *)
Definition string_fits (s : string) : Prop := String.length s ≤ Ingress.kMaxStringLength.
Definition optional_fits (o : option string) : Prop := match o with Some s => string_fits s | None => True end.
Definition set_fits (s : gset string) : Prop := size s ≤ Ingress.obs_kMaxStringSetEntries ∧ set_Forall string_fits s.

Definition iface_fits (i : LocalInterfaceState) : Prop :=
  string_fits (if_ifname i) ∧ string_fits (if_mac i) ∧ string_fits (if_operstate i) ∧ optional_fits (if_masterIfname i) ∧
  set_fits (if_ipv4 i) ∧ set_fits (if_ipv6 i).

Definition candidate_fits (c : WireCandidate) : Prop :=
  string_fits (w_mac c) ∧ optional_fits (w_bridgePort c) ∧ optional_fits (w_remoteChassisId c) ∧
  optional_fits (w_remotePortId c) ∧ optional_fits (w_remoteSystemName c) ∧
  set_fits (w_neighborIfaces c) ∧ set_fits (w_ipv4 c) ∧ set_fits (w_ipv6 c).

(** The interfaces the snapshot query can encode. *)
Definition snapshot_fits (s : WireSnapshot) : Prop :=
  size (ws_interfaces s) ≤ Ingress.obs_kMaxInterfaces ∧
  map_Forall (λ k i, String.length k ≤ Ingress.kMaxKeyLength ∧ k = if_ifname i ∧ int32 (if_ifindex i) ∧ iface_fits i)
    (ws_interfaces s).

Lemma validateString_fits s : validateString s = Ok tt ↔ string_fits s.
Proof. unfold validateString, string_fits. rewrite throw_if_ok, bool_decide_eq_false. lia. Qed.

Lemma validateKey_fits s : validateKey s = Ok tt ↔ String.length s ≤ Ingress.kMaxKeyLength.
Proof. unfold validateKey. rewrite throw_if_ok, bool_decide_eq_false. lia. Qed.

Lemma validateOptional_fits o : validateOptional o = Ok tt ↔ optional_fits o.
Proof. destruct o; [apply validateString_fits|done]. Qed.

Lemma validateStringSet_fits s : validateStringSet s = Ok tt ↔ set_fits s.
Proof.
  unfold validateStringSet, set_fits. rewrite bind_ok. split.
  - intros ([] & Hs & Hc). apply throw_if_ok, bool_decide_eq_false in Hs. apply check_all_ok in Hc. split; [lia|].
    intros x Hx%elem_of_set_iter. rewrite Forall_forall in Hc. by apply validateString_fits, Hc.
  - intros [Hs Hc]. exists tt. rewrite throw_if_ok, bool_decide_eq_false, check_all_ok. split; [lia|].
    apply Forall_forall. intros x Hx%elem_of_set_iter. by apply validateString_fits, Hc.
Qed.

Section answers.
Context {V : Type} `{DbusVariantLaws V} `{InetPton}.

Lemma toVariantMap_iface_ok i : iface_fits i → ∃ m : gmap string V, toVariantMap_iface i = Ok m.
Proof.
  intros (F1 & F2 & F3 & F4 & F5 & F6). unfold toVariantMap_iface.
  rewrite !(proj2 (validateString_fits _)), (proj2 (validateOptional_fits _)), !(proj2 (validateStringSet_fits _)) by done.
  cbn. eauto.
Qed.

Lemma toVariantMap_candidate_ok c : candidate_fits c → ∃ m : gmap string V, toVariantMap_candidate c = Ok m.
Proof.
  intros (F1 & F2 & F3 & F4 & F5 & F6 & F7 & F8). unfold toVariantMap_candidate.
  rewrite (proj2 (validateString_fits _)), !(proj2 (validateOptional_fits _)), !(proj2 (validateStringSet_fits _)) by done.
  cbn. eauto.
Qed.

Lemma encodeLocalSnapshot_ok s : snapshot_fits s → ∃ m : gmap string V, encodeLocalSnapshot s = Ok m.
Proof.
  intros [Hs Ha]. unfold encodeLocalSnapshot. rewrite bool_decide_eq_false_2 by lia. cbn [throw_if mbind result_bind].
  eexists. apply map_traverse_ok. Unshelve.
  2: exact (of_map ∘ default ∅ ∘ (λ i, match toVariantMap_iface i with Ok m => Some m | Err _ => None end) <$> ws_interfaces s).
  split; [|intros k Hk; by rewrite lookup_fmap, Hk]. intros k i Hk. destruct (Ha k i Hk) as (Hl & -> & _ & Hi).
  destruct (toVariantMap_iface_ok i Hi) as [m Hm]. rewrite lookup_fmap, Hk. eexists. split; [reflexivity|].
  rewrite (proj2 (validateKey_fits _) Hl).
  cbn [mbind result_bind].
  rewrite bool_decide_eq_false_2 by (intros []; done). cbn [throw_if mbind result_bind]. rewrite Hm. cbn. by rewrite Hm.
Qed.

(** What the query methods answer, decoded: for every state the engine can reach
    whose published candidates are within the ingress limits, the published MACs
    and candidates, the local interfaces when they are encodable, and the fallbacks
    of a service that is not bound. *)
Lemma query_answers inputs config :
  let e := (engine_run inputs (engine_init config)).1 in
  let macs := handler_getRemoteCandidateMacs true e in
  EvidenceRequired (createClassifier (classifierConfig config)) → Forall input_ok inputs →
  length (remoteCandidates e) ≤ Ingress.obs_kMaxCandidates →
  Forall (λ c, candidate_fits (toWireCandidate c)) (remoteCandidates e) →
  macs = c_mac <$> remoteCandidates e ∧
  (∀ mac, mac ∈ macs → ∃ c, c ∈ remoteCandidates e ∧ c_mac c = mac ∧
    fromVariantMapCandidate (handler_getCandidateByMac (V := V) true mac e) = Ok (toWireCandidate c)) ∧
  (∀ mac, mac ∉ macs → handler_getCandidateByMac (V := V) true mac e = ∅) ∧
  (snapshot_fits (toWireSnapshot (localSnapshot e)) →
    fromVariantMapLocalSnapshot (handler_getLocalSnapshot (V := V) true e) = Ok (toWireSnapshot (localSnapshot e))) ∧
  (∀ mac, handler_getRemoteCandidateMacs false e = [] ∧ handler_getCandidateByMac (V := V) false mac e = ∅ ∧
    handler_getLocalSnapshot (V := V) false e = ∅).
Proof.
  intros e macs Hcl Hin Hlen Hfit. destruct (engine_run_ok inputs config Hcl Hin) as [_ Hall]. fold e in Hall.
  assert (Hm : macs = c_mac <$> remoteCandidates e).
  { unfold macs, handler_getRemoteCandidateMacs, encodeCandidateMacs, invokeQuery. cbn [negb].
    rewrite length_fmap, bool_decide_eq_false_2 by lia. cbn [throw_if mbind result_bind].
    rewrite (proj2 (check_all_ok _ _)); [done|]. apply Forall_fmap. eapply Forall_impl; [exact Hfit|].
    intros c [Hc _]. by apply validateString_fits. }
  assert (Hk : ∀ mac c, candidates_ e !! mac = Some c → c_mac c = mac) by (intros mac c Hc; apply (Hall mac c Hc)).
  split_and!; [done|..].
  - intros mac. rewrite Hm. intros (c & -> & Hc)%list_elem_of_fmap. exists c. split_and!; [done|done|].
    pose proof (proj1 (Forall_forall _ _) Hfit c Hc) as Hf. apply elem_of_remoteCandidates in Hc as (Hp & k & Hc).
    rewrite (Hk k c Hc). unfold handler_getCandidateByMac, findCandidateByMac. rewrite Hc, Hp.
    destruct (toVariantMap_candidate_ok _ Hf) as [m Hm']. rewrite Hm'. by apply candidate_roundtrip.
  - intros mac Hn. unfold handler_getCandidateByMac, findCandidateByMac.
    destruct (candidates_ e !! mac) as [c|] eqn:Hc; [|done]. destruct (isPublishable c) eqn:Hp; [|done].
    destruct Hn. rewrite Hm. apply list_elem_of_fmap. exists c. split; [by rewrite (Hk mac c Hc)|].
    apply elem_of_remoteCandidates. eauto.
  - intros Hs. destruct (encodeLocalSnapshot_ok _ Hs) as [m Hm']. unfold handler_getLocalSnapshot. rewrite Hm'.
    apply (snapshot_roundtrip _ _); [|done]. destruct Hs as [_ Ha]. intros k i Hi. by destruct (Ha k i Hi) as (_ & _ & ? & _).
  - done.
Qed.

End answers.

(** * What modelling showed *)

(** An address of an interface that no link observation named creates an entry
    without a name; the snapshot query then answers with nothing at all. *)
Lemma unnamed_interface_hides_snapshot :
  let e := (engine_run (H := demo_pton) [ILink (link_obs "eth0" "02:00:00:00:00:07" EvPresent) 1;
              IAddress (addr_obs "eth1" "10.0.0.1/24" EvRemoved) 2] (engine_init default_model_config)).1 in
  size (sn_interfaces (localSnapshot e)) = 2 ∧ handler_getLocalSnapshot (V := PlainVariant) true e = ∅.
Proof. split; vm_compute; reflexivity. Qed.

(** * Witnesses *)

Definition demo_iface : LocalInterfaceState :=
  mkLocalInterfaceState 3 "eth0" "02:00:00:00:00:07" true false "up" (Some "br0") {["10.0.0.1/24"]} ∅.

Lemma obs_codec_roundtrip_witness :
  ∃ m : gmap string PlainVariant, toVariantMap_iface demo_iface = Ok m ∧ fromVariantMapIface m = Ok demo_iface.
Proof.
  destruct (toVariantMap_iface demo_iface) as [m|] eqn:Hm; [|exfalso; vm_compute in Hm; discriminate Hm].
  exists m. split; [reflexivity|]. destruct (obs_codec_roundtrip (V := PlainVariant)) as [Hi _].
  apply (Hi demo_iface m); [unfold int32, int_in; cbn; lia|exact Hm].
Defined.
