(* ===== verification/InvCodec.v ===== *)
(** [services/rmc-inventory/transports/dbus/InventoryDbusCodec.cpp]: the wire form
    of inventory snapshots, source states and issues. *)

From S2P Require Import Prelude Contract Variant.

Section codec.
Context {V : Type} `{DbusVariant V}.

Abbreviation VariantMap := (gmap string V).

Definition validateFieldMapSize (m : VariantMap) (limit : nat) : result DecodeErrorCode unit :=
  throw_if (bool_decide (limit < size m)) limit_exceeded.

Definition inv_requireField (m : VariantMap) (key : string) : result DecodeErrorCode V :=
  match m !! key with Some v => Ok v | None => Err missing_required_field end.

Definition varToInt64 (v : V) : result DecodeErrorCode Z :=
  match v_type v with
  | DT_INT32 => Ok (to_int32 v)
  | DT_INT64 => Ok (to_int64 v)
  | DT_UINT32 => Ok (to_uint32 v)
  | DT_UINT64 => if (2 ^ 63 - 1 <? to_uint64 v)%Z then Err invalid_value else Ok (to_uint64 v)
  | _ => Err invalid_type
  end.

Definition varToUint64 (v : V) : result DecodeErrorCode Z :=
  match v_type v with
  | DT_UINT32 => Ok (to_uint32 v)
  | DT_UINT64 => Ok (to_uint64 v)
  | DT_INT32 => if (to_int32 v <? 0)%Z then Err invalid_value else Ok (to_int32 v)
  | DT_INT64 => if (to_int64 v <? 0)%Z then Err invalid_value else Ok (to_int64 v)
  | _ => Err invalid_type
  end.

Definition inv_requireBool (m : VariantMap) (key : string) : result DecodeErrorCode bool :=
  field ← inv_requireField m key;
  _ ← throw_if (bool_decide (v_type field ≠ DT_BOOLEAN)) invalid_type;
  Ok (to_bool field).

(** The type check and the limit every string passes. *)
Definition inv_checkedString (v : V) : result DecodeErrorCode string :=
  _ ← throw_if (bool_decide (v_type v ≠ DT_STRING)) invalid_type;
  _ ← validateString (to_string v); Ok (to_string v).

Definition inv_requireString (m : VariantMap) (key : string) : result DecodeErrorCode string :=
  field ← inv_requireField m key; inv_checkedString field.

Definition inv_optionalString (m : VariantMap) (key : string) : result DecodeErrorCode (option string) :=
  match m !! key with None => Ok None | Some v => s ← inv_checkedString v; Ok (Some s) end.

Definition healthToString (health : SourceHealth) : string :=
  match health with OK => Inv.HEALTH_OK | DEGRADED => Inv.HEALTH_DEGRADED | FAILED => Inv.HEALTH_FAILED end.

Definition healthFromString (s : string) : result DecodeErrorCode SourceHealth :=
  if decide (s = Inv.HEALTH_OK) then Ok OK
  else if decide (s = Inv.HEALTH_DEGRADED) then Ok DEGRADED
  else if decide (s = Inv.HEALTH_FAILED) then Ok FAILED
  else Err invalid_value.

(** * Encoding *)

Definition encodeFieldValue (value : FieldValue) : V :=
  match value with
  | FBool b => of_bool b | FInt64 z => of_int64 z | FUint64 z => of_uint64 z | FString s => of_string s
  end.

Definition encodeFields (fields : InventoryFields) : VariantMap := encodeFieldValue <$> fields.

(** [std::runtime_error] with the reserved key. *)
Definition validateNoReservedKeysInFields (fields : InventoryFields) : result string unit :=
  let key := first_reserved_metadata_field fields in throw_if (negb (str_empty key)) key.

Definition encodeSnapshot (snapshot : InventorySnapshot) : result string VariantMap :=
  _ ← validateNoReservedKeysInFields (is_fields snapshot);
  Ok (<[Inv.FIELD_PHASE := of_string (is_phase snapshot)]> (<[Inv.FIELD_READY := of_bool (is_ready snapshot)]>
        (<[Inv.FIELD_TIMESTAMP := of_int64 (is_timestamp snapshot)]>
          (<[Inv.FIELD_VERSION := of_uint64 (is_version snapshot)]> (encodeFields (is_fields snapshot)))))).

Definition encodeSourceState (state : SourceState) : VariantMap :=
  let m := <[Inv.SOURCE_STATE_LAST_SUCCESS_TS := of_int64 (ss_lastSuccessTs state)]>
    (<[Inv.SOURCE_STATE_LAST_ATTEMPT_TS := of_int64 (ss_lastAttemptTs state)]>
      (<[Inv.SOURCE_STATE_STALE := of_bool (ss_stale state)]> (<[Inv.SOURCE_STATE_REQUIRED := of_bool (ss_required state)]>
        (<[Inv.SOURCE_STATE_HEALTH := of_string (healthToString (ss_health state))]> ∅)))) in
  put_optional Inv.SOURCE_STATE_ORIGIN (ss_origin state)
    (put_optional Inv.SOURCE_STATE_LAST_ERROR (ss_lastError state) m).

Definition encodeSourceStates (states : SourceStateMap) : gmap string VariantMap := encodeSourceState <$> states.

Definition inv_encodeIssues (issues : InventoryIssues) : gmap string VariantMap := encodeFields <$> issues.

(** * Decoding *)

Definition decodeFieldValue (value : V) : result DecodeErrorCode FieldValue :=
  match v_type value with
  | DT_BOOLEAN => Ok (FBool (to_bool value))
  | DT_INT32 => Ok (FInt64 (to_int32 value))
  | DT_INT64 => Ok (FInt64 (to_int64 value))
  | DT_UINT32 => Ok (FUint64 (to_uint32 value))
  | DT_UINT64 => Ok (FUint64 (to_uint64 value))
  | DT_STRING => _ ← validateString (to_string value); Ok (FString (to_string value))
  | DT_OTHER => Err invalid_type
  end.

Definition decodeFields (m : VariantMap) : result DecodeErrorCode InventoryFields :=
  _ ← validateFieldMapSize m Ingress.inv_kMaxFields;
  map_traverse (λ key var, _ ← validateKey key; decodeFieldValue var) m.

(** The loop checks the reserved keys too and then skips them. *)
Definition decodeSnapshot (m : VariantMap) : result DecodeErrorCode InventorySnapshot :=
  _ ← validateFieldMapSize m (Ingress.inv_kMaxFields + 4);
  version ← (v ← inv_requireField m Inv.FIELD_VERSION; varToUint64 v);
  timestamp ← (v ← inv_requireField m Inv.FIELD_TIMESTAMP; varToInt64 v);
  ready ← inv_requireBool m Inv.FIELD_READY;
  phase ← inv_requireString m Inv.FIELD_PHASE;
  entries ← map_traverse (λ key var,
    _ ← validateKey key;
    if is_metadata_field key then Ok None else v ← decodeFieldValue var; Ok (Some v)) m;
  Ok (mkInventorySnapshot version timestamp ready phase (omap id entries)).

Definition decodeSourceState (m : VariantMap) (sourceName : string) : result DecodeErrorCode SourceState :=
  _ ← validateFieldMapSize m 7; _ ← validateString sourceName;
  h ← inv_requireString m Inv.SOURCE_STATE_HEALTH; health ← healthFromString h;
  required ← inv_requireBool m Inv.SOURCE_STATE_REQUIRED;
  stale ← inv_requireBool m Inv.SOURCE_STATE_STALE;
  lastAttemptTs ← (v ← inv_requireField m Inv.SOURCE_STATE_LAST_ATTEMPT_TS; varToInt64 v);
  lastSuccessTs ← (v ← inv_requireField m Inv.SOURCE_STATE_LAST_SUCCESS_TS; varToInt64 v);
  lastError ← inv_optionalString m Inv.SOURCE_STATE_LAST_ERROR;
  origin ← inv_optionalString m Inv.SOURCE_STATE_ORIGIN;
  Ok (mkSourceState sourceName required stale health lastAttemptTs lastSuccessTs lastError origin).

Definition decodeSourceStates (states : gmap string VariantMap) : result DecodeErrorCode SourceStateMap :=
  _ ← throw_if (bool_decide (Ingress.inv_kMaxSources < size states)) limit_exceeded;
  map_traverse (λ name inner, _ ← validateKey name; decodeSourceState inner name) states.

Definition inv_decodeIssues (m : gmap string VariantMap) : result DecodeErrorCode InventoryIssues :=
  _ ← throw_if (bool_decide (Ingress.inv_kMaxIssues < size m)) limit_exceeded;
  map_traverse (λ name inner,
    _ ← validateKey name; _ ← validateFieldMapSize inner Ingress.inv_kMaxIssueFields; decodeFields inner) m.
End codec.

(** * Limits *)

(** What the decoder admits. *)
Definition key_fits (k : string) : Prop := String.length k ≤ Ingress.kMaxKeyLength.
Definition text_fits (s : string) : Prop := String.length s ≤ Ingress.kMaxStringLength.

Definition value_fits (v : FieldValue) : Prop :=
  match v with FBool _ => True | FInt64 z => int64 z | FUint64 z => uint64 z | FString s => text_fits s end.

Definition fields_fit (limit : nat) (fields : InventoryFields) : Prop :=
  size fields ≤ limit ∧ map_Forall (λ k v, key_fits k ∧ value_fits v) fields.

Record inv_snapshot_fits (s : InventorySnapshot) : Prop := mkInvSnapshotFits {
  sf_version : uint64 (is_version s);
  sf_timestamp : int64 (is_timestamp s);
  sf_phase : text_fits (is_phase s);
  sf_fields : fields_fit Ingress.inv_kMaxFields (is_fields s);
  sf_reserved : map_Forall (λ k _, is_metadata_field k = false) (is_fields s)
}.

Record source_fits (k : string) (s : SourceState) : Prop := mkSourceFits {
  st_key : key_fits k;
  st_name : ss_name s = k;
  st_attempt : int64 (ss_lastAttemptTs s);
  st_success : int64 (ss_lastSuccessTs s);
  st_error : from_option text_fits True (ss_lastError s);
  st_origin : from_option text_fits True (ss_origin s)
}.

Section roundtrip.
Context {V : Type} `{DbusVariantLaws V}.
Abbreviation VariantMap := (gmap string V).
Implicit Types m : VariantMap.

Lemma key_ok k : key_fits k → validateKey k = Ok tt.
Proof. intros Hk. apply throw_if_ok, bool_decide_eq_false, Nat.nlt_ge, Hk. Qed.

Lemma text_ok s : text_fits s → validateString s = Ok tt.
Proof. intros Hs. apply throw_if_ok, bool_decide_eq_false, Nat.nlt_ge, Hs. Qed.

Lemma inv_requireBool_ok m key b : m !! key = Some (of_bool b) → inv_requireBool m key = Ok b.
Proof. intros Hm. unfold inv_requireBool, inv_requireField. rewrite Hm. cbn. by rewrite bool_type, bool_back. Qed.

Lemma inv_checkedString_ok s : text_fits s → inv_checkedString (of_string s) = Ok s.
Proof. intros Hs. unfold inv_checkedString. rewrite string_type, string_back. cbn. by rewrite text_ok. Qed.

Lemma inv_requireString_ok m key s :
  text_fits s → m !! key = Some (of_string s) → inv_requireString m key = Ok s.
Proof. intros Hs Hm. unfold inv_requireString, inv_requireField. rewrite Hm. by apply inv_checkedString_ok. Qed.

Lemma inv_optionalString_ok m key o :
  from_option text_fits True o → m !! key = of_string <$> o → inv_optionalString m key = Ok o.
Proof.
  intros Ho Hm. unfold inv_optionalString. rewrite Hm. destruct o as [s|]; [|done].
  cbn [fmap option_fmap option_map]. by rewrite (inv_checkedString_ok s Ho).
Qed.

Lemma requireInt64_ok m key z :
  int64 z → m !! key = Some (of_int64 z) → (v ← inv_requireField m key; varToInt64 v) = Ok z.
Proof.
  intros Hz Hm. unfold inv_requireField. rewrite Hm. cbn. unfold varToInt64. by rewrite int64_type, int64_back.
Qed.

Lemma requireUint64_ok m key z :
  uint64 z → m !! key = Some (of_uint64 z) → (v ← inv_requireField m key; varToUint64 v) = Ok z.
Proof.
  intros Hz Hm. unfold inv_requireField. rewrite Hm. cbn. unfold varToUint64. by rewrite uint64_type, uint64_back.
Qed.

Lemma decode_value v : value_fits v → decodeFieldValue (encodeFieldValue v) = Ok v.
Proof.
  unfold decodeFieldValue. destruct v as [b|z|z|s]; cbn; intros Hv.
  - by rewrite bool_type, bool_back.
  - by rewrite int64_type, int64_back.
  - by rewrite uint64_type, uint64_back.
  - rewrite string_type, string_back. cbn. by rewrite text_ok.
Qed.

Lemma fields_roundtrip fields :
  fields_fit Ingress.inv_kMaxFields fields → decodeFields (encodeFields fields) = Ok fields.
Proof.
  intros [Hs Hf]. unfold decodeFields, encodeFields, validateFieldMapSize. rewrite map_size_fmap, bool_decide_eq_false_2 by lia.
  cbn [throw_if mbind result_bind]. apply map_traverse_ok. split.
  - intros k v. rewrite lookup_fmap, fmap_Some. intros (w & Hw & ->). exists w. split; [done|].
    destruct (Hf k w Hw) as [Hk Hv]. rewrite key_ok by done. by apply decode_value.
  - intros k. rewrite lookup_fmap. by destruct (fields !! k).
Qed.

Lemma healthFromString_ok h : healthFromString (healthToString h) = Ok h.
Proof. by destruct h. Qed.

Lemma size_source_state s : size (encodeSourceState s : VariantMap) ≤ 7.
Proof. unfold encodeSourceState. solve_size. Qed.

Lemma lookup_encodeFields fields k : (encodeFields fields : VariantMap) !! k = encodeFieldValue <$> fields !! k.
Proof. apply lookup_fmap. Qed.

(** The metadata keys over the fields of a snapshot. *)
Definition with_meta {A} (version timestamp ready phase : A) (m : gmap string A) : gmap string A :=
  <[Inv.FIELD_PHASE := phase]> (<[Inv.FIELD_READY := ready]>
    (<[Inv.FIELD_TIMESTAMP := timestamp]> (<[Inv.FIELD_VERSION := version]> m))).

Lemma with_meta_other {A} (a b c d : A) (m : gmap string A) k :
  is_metadata_field k = false → with_meta a b c d m !! k = m !! k.
Proof.
  intros Hk. assert (Hn : ∀ x, is_metadata_field x = true → x ≠ k) by (intros x Hx ->; congruence).
  unfold with_meta. by rewrite !lookup_insert_ne by (by apply Hn).
Qed.

Lemma with_meta_reserved {A} (a b c d : A) (m : gmap string A) k :
  is_metadata_field k = true → ∃ x, with_meta a b c d m !! k = Some x ∧ x ∈ [a; b; c; d].
Proof.
  intros Hk%is_metadata_field_spec. unfold with_meta.
  repeat (apply elem_of_cons in Hk as [->|Hk]; [eexists; split; [repeat first [rewrite lookup_insert_eq|rewrite lookup_insert_ne by done]; done|set_solver]|]).
  by apply not_elem_of_nil in Hk.
Qed.

Lemma entries_decode (a b c d : V) fields :
  fields_fit Ingress.inv_kMaxFields fields → map_Forall (λ k _, is_metadata_field k = false) fields →
  map_traverse (λ key var,
    _ ← validateKey key;
    if is_metadata_field key then Ok None else v ← decodeFieldValue var; Ok (Some v))
    (with_meta a b c d (encodeFields fields)) = Ok (with_meta None None None None (Some <$> fields)).
Proof.
  intros [_ Hf] Hr. apply map_traverse_ok. split; intros k.
  - intros v Hv. destruct (is_metadata_field k) eqn:Hk.
    + destruct (with_meta_reserved None None None None (Some <$> fields) k Hk) as (x & Hx & Hin). exists x. split; [done|].
      assert (x = None) as -> by set_solver. rewrite key_ok; [done|]. apply is_metadata_field_spec in Hk.
      repeat (apply elem_of_cons in Hk as [->|Hk]; [by apply (bool_decide_unpack (_ ≤ _))|]). by apply not_elem_of_nil in Hk.
    + rewrite with_meta_other in Hv by done. rewrite with_meta_other by done. rewrite lookup_encodeFields in Hv. rewrite lookup_fmap.
      apply fmap_Some in Hv as (w & Hw & ->). rewrite Hw. destruct (Hf k w Hw) as [Hkf Hvf]. eexists. split; [done|].
      rewrite key_ok by done. cbn [mbind result_bind]. by rewrite decode_value.
  - intros Hk. destruct (is_metadata_field k) eqn:Hm.
    + destruct (with_meta_reserved a b c d (encodeFields fields) k Hm) as (x & Hx & _). congruence.
    + rewrite with_meta_other in Hk by done. rewrite with_meta_other by done. rewrite lookup_encodeFields in Hk.
      rewrite lookup_fmap. by destruct (fields !! k).
Qed.

Lemma entries_fields (fields : InventoryFields) :
  map_Forall (λ k _, is_metadata_field k = false) fields →
  omap id (with_meta None None None None (Some <$> fields)) = fields.
Proof.
  intros Hr. apply map_eq. intros k. rewrite lookup_omap. destruct (is_metadata_field k) eqn:Hk.
  - destruct (with_meta_reserved None None None None (Some <$> fields) k Hk) as (x & -> & Hin).
    assert (x = None) as -> by set_solver. cbn. destruct (fields !! k) as [v|] eqn:Hv; [|done].
    specialize (Hr k v Hv). cbn in Hr. congruence.
  - rewrite with_meta_other, lookup_fmap by done. by destruct (fields !! k).
Qed.

Lemma inv_snapshot_roundtrip s :
  inv_snapshot_fits s → ∃ m, encodeSnapshot s = Ok m ∧ decodeSnapshot m = Ok s.
Proof.
  intros [Hv Ht Hp Hf Hr]. unfold encodeSnapshot, validateNoReservedKeysInFields.
  rewrite (proj2 (first_reserved_empty _)) by (intros k [v Hk]; exact (Hr k v Hk)). cbn. eexists. split; [reflexivity|]. unfold decodeSnapshot.
  match goal with |- context [validateFieldMapSize ?m _] => change m with (with_meta (of_uint64 (is_version s)) (of_int64 (is_timestamp s))
    (of_bool (is_ready s)) (of_string (is_phase s)) (encodeFields (V := V) (is_fields s))) end.
  apply (bind_step _ _ tt).
  { apply throw_if_ok, bool_decide_eq_false. destruct Hf as [Hs _]. unfold with_meta.
    pose proof (map_size_fmap encodeFieldValue (is_fields s) (B := V)) as He. fold (encodeFields (V := V) (is_fields s)) in He.
    apply Nat.nlt_ge. rewrite Nat.add_comm. do 4 (etrans; [apply size_insert_le|]; apply le_n_S). lia. }
  apply (bind_step _ _ (is_version s)); [apply requireUint64_ok; unfold with_meta; solve_lookup|].
  apply (bind_step _ _ (is_timestamp s)); [apply requireInt64_ok; unfold with_meta; solve_lookup|].
  apply (bind_step _ _ (is_ready s)); [apply inv_requireBool_ok; unfold with_meta; solve_lookup|].
  apply (bind_step _ _ (is_phase s)); [apply inv_requireString_ok; unfold with_meta; solve_lookup|].
  eapply bind_step; [by apply entries_decode|]. rewrite entries_fields by done. by destruct s.
Qed.

Lemma source_state_roundtrip k s : source_fits k s → decodeSourceState (encodeSourceState s : VariantMap) k = Ok s.
Proof.
  intros [Hk Hn Ha Hs He Ho]. unfold decodeSourceState.
  apply (bind_step _ _ tt). { apply throw_if_ok, bool_decide_eq_false. pose proof (size_source_state s). lia. }
  apply (bind_step _ _ tt). { apply text_ok. unfold text_fits, key_fits, Ingress.kMaxStringLength, Ingress.kMaxKeyLength in *. lia. }
  unfold encodeSourceState.
  apply (bind_step _ _ (healthToString (ss_health s))).
  { apply inv_requireString_ok; [|solve_lookup]. unfold text_fits. destruct (ss_health s); by apply (bool_decide_unpack (_ ≤ _)). }
  rewrite healthFromString_ok. cbn [mbind result_bind].
  apply (bind_step _ _ (ss_required s)); [apply inv_requireBool_ok; solve_lookup|].
  apply (bind_step _ _ (ss_stale s)); [apply inv_requireBool_ok; solve_lookup|].
  apply (bind_step _ _ (ss_lastAttemptTs s)); [apply requireInt64_ok; solve_lookup|].
  apply (bind_step _ _ (ss_lastSuccessTs s)); [apply requireInt64_ok; solve_lookup|].
  apply (bind_step _ _ (ss_lastError s)); [apply inv_optionalString_ok; solve_lookup|].
  apply (bind_step _ _ (ss_origin s)); [apply inv_optionalString_ok; solve_lookup|]. subst k. by destruct s.
Qed.

Lemma states_roundtrip states :
  size states ≤ Ingress.inv_kMaxSources → map_Forall source_fits states →
  decodeSourceStates (encodeSourceStates states : gmap string VariantMap) = Ok states.
Proof.
  intros Hs Hf. unfold decodeSourceStates, encodeSourceStates. rewrite map_size_fmap, bool_decide_eq_false_2 by lia.
  cbn [throw_if mbind result_bind]. apply map_traverse_ok. split; intros k.
  - intros m. rewrite lookup_fmap, fmap_Some. intros (s & Hk & ->). exists s. split; [done|].
    specialize (Hf k s Hk). rewrite key_ok by apply Hf. by apply source_state_roundtrip.
  - rewrite lookup_fmap. by destruct (states !! k).
Qed.

(** The issues a client can decode. *)
Definition issues_fit (issues : InventoryIssues) : Prop :=
  size issues ≤ Ingress.inv_kMaxIssues ∧
  map_Forall (λ k f, key_fits k ∧ fields_fit Ingress.inv_kMaxIssueFields f) issues.

Lemma inv_issues_roundtrip issues :
  issues_fit issues → inv_decodeIssues (inv_encodeIssues issues : gmap string VariantMap) = Ok issues.
Proof.
  intros [Hs Hf]. unfold inv_decodeIssues, inv_encodeIssues. rewrite map_size_fmap, bool_decide_eq_false_2 by lia.
  cbn [throw_if mbind result_bind]. apply map_traverse_ok. split; intros k.
  - intros m. rewrite lookup_fmap, fmap_Some. intros (f & Hk & ->). exists f. split; [done|].
    destruct (Hf k f Hk) as [Hkf [Hsz Hff]]. rewrite key_ok by done. cbn [mbind result_bind]. apply (bind_step _ _ tt).
    { apply throw_if_ok, bool_decide_eq_false. unfold encodeFields. rewrite map_size_fmap. lia. }
    apply fields_roundtrip. split; [|done]. unfold Ingress.inv_kMaxFields, Ingress.inv_kMaxIssueFields in *. lia.
  - rewrite lookup_fmap. by destruct (issues !! k).
Qed.

(** C38: the inventory codec is faithful within its limits: a snapshot without
    reserved keys is encoded, and decodes to itself, the metadata kept apart from
    the fields and every field with the type it had; one with a reserved key is
    refused; and source states and issues decode to themselves. *)
Theorem inv_codec_roundtrip :
  (∀ s, inv_snapshot_fits s → ∃ m, encodeSnapshot s = Ok m ∧ decodeSnapshot m = Ok s) ∧
  (∀ s k v, is_fields s !! k = Some v → is_metadata_field k = true → is_ok (encodeSnapshot s : result _ VariantMap) = false) ∧
  (∀ states, size states ≤ Ingress.inv_kMaxSources → map_Forall source_fits states →
    decodeSourceStates (encodeSourceStates states : gmap string VariantMap) = Ok states) ∧
  (∀ issues, issues_fit issues → inv_decodeIssues (inv_encodeIssues issues : gmap string VariantMap) = Ok issues).
Proof.
  split_and!; [apply inv_snapshot_roundtrip| |apply states_roundtrip|apply inv_issues_roundtrip].
  intros s k v Hk Hm. unfold encodeSnapshot, validateNoReservedKeysInFields.
  destruct (str_empty (first_reserved_metadata_field (is_fields s))) eqn:He; [|done].
  apply str_empty_true, (proj1 (first_reserved_empty _)) with (k := k) in He; [congruence|by eexists].
Qed.
End roundtrip.

(** * Witness *)

Definition demo_snapshot : InventorySnapshot :=
  mkInventorySnapshot 7 1700000000 true "live" {["uuid" := FString "x"; "count" := FInt64 (-3)]}.

Lemma inv_codec_roundtrip_witness :
  ∃ m : gmap string PlainVariant, encodeSnapshot demo_snapshot = Ok m ∧ decodeSnapshot m = Ok demo_snapshot.
Proof.
  destruct (inv_codec_roundtrip (V := PlainVariant)) as [Hs _]. apply Hs. split.
  - unfold uint64, int_in. cbn. lia.
  - unfold int64, int_in. cbn. lia.
  - apply (bool_decide_unpack (_ ≤ _)). vm_compute. exact I.
  - split; [apply (bool_decide_unpack (_ ≤ _)); vm_compute; exact I|].
    apply map_Forall_insert_2; [split; [|cbn; unfold text_fits]; apply (bool_decide_unpack (_ ≤ _)); vm_compute; exact I|].
    apply map_Forall_singleton. split; [apply (bool_decide_unpack (_ ≤ _)); vm_compute; exact I|].
    cbn. unfold int64, int_in. lia.
  - apply map_Forall_insert_2; [reflexivity|]. apply map_Forall_singleton. reflexivity.
Defined.
