(* ===== verification/InvManager.v ===== *)
(** [services/rmc-inventory/core/]: [DefaultInventoryManager.cpp],
    [InventorySourceUtil.cpp], [InventoryIssueUtil.cpp]: the sources of inventory
    fields, their registration, the refresh that merges what they collect, and
    the issues derived from their states. *)

From S2P Require Import Prelude Contract.

(** * Sources *)

(** [IInventorySource]: name, required, owned fields are fixed for a source. *)
Record IInventorySource := mkSource { src_name : string; src_required : bool; src_owned : FieldNameList }.

(** What a source answers during one refresh: [getState], and [collect], which
    may throw a [std::exception] ([Some] of its text) or something else; and the
    clock after it. *)
Record SourceAnswer := mkSourceAnswer {
  sa_state : SourceState; sa_collect : result (option string) InventoryFields; sa_now : Z
}.

(** * [InventorySourceUtil] *)

Definition isSubsetOfOwnedFields (fields : InventoryFields) (ownedFields : FieldNameList) : bool :=
  forallb (λ key, bool_decide (key ∈ ownedFields)) (map_iter fields).*1.

Definition getUndeclaredFields (fields : InventoryFields) (ownedFields : FieldNameList) : FieldNameList :=
  filter (λ key, key ∉ ownedFields) (map_iter fields).*1.

Definition erase_fields (keys : FieldNameList) (fields : InventoryFields) : InventoryFields :=
  foldl (λ m k, delete k m) fields keys.

(** * [InventoryDiff] *)

Record InventoryDiff := mkDiff { changedFields : FieldNameList; removedFields : FieldNameList }.

Definition diff_empty (d : InventoryDiff) : bool :=
  bool_decide (changedFields d = []) && bool_decide (removedFields d = []).

(** * [DefaultInventoryManager] *)

Record DefaultInventoryManager := mkManager {
  sources_ : list IInventorySource; fieldOwners_ : gmap string string;
  inv_snapshot_ : InventorySnapshot; sourceStates_ : SourceStateMap
}.

Definition new_manager : DefaultInventoryManager := mkManager [] ∅ default_InventorySnapshot ∅.

Inductive RegistrationError :=
| NullSource | EmptyName | DuplicateName (name : string) | EmptyField | ReservedField (field : string)
| OwnershipCollision (field owner : string).

Definition check_owned_field (owners : gmap string string) (field : string) : result RegistrationError unit :=
  _ ← throw_if (str_empty field) EmptyField;
  _ ← throw_if (is_metadata_field field) (ReservedField field);
  match owners !! field with Some owner => Err (OwnershipCollision field owner) | None => Ok tt end.

(** The result is the new [fieldOwners_]. *)
Definition validateSourceRegistration (source : IInventorySource) (m : DefaultInventoryManager)
    : result RegistrationError (gmap string string) :=
  _ ← throw_if (str_empty (src_name source)) EmptyName;
  _ ← throw_if (bool_decide (src_name source ∈ src_name <$> sources_ m)) (DuplicateName (src_name source));
  _ ← check_all (check_owned_field (fieldOwners_ m)) (src_owned source);
  Ok (foldl (λ owners f, <[f := src_name source]> owners) (fieldOwners_ m) (src_owned source)).

(** [None] is a null pointer. *)
Definition addSource (source : option IInventorySource) (m : DefaultInventoryManager)
    : result RegistrationError DefaultInventoryManager :=
  match source with
  | None => Err NullSource
  | Some source =>
      owners ← validateSourceRegistration source m;
      Ok (mkManager (sources_ m ++ [source]) owners (inv_snapshot_ m) (sourceStates_ m))
  end.

Record CollectedSourceResult := mkCollected {
  cr_name : string; cr_required : bool; cr_fields : InventoryFields; cr_state : SourceState
}.

(** One turn of the collecting loop; the text of the exception for a reserved key
    names the first one. *)
Definition collect_source (attemptTs : Z) (source : IInventorySource) (a : SourceAnswer)
    : CollectedSourceResult :=
  let name := src_name source in
  let state := (sa_state a) <| ss_name := name |> <| ss_required := src_required source |>
                 <| ss_lastAttemptTs := attemptTs |> in
  let failed err := mkCollected name (src_required source) ∅ (state <| ss_health := FAILED |> <| ss_lastError := Some err |>) in
  match sa_collect a with
  | Err e => failed (default "unknown exception" e)
  | Ok rawFields =>
      match find is_metadata_field (map_iter rawFields).*1 with
      | Some field => failed ("Inventory source '" +:+ name +:+ "' returned reserved metadata field '" +:+ field +:+ "'")
      | None =>
          let rawFields :=
            if negb (isSubsetOfOwnedFields rawFields (src_owned source))
            then erase_fields (getUndeclaredFields rawFields (src_owned source)) rawFields else rawFields in
          mkCollected name (src_required source) rawFields
            (state <| ss_health := OK |> <| ss_stale := false |> <| ss_lastSuccessTs := sa_now a |> <| ss_lastError := None |>)
      end
  end.

(** One turn of the merging loop. *)
Definition merge_result (m : DefaultInventoryManager) (acc : InventoryFields * SourceStateMap) (r : CollectedSourceResult)
    : InventoryFields * SourceStateMap :=
  let '(newFields, newStates) := acc in
  match find (λ s, bool_decide (src_name s = cr_name r)) (sources_ m) with
  | None => (newFields, newStates)
  | Some owner =>
      let newStates := <[cr_name r := cr_state r]> newStates in
      if bool_decide (ss_health (cr_state r) = OK) then (cr_fields r ∪ erase_fields (src_owned owner) newFields, newStates)
      else
        (newFields,
         match sourceStates_ m !! cr_name r with
         | Some prev => <[cr_name r := (cr_state r) <| ss_lastSuccessTs := ss_lastSuccessTs prev |>]> newStates
         | None => newStates
         end)
  end.

Definition diffSourceOwnedFields (oldFields newFields : InventoryFields) : InventoryDiff :=
  mkDiff (filter (λ k, oldFields !! k ≠ newFields !! k) (map_iter newFields).*1)
         (filter (λ k, newFields !! k = None) (map_iter oldFields).*1).

Definition allRequiredSourcesOk (sources : list IInventorySource) (states : SourceStateMap) : bool :=
  forallb (λ s, match states !! src_name s with
                | None => negb (src_required s)
                | Some st => negb (src_required s && bool_decide (ss_health st ≠ OK))
                end) sources.

(** The part of [refreshAll] under the lock, on the collected results. *)
Definition refresh_merge (results : list CollectedSourceResult) (now : Z) (m : DefaultInventoryManager)
    : InventoryDiff * DefaultInventoryManager :=
  let '(newFields, newStates) := foldl (merge_result m) (is_fields (inv_snapshot_ m), sourceStates_ m) results in
  let snapshot := inv_snapshot_ m in
  let diff := diffSourceOwnedFields (is_fields snapshot) newFields in
  let readyLatched := is_ready snapshot || allRequiredSourcesOk (sources_ m) newStates in
  let '(version, timestamp) :=
    if negb (diff_empty diff) then (((is_version snapshot + 1) mod 2 ^ 64)%Z, now)
    else (is_version snapshot, is_timestamp snapshot) in
  (diff, mkManager (sources_ m) (fieldOwners_ m)
     (mkInventorySnapshot version timestamp readyLatched
        (if readyLatched then Inv.PHASE_LIVE else Inv.PHASE_INITIALIZING) newFields) newStates).

(** The collecting loop, on the copied sources. *)
Definition refresh_collect (attemptTs : Z) (sources : list IInventorySource) (answers : list SourceAnswer)
    : list CollectedSourceResult := zip_with (collect_source attemptTs) sources answers.

(** [refreshAll], when no source is added meanwhile. *)
Definition refreshAll (attemptTs now : Z) (answers : list SourceAnswer) (m : DefaultInventoryManager)
    : InventoryDiff * DefaultInventoryManager :=
  refresh_merge (refresh_collect attemptTs (sources_ m) answers) now m.

(** * [InventoryIssueUtil::deriveIssues] *)

Definition issue_of_state (state : SourceState) : option InventoryFields :=
  if bool_decide (ss_health state = OK) && negb (ss_stale state) then None
  else
    let isError := bool_decide (ss_health state = FAILED) && ss_required state in
    let issue := {[Inv.ISSUE_SEVERITY := FString (if isError then Inv.SEVERITY_ERROR else Inv.SEVERITY_WARNING)]} in
    let message :=
      match ss_lastError state with
      | Some e => if str_empty e then (if ss_stale state then "source data is stale" else "source not healthy") else e
      | None => if ss_stale state then "source data is stale" else "source not healthy"
      end in
    let issue := <[Inv.ISSUE_MESSAGE := FString message]> issue in
    Some (match ss_origin state with Some o => <[Inv.ISSUE_ORIGIN := FString o]> issue | None => issue end).

Definition deriveIssues (states : SourceStateMap) : InventoryIssues := omap issue_of_state states.

(** What the manager answers, each under its lock. *)
Definition manager_getSnapshot (m : DefaultInventoryManager) : InventorySnapshot := inv_snapshot_ m.
Definition manager_getSourceStates (m : DefaultInventoryManager) : SourceStateMap := sourceStates_ m.
Definition manager_isReady (m : DefaultInventoryManager) : bool := is_ready (inv_snapshot_ m).
Definition manager_getPhase (m : DefaultInventoryManager) : string := is_phase (inv_snapshot_ m).
Definition manager_getVersion (m : DefaultInventoryManager) : Z := is_version (inv_snapshot_ m).

(** * Specification *)

(** A manager as it is reached: names are unique, owners are recorded, owned
    fields are not reserved, fields belong to sources, states to sources. *)
Record manager_wf (m : DefaultInventoryManager) : Prop := mkManagerWf {
  mw_names : NoDup (src_name <$> sources_ m);
  mw_owner : ∀ f n, fieldOwners_ m !! f = Some n ↔ ∃ s, s ∈ sources_ m ∧ src_name s = n ∧ f ∈ src_owned s;
  mw_owned : ∀ s f, s ∈ sources_ m → f ∈ src_owned s → f ≠ "" ∧ is_metadata_field f = false;
  mw_fields : ∀ f v, is_fields (inv_snapshot_ m) !! f = Some v → is_Some (fieldOwners_ m !! f);
  mw_states : ∀ n st, sourceStates_ m !! n = Some st → ss_name st = n ∧ ∃ s, s ∈ sources_ m ∧ src_name s = n ∧ ss_required st = src_required s;
  mw_phase : is_phase (inv_snapshot_ m) = (if is_ready (inv_snapshot_ m) then Inv.PHASE_LIVE else Inv.PHASE_INITIALIZING) ∨
    is_phase (inv_snapshot_ m) = "" ∧ is_ready (inv_snapshot_ m) = false ∧ is_fields (inv_snapshot_ m) = ∅;
  mw_version : (0 ≤ is_version (inv_snapshot_ m) < 2 ^ 64)%Z
}.

(** Registration, and merges of what was collected from the sources that were
    registered when the refresh began. *)
Inductive manager_step : DefaultInventoryManager → DefaultInventoryManager → Prop :=
| ms_add source m m' : addSource source m = Ok m' → manager_step m m'
| ms_merge attemptTs now copied later answers m :
    sources_ m = copied ++ later → length answers = length copied →
    manager_step m (refresh_merge (refresh_collect attemptTs copied answers) now m).2.

(** * Lemmas *)

Lemma erase_fields_lookup keys fields k :
  erase_fields keys fields !! k = if decide (k ∈ keys) then None else fields !! k.
Proof.
  unfold erase_fields. revert fields. induction keys as [|x keys IH]; intros fields; [done|]. cbn [foldl]. rewrite IH.
  destruct (decide (k ∈ keys)) as [Hk|Hk]; [by rewrite decide_True by set_solver|].
  destruct (decide (k = x)) as [->|Hn].
  - rewrite decide_True by set_solver. apply lookup_delete_eq.
  - rewrite decide_False by set_solver. by apply lookup_delete_ne.
Qed.

Lemma elem_of_map_keys (m : InventoryFields) k : k ∈ (map_iter m).*1 ↔ is_Some (m !! k).
Proof.
  rewrite list_elem_of_fmap. split.
  - intros ([k' v] & -> & Hv%elem_of_map_iter). by eexists.
  - intros [v Hv%elem_of_map_iter]. by exists (k, v).
Qed.

Lemma isSubset_spec fields owned :
  isSubsetOfOwnedFields fields owned = true ↔ ∀ k, is_Some (fields !! k) → k ∈ owned.
Proof.
  unfold isSubsetOfOwnedFields. rewrite forallb_forall. setoid_rewrite <- list_elem_of_In.
  setoid_rewrite bool_decide_eq_true. by setoid_rewrite elem_of_map_keys.
Qed.

(** The fields a successful collection contributes: the owned ones. *)
Definition owned_part (owned : FieldNameList) (fields : InventoryFields) : InventoryFields :=
  filter (λ '(k, _), k ∈ owned) fields.

Lemma owned_part_lookup owned fields k : owned_part owned fields !! k = if decide (k ∈ owned) then fields !! k else None.
Proof.
  unfold owned_part. rewrite map_lookup_filter. destruct (fields !! k) as [v|]; cbn; [|by destruct (decide _)].
  destruct (decide (k ∈ owned)) as [Hk|Hk]; [by rewrite option_guard_True|by rewrite option_guard_False].
Qed.

Lemma drop_undeclared fields owned :
  (if negb (isSubsetOfOwnedFields fields owned) then erase_fields (getUndeclaredFields fields owned) fields else fields) =
  owned_part owned fields.
Proof.
  apply map_eq. intros k. rewrite owned_part_lookup. destruct (isSubsetOfOwnedFields fields owned) eqn:Hs; cbn [negb].
  - pose proof (proj1 (isSubset_spec _ _) Hs k) as Hk.
    destruct (decide (k ∈ owned)) as [|Hn]; [done|]. destruct (fields !! k) as [v|]; [|done]. destruct Hn. apply Hk. by eexists.
  - rewrite erase_fields_lookup. unfold getUndeclaredFields.
    destruct (decide (k ∈ owned)) as [Hk|Hk].
    + rewrite decide_False; [done|]. rewrite list_elem_of_filter. tauto.
    + destruct (fields !! k) as [v|] eqn:Hv; [|by destruct (decide _)].
      rewrite decide_True; [done|]. rewrite list_elem_of_filter, elem_of_map_keys, Hv. split; [done|by eexists].
Qed.

(** What a collection contributes, [None] when it failed. *)
Definition contribution (s : IInventorySource) (a : SourceAnswer) : option InventoryFields :=
  match sa_collect a with
  | Ok raw => if existsb is_metadata_field (map_iter raw).*1 then None else Some (owned_part (src_owned s) raw)
  | Err _ => None
  end.

(** The state a refresh leaves for a source. *)
Definition final_state (attemptTs : Z) (m : DefaultInventoryManager) (s : IInventorySource) (a : SourceAnswer) : SourceState :=
  let st := cr_state (collect_source attemptTs s a) in
  match contribution s a, sourceStates_ m !! src_name s with
  | None, Some prev => st <| ss_lastSuccessTs := ss_lastSuccessTs prev |>
  | _, _ => st
  end.

Lemma find_existsb {A} (f : A → bool) l : existsb f l = match find f l with Some _ => true | None => false end.
Proof. induction l as [|x l IH]; [done|]. cbn. by destruct (f x). Qed.

Lemma collect_spec ts s a :
  let r := collect_source ts s a in
  cr_name r = src_name s ∧ ss_name (cr_state r) = src_name s ∧ ss_required (cr_state r) = src_required s ∧
  ss_lastAttemptTs (cr_state r) = ts ∧ cr_fields r = default ∅ (contribution s a) ∧
  match contribution s a with
  | Some _ => ss_health (cr_state r) = OK ∧ ss_stale (cr_state r) = false ∧ ss_lastSuccessTs (cr_state r) = sa_now a ∧
      ss_lastError (cr_state r) = None
  | None => ss_health (cr_state r) = FAILED ∧ is_Some (ss_lastError (cr_state r))
  end.
Proof.
  unfold collect_source, contribution. destruct (sa_collect a) as [raw|e]; [|by split_and!].
  rewrite find_existsb. destruct (find is_metadata_field (map_iter raw).*1); [by split_and!|].
  cbn. rewrite drop_undeclared. by split_and!.
Qed.

Lemma owned_once m s1 s2 f :
  manager_wf m → s1 ∈ sources_ m → s2 ∈ sources_ m → f ∈ src_owned s1 → f ∈ src_owned s2 → src_name s1 = src_name s2.
Proof.
  intros Hwf H1 H2 Hf1 Hf2.
  assert (fieldOwners_ m !! f = Some (src_name s1)) by (apply mw_owner; [done|eauto]).
  assert (fieldOwners_ m !! f = Some (src_name s2)) by (apply mw_owner; [done|eauto]). congruence.
Qed.

Lemma named_once (l : list IInventorySource) s1 s2 :
  NoDup (src_name <$> l) → s1 ∈ l → s2 ∈ l → src_name s1 = src_name s2 → s1 = s2.
Proof.
  intros Hn [i Hi]%list_elem_of_lookup [j Hj]%list_elem_of_lookup He.
  assert (i = j) as ->; [|congruence].
  apply (NoDup_lookup _ i j (src_name s1) Hn); rewrite list_lookup_fmap; [by rewrite Hi|by rewrite Hj, He].
Qed.

Lemma find_named (l : list IInventorySource) s :
  NoDup (src_name <$> l) → s ∈ l → find (λ s', bool_decide (src_name s' = src_name s)) l = Some s.
Proof.
  intros Hn Hs. destruct (find _ l) as [s'|] eqn:Hf.
  - apply find_some in Hf as [Hin%list_elem_of_In Hb%bool_decide_eq_true]. f_equal. by apply (named_once l).
  - apply find_none with (x := s) in Hf; [|by apply list_elem_of_In]. by rewrite bool_decide_eq_true_2 in Hf.
Qed.

Lemma merge_collected ts m s a F S :
  manager_wf m → s ∈ sources_ m →
  merge_result m (F, S) (collect_source ts s a) =
    (match contribution s a with Some c => c ∪ erase_fields (src_owned s) F | None => F end,
     <[src_name s := final_state ts m s a]> S).
Proof.
  intros Hwf Hs. destruct (collect_spec ts s a) as (Hn & _ & _ & _ & Hf & Hc). unfold merge_result, final_state.
  rewrite Hn, (find_named _ s) by (try done; apply Hwf). rewrite Hf.
  destruct (contribution s a) as [c|]; destruct Hc as [Hh _]; rewrite Hh; [done|].
  rewrite bool_decide_eq_false_2 by done. destruct (sourceStates_ m !! src_name s); [|done].
  by rewrite insert_insert_eq.
Qed.

(** The merging loop, source by source. *)
Lemma merge_spec ts m l F S :
  manager_wf m → Forall (λ p, p.1 ∈ sources_ m) l → NoDup (src_name ∘ fst <$> l) →
  let r := foldl (merge_result m) (F, S) ((λ p, collect_source ts p.1 p.2) <$> l) in
  (∀ s a k, (s, a) ∈ l → k ∈ src_owned s → r.1 !! k = match contribution s a with Some c => c !! k | None => F !! k end) ∧
  (∀ k, (∀ p, p ∈ l → k ∉ src_owned p.1) → r.1 !! k = F !! k) ∧
  (∀ s a, (s, a) ∈ l → r.2 !! src_name s = Some (final_state ts m s a)) ∧
  (∀ n, (∀ p, p ∈ l → src_name p.1 ≠ n) → r.2 !! n = S !! n).
Proof.
  intros Hwf. revert F S. induction l as [|[s0 a0] l IH]; intros F S Hin Hnd.
  - cbn. split_and!; [by intros ??? ?%not_elem_of_nil|done|by intros ?? ?%not_elem_of_nil|done].
  - apply Forall_cons in Hin as [Hs0 Hin]. cbn in Hs0. cbn [fmap list_fmap] in Hnd. apply NoDup_cons in Hnd as [Hn0 Hnd].
    cbn [fmap list_fmap foldl fst snd]. rewrite (merge_collected ts m s0 a0 F S Hwf Hs0).
    set (F' := match contribution s0 a0 with Some c => _ | None => F end). set (S' := <[src_name s0 := _]> S).
    destruct (IH F' S' Hin Hnd) as (Ha & Hb & Hc & Hd).
    assert (Hnot : ∀ p, p ∈ l → src_name p.1 ≠ src_name s0).
    { intros p Hp He. apply Hn0, list_elem_of_fmap. exists p. split; [by symmetry|done]. }
    assert (HF : ∀ k, k ∉ src_owned s0 → F' !! k = F !! k).
    { intros k Hk. unfold F'. destruct (contribution s0 a0) as [c|] eqn:Hcn; [|done].
      assert (c !! k = None) as Hck.
      { unfold contribution in Hcn. destruct (sa_collect a0); [|done]. destruct (existsb _ _); [done|].
        injection Hcn as <-. by rewrite owned_part_lookup, decide_False. }
      by rewrite lookup_union_r, erase_fields_lookup, decide_False. }
    assert (HF0 : ∀ k, k ∈ src_owned s0 → F' !! k = match contribution s0 a0 with Some c => c !! k | None => F !! k end).
    { intros k Hk. unfold F'. destruct (contribution s0 a0) as [c|]; [|done].
      rewrite lookup_union, erase_fields_lookup, decide_True by done. by destruct (c !! k). }
    assert (Hdis : ∀ p k, p ∈ l → k ∈ src_owned p.1 → k ∉ src_owned s0).
    { intros p k Hp Hk Hk0. apply (Hnot p Hp). rewrite Forall_forall in Hin. exact (owned_once m p.1 s0 k Hwf (Hin p Hp) Hs0 Hk Hk0). }
    split_and!.
    + intros s a k [[= -> ->]|Hl]%elem_of_cons Hk.
      * rewrite Hb by (intros p Hp Hkp; by apply (Hdis p k Hp)). by apply HF0.
      * rewrite (Ha s a k Hl Hk). destruct (contribution s a); [done|]. apply HF. by apply (Hdis (s, a)).
    + intros k Hk. rewrite Hb by (intros p Hp; apply Hk; by right). apply HF, (Hk (s0, a0)). by left.
    + intros s a [[= -> ->]|Hl]%elem_of_cons; [|by apply Hc]. rewrite Hd by done. apply lookup_insert_eq.
    + intros n Hn. rewrite Hd by (intros p Hp; apply Hn; by right). apply lookup_insert_ne, (Hn (s0, a0)). by left.
Qed.

Lemma diff_spec old new :
  let d := diffSourceOwnedFields old new in
  (∀ k, k ∈ changedFields d ↔ is_Some (new !! k) ∧ old !! k ≠ new !! k) ∧
  (∀ k, k ∈ removedFields d ↔ is_Some (old !! k) ∧ new !! k = None) ∧
  NoDup (changedFields d ++ removedFields d) ∧ (diff_empty d = true ↔ old = new).
Proof.
  cbn. assert (Hc : ∀ k, k ∈ filter (λ k, old !! k ≠ new !! k) (map_iter new).*1 ↔ is_Some (new !! k) ∧ old !! k ≠ new !! k).
  { intros k. rewrite list_elem_of_filter, elem_of_map_keys. tauto. }
  assert (Hr : ∀ k, k ∈ filter (λ k, new !! k = None) (map_iter old).*1 ↔ is_Some (old !! k) ∧ new !! k = None).
  { intros k. rewrite list_elem_of_filter, elem_of_map_keys. tauto. }
  split_and!; [done|done| |].
  - apply NoDup_app. split_and!; [apply NoDup_filter, map_iter_nodup_fst| |apply NoDup_filter, map_iter_nodup_fst].
    intros k [[v Hv] _]%Hc [_ Hn]%Hr. congruence.
  - unfold diff_empty. cbn. rewrite andb_true_iff, !bool_decide_eq_true. split.
    + intros [He1 He2]. rewrite He1 in Hc. rewrite He2 in Hr. apply map_eq. intros k.
      destruct (decide (old !! k = new !! k)) as [|Hn]; [done|]. exfalso. destruct (new !! k) as [v|] eqn:Hk.
      * apply (not_elem_of_nil k), Hc. rewrite Hk. split; [by eexists|congruence].
      * destruct (old !! k) as [w|] eqn:Ho; [|done]. apply (not_elem_of_nil k), Hr. by rewrite Ho.
    + intros <-. split; apply elem_of_nil_inv; intros k Hk; [apply Hc in Hk as [_ ?]; done|].
      apply Hr in Hk as [[v Hv] ?]. congruence.
Qed.

(** The sources of a refresh with their answers. *)
Lemma collected_pairs ts (l : list IInventorySource) answers :
  refresh_collect ts l answers = (λ p, collect_source ts p.1 p.2) <$> zip l answers.
Proof. unfold refresh_collect. revert answers. induction l as [|s l IH]; intros [|a answers]; cbn; [done..|]. by rewrite IH. Qed.

Lemma zip_ok (sources copied later : list IInventorySource) (answers : list SourceAnswer) :
  sources = copied ++ later → length answers = length copied → NoDup (src_name <$> sources) →
  Forall (λ p, p.1 ∈ sources) (zip copied answers) ∧ NoDup (src_name ∘ fst <$> zip copied answers).
Proof.
  intros -> Hl Hn. split.
  - apply Forall_forall. intros [s a] Hp%elem_of_zip_l. apply elem_of_app. by left.
  - rewrite list_fmap_compose, fst_zip by lia. rewrite fmap_app in Hn. by apply NoDup_app in Hn as [? _].
Qed.

Lemma merged_fields_owned ts m l F S :
  manager_wf m → Forall (λ p, p.1 ∈ sources_ m) l → NoDup (src_name ∘ fst <$> l) →
  (∀ f v, F !! f = Some v → is_Some (fieldOwners_ m !! f)) →
  ∀ f v, (foldl (merge_result m) (F, S) ((λ p, collect_source ts p.1 p.2) <$> l)).1 !! f = Some v →
  is_Some (fieldOwners_ m !! f).
Proof.
  intros Hwf Hin Hnd HF f v Hv. destruct (merge_spec ts m l F S Hwf Hin Hnd) as (Ha & Hb & _).
  destruct (decide (Exists (λ p, f ∈ src_owned p.1) l)) as [He|He].
  - apply Exists_exists in He as ([s a] & Hl & Hf). exists (src_name s). apply mw_owner; [done|].
    exists s. rewrite Forall_forall in Hin. split_and!; [by apply (Hin (s, a))|done|done].
  - rewrite Hb in Hv; [by apply HF in Hv|]. intros p Hp Hf. apply He, Exists_exists. eauto.
Qed.

Lemma merged_states ts m l F S :
  manager_wf m → Forall (λ p, p.1 ∈ sources_ m) l → NoDup (src_name ∘ fst <$> l) →
  (∀ n st, S !! n = Some st → ss_name st = n ∧ ∃ s, s ∈ sources_ m ∧ src_name s = n ∧ ss_required st = src_required s) →
  ∀ n st, (foldl (merge_result m) (F, S) ((λ p, collect_source ts p.1 p.2) <$> l)).2 !! n = Some st →
  ss_name st = n ∧ ∃ s, s ∈ sources_ m ∧ src_name s = n ∧ ss_required st = src_required s.
Proof.
  intros Hwf Hin Hnd HS n st Hst. destruct (merge_spec ts m l F S Hwf Hin Hnd) as (_ & _ & Hc & Hd).
  destruct (decide (Exists (λ p, src_name p.1 = n) l)) as [He|He].
  - apply Exists_exists in He as ([s a] & Hl & <-). cbn in *. rewrite (Hc s a Hl) in Hst. injection Hst as <-.
    destruct (collect_spec ts s a) as (_ & Hn & Hr & _). rewrite Forall_forall in Hin.
    assert (ss_name (final_state ts m s a) = src_name s ∧ ss_required (final_state ts m s a) = src_required s) as [-> ->].
    { unfold final_state. by destruct (contribution s a), (sourceStates_ m !! src_name s). }
    split; [done|]. exists s. split_and!; [by apply (Hin (s, a))|done|done].
  - rewrite Hd in Hst; [by apply HS|]. intros p Hp Hn. apply He, Exists_exists. eauto.
Qed.

Lemma merge_wf ts now copied later answers m :
  sources_ m = copied ++ later → length answers = length copied → manager_wf m →
  manager_wf (refresh_merge (refresh_collect ts copied answers) now m).2.
Proof.
  intros Hs Hl Hwf. destruct (zip_ok (sources_ m) copied later answers Hs Hl (mw_names m Hwf)) as [Hin Hnd].
  rewrite collected_pairs. unfold refresh_merge.
  pose proof (merged_fields_owned ts m (zip copied answers) (is_fields (inv_snapshot_ m)) (sourceStates_ m) Hwf Hin Hnd (mw_fields m Hwf)) as Hf.
  pose proof (merged_states ts m (zip copied answers) (is_fields (inv_snapshot_ m)) (sourceStates_ m) Hwf Hin Hnd (mw_states m Hwf)) as Hst.
  destruct (foldl _ _ _) as [newFields newStates]. cbn in Hf, Hst.
  set (d := diffSourceOwnedFields _ newFields). set (r := is_ready _ || _).
  destruct (negb (diff_empty d)); split; cbn; try apply Hwf; try done; try (left; by destruct r).
  apply Z.mod_pos_bound. lia.
Qed.

Lemma owners_lookup (n : string) (owned : FieldNameList) (owners : gmap string string) (f : string) :
  foldl (λ o k, <[k := n]> o) owners owned !! f = if decide (f ∈ owned) then Some n else owners !! f.
Proof.
  revert owners. induction owned as [|k owned IH]; intros owners; [done|]. cbn [foldl]. rewrite IH.
  destruct (decide (f ∈ owned)) as [Hf|Hf]; [by rewrite decide_True by set_solver|].
  destruct (decide (f = k)) as [->|Hn].
  - rewrite decide_True by set_solver. apply lookup_insert_eq.
  - rewrite decide_False by set_solver. by apply lookup_insert_ne.
Qed.

Lemma check_owned_ok owners f :
  check_owned_field owners f = Ok tt ↔ f ≠ "" ∧ is_metadata_field f = false ∧ owners !! f = None.
Proof.
  unfold check_owned_field. rewrite bind_ok. setoid_rewrite bind_ok. split.
  - intros ([] & H1 & [] & H2 & H3). apply throw_if_ok in H1, H2. apply str_empty_false in H1. by destruct (owners !! f).
  - intros (H1 & H2 & H3). exists tt. rewrite throw_if_ok, str_empty_false. split; [done|]. exists tt.
    by rewrite throw_if_ok, H3.
Qed.

(** A source that may be registered. *)
Record registrable (m : DefaultInventoryManager) (s : IInventorySource) : Prop := mkRegistrable {
  rg_name : src_name s ≠ "";
  rg_new : src_name s ∉ src_name <$> sources_ m;
  rg_owned : ∀ f, f ∈ src_owned s → f ≠ "" ∧ is_metadata_field f = false ∧ fieldOwners_ m !! f = None
}.

Lemma addSource_ok m s m' :
  addSource (Some s) m = Ok m' ↔
  registrable m s ∧ m' = mkManager (sources_ m ++ [s])
    (foldl (λ o k, <[k := src_name s]> o) (fieldOwners_ m) (src_owned s)) (inv_snapshot_ m) (sourceStates_ m).
Proof.
  cbn. unfold validateSourceRegistration. rewrite bind_ok. setoid_rewrite bind_ok. setoid_rewrite bind_ok.
  setoid_rewrite bind_ok. split.
  - intros (o & ([] & H1 & [] & H2 & [] & H3 & [= <-]) & [= <-]). split; [|done].
    apply throw_if_ok in H1, H2. apply check_all_ok in H3. split.
    + by apply str_empty_false.
    + by apply bool_decide_eq_false in H2.
    + intros f Hf. rewrite Forall_forall in H3. by apply check_owned_ok, H3.
  - intros [[H1 H2 H3] ->]. eexists. split; [|done]. exists tt. rewrite throw_if_ok, str_empty_false. split; [done|].
    exists tt. rewrite throw_if_ok, bool_decide_eq_false. split; [done|]. exists tt. split; [|done].
    apply check_all_ok, Forall_forall. intros f Hf. by apply check_owned_ok, H3.
Qed.

Lemma add_wf m s m' : addSource (Some s) m = Ok m' → manager_wf m → manager_wf m'.
Proof.
  intros [[H1 H2 H3] ->]%addSource_ok [Hn Ho Hw Hf Hs Hp Hv]. split; cbn; try done.
  - rewrite fmap_app. apply NoDup_app. split_and!; [done| |apply NoDup_singleton].
    intros n Hin ->%list_elem_of_singleton. done.
  - intros f n. rewrite owners_lookup. destruct (decide (f ∈ src_owned s)) as [Hd|Hd].
    + split; [intros [= <-]; exists s; set_solver|]. intros (s' & [Hin|?%list_elem_of_singleton]%elem_of_app & <- & Hf'); [|by subst].
      destruct (H3 f Hd) as (_ & _ & Hnone). rewrite (proj2 (Ho f (src_name s'))) in Hnone by eauto. done.
    + rewrite Ho. split; [intros (s' & Hin & <- & Hf'); exists s'; set_solver|].
      intros (s' & [Hin|?%list_elem_of_singleton]%elem_of_app & <- & Hf'); [eauto|by subst].
  - intros s' f [Hin|?%list_elem_of_singleton]%elem_of_app Hf'; [by apply (Hw s')|]. subst s'.
    destruct (H3 f Hf') as (? & ? & _). done.
  - intros f v Hfv. rewrite owners_lookup. destruct (decide (f ∈ src_owned s)); [by eexists|by apply (Hf f v)].
  - intros n st Hst. destruct (Hs n st Hst) as (Hsn & s' & Hin & He & Hr). split; [done|].
    exists s'. rewrite elem_of_app. auto.
Qed.

Lemma new_manager_wf : manager_wf new_manager.
Proof.
  split; cbn; try done.
  - constructor.
  - intros f n. rewrite lookup_empty. split; [done|]. by intros (s & ?%not_elem_of_nil & _).
  - by intros s f ?%not_elem_of_nil.
  - by right.
Qed.

Lemma step_wf m m' : manager_step m m' → manager_wf m → manager_wf m'.
Proof.
  intros [source m1 m2 Ha|ts now copied later answers m1 Hs Hl]; [|by apply (merge_wf ts now copied later)].
  destruct source as [s|]; [|done]. exact (add_wf _ _ _ Ha).
Qed.

Lemma reachable_wf m : rtc manager_step new_manager m → manager_wf m.
Proof.
  intros Hr. assert (manager_wf new_manager) as Hn by apply new_manager_wf. revert Hn.
  induction Hr as [|m1 m2 m3 Hs _ IH]; [done|]. intros Hn. by apply IH, (step_wf m1 m2).
Qed.

Lemma step_ready m m' : manager_step m m' → is_ready (inv_snapshot_ m) = true → is_ready (inv_snapshot_ m') = true.
Proof.
  intros [source m1 m2 Ha|ts now copied later answers m1 _ _] Hr.
  - destruct source as [s|]; [|done]. apply addSource_ok in Ha as [_ ->]. done.
  - unfold refresh_merge. destruct (foldl _ _ _) as [newFields newStates]. rewrite Hr. by destruct (negb _).
Qed.

Lemma run_ready m m' :
  rtc manager_step m m' → is_ready (inv_snapshot_ m) = true → is_ready (inv_snapshot_ m') = true.
Proof. induction 1 as [|m1 m2 m3 Hs _ IH]; [done|]. intros Hr. by apply IH, (step_ready m1 m2). Qed.

(** C18: in every manager that registrations and refreshes reach, in any order and
    overlapping, whatever the sources answer: a field is only there because
    exactly one registered source owns it, and is never a reserved metadata key;
    every state is that of a registered source; readiness is never taken back and
    decides the phase; and a source is refused exactly for an empty or duplicate
    name or an owned field that is empty, reserved or owned already. *)
Theorem manager_ownership_sound m :
  rtc manager_step new_manager m →
  NoDup (src_name <$> sources_ m) ∧
  (∀ f v, is_fields (inv_snapshot_ m) !! f = Some v → f ≠ "" ∧ is_metadata_field f = false ∧
    ∃ s, s ∈ sources_ m ∧ f ∈ src_owned s ∧ ∀ s', s' ∈ sources_ m → f ∈ src_owned s' → s' = s) ∧
  (∀ n st, sourceStates_ m !! n = Some st → ss_name st = n ∧ n ∈ src_name <$> sources_ m) ∧
  (is_ready (inv_snapshot_ m) = true → is_phase (inv_snapshot_ m) = Inv.PHASE_LIVE) ∧
  (∀ m', rtc manager_step m m' → is_ready (inv_snapshot_ m) = true → is_ready (inv_snapshot_ m') = true) ∧
  (∀ s, is_ok (addSource (Some s) m) = true ↔
    src_name s ≠ "" ∧ (src_name s ∉ src_name <$> sources_ m) ∧
    ∀ f, f ∈ src_owned s → f ≠ "" ∧ is_metadata_field f = false ∧ ∀ s', s' ∈ sources_ m → f ∉ src_owned s').
Proof.
  intros Hr. apply reachable_wf in Hr as Hwf. split_and!.
  - apply Hwf.
  - intros f v Hv. destruct (mw_fields m Hwf f v Hv) as [n Hn]. apply (mw_owner m Hwf) in Hn as (s & Hs & _ & Hf).
    destruct (mw_owned m Hwf s f Hs Hf) as [He Hm]. split_and!; [done|done|]. exists s. split_and!; [done|done|].
    intros s' Hs' Hf'. apply (named_once (sources_ m)); [apply Hwf|done|done|]. by apply (owned_once m s' s f).
  - intros n st Hst. destruct (mw_states m Hwf n st Hst) as (Hn & s & Hs & He & _). split; [done|].
    apply list_elem_of_fmap. by exists s.
  - intros Hrd. destruct (mw_phase m Hwf) as [->|(_ & ? & _)]; [by rewrite Hrd|congruence].
  - intros m'. apply run_ready.
  - intros s. split.
    + destruct (addSource (Some s) m) as [m'|] eqn:Ha; [|done]. intros _. apply addSource_ok in Ha as [[H1 H2 H3] _].
      split_and!; [done|done|]. intros f Hf. destruct (H3 f Hf) as (He & Hm & Hnone). split_and!; [done|done|].
      intros s' Hs' Hf'. rewrite (proj2 (mw_owner m Hwf f (src_name s'))) in Hnone by eauto. done.
    + intros (H1 & H2 & H3). erewrite (proj2 (addSource_ok m s _)); [done|]. split; [|reflexivity].
      split; [done|done|]. intros f Hf. destruct (H3 f Hf) as (He & Hm & Hn). split_and!; [done|done|].
      destruct (fieldOwners_ m !! f) as [n|] eqn:Ho; [|done]. apply (mw_owner m Hwf) in Ho as (s' & Hs' & _ & Hf').
      by destruct (Hn s' Hs').
Qed.

(** The fields and the state a refresh leaves for each source. *)
Definition source_refreshed (attemptTs : Z) (m m' : DefaultInventoryManager) (s : IInventorySource) (a : SourceAnswer) : Prop :=
  (∀ f, f ∈ src_owned s →
     is_fields (inv_snapshot_ m') !! f =
       match contribution s a with Some c => c !! f | None => is_fields (inv_snapshot_ m) !! f end) ∧
  ∃ st, sourceStates_ m' !! src_name s = Some st ∧ ss_lastAttemptTs st = attemptTs ∧
    match contribution s a with
    | Some _ => ss_health st = OK ∧ ss_stale st = false ∧ ss_lastSuccessTs st = sa_now a ∧ ss_lastError st = None
    | None => ss_health st = FAILED ∧ is_Some (ss_lastError st) ∧
        ∀ prev, sourceStates_ m !! src_name s = Some prev → ss_lastSuccessTs st = ss_lastSuccessTs prev
    end.

(** The merging loop of a refresh over all the sources. *)
Lemma refresh_merged attemptTs answers m :
  manager_wf m → length answers = length (sources_ m) →
  let r := foldl (merge_result m) (is_fields (inv_snapshot_ m), sourceStates_ m)
             (refresh_collect attemptTs (sources_ m) answers) in
  ∀ i s a, sources_ m !! i = Some s → answers !! i = Some a →
    (∀ f, f ∈ src_owned s → r.1 !! f = match contribution s a with Some c => c !! f | None => is_fields (inv_snapshot_ m) !! f end) ∧
    r.2 !! src_name s = Some (final_state attemptTs m s a).
Proof.
  intros Hwf Hl r i s a Hs Ha. subst r. rewrite collected_pairs.
  destruct (zip_ok (sources_ m) (sources_ m) [] answers ltac:(by rewrite app_nil_r) Hl (mw_names m Hwf)) as [Hin Hnd].
  destruct (merge_spec attemptTs m (zip (sources_ m) answers) (is_fields (inv_snapshot_ m)) (sourceStates_ m) Hwf Hin Hnd)
    as (Hf & _ & Hc & _).
  assert ((s, a) ∈ zip (sources_ m) answers) as Hz
    by (apply list_elem_of_lookup; exists i; rewrite lookup_zip_with, Hs; cbn; by rewrite Ha).
  split; [intros f; by apply Hf|by apply Hc].
Qed.

Lemma final_state_spec attemptTs m s a :
  let st := final_state attemptTs m s a in
  ss_lastAttemptTs st = attemptTs ∧
  match contribution s a with
  | Some _ => ss_health st = OK ∧ ss_stale st = false ∧ ss_lastSuccessTs st = sa_now a ∧ ss_lastError st = None
  | None => ss_health st = FAILED ∧ is_Some (ss_lastError st) ∧
      ∀ prev, sourceStates_ m !! src_name s = Some prev → ss_lastSuccessTs st = ss_lastSuccessTs prev
  end.
Proof.
  destruct (collect_spec attemptTs s a) as (_ & _ & _ & Hat & _ & Hcase). unfold final_state.
  destruct (contribution s a); [done|]. destruct Hcase as [Hh He].
  destruct (sourceStates_ m !! src_name s); split_and!; try done; naive_solver.
Qed.

(** What [refreshAll] makes of the merged fields and states. *)
Lemma refreshAll_parts attemptTs now answers m :
  let r := foldl (merge_result m) (is_fields (inv_snapshot_ m), sourceStates_ m)
             (refresh_collect attemptTs (sources_ m) answers) in
  let d := diffSourceOwnedFields (is_fields (inv_snapshot_ m)) r.1 in
  let '(diff, m') := refreshAll attemptTs now answers m in
  diff = d ∧ sources_ m' = sources_ m ∧ is_fields (inv_snapshot_ m') = r.1 ∧ sourceStates_ m' = r.2 ∧
  is_version (inv_snapshot_ m') =
    (if diff_empty d then is_version (inv_snapshot_ m) else ((is_version (inv_snapshot_ m) + 1) mod 2 ^ 64)%Z) ∧
  is_ready (inv_snapshot_ m') = is_ready (inv_snapshot_ m) || allRequiredSourcesOk (sources_ m) r.2.
Proof.
  unfold refreshAll, refresh_merge. destruct (foldl _ _ _) as [newFields newStates]. cbn [fst snd].
  by destruct (diff_empty _).
Qed.

Lemma refresh_sources attemptTs now answers m :
  manager_wf m → length answers = length (sources_ m) →
  ∀ i s a, sources_ m !! i = Some s → answers !! i = Some a →
  source_refreshed attemptTs m (refreshAll attemptTs now answers m).2 s a.
Proof.
  intros Hwf Hl i s a Hs Ha. pose proof (refreshAll_parts attemptTs now answers m) as Hp. cbv zeta in Hp.
  destruct (refresh_merged attemptTs answers m Hwf Hl i s a Hs Ha) as [Hf Hst].
  destruct (refreshAll _ _ _ _) as [diff m']. destruct Hp as (_ & _ & Hfields & Hstates & _). unfold source_refreshed.
  cbn [snd]. rewrite Hfields, Hstates. split; [exact Hf|]. eexists. split; [exact Hst|]. apply final_state_spec.
Qed.

Lemma refresh_ready_iff attemptTs now answers m :
  manager_wf m → length answers = length (sources_ m) →
  is_ready (inv_snapshot_ (refreshAll attemptTs now answers m).2) = true ↔ is_ready (inv_snapshot_ m) = true ∨
    ∀ i s a, sources_ m !! i = Some s → answers !! i = Some a → src_required s = true → is_Some (contribution s a).
Proof.
  intros Hwf Hl. pose proof (refreshAll_parts attemptTs now answers m) as Hp. cbv zeta in Hp.
  pose proof (refresh_merged attemptTs answers m Hwf Hl) as Hm. cbv zeta in Hm.
  destruct (refreshAll _ _ _ _) as [diff m']. destruct Hp as (_ & _ & _ & _ & _ & Hready). cbn [snd]. rewrite Hready, orb_true_iff.
  apply or_iff_compat_l. unfold allRequiredSourcesOk. rewrite forallb_forall. split.
  - intros Hall i s a Hs Hans Hreq. specialize (Hall s). destruct (Hm i s a Hs Hans) as [_ Hst].
    destruct (final_state_spec attemptTs m s a) as [_ Hcase]. rewrite Hst, Hreq in Hall.
    destruct (contribution s a); [by eexists|]. destruct Hcase as [Hh _].
    rewrite Hh in Hall. discriminate Hall. apply list_elem_of_In. by apply list_elem_of_lookup_2 in Hs.
  - intros Hall s [i Hs]%list_elem_of_In%list_elem_of_lookup.
    destruct (lookup_lt_is_Some_2 answers i) as [a Hans]; [rewrite Hl; by eapply lookup_lt_Some|].
    destruct (Hm i s a Hs Hans) as [_ ->]. destruct (final_state_spec attemptTs m s a) as [_ Hcase].
    destruct (src_required s) eqn:Hreq; [|done].
    destruct (Hall i s a Hs Hans Hreq) as [c Hcn]. rewrite Hcn in Hcase. destruct Hcase as [-> _]. done.
Qed.

(** C17: a refresh does what each source says and isolates failures: the fields a
    source owns become exactly what it collected, undeclared ones dropped, and
    its state becomes healthy; when it fails its fields, and the time of its last
    success, stay as they were and only its state says so; the diff lists, once
    each, exactly the fields that changed or went, the version counts the
    refreshes that changed something, and readiness comes once every required
    source has collected. *)
Theorem refresh_exact m attemptTs now answers :
  rtc manager_step new_manager m → length answers = length (sources_ m) →
  let fields := is_fields (inv_snapshot_ m) in
  let '(diff, m') := refreshAll attemptTs now answers m in
  let fields' := is_fields (inv_snapshot_ m') in
  (∀ i s a, sources_ m !! i = Some s → answers !! i = Some a → source_refreshed attemptTs m m' s a) ∧
  (∀ f, f ∈ changedFields diff ↔ is_Some (fields' !! f) ∧ fields !! f ≠ fields' !! f) ∧
  (∀ f, f ∈ removedFields diff ↔ is_Some (fields !! f) ∧ fields' !! f = None) ∧
  NoDup (changedFields diff ++ removedFields diff) ∧
  is_version (inv_snapshot_ m') =
    (if decide (fields = fields') then is_version (inv_snapshot_ m) else ((is_version (inv_snapshot_ m) + 1) mod 2 ^ 64)%Z) ∧
  (is_ready (inv_snapshot_ m') = true ↔ is_ready (inv_snapshot_ m) = true ∨
    ∀ i s a, sources_ m !! i = Some s → answers !! i = Some a → src_required s = true → is_Some (contribution s a)).
Proof.
  intros Hr Hl. apply reachable_wf in Hr as Hwf.
  pose proof (refreshAll_parts attemptTs now answers m) as Hp. cbv zeta in Hp.
  pose proof (refresh_sources attemptTs now answers m Hwf Hl) as Hs.
  pose proof (refresh_ready_iff attemptTs now answers m Hwf Hl) as Hready.
  destruct (refreshAll _ _ _ _) as [diff m']. cbn [snd] in *. destruct Hp as (Hd & _ & Hfields & _ & Hversion & _).
  rewrite <- Hfields in Hd, Hversion.
  destruct (diff_spec (is_fields (inv_snapshot_ m)) (is_fields (inv_snapshot_ m'))) as (Hdc & Hdr & Hdn & Hde).
  subst diff. split_and!; [done|done|done|done| |done]. rewrite Hversion. destruct (decide _) as [He|He].
  - by rewrite (proj2 Hde He).
  - destruct (diff_empty _) eqn:Hd; [|done]. by destruct He; apply Hde.
Qed.

(** * Witnesses *)

Definition demo_source : IInventorySource := mkSource "uuid-file" true ["uuid"].
Definition demo_source2 : IInventorySource := mkSource "meta" false ["deviceClass"; "deviceProject"].
Definition demo_manager : DefaultInventoryManager :=
  mkManager [demo_source; demo_source2]
    {["uuid" := "uuid-file"; "deviceClass" := "meta"; "deviceProject" := "meta"]} default_InventorySnapshot ∅.
Definition demo_answers : list SourceAnswer :=
  [mkSourceAnswer default_SourceState (Ok {["uuid" := FString "x"; "extra" := FBool true]}) 100;
   mkSourceAnswer default_SourceState (Err (Some "cannot open")) 101].

Lemma demo_manager_reachable : rtc manager_step new_manager demo_manager.
Proof.
  eapply rtc_l; [apply (ms_add (Some demo_source)); vm_compute; reflexivity|].
  eapply rtc_l; [apply (ms_add (Some demo_source2)); vm_compute; reflexivity|]. reflexivity.
Qed.

Lemma manager_ownership_sound_witness :
  let m := (refreshAll 100 102 demo_answers demo_manager).2 in
  is_fields (inv_snapshot_ m) = {["uuid" := FString "x"]} ∧ is_phase (inv_snapshot_ m) = Inv.PHASE_LIVE ∧
  is_ok (addSource (Some (mkSource "again" false ["uuid"])) m) = false.
Proof.
  assert (rtc manager_step new_manager (refreshAll 100 102 demo_answers demo_manager).2) as Hr.
  { eapply rtc_r; [apply demo_manager_reachable|]. by apply (ms_merge 100 102 [demo_source; demo_source2] []). }
  destruct (manager_ownership_sound _ Hr) as (_ & _ & _ & Hp & _).
  cbv zeta. split; [vm_compute; reflexivity|]. split; [apply Hp; vm_compute; reflexivity|vm_compute; reflexivity].
Defined.

Lemma refresh_exact_witness :
  let '(diff, m') := refreshAll 100 102 demo_answers demo_manager in
  changedFields diff = ["uuid"] ∧ is_version (inv_snapshot_ m') = 1%Z ∧
  (is_ready (inv_snapshot_ m') = true ↔ is_ready (inv_snapshot_ demo_manager) = true ∨
    ∀ i s a, sources_ demo_manager !! i = Some s → demo_answers !! i = Some a → src_required s = true →
      is_Some (contribution s a)).
Proof.
  pose proof (refresh_exact demo_manager 100 102 demo_answers demo_manager_reachable eq_refl) as Hr.
  destruct (refreshAll 100 102 demo_answers demo_manager) as [diff m'] eqn:E.
  destruct Hr as (_ & _ & _ & _ & _ & Hready). vm_compute in E. injection E as <- <-.
  split; [reflexivity|]. split; [reflexivity|]. exact Hready.
Defined.
