(* ===== verification/InvFiles.v ===== *)
(** [services/rmc-inventory/inputs/files/]: [FileBackedInventorySource.cpp],
    [ScalarFileSource.h], [DeviceMetaFileSource.cpp]: reading a file through its
    descriptor, the fields made of its contents, and the state of the source. *)

From S2P Require Import Prelude Contract InvManager.

(** * Standard library *)

Definition is_ws (c : ascii) : bool :=
  bool_decide (c ∈ [" "%char; ascii_of_nat 9; ascii_of_nat 13; ascii_of_nat 10]).

Fixpoint find_first_not_of (s : string) : option nat :=
  match s with
  | "" => None
  | String c s => if is_ws c then S <$> find_first_not_of s else Some 0
  end.

Fixpoint find_last_not_of (s : string) : option nat :=
  match s with
  | "" => None
  | String c s =>
      match find_last_not_of s with
      | Some n => Some (S n)
      | None => if is_ws c then None else Some 0
      end
  end.

Fixpoint str_last (s : string) : option ascii :=
  match s with
  | "" => None
  | String c s => match str_last s with Some d => Some d | None => Some c end
  end.

(** [std::filesystem::path(p).filename().empty()]: nothing after the last slash. *)
Definition no_filename (p : string) : bool := bool_decide (str_last p ∈ [None; Some "/"%char]).

(** * System calls *)

Definition ELOOP : Z := 40.

Record Stat := mkStat { st_regular : bool; st_size : Z }.

(** One [read] into the buffer of 4096 octets. *)
Inductive ReadOutcome := RdData (chunk : string) | RdEof | RdError (errno : Z).

(** [fo_open] is the error of [open], if any. *)
Record FileOutcome := mkFileOutcome {
  fo_open : option Z; fo_stat : result Z Stat; fo_reads : list ReadOutcome
}.

(** * [FileBackedInventorySource] *)

Definition kMaxFileBytes : nat := 64 * 1024.
Definition kMaxErrorBytes : nat := 512.

Definition boundedErrorText (error : string) : string :=
  if bool_decide (String.length error ≤ kMaxErrorBytes) then error
  else String.substring 0 kMaxErrorBytes error +:+ "...".

Definition scalarFromContents (contents what : string) : result string string :=
  match find_first_not_of contents, find_last_not_of contents with
  | Some first, Some last => Ok (String.substring first (last - first + 1) contents)
  | _, _ => Err (what +:+ ": empty content in file")
  end.

Definition quoted (what filePath : string) : string := what +:+ " '" +:+ filePath +:+ "'".

Section reading.
(** [std::generic_category().message]. *)
Context (generic_message : Z → string).

Definition system_error (errno : Z) (what : string) : string := what +:+ ": " +:+ generic_message errno.

(** [None]: the outcomes are used up while the loop still reads. *)
Fixpoint read_loop (filePath contents : string) (reads : list ReadOutcome) : option (result string string) :=
  match reads with
  | [] => None
  | RdEof :: _ => Some (Ok contents)
  | RdError errno :: reads =>
      if bool_decide (errno = EINTR) then read_loop filePath contents reads
      else Some (Err (system_error errno (quoted "cannot read" filePath)))
  | RdData chunk :: reads =>
      let contents := contents +:+ chunk in
      if bool_decide (kMaxFileBytes < String.length contents)
      then Some (Err (quoted "file exceeds size limit" filePath))
      else read_loop filePath contents reads
  end.

Definition readFileContents (filePath : string) (o : FileOutcome) : option (result string string) :=
  match fo_open o with
  | Some errno =>
      Some (Err (if bool_decide (errno = ELOOP) then quoted "refusing to open symlink" filePath
                 else system_error errno (quoted "cannot open" filePath)))
  | None =>
      match fo_stat o with
      | Err errno => Some (Err (system_error errno (quoted "cannot stat" filePath)))
      | Ok st =>
          if negb (st_regular st) then Some (Err (quoted "refusing non-regular file" filePath))
          else if bool_decide (st_size st < 0)%Z then Some (Err (quoted "unexpected negative file size" filePath))
          else if bool_decide (Z.of_nat kMaxFileBytes < st_size st)%Z then Some (Err (quoted "file exceeds size limit" filePath))
          else read_loop filePath "" (fo_reads o)
      end
  end.

(** [fb_fieldsFromContents] is the virtual member function. *)
Record FileBackedInventorySource := mkFileSource {
  fb_name : string; fb_required : bool; fb_path : string; fb_owned : FieldNameList;
  fb_fieldsFromContents : string → result string InventoryFields;
  fb_state : SourceState
}.

Definition new_FileBackedInventorySource (name : string) (required : bool) (filePath : string)
    (ownedFields : FieldNameList) (fieldsFromContents : string → result string InventoryFields)
    : result string FileBackedInventorySource :=
  _ ← throw_if (str_empty filePath || no_filename filePath)
        ("FileBackedInventorySource '" +:+ name +:+ "': invalid file path");
  Ok (mkFileSource name required filePath ownedFields fieldsFromContents
        (default_SourceState <| ss_name := name |> <| ss_required := required |> <| ss_health := FAILED |>
           <| ss_origin := Some filePath |>)).

Definition with_state (st : SourceState) (s : FileBackedInventorySource) : FileBackedInventorySource :=
  mkFileSource (fb_name s) (fb_required s) (fb_path s) (fb_owned s) (fb_fieldsFromContents s) st.

Definition noteSuccess (s : FileBackedInventorySource) : FileBackedInventorySource :=
  with_state ((fb_state s) <| ss_health := OK |> <| ss_lastError := None |>) s.

Definition noteFailure (error : string) (s : FileBackedInventorySource) : FileBackedInventorySource :=
  with_state ((fb_state s) <| ss_health := FAILED |> <| ss_lastError := Some error |>) s.

(** The exception is thrown on. *)
Definition collect (o : FileOutcome) (s : FileBackedInventorySource)
    : option (result string InventoryFields * FileBackedInventorySource) :=
  match readFileContents (fb_path s) o with
  | None => None
  | Some contents =>
      Some (match contents ≫= fb_fieldsFromContents s with
            | Ok fields => (Ok fields, noteSuccess s)
            | Err e => (Err e, noteFailure (boundedErrorText e) s)
            end)
  end.

(** What the manager sees of a file source in one refresh: [getState], then
    [collect]. *)
Definition file_source (s : FileBackedInventorySource) : IInventorySource :=
  mkSource (fb_name s) (fb_required s) (fb_owned s).

Definition file_answer (now : Z) (o : FileOutcome) (s : FileBackedInventorySource)
    : option (SourceAnswer * FileBackedInventorySource) :=
  match collect o s with
  | None => None
  | Some (r, s') =>
      Some (mkSourceAnswer (fb_state s) (match r with Ok f => Ok f | Err e => Err (Some e) end) now, s')
  end.
End reading.

(** * [ScalarFileSource] *)

Definition new_ScalarFileSource (name : string) (required : bool) (filePath fieldName : string)
    : result string FileBackedInventorySource :=
  new_FileBackedInventorySource name required filePath [fieldName]
    (λ contents, v ← scalarFromContents contents name; Ok {[fieldName := FString v]}).

(** * [DeviceMetaFileSource]

    The JSON reader is a library: [json_parse] is [CharReader::parse] with the
    builder's defaults, [json_member] is [isMember] with the member itself, and
    [json_string] the text of a value that [isString]. *)
Class Json (J : Type) := {
  json_parse : string → result string J;
  json_isObject : J → bool;
  json_member : J → string → option J;
  json_string : J → option string
}.

Section device_meta.
Context {J : Type} `{Json J}.

Definition addStringField (root : J) (jsonKey contractField : string) (out : InventoryFields)
    : result string InventoryFields :=
  match json_member root jsonKey with
  | None => Ok out
  | Some v =>
      let bad := "device-meta-file: key '" +:+ jsonKey +:+ "' is not a non-empty string" in
      match json_string v with
      | None => Err bad
      | Some text =>
          if str_empty text then Err bad
          else Ok (match out !! contractField with None => <[contractField := FString text]> out | Some _ => out end)
      end
  end.

Definition deviceMetaFromContents (contents : string) : result string InventoryFields :=
  match json_parse contents with
  | Err errs => Err ("device-meta-file: JSON parse failed: " +:+ errs)
  | Ok root =>
      if negb (json_isObject root) then Err "device-meta-file: root is not an object"
      else
        out ← addStringField root "device_class" Inv.FIELD_DEVICE_CLASS ∅;
        out ← addStringField root "device_model_id" Inv.FIELD_DEVICE_MODEL_ID out;
        addStringField root "device_project" Inv.FIELD_DEVICE_PROJECT out
  end.

Definition new_DeviceMetaFileSource (filePath : string) (required : bool) : result string FileBackedInventorySource :=
  new_FileBackedInventorySource "device-meta-file" required filePath
    [Inv.FIELD_DEVICE_CLASS; Inv.FIELD_DEVICE_MODEL_ID; Inv.FIELD_DEVICE_PROJECT] deviceMetaFromContents.
End device_meta.

(** * Strings *)

Definition all_ws (s : string) : Prop := find_first_not_of s = None.

(** A text without white space at its ends, and not empty. *)
Definition trimmed (s : string) : Prop :=
  find_first_not_of s = Some 0 ∧ find_last_not_of s = Some (String.length s - 1).

Lemma substring_app_l a t n : String.substring (String.length a) n (a +:+ t) = String.substring 0 n t.
Proof. unfold String.append. induction a as [|c a IH]; cbn; [done|]. exact IH. Qed.

Lemma substring_app_r v b : String.substring 0 (String.length v) (v +:+ b) = v.
Proof. unfold String.append. induction v as [|c v IH]; cbn; [by destruct b|]. f_equal. exact IH. Qed.

Lemma length_substring_0 n s : String.length (String.substring 0 n s) = n `min` String.length s.
Proof.
  revert n. induction s as [|c s IH]; intros [|n]; cbn; try done. f_equal. apply IH.
Qed.

Lemma first_split s f :
  find_first_not_of s = Some f →
  ∃ a t, s = a +:+ t ∧ String.length a = f ∧ all_ws a ∧ find_first_not_of t = Some 0.
Proof.
  unfold String.append. revert f. induction s as [|c s IH]; intros f; cbn; [done|]. destruct (is_ws c) eqn:Hc.
  - intros (g & Hg & ->)%fmap_Some. destruct (IH g Hg) as (a & t & -> & Hl & Ha & Ht).
    exists (String c a), t. split_and!; [done|cbn; by f_equal| |done]. unfold all_ws in *. cbn. by rewrite Hc, Ha.
  - intros [= <-]. exists "", (String c s). split_and!; [done..|]. cbn. by rewrite Hc.
Qed.

Lemma last_none s : find_last_not_of s = None ↔ all_ws s.
Proof.
  unfold all_ws. induction s as [|c s IH]; cbn; [done|].
  destruct (find_last_not_of s) as [n|], (is_ws c), (find_first_not_of s) as [m|]; cbn; naive_solver.
Qed.

Lemma last_app a t l : find_last_not_of t = Some l → find_last_not_of (a +:+ t) = Some (String.length a + l).
Proof. intros Hl. unfold String.append. induction a as [|c a IH]; cbn; [done|]. by rewrite IH. Qed.

Lemma last_split s l :
  find_last_not_of s = Some l →
  ∃ v b, s = v +:+ b ∧ String.length v = S l ∧ all_ws b ∧ find_last_not_of v = Some l.
Proof.
  unfold String.append. revert l. induction s as [|c s IH]; intros l; cbn; [done|].
  destruct (find_last_not_of s) as [n|] eqn:Hn.
  - intros [= <-]. destruct (IH n eq_refl) as (v & b & -> & Hl & Hb & Hv). exists (String c v), b.
    split_and!; [done|cbn; by f_equal|done|]. cbn. by rewrite Hv.
  - destruct (is_ws c) eqn:Hc; [done|]. intros [= <-]. exists (String c ""), s.
    split_and!; [done|done|by apply last_none|]. cbn. by rewrite Hc.
Qed.

Lemma first_prefix v b : find_first_not_of (v +:+ b) = Some 0 → v ≠ "" → find_first_not_of v = Some 0.
Proof.
  destruct v as [|c v]; [done|]. unfold String.append. cbn. destruct (is_ws c); [|done].
  intros (n & _ & [=])%fmap_Some.
Qed.

(** Trimming keeps everything between the first and the last character that is
    not white space, and fails exactly on white space. *)
Lemma scalar_spec contents what :
  match scalarFromContents contents what with
  | Ok v => trimmed v ∧ v ≠ "" ∧ ∃ a b, contents = a +:+ v +:+ b ∧ all_ws a ∧ all_ws b
  | Err _ => all_ws contents
  end.
Proof.
  unfold scalarFromContents. destruct (find_first_not_of contents) as [f|] eqn:Hf; [|done].
  destruct (first_split _ _ Hf) as (a & t & -> & <- & Ha & Ht).
  destruct (find_last_not_of t) as [l|] eqn:Hl.
  2:{ apply last_none in Hl. unfold all_ws in Hl. congruence. }
  rewrite (last_app a t l Hl). destruct (last_split _ _ Hl) as (v & b & -> & Hlen & Hb & Hv).
  replace (String.length a + l - String.length a + 1) with (String.length v) by lia.
  rewrite substring_app_l, substring_app_r.
  assert (v ≠ "") by (intros ->; done).
  split_and!; [split; [by apply (first_prefix v b)|]|done|by exists a, b]. rewrite Hv. f_equal. lia.
Qed.

Lemma boundedErrorText_length e : String.length (boundedErrorText e) ≤ kMaxErrorBytes + 3.
Proof.
  unfold boundedErrorText. case_bool_decide; [lia|]. rewrite str_length_app, length_substring_0. cbn [String.length]. lia.
Qed.

(** * Specification *)

(** What the kernel delivers up to the end of the file or an error, and how it
    ends: [None] not yet, [Some None] at the end, [Some (Some e)] with an error. *)
Fixpoint delivered (reads : list ReadOutcome) : string :=
  match reads with
  | RdData chunk :: reads => chunk +:+ delivered reads
  | RdError e :: reads => if bool_decide (e = EINTR) then delivered reads else ""
  | _ => ""
  end.

Fixpoint ending (reads : list ReadOutcome) : option (option Z) :=
  match reads with
  | [] => None
  | RdEof :: _ => Some None
  | RdData _ :: reads => ending reads
  | RdError e :: reads => if bool_decide (e = EINTR) then ending reads else Some (Some e)
  end.

(** The descriptors a source reads from. *)
Definition accepted (o : FileOutcome) : Prop :=
  fo_open o = None ∧ ∃ st, fo_stat o = Ok st ∧ st_regular st = true ∧ (0 ≤ st_size st ≤ Z.of_nat kMaxFileBytes)%Z.

#[local] Opaque kMaxFileBytes.

Section facts.
Context (generic_message : Z → string).

Lemma read_loop_spec p c reads :
  String.length c ≤ kMaxFileBytes →
  read_loop generic_message p c reads =
    (if bool_decide (kMaxFileBytes < String.length (c +:+ delivered reads))
     then Some (Err (quoted "file exceeds size limit" p))
     else match ending reads with
          | None => None
          | Some None => Some (Ok (c +:+ delivered reads))
          | Some (Some e) => Some (Err (system_error generic_message e (quoted "cannot read" p)))
          end).
Proof.
  revert c. induction reads as [|[chunk| |e] reads IH]; intros c Hc; cbn [read_loop delivered ending].
  - by rewrite str_app_nil, bool_decide_eq_false_2 by lia.
  - rewrite <- str_app_assoc. case_bool_decide as Hl; [|apply IH; lia].
    rewrite bool_decide_eq_true_2; [done|]. rewrite str_length_app. lia.
  - by rewrite str_app_nil, bool_decide_eq_false_2 by lia.
  - case_bool_decide; [by apply IH|]. by rewrite str_app_nil, bool_decide_eq_false_2 by lia.
Qed.

Lemma read_file_cases p o :
  accepted o ∧ readFileContents generic_message p o = read_loop generic_message p "" (fo_reads o) ∨
  ¬ accepted o ∧ ∃ e, readFileContents generic_message p o = Some (Err e).
Proof.
  unfold readFileContents, accepted. destruct (fo_open o) as [e|]; [right; split; [by intros [? _]|eauto]|].
  destruct (fo_stat o) as [st|e]; [|right; split; [by intros (_ & st & ? & _)|eauto]].
  destruct (st_regular st) eqn:Hr; cbn [negb]; [|right; split; [intros (_ & st' & [= <-] & ? & _); congruence|eauto]].
  case_bool_decide as Hn; [right; split; [intros (_ & st' & [= <-] & _ & ?); lia|eauto]|].
  case_bool_decide as Hm; [right; split; [intros (_ & st' & [= <-] & _ & ?); lia|eauto]|].
  left. split; [|done]. split; [done|]. exists st. split_and!; [done|done|lia|lia].
Qed.

Lemma readFileContents_ok p o c :
  readFileContents generic_message p o = Some (Ok c) ↔
  accepted o ∧ ending (fo_reads o) = Some None ∧ c = delivered (fo_reads o) ∧ String.length c ≤ kMaxFileBytes.
Proof.
  destruct (read_file_cases p o) as [[Ha ->]|[Hn [e ->]]]; [|naive_solver].
  rewrite read_loop_spec by apply Nat.le_0_l. change ("" +:+ ?x) with x. case_bool_decide as Hb.
  - split; [done|]. intros (_ & _ & -> & Hl). lia.
  - destruct (ending (fo_reads o)) as [[e|]|]; split; try done; try (by intros (_ & ? & _)).
    + intros [= <-]. split_and!; [done|done|done|lia].
    + by intros (_ & _ & -> & _).
Qed.

Lemma readFileContents_open p o :
  readFileContents generic_message p o = None ↔
  accepted o ∧ ending (fo_reads o) = None ∧ String.length (delivered (fo_reads o)) ≤ kMaxFileBytes.
Proof.
  destruct (read_file_cases p o) as [[Ha ->]|[Hn [e ->]]]; [|naive_solver].
  rewrite read_loop_spec by apply Nat.le_0_l. change ("" +:+ ?x) with x. case_bool_decide as Hb.
  - split; [done|]. intros (_ & _ & Hl). lia.
  - destruct (ending (fo_reads o)) as [[e|]|]; split; try done; try (by intros (_ & ? & _)).
    intros _. split_and!; [done|done|lia].
Qed.

Definition collect_step (s s' : FileBackedInventorySource) : Prop :=
  ∃ o r, collect generic_message o s = Some (r, s').

(** What collections leave as it was, and what they keep true. *)
Definition like (s0 s : FileBackedInventorySource) : Prop :=
  fb_name s = fb_name s0 ∧ fb_required s = fb_required s0 ∧ fb_path s = fb_path s0 ∧ fb_owned s = fb_owned s0 ∧
  fb_fieldsFromContents s = fb_fieldsFromContents s0 ∧
  ∃ h e, fb_state s = mkSourceState (fb_name s0) (fb_required s0) false h 0 0 e (Some (fb_path s0)).

Lemma collect_like s0 s o r s' :
  like s0 s → collect generic_message o s = Some (r, s') →
  like s0 s' ∧
  fb_state s' = mkSourceState (fb_name s0) (fb_required s0) false (if is_ok r then OK else FAILED) 0 0
    (match r with Ok _ => None | Err e => Some (boundedErrorText e) end) (Some (fb_path s0)).
Proof.
  intros (Hn & Hr & Hp & Ho & Hf & h & e & Hst). unfold collect. destruct (readFileContents _ _ _) as [c|]; [|done].
  destruct (c ≫= _) as [fs|err]; intros [= <- <-]; unfold like; cbn; rewrite Hst; cbn; split_and!; try done;
    by do 2 eexists.
Qed.

Lemma new_like name required path owned fields s0 :
  new_FileBackedInventorySource name required path owned fields = Ok s0 →
  like s0 s0 ∧ fb_name s0 = name ∧ fb_required s0 = required ∧ fb_path s0 = path ∧ fb_owned s0 = owned ∧
  fb_fieldsFromContents s0 = fields.
Proof.
  intros ([] & _ & [= <-])%bind_ok. cbn. split_and!; try done. split_and!; try done. cbn. by do 2 eexists.
Qed.

Lemma run_like s0 s1 s : like s0 s1 → rtc collect_step s1 s → like s0 s.
Proof.
  intros H1 Hr. induction Hr as [|s1 s2 s3 (o & r & Hc) _ IH]; [done|].
  by apply IH, (collect_like s0 s1 o r s2).
Qed.

Lemma collect_ok s o fs s' :
  collect generic_message o s = Some (Ok fs, s') →
  accepted o ∧ ending (fo_reads o) = Some None ∧ String.length (delivered (fo_reads o)) ≤ kMaxFileBytes ∧
  fb_fieldsFromContents s (delivered (fo_reads o)) = Ok fs.
Proof.
  unfold collect. destruct (readFileContents _ _ _) as [[c|e]|] eqn:Hc; cbn; [|done|done].
  apply readFileContents_ok in Hc as (Ha & He & -> & Hl). destruct (fb_fieldsFromContents s _) eqn:Hf; [|done].
  by intros [= <- _].
Qed.
End facts.

(** The fields of the JSON file: declared names, non-empty texts. *)
Lemma deviceMeta_fields {J} `{Json J} contents fs :
  deviceMetaFromContents contents = Ok fs →
  map_Forall (λ k v, k ∈ [Inv.FIELD_DEVICE_CLASS; Inv.FIELD_DEVICE_MODEL_ID; Inv.FIELD_DEVICE_PROJECT] ∧
    ∃ t, v = FString t ∧ t ≠ "") fs.
Proof.
  unfold deviceMetaFromContents. destruct (json_parse contents) as [root|]; [|done]. destruct (json_isObject root); [|done].
  cbn [negb]. set (P := λ (k : string) (v : FieldValue), _).
  assert (Hadd : ∀ key f out out', f ∈ [Inv.FIELD_DEVICE_CLASS; Inv.FIELD_DEVICE_MODEL_ID; Inv.FIELD_DEVICE_PROJECT] →
    map_Forall P out → addStringField root key f out = Ok out' → map_Forall P out').
  { intros key f out out' Hf Hout. unfold addStringField. destruct (json_member root key) as [v|]; [|by intros [= <-]].
    destruct (json_string v) as [text|]; [|done]. destruct (str_empty text) eqn:He; [done|]. intros [= <-].
    apply str_empty_false in He. destruct (out !! f); [done|]. apply map_Forall_insert_2; [|done]. split; [done|eauto]. }
  intros (o1 & H1 & (o2 & H2 & H3)%bind_ok)%bind_ok.
  eapply Hadd, H3; [set_solver|]. eapply Hadd, H2; [set_solver|]. eapply Hadd, H1; [set_solver|]. apply map_Forall_empty.
Qed.


(** * What modelling showed *)

(** The manager publishes the text of the exception, not the bounded text the
    source keeps: see [collect_source]. *)
Lemma published_error_unbounded (text : string) now ts :
  let source := mkFileSource "f" true "/f" ["f"] (λ _, Err text) (default_SourceState <| ss_name := "f" |>) in
  let o := mkFileOutcome None (Ok (mkStat true 1)) [RdData "x"; RdEof] in
  ∃ a s', file_answer (λ _, "") now o source = Some (a, s') ∧
    ss_lastError (fb_state s') = Some (boundedErrorText text) ∧
    ss_lastError (cr_state (collect_source ts (file_source source) a)) = Some text.
Proof.
  intros source o.
  assert (readFileContents (λ _, "") "/f" o = Some (Ok "x")) as Hr by (vm_compute; reflexivity).
  unfold file_answer, collect. cbn [fb_path source]. rewrite Hr. by do 2 eexists.
Qed.

(** * Witness *)

Definition demo_file : FileOutcome :=
  mkFileOutcome None (Ok (mkStat true 14)) [RdData " rack12"; RdError EINTR; RdData "-node7
"; RdEof].

