(* ===== verification/InvService.v ===== *)
(** [services/rmc-inventory/service/InventoryService.cpp] and
    [transports/dbus/InventoryQueryHandler.cpp]: the life cycle of the inventory
    service, its refresh loop, what it publishes, and its queries. *)

From S2P Require Import Prelude Contract Variant InvCodec InvManager InvFiles.

(** * State *)

(** Durations and clock readings in nanoseconds. *)
Definition ms : Z := 10 ^ 6.

Record Settings := mkSettings { reconcileInterval : Z; minRefreshInterval : Z }.
Definition default_Settings : Settings := mkSettings (60000 * ms) (1000 * ms).

(** The refresh worker: none, launched, in its loop, or dead of an exception. *)
Inductive RefreshWorker := WNone | WLaunched | WLooping | WCrashed.

#[export] Instance RefreshWorker_eq_dec : EqDecision RefreshWorker.
Proof. solve_decision. Defined.

(** [refreshSignal_]: the eventfd, when open, and whether it is readable.
    [base_ready]: the readiness [ServiceBase] keeps. *)
Record InventoryService := mkInventoryService {
  manager_ : DefaultInventoryManager; settings_ : Settings; loopFailed_ : bool; refreshRequested_ : bool;
  lastRefreshSteadyTs_ : Z; nextReconcileTs_ : Z; refreshSignal_ : option bool;
  base_ready : bool; transports_ : list string; watchedPaths_ : list string;
  inv_lifecycle_ : LifecycleState; refreshWorker_ : RefreshWorker
}.

Definition eta_service (s : InventoryService) : InventoryService :=
  mkInventoryService (manager_ s) (settings_ s) (loopFailed_ s) (refreshRequested_ s) (lastRefreshSteadyTs_ s)
    (nextReconcileTs_ s) (refreshSignal_ s) (base_ready s) (transports_ s) (watchedPaths_ s) (inv_lifecycle_ s)
    (refreshWorker_ s).
#[export] Instance set_manager : Setter manager_ := ltac:(mk_setter eta_service manager_).
#[export] Instance set_loopFailed : Setter loopFailed_ := ltac:(mk_setter eta_service loopFailed_).
#[export] Instance set_refreshRequested : Setter refreshRequested_ := ltac:(mk_setter eta_service refreshRequested_).
#[export] Instance set_lastRefresh : Setter lastRefreshSteadyTs_ := ltac:(mk_setter eta_service lastRefreshSteadyTs_).
#[export] Instance set_nextReconcile : Setter nextReconcileTs_ := ltac:(mk_setter eta_service nextReconcileTs_).
#[export] Instance set_refreshSignal : Setter refreshSignal_ := ltac:(mk_setter eta_service refreshSignal_).
#[export] Instance set_base_ready : Setter base_ready := ltac:(mk_setter eta_service base_ready).
#[export] Instance set_transports : Setter transports_ := ltac:(mk_setter eta_service transports_).
#[export] Instance set_watchedPaths : Setter watchedPaths_ := ltac:(mk_setter eta_service watchedPaths_).
#[export] Instance set_inv_lifecycle : Setter inv_lifecycle_ := ltac:(mk_setter eta_service inv_lifecycle_).
#[export] Instance set_refreshWorker : Setter refreshWorker_ := ltac:(mk_setter eta_service refreshWorker_).

Definition new_InventoryService (settings : Settings) : InventoryService :=
  mkInventoryService new_manager settings false false 0 0 None false [] [] LStopped WNone.

(** [ServiceBase::isRunning] *)
Definition base_running (s : InventoryService) : bool := bool_decide (inv_lifecycle_ s = LRunning).

(** * Configuration *)

Inductive ServiceError :=
| NullArgument | AlreadyRunning | Registration (e : RegistrationError) | RestartRequiresStop.

(** [watch] is the path of a watchable source. *)
Definition service_addSource (source : option IInventorySource) (watch : option string) (s : InventoryService)
    : result ServiceError InventoryService :=
  match source with
  | None => Err NullArgument
  | Some _ =>
      if base_running s then Err AlreadyRunning
      else
        match addSource source (manager_ s) with
        | Err e => Err (Registration e)
        | Ok m =>
            let s := s <| manager_ := m |> in
            Ok (match watch with Some p => s <| watchedPaths_ := watchedPaths_ s ++ [p] |> | None => s end)
        end
  end.

Definition service_addTransport (transport : option string) (s : InventoryService)
    : result ServiceError InventoryService :=
  match transport with
  | None => Err NullArgument
  | Some t => if base_running s then Err AlreadyRunning else Ok (s <| transports_ := transports_ s ++ [t] |>)
  end.

(** * Publication *)

Inductive InventorySignal := InventoryChanged (field : string) | SourceStateChanged (source : string).

(** A call on one transport, which cannot throw, or [ServiceBase::setReady]. *)
Inductive PublishCall := Publish (transport : string) (signal : InventorySignal) | SetReady (ready : bool).

Definition sourceStateTransitioned (lhs rhs : SourceState) : bool :=
  bool_decide (ss_health lhs ≠ ss_health rhs) || bool_decide (ss_stale lhs ≠ ss_stale rhs) ||
  bool_decide (ss_lastError lhs ≠ ss_lastError rhs).

Definition transitioned (oldStates : SourceStateMap) (name : string) (newState : SourceState) : bool :=
  match oldStates !! name with None => true | Some oldState => sourceStateTransitioned oldState newState end.

Definition to_transports (transports : list string) (signal : InventorySignal) : list PublishCall :=
  (λ t, Publish t signal) <$> transports.

Definition publishDiff (transports : list string) (diff : InventoryDiff) (oldStates newStates : SourceStateMap)
    (oldReady newReady : bool) : list PublishCall :=
  concat ((λ f, to_transports transports (InventoryChanged f)) <$> changedFields diff) ++
  concat ((λ f, to_transports transports (InventoryChanged f)) <$> removedFields diff) ++
  concat ((λ '(name, newState),
             if transitioned oldStates name newState then to_transports transports (SourceStateChanged name) else [])
            <$> map_iter newStates) ++
  (if bool_decide (oldReady ≠ newReady) then [SetReady newReady] else []).

(** * The refresh cycle *)

(** What the manager finds during one refresh: the two wall clock readings and
    the answers of its sources. *)
Record RefreshInput := mkRefreshInput { ri_attempt : Z; ri_merge : Z; ri_answers : list SourceAnswer }.

(** The refresh itself, from [now]. *)
Definition refresh_now (now : Z) (r : RefreshInput) (s : InventoryService) : InventoryService * list PublishCall :=
  let oldStates := sourceStates_ (manager_ s) in
  let oldReady := is_ready (inv_snapshot_ (manager_ s)) in
  let '(diff, m) := InvManager.refreshAll (ri_attempt r) (ri_merge r) (ri_answers r) (manager_ s) in
  let newReady := is_ready (inv_snapshot_ m) in
  let calls := publishDiff (transports_ s) diff oldStates (sourceStates_ m) oldReady newReady in
  let s := s <| refreshRequested_ := false |> <| manager_ := m |> in
  let s := if bool_decide (oldReady ≠ newReady) then s <| base_ready := newReady |> else s in
  (s <| lastRefreshSteadyTs_ := now |> <| nextReconcileTs_ := (now + reconcileInterval (settings_ s))%Z |>, calls).

Definition throttled (force : bool) (now : Z) (s : InventoryService) : bool :=
  force && bool_decide (now - lastRefreshSteadyTs_ s < minRefreshInterval (settings_ s))%Z.

(** The last component: whether it refreshed. *)
Definition doRefreshCycle (force : bool) (now : Z) (r : RefreshInput) (s : InventoryService)
    : InventoryService * list PublishCall * bool :=
  if throttled force now s then (s <| refreshRequested_ := true |>, [], false)
  else (refresh_now now r s, true).

(** * The loop *)

Definition int_cast (x : Z) : Z := (x + 2 ^ 31) mod 2 ^ 32 - 2 ^ 31.

Definition msUntil (ts now : Z) : Z := if bool_decide (ts ≤ now)%Z then 0 else int_cast ((ts - now) / ms).

Definition wakeTs (s : InventoryService) : Z :=
  if refreshRequested_ s
  then Z.min (nextReconcileTs_ s) (lastRefreshSteadyTs_ s + minRefreshInterval (settings_ s))
  else nextReconcileTs_ s.

Record Revents := mkRevents { rv_in : bool; rv_terminal : bool }.
Inductive PollKind := PollStopRequested | PollSyscallFailure (errno : Z) | PollTimeout | PollReady (signal watcher : Revents).

(** One turn of the loop: what its calls find. [lt_maintain]: the watcher's
    [maintain] returns. [refresh()] may be called by other threads while the loop
    waits ([lt_request]), after the eventfd is drained ([lt_between]), and between
    the reading of the flag and the refresh ([lt_late]). *)
Record LoopTurn := mkTurn {
  lt_maintain : bool; lt_wait : Z; lt_request : bool; lt_poll : PollKind; lt_drain : Z; lt_changed : list string;
  lt_stop : bool; lt_between : bool; lt_check : Z; lt_late : bool; lt_cycle : Z; lt_refresh : RefreshInput
}.

Inductive LoopFailure := MaintainFailed | SignalUnavailable | PollFailed (errno : Z) | SignalTerminal | WatcherTerminal | DrainFailed (errno : Z).
Inductive TurnResult :=
| TurnDone (s : InventoryService) (calls : list PublishCall) (refreshed : bool)
| TurnStopped (s : InventoryService)
| TurnFailed (why : LoopFailure) (s : InventoryService).

(** [refresh()]: the flag, then the eventfd if it is open. *)
Definition refresh (s : InventoryService) : InventoryService :=
  let s := s <| refreshRequested_ := true |> in
  match refreshSignal_ s with Some _ => s <| refreshSignal_ := Some true |> | None => s end.

(** The events of a poll that is ready: whether a source was reported changed, and
    the drained eventfd. *)
Definition handle_events (signal watcher : Revents) (t : LoopTurn) (s : InventoryService)
    : result LoopFailure (InventoryService * bool) :=
  if rv_terminal signal then Err SignalTerminal
  else if rv_terminal watcher then Err WatcherTerminal
  else if rv_in signal && bool_decide (lt_drain t ≠ 0%Z) then Err (DrainFailed (lt_drain t))
  else
    let s := if rv_in signal then s <| refreshSignal_ := Some false |> else s in
    Ok (s, rv_in watcher && negb (bool_decide (lt_changed t = []))).

(** The end of a turn: the decision to refresh. *)
Definition turn_cycle (sourceTriggered : bool) (t : LoopTurn) (s : InventoryService) : TurnResult :=
  if lt_stop t then TurnStopped s
  else
    let s := if lt_between t then refresh s else s in
    let requestPending := refreshRequested_ s in
    let s := if lt_late t then refresh s else s in
    let '(s, calls, refreshed) :=
      if requestPending || sourceTriggered then doRefreshCycle true (lt_cycle t) (lt_refresh t) s
      else if bool_decide (nextReconcileTs_ s ≤ lt_check t)%Z then doRefreshCycle false (lt_cycle t) (lt_refresh t) s
      else (s, [], false) in
    TurnDone s calls refreshed.

Definition loop_turn (t : LoopTurn) (s : InventoryService) : TurnResult :=
  if negb (lt_maintain t) then TurnFailed MaintainFailed s
  else match refreshSignal_ s with
  | None => TurnFailed SignalUnavailable s
  | Some _ =>
      let s := if lt_request t then refresh s else s in
      match lt_poll t with
      | PollStopRequested => TurnStopped s
      | PollSyscallFailure errno => TurnFailed (PollFailed errno) s
      | PollTimeout => turn_cycle false t s
      | PollReady signal watcher =>
          match handle_events signal watcher t s with
          | Err why => TurnFailed why s
          | Ok (s, sourceTriggered) => turn_cycle sourceTriggered t s
          end
      end
  end.

(** * Life cycle

    [ServiceBase], [LifecycleCoordinator], [ManagedWorker] and [EventFdSignal] are
    libraries: whether the eventfd, the transports and the worker start is an
    input. [ServiceBase::stop] takes the readiness back. *)

Record StartInput := mkStartInput { si_eventfd : bool; si_base : bool; si_worker : bool; si_now : Z }.

Definition base_stop (s : InventoryService) : InventoryService := s <| base_ready := false |>.

(** [initializeComponents]: the eventfd is made when there is none. *)
Definition initializeComponents (i : StartInput) (s : InventoryService) : bool * InventoryService :=
  match refreshSignal_ s with
  | Some _ => (true, s)
  | None => if si_eventfd i then (true, s <| refreshSignal_ := Some false |>) else (false, s)
  end.

Definition inventory_start (i : StartInput) (s : InventoryService) : result ServiceError (bool * InventoryService) :=
  if negb (bool_decide (inv_lifecycle_ s = LStopped)) then
    if loopFailed_ s then Err RestartRequiresStop else Ok (true, s)
  else
    let '(initialized, s) := initializeComponents i s in
    if negb (initialized && si_base i) then Ok (false, s <| refreshSignal_ := None |>)
    else
      let s := s <| loopFailed_ := false |> <| nextReconcileTs_ := si_now i |> in
      if negb (si_worker i) then
        Ok (false, base_stop (s <| loopFailed_ := false |>) <| refreshSignal_ := None |>)
      else Ok (true, s <| refreshWorker_ := WLaunched |> <| inv_lifecycle_ := LRunning |>).

(** [onWorker]: called from the refresh worker's thread. *)
Definition inventory_stop (onWorker : bool) (s : InventoryService) : InventoryService :=
  if onWorker then s
  else if negb (bool_decide (inv_lifecycle_ s = LRunning)) then s
  else
    let s := s <| refreshWorker_ := WNone |> <| loopFailed_ := false |> <| refreshRequested_ := false |>
               <| refreshSignal_ := None |> in
    base_stop s <| inv_lifecycle_ := LStopped |>.

(** [exception]: the worker left its loop with one. *)
Definition onRefreshWorkerExit (exception : bool) (s : InventoryService) : InventoryService :=
  if exception then s <| loopFailed_ := true |> <| refreshWorker_ := WCrashed |> else s.

(** * Queries *)

Definition getIdentity (s : InventoryService) : InventorySnapshot := inv_snapshot_ (manager_ s).
Definition getField (fieldName : string) (s : InventoryService) : InventoryFields :=
  make_single_field_map (inv_snapshot_ (manager_ s)) fieldName.
Definition getSourceStates (s : InventoryService) : SourceStateMap := sourceStates_ (manager_ s).
Definition getReady (s : InventoryService) : bool := base_ready s.
Definition getPhase (s : InventoryService) : string := is_phase (inv_snapshot_ (manager_ s)).
Definition getVersion (s : InventoryService) : Z := is_version (inv_snapshot_ (manager_ s)).

Definition loop_stopped_issue : InventoryFields :=
  {[Inv.ISSUE_SEVERITY := FString Inv.SEVERITY_ERROR;
    Inv.ISSUE_MESSAGE := FString "inventory refresh loop terminated unexpectedly; inventory data may be stale";
    Inv.ISSUE_ORIGIN := FString "InventoryService::runLoop"]}.

Definition inv_getIssues (s : InventoryService) : InventoryIssues :=
  let issues := deriveIssues (sourceStates_ (manager_ s)) in
  if loopFailed_ s then <[Inv.ISSUE_CODE_LOOP_STOPPED := loop_stopped_issue]> issues else issues.

(** * The query handler

    [bound]: the binding grants the lease; a query that throws answers with the
    fallback. *)
Section handler.
Context {V : Type} `{DbusVariant V}.

Definition inv_invokeQuery {E R} (bound : bool) (fallback : R) (r : result E R) : R :=
  if negb bound then fallback else match r with Ok v => v | Err _ => fallback end.

Definition handler_getIdentity (bound : bool) (s : InventoryService) : gmap string V :=
  inv_invokeQuery bound ∅ (encodeSnapshot (getIdentity s)).
Definition handler_getField (bound : bool) (fieldName : string) (s : InventoryService) : gmap string V :=
  inv_invokeQuery (E := string) bound ∅ (Ok (encodeFields (getField fieldName s))).
Definition handler_getSourceStates (bound : bool) (s : InventoryService) : gmap string (gmap string V) :=
  inv_invokeQuery (E := string) bound ∅ (Ok (encodeSourceStates (getSourceStates s))).
Definition inv_handler_getIssues (bound : bool) (s : InventoryService) : gmap string (gmap string V) :=
  inv_invokeQuery (E := string) bound ∅ (Ok (inv_encodeIssues (inv_getIssues s))).
Definition inv_handler_getReady (bound : bool) (s : InventoryService) : bool :=
  inv_invokeQuery (E := string) bound false (Ok (getReady s)).
Definition inv_handler_getPhase (bound : bool) (s : InventoryService) : string :=
  inv_invokeQuery (E := string) bound "unknown" (Ok (getPhase s)).
Definition handler_getVersion (bound : bool) (s : InventoryService) : Z :=
  inv_invokeQuery (E := string) bound 0%Z (Ok (getVersion s)).

(** [invokeCommand] *)
Definition inv_invokeCommand {S} (bound : bool) (command : S → S) (s : S) : S := if negb bound then s else command s.
Definition handler_refresh (bound : bool) (s : InventoryService) : InventoryService := inv_invokeCommand bound refresh s.
End handler.

(** * The service as a state machine

    Configuration, starts, stops, requests from any thread, the worker's first
    cycle and the turns of its loop, with the calls they make. A turn that ends
    because of a stop only touches what the stop resets ([stopped_turn_reset]). *)
Definition answered (r : RefreshInput) (s : InventoryService) : Prop :=
  length (ri_answers r) = length (sources_ (manager_ s)).

Inductive service_step : InventoryService → list PublishCall → InventoryService → Prop :=
| sv_source source watch s s' : service_addSource source watch s = Ok s' → service_step s [] s'
| sv_transport transport s s' : service_addTransport transport s = Ok s' → service_step s [] s'
| sv_start i s b s' : inventory_start i s = Ok (b, s') → service_step s [] s'
| sv_stop onWorker s : service_step s [] (inventory_stop onWorker s)
| sv_request s : service_step s [] (refresh s)
| sv_first now r s s' calls b :
    refreshWorker_ s = WLaunched → answered r s → doRefreshCycle true now r s = (s', calls, b) →
    service_step s calls (s' <| refreshWorker_ := WLooping |>)
| sv_turn t s s' calls b :
    refreshWorker_ s = WLooping → answered (lt_refresh t) s → loop_turn t s = TurnDone s' calls b →
    service_step s calls s'
| sv_crash t s s' why :
    refreshWorker_ s = WLooping → loop_turn t s = TurnFailed why s' →
    service_step s [] (onRefreshWorkerExit true s').

Definition service_next (s s' : InventoryService) : Prop := ∃ calls, service_step s calls s'.
Definition service_reachable (settings : Settings) : InventoryService → Prop :=
  rtc service_next (new_InventoryService settings).

(** What every reachable service satisfies. *)
Record service_ok (settings : Settings) (s : InventoryService) : Prop := mkServiceOk {
  so_settings : settings_ s = settings;
  so_manager : rtc manager_step new_manager (manager_ s);
  so_signal : refreshWorker_ s ≠ WNone → is_Some (refreshSignal_ s) ∧ inv_lifecycle_ s = LRunning;
  so_stopped : inv_lifecycle_ s = LStopped ∧ refreshWorker_ s = WNone ∨ inv_lifecycle_ s = LRunning;
  so_deadline : refreshWorker_ s = WLooping →
    refreshRequested_ s = true ∨ nextReconcileTs_ s = (lastRefreshSteadyTs_ s + reconcileInterval settings)%Z
}.

(** * Lemmas *)

Lemma addSource_steps source m m' :
  addSource source m = Ok m' → rtc manager_step new_manager m → rtc manager_step new_manager m'.
Proof. intros Ha Hr. eapply rtc_r; [exact Hr|]. by apply (ms_add source). Qed.

Lemma refreshAll_steps ts now answers m :
  length answers = length (sources_ m) → rtc manager_step new_manager m →
  rtc manager_step new_manager (InvManager.refreshAll ts now answers m).2.
Proof. intros Hl Hr. eapply rtc_r; [exact Hr|]. apply (ms_merge ts now (sources_ m) []); [by rewrite app_nil_r|done]. Qed.

(** What a refresh leaves, field by field. *)
Lemma refresh_now_spec now r s :
  let '(diff, m) := InvManager.refreshAll (ri_attempt r) (ri_merge r) (ri_answers r) (manager_ s) in
  let '(s', calls) := refresh_now now r s in
  let oldReady := is_ready (inv_snapshot_ (manager_ s)) in
  let newReady := is_ready (inv_snapshot_ m) in
  s' = mkInventoryService m (settings_ s) (loopFailed_ s) false now (now + reconcileInterval (settings_ s)) (refreshSignal_ s)
         (if bool_decide (oldReady ≠ newReady) then newReady else base_ready s) (transports_ s) (watchedPaths_ s)
         (inv_lifecycle_ s) (refreshWorker_ s) ∧
  calls = publishDiff (transports_ s) diff (sourceStates_ (manager_ s)) (sourceStates_ m) oldReady newReady.
Proof.
  unfold refresh_now. destruct (InvManager.refreshAll _ _ _ _) as [diff m]. cbv zeta. split; [|done].
  by destruct (bool_decide _), s.
Qed.

Lemma refresh_requested s :
  refresh s = s <| refreshRequested_ := true |> <| refreshSignal_ := (λ _, true) <$> refreshSignal_ s |>.
Proof. unfold refresh. destruct s as [? ? ? ? ? ? [|]]; done. Qed.

(** A cycle: throttled, or a refresh. *)
Lemma cycle_cases force now r s s' calls b :
  doRefreshCycle force now r s = (s', calls, b) →
  (b = false ∧ s' = s <| refreshRequested_ := true |> ∧ calls = [] ∧ force = true ∧
    (now < lastRefreshSteadyTs_ s + minRefreshInterval (settings_ s))%Z) ∨
  (b = true ∧ refresh_now now r s = (s', calls) ∧
    (force = true → (lastRefreshSteadyTs_ s + minRefreshInterval (settings_ s) ≤ now)%Z)).
Proof.
  unfold doRefreshCycle. destruct (throttled force now s) eqn:Ht.
  - intros [= <- <- <-]. left. unfold throttled in Ht. apply andb_true_iff in Ht as [-> Hb%bool_decide_eq_true].
    split_and!; try done. lia.
  - destruct (refresh_now now r s) as [s1 c1]. intros [= <- <- <-]. right. split_and!; try done. intros ->.
    unfold throttled in Ht. cbn in Ht. apply bool_decide_eq_false in Ht. lia.
Qed.

(** What requests and events change before the decision to refresh. *)
Definition only_flags (s s' : InventoryService) : Prop :=
  ∃ f g, s' = s <| refreshRequested_ := f |> <| refreshSignal_ := g |> ∧ (refreshRequested_ s = true → f = true) ∧
    (is_Some (refreshSignal_ s) → is_Some g).

Lemma only_flags_refl s : only_flags s s.
Proof. exists (refreshRequested_ s), (refreshSignal_ s). by destruct s. Qed.

Lemma only_flags_trans s1 s2 s3 : only_flags s1 s2 → only_flags s2 s3 → only_flags s1 s3.
Proof.
  intros (f1 & g1 & -> & Hf1 & Hg1) (f2 & g2 & -> & Hf2 & Hg2). exists f2, g2.
  cbn in *. split_and!; [by destruct s1|auto|auto].
Qed.

Lemma refresh_only_flags s : only_flags s (refresh s).
Proof.
  exists true, ((λ _, true) <$> refreshSignal_ s). split_and!; [apply refresh_requested|done|].
  intros [x ->]. by eexists.
Qed.

Lemma asked_only_flags (b : bool) s : only_flags s (if b then refresh s else s).
Proof. destruct b; [apply refresh_only_flags|apply only_flags_refl]. Qed.
#[export] Hint Resolve only_flags_refl asked_only_flags refresh_only_flags : rmc.

Lemma handle_events_flags sg w t s s' b : handle_events sg w t s = Ok (s', b) → is_Some (refreshSignal_ s) → only_flags s s'.
Proof.
  unfold handle_events. destruct (rv_terminal sg), (rv_terminal w); try done.
  destruct (_ && bool_decide _); [done|]. intros [= <- _] Hs. destruct (rv_in sg); [|by apply only_flags_refl].
  exists (refreshRequested_ s), (Some false). split_and!; [by destruct s|done|by eexists].
Qed.

(** A turn that ends normally: the flag is read in [sm], after every request made
    while the loop waited. *)
Lemma turn_cases t s s' calls b :
  loop_turn t s = TurnDone s' calls b →
  is_Some (refreshSignal_ s) ∧
  ∃ sm triggered, only_flags s sm ∧ (lt_request t || lt_between t = true → refreshRequested_ sm = true) ∧
    let s2 := if lt_late t then refresh sm else sm in
    ((refreshRequested_ sm || triggered = true ∧ doRefreshCycle true (lt_cycle t) (lt_refresh t) s2 = (s', calls, b)) ∨
     (refreshRequested_ sm = false ∧ (nextReconcileTs_ s ≤ lt_check t)%Z ∧
       doRefreshCycle false (lt_cycle t) (lt_refresh t) s2 = (s', calls, b)) ∨
     (refreshRequested_ sm = false ∧ (lt_check t < nextReconcileTs_ s)%Z ∧ s' = s2 ∧ calls = [] ∧ b = false)).
Proof.
  intros Ht. unfold loop_turn in Ht. destruct (lt_maintain t); [cbn [negb] in Ht|done].
  destruct (refreshSignal_ s) as [g|] eqn:Hsig; [|done].
  split; [by eexists|]. set (s1 := if lt_request t then refresh s else s) in *.
  assert (Hend : ∀ s1' trig, only_flags s s1' → (lt_request t = true → refreshRequested_ s1' = true) →
    turn_cycle trig t s1' = TurnDone s' calls b →
    ∃ sm triggered, only_flags s sm ∧ (lt_request t || lt_between t = true → refreshRequested_ sm = true) ∧
    let s2 := if lt_late t then refresh sm else sm in
    ((refreshRequested_ sm || triggered = true ∧ doRefreshCycle true (lt_cycle t) (lt_refresh t) s2 = (s', calls, b)) ∨
     (refreshRequested_ sm = false ∧ (nextReconcileTs_ s ≤ lt_check t)%Z ∧
       doRefreshCycle false (lt_cycle t) (lt_refresh t) s2 = (s', calls, b)) ∨
     (refreshRequested_ sm = false ∧ (lt_check t < nextReconcileTs_ s)%Z ∧ s' = s2 ∧ calls = [] ∧ b = false))).
  { intros s1' trig Hf Hreq. unfold turn_cycle. destruct (lt_stop t); [done|].
    set (sm := if lt_between t then refresh s1' else s1'). intros Hd. exists sm, trig.
    assert (only_flags s sm) as Hsm by (eapply only_flags_trans; [exact Hf|apply asked_only_flags]). split; [done|]. split.
    { unfold sm. rewrite orb_true_iff. rewrite refresh_requested. destruct (lt_between t); [done|]. intros [?|?]; [auto|done]. }
    cbv zeta. set (s2 := if lt_late t then _ else _) in *.
    assert (nextReconcileTs_ s2 = nextReconcileTs_ s) as Hn.
    { destruct Hsm as (f & h & He & _). unfold s2. destruct (lt_late t); rewrite ?refresh_requested, He; done. }
    rewrite Hn in Hd. destruct (refreshRequested_ sm || trig) eqn:Hp.
    - left. split; [done|]. by destruct (doRefreshCycle _ _ _ _) as [[??]?]; injection Hd as <- <- <-.
    - apply orb_false_iff in Hp as [Hp _]. right. case_bool_decide as Hb; [left|right].
      + split_and!; [done|done|]. by destruct (doRefreshCycle _ _ _ _) as [[??]?]; injection Hd as <- <- <-.
      + injection Hd as <- <- <-. split_and!; try done. lia. }
  assert (only_flags s s1) as Hf1 by apply asked_only_flags.
  assert (lt_request t = true → refreshRequested_ s1 = true) as Hr1 by (intros Hq; unfold s1; by rewrite Hq, refresh_requested).
  destruct (lt_poll t) as [|e| |sg w]; try done; [by apply (Hend s1 false)|].
  destruct (handle_events sg w t s1) as [[s1' trig]|] eqn:He; [|done].
  assert (only_flags s1 s1') as Hf2.
  { eapply handle_events_flags; [exact He|]. destruct Hf1 as (f & h & -> & _ & Hg). apply Hg. by rewrite Hsig. }
  apply (Hend s1' trig); [by eapply only_flags_trans| |done]. intros Hq. destruct Hf2 as (f & h & -> & Hf & _). by apply Hf, Hr1.
Qed.

(** What a cycle does to the invariant's parts. *)
Lemma refresh_now_ok settings now r s s' calls :
  answered r s → refresh_now now r s = (s', calls) → service_ok settings s → 
  service_ok settings (s' <| refreshWorker_ := refreshWorker_ s |>) ∧ refreshWorker_ s' = refreshWorker_ s ∧
  nextReconcileTs_ s' = (lastRefreshSteadyTs_ s' + reconcileInterval settings)%Z ∧ lastRefreshSteadyTs_ s' = now ∧
  refreshRequested_ s' = false.
Proof.
  intros Hans Hr [H1 H2 H3 H4 H5]. pose proof (refresh_now_spec now r s) as Hs.
  pose proof (refreshAll_steps (ri_attempt r) (ri_merge r) (ri_answers r) (manager_ s) Hans H2) as Hm.
  destruct (InvManager.refreshAll _ _ _ _) as [diff m]. rewrite Hr in Hs. destruct Hs as [-> _]. cbn in *.
  split_and!; try done; [|by rewrite H1]. split; cbn; try done. intros _. right. by rewrite H1.
Qed.

(** Worker and flags do not matter to the rest of the invariant. *)
Lemma service_ok_flags settings s s' :
  only_flags s s' → service_ok settings s → service_ok settings s'.
Proof.
  intros (f & g & -> & Hf & Hg) [H1 H2 H3 H4 H5]. split; cbn; try done.
  - intros Hw. destruct (H3 Hw) as [Hs Hl]. split; [by apply Hg|done].
  - intros Hw. destruct (H5 Hw) as [Hr|Hn]; [left; by apply Hf|by right].
Qed.

Lemma initialize_cases i s :
  initializeComponents i s = (false, s) ∨ ∃ g, initializeComponents i s = (true, s <| refreshSignal_ := Some g |>).
Proof.
  unfold initializeComponents. destruct (refreshSignal_ s) as [g|] eqn:Hg.
  - right. exists g. by destruct s; cbn in *; subst.
  - destruct (si_eventfd i); [right; by exists false|by left].
Qed.

Lemma inventory_start_ok settings i s b s' : inventory_start i s = Ok (b, s') → service_ok settings s → service_ok settings s'.
Proof.
  intros Hst [H1 H2 H3 H4 H5]. unfold inventory_start in Hst. case_bool_decide as Hl; cbn [negb] in Hst.
  2:{ destruct (loopFailed_ s); [done|]. by injection Hst as _ <-. }
  assert (refreshWorker_ s = WNone) as Hw by (destruct H4 as [[_ ?]|?]; [done|congruence]).
  destruct (initialize_cases i s) as [Hi|[g Hi]]; rewrite Hi in Hst; cbn [andb negb] in Hst.
  - injection Hst as _ <-. split; cbn; try done.
  - destruct (si_base i); cbn [negb] in Hst; [|injection Hst as _ <-; split; cbn; done].
    destruct (si_worker i); injection Hst as _ <-; split; cbn; try done.
    + by right.
    + intros. congruence.
Qed.

Lemma stop_ok settings onWorker s : service_ok settings s → service_ok settings (inventory_stop onWorker s).
Proof.
  intros Hok. unfold inventory_stop. destruct onWorker; [done|]. case_bool_decide as Hl; [|done]. cbn [negb].
  destruct Hok as [H1 H2 H3 H4 H5]. split; cbn; try done. by left.
Qed.

Lemma first_ok settings now r s s' calls b :
  refreshWorker_ s = WLaunched → answered r s → doRefreshCycle true now r s = (s', calls, b) → service_ok settings s →
  service_ok settings (s' <| refreshWorker_ := WLooping |>).
Proof.
  intros Hw Hans Hd Hok. destruct (so_signal _ _ Hok) as [Hg Hl]; [by rewrite Hw|].
  destruct (cycle_cases _ _ _ _ _ _ _ Hd) as [(-> & -> & -> & _)|(-> & Hr & _)].
  - destruct Hok as [H1 H2 H3 H4 H5]. split; cbn; try done; [by right|by left].
  - destruct (refresh_now_ok settings now r s s' calls Hans Hr Hok) as ([H1 H2 H3 H4 H5] & Hws & Hn & _ & _).
    cbn in *. split; cbn; try done; [intros _; apply H3; by rewrite Hw| |by right].
    destruct H4 as [[_ ?]|?]; [congruence|by right].
Qed.

Lemma turn_ok settings t s s' calls b :
  refreshWorker_ s = WLooping → answered (lt_refresh t) s → loop_turn t s = TurnDone s' calls b →
  service_ok settings s → service_ok settings s'.
Proof.
  intros Hw Hans Ht Hok. destruct (turn_cases _ _ _ _ _ Ht) as (_ & sm & trig & Hsm & _ & Hcase).
  set (s2 := if lt_late t then refresh sm else sm) in Hcase.
  assert (only_flags s s2) as Hs2 by (eapply only_flags_trans; [exact Hsm|apply asked_only_flags]).
  assert (service_ok settings s2) as Hok2 by (by eapply service_ok_flags).
  assert (answered (lt_refresh t) s2) as Ha2 by (destruct Hs2 as (f & g & -> & _); exact Hans).
  assert (refreshWorker_ s2 = WLooping) as Hw2 by (destruct Hs2 as (f & g & -> & _); exact Hw).
  assert (Hcyc : ∀ force, doRefreshCycle force (lt_cycle t) (lt_refresh t) s2 = (s', calls, b) → service_ok settings s').
  { intros force Hd. destruct (cycle_cases _ _ _ _ _ _ _ Hd) as [(-> & -> & -> & _)|(-> & Hr & _)].
    - destruct Hok2 as [H1 H2 H3 H4 H5]. split; cbn; try done. by left.
    - destruct (refresh_now_ok settings _ _ s2 s' calls Ha2 Hr Hok2) as ([H1 H2 H3 H4 H5] & Hws & Hn & _ & _).
      cbn in *. split; try done; rewrite ?Hws; done. }
  destruct Hcase as [[_ Hd]|[(_ & _ & Hd)|(_ & _ & -> & _)]]; [by apply (Hcyc true)|by apply (Hcyc false)|done].
Qed.

Lemma failed_turn_flags t s why s' : loop_turn t s = TurnFailed why s' → only_flags s s'.
Proof.
  unfold loop_turn. destruct (lt_maintain t); cbn [negb]; [|by intros [= _ <-]; apply only_flags_refl].
  destruct (refreshSignal_ s) as [g|]; [|by intros [= _ <-]; apply only_flags_refl].
  set (s1 := if lt_request t then _ else _). assert (only_flags s s1) as H1 by apply asked_only_flags.
  assert (∀ trig x, turn_cycle trig t x ≠ TurnFailed why s') as Hno.
  { intros trig x. unfold turn_cycle. destruct (lt_stop t); [done|]. by destruct (if _ || _ then _ else _) as [[??]?]. }
  destruct (lt_poll t) as [|e| |sg w]; try done.
  - by intros [= _ <-].
  - by intros []%Hno.
  - destruct (handle_events sg w t s1) as [[x trig]|]; [by intros []%Hno|]. by intros [= _ <-].
Qed.

Lemma service_step_ok settings s calls s' : service_step s calls s' → service_ok settings s → service_ok settings s'.
Proof.
  intros [source watch s1 s2 Ha|transport s1 s2 Ha|i s1 b s2 Ha|onWorker s1|s1|now r s1 s2 c b Hw Hans Hd
    |t s1 s2 c b Hw Hans Ht|t s1 s2 why Hw Ht] Hok.
  - destruct Hok as [H1 H2 H3 H4 H5]. unfold service_addSource in Ha. destruct source as [src|]; [|done].
    destruct (base_running s1); [done|]. destruct (addSource (Some src) (manager_ s1)) as [m|] eqn:Hm; [|done].
    apply addSource_steps in Hm; [|done]. by destruct watch; injection Ha as <-; split.
  - unfold service_addTransport in Ha. destruct transport; [|done]. destruct (base_running s1); [done|]. injection Ha as <-.
    by destruct Hok; split.
  - by apply (inventory_start_ok settings i s1 b).
  - by apply stop_ok.
  - by apply (service_ok_flags settings s1), Hok; apply refresh_only_flags.
  - by apply (first_ok settings now r s1 s2 c b).
  - by apply (turn_ok settings t s1 s2 c b).
  - apply (service_ok_flags settings s1 s2) in Hok; [|by apply (failed_turn_flags t s1 why)].
    assert (refreshWorker_ s2 = WLooping) as Hw2 by (destruct (failed_turn_flags _ _ _ _ Ht) as (f & g & -> & _); exact Hw).
    destruct Hok as [H1 H2 H3 H4 H5]. split; cbn; try done; try (intros _; apply H3; by rewrite Hw2).
    right. destruct H4 as [[_ ?]|?]; [congruence|done].
Qed.

Lemma reachable_ok settings s : service_reachable settings s → service_ok settings s.
Proof.
  intros Hr. assert (service_ok settings (new_InventoryService settings)) as H0.
  { split; cbn; try done. by left. }
  revert H0. induction Hr as [|s1 s2 s3 [calls Hs] _ IH]; [done|]. intros H0. by apply IH, (service_step_ok settings s1 calls).
Qed.

(** A turn that a stop ends leaves nothing the stop does not reset. *)
Lemma stopped_turn_reset t s s' :
  loop_turn t s = TurnStopped s' → inv_lifecycle_ s = LRunning → inventory_stop false s' = inventory_stop false s.
Proof.
  intros Ht Hl. assert (only_flags s s') as (f & g & -> & _).
  { unfold loop_turn in Ht. destruct (lt_maintain t); [cbn [negb] in Ht|done]. destruct (refreshSignal_ s) as [h|] eqn:Hsig; [|done].
    set (s1 := if lt_request t then _ else _) in Ht. assert (only_flags s s1) as H1 by apply asked_only_flags.
    assert (∀ trig x, turn_cycle trig t x = TurnStopped s' → x = s') as Hc.
    { intros trig x. unfold turn_cycle. destruct (lt_stop t); [by intros [= <-]|]. by destruct (if _ || _ then _ else _) as [[??]?]. }
    destruct (lt_poll t) as [|e| |sg w]; try done.
    - by injection Ht as <-.
    - by apply Hc in Ht as <-.
    - destruct (handle_events sg w t s1) as [[x trig]|] eqn:He; [|done]. apply Hc in Ht as <-.
      eapply only_flags_trans; [exact H1|]. eapply handle_events_flags; [exact He|].
      destruct H1 as (f & k & -> & _ & Hg). apply Hg. by rewrite Hsig. }
  unfold inventory_stop. cbn. rewrite Hl. by destruct s.
Qed.

(** * The loop in time *)

(** When a refresh is due: a requested one as soon as the throttle allows. *)
Definition due (s : InventoryService) : Z :=
  let soonest := (lastRefreshSteadyTs_ s + minRefreshInterval (settings_ s))%Z in
  if refreshRequested_ s then soonest else Z.max (nextReconcileTs_ s) soonest.

(** No step of the loop takes longer than [δ], the poll apart, which keeps its
    timeout (a negative one would wait for ever). The clauses follow the run up to
    its first refresh, from a loop that starts over at [from]. *)
Fixpoint prompt (δ from : Z) (s : InventoryService) (ts : list LoopTurn) : Prop :=
  match ts with
  | [] => True
  | t :: ts =>
      let timeout := msUntil (wakeTs s) (lt_wait t) in
      (from ≤ lt_wait t ≤ from + δ)%Z ∧ (lt_wait t ≤ lt_check t ≤ lt_cycle t)%Z ∧ (lt_cycle t ≤ lt_check t + δ)%Z ∧
      (0 ≤ timeout → lt_check t ≤ lt_wait t + timeout * ms + δ)%Z ∧ answered (lt_refresh t) s ∧
      match loop_turn t s with
      | TurnDone s' _ false => prompt δ (lt_check t) s' ts
      | TurnDone _ _ true => True
      | _ => False
      end
  end.

(** When the first refresh of a run begins. *)
Fixpoint first_refresh (ts : list LoopTurn) (s : InventoryService) : option Z :=
  match ts with
  | [] => None
  | t :: ts =>
      match loop_turn t s with
      | TurnDone s' _ b => if b then Some (lt_cycle t) else first_refresh ts s'
      | _ => None
      end
  end.

Lemma turn_quiet t s s' calls :
  loop_turn t s = TurnDone s' calls false →
  lastRefreshSteadyTs_ s' = lastRefreshSteadyTs_ s ∧ nextReconcileTs_ s' = nextReconcileTs_ s ∧ settings_ s' = settings_ s ∧
  refreshWorker_ s' = refreshWorker_ s ∧ (refreshRequested_ s = true → refreshRequested_ s' = true) ∧
  (lt_request t || lt_between t || lt_late t = true → refreshRequested_ s' = true) ∧
  ((lt_cycle t < lastRefreshSteadyTs_ s + minRefreshInterval (settings_ s))%Z ∨
   refreshRequested_ s = false ∧ (lt_check t < nextReconcileTs_ s)%Z).
Proof.
  intros Ht. destruct (turn_cases _ _ _ _ _ Ht) as (_ & sm & trig & (f & g & -> & Hf & Hg) & Hreq & Hcase).
  cbn in Hreq. set (s2 := if lt_late t then _ else _) in Hcase.
  assert (s2 = s <| refreshRequested_ := f || lt_late t |> <| refreshSignal_ := refreshSignal_ s2 |>) as Hs2.
  { unfold s2. destruct (lt_late t); rewrite ?refresh_requested, ?orb_true_r, ?orb_false_r; by destruct s. }
  destruct Hcase as [[_ Hd]|[(_ & _ & Hd)|(Hf0 & Hlt & -> & _ & _)]].
  3:{ cbn in Hf0. subst f. rewrite Hs2. cbn. split_and!; try done.
      - intros Hr. by specialize (Hf Hr).
      - destruct (lt_request t), (lt_between t), (lt_late t); cbn in *; auto.
      - right. split; [|done]. destruct (refreshRequested_ s); [by specialize (Hf eq_refl)|done]. }
  all: destruct (cycle_cases _ _ _ _ _ _ _ Hd) as [(_ & -> & _ & _ & Hlt)|(? & _)]; [|done].
  all: rewrite Hs2 in Hlt |- *; cbn in *; split_and!; try done; by left.
Qed.

Lemma turn_refreshes t s s' calls :
  loop_turn t s = TurnDone s' calls true →
  (lastRefreshSteadyTs_ s + minRefreshInterval (settings_ s) ≤ lt_cycle t)%Z ∨
  refreshRequested_ s = false ∧ (nextReconcileTs_ s ≤ lt_check t)%Z.
Proof.
  intros Ht. destruct (turn_cases _ _ _ _ _ Ht) as (_ & sm & trig & (f & g & -> & Hf & Hg) & Hreq & Hcase).
  destruct Hcase as [[_ Hd]|[(Hr & Hn & _)|(_ & _ & _ & _ & [=])]].
  - destruct (cycle_cases _ _ _ _ _ _ _ Hd) as [([=] & _)|(_ & _ & Hlt)]. specialize (Hlt eq_refl). left.
    destruct (lt_late t); rewrite ?refresh_requested in Hlt; exact Hlt.
  - right. cbn in Hr. subst f. split; [|done]. destruct (refreshRequested_ s); [by specialize (Hf eq_refl)|done].
Qed.

Lemma int_cast_small x : (0 ≤ x < 2 ^ 31)%Z → int_cast x = x.
Proof. intros Hx. unfold int_cast. rewrite Z.mod_small by lia. lia. Qed.

(** A poll with the computed timeout ends by the time it waits for. *)
Lemma poll_until wake wait :
  (wake - wait < 2 ^ 31 * ms)%Z → (0 ≤ msUntil wake wait)%Z ∧ (wait + msUntil wake wait * ms ≤ Z.max wait wake)%Z.
Proof.
  intros Hb. unfold msUntil. case_bool_decide as Hle; [lia|]. assert (0 < ms)%Z as Hms by (unfold ms; lia).
  assert (0 ≤ (wake - wait) / ms < 2 ^ 31)%Z as Hr.
  { split; [apply Z.div_pos; lia|apply Z.div_lt_upper_bound; lia]. }
  rewrite int_cast_small by done. pose proof (Z.mul_div_le (wake - wait) ms Hms). lia.
Qed.

Lemma wake_due s : (wakeTs s ≤ due s)%Z.
Proof. unfold wakeTs, due. destruct (refreshRequested_ s); lia. Qed.

Lemma due_quiet t s s' calls : loop_turn t s = TurnDone s' calls false → (due s' ≤ due s)%Z.
Proof.
  intros (Hl & Hn & Hs & _ & Hr & _)%turn_quiet. unfold due. rewrite Hl, Hn, Hs.
  destruct (refreshRequested_ s); [rewrite Hr by done; lia|]. destruct (refreshRequested_ s'); lia.
Qed.

Lemma loop_in_time settings δ ts from s :
  service_ok settings s → refreshWorker_ s = WLooping → (0 ≤ δ)%Z → (due s - from < 2 ^ 31 * ms)%Z → prompt δ from s ts →
  match first_refresh ts s with
  | Some now =>
      (lastRefreshSteadyTs_ s + Z.min (minRefreshInterval settings) (reconcileInterval settings) ≤ now ≤ Z.max from (due s) + 3 * δ)%Z
  | None => Forall (λ t, (lt_check t < due s)%Z) ts
  end.
Proof.
  revert from s. induction ts as [|t ts IH]; intros from s Hok Hw Hδ Hb; cbn [prompt first_refresh]; [by constructor|].
  intros ([Hf1 Hf2] & [Hc1 Hc2] & Hc3 & Hpoll & Hans & Hrest). pose proof (wake_due s) as Hwd.
  destruct (poll_until (wakeTs s) (lt_wait t)) as [Hp1 Hp2]; [lia|]. specialize (Hpoll Hp1).
  destruct (loop_turn t s) as [s' calls b| |] eqn:Ht; [|done|done].
  pose proof (turn_ok settings t s s' calls b Hw Hans Ht Hok) as Hok'. destruct b.
  - pose proof (turn_refreshes _ _ _ _ Ht) as Hr. split; [|lia]. rewrite (so_settings _ _ Hok) in Hr.
    destruct Hr as [Hr|[Hr Hn]]; [lia|]. destruct (so_deadline _ _ Hok Hw) as [?|Hd]; [congruence|lia].
  - pose proof (due_quiet _ _ _ _ Ht) as Hd. destruct (turn_quiet _ _ _ _ Ht) as (Hl & _ & _ & Hw' & _ & _ & Hq).
    assert (lt_check t < due s)%Z as Hck by (unfold due in *; destruct Hq as [Hq|[-> Hq]]; [destruct (refreshRequested_ s)|]; lia).
    specialize (IH (lt_check t) s' Hok' ltac:(congruence) Hδ ltac:(lia) Hrest). rewrite Hl in IH.
    destruct (first_refresh ts s'); [lia|]. constructor; [done|]. eapply Forall_impl; [exact IH|]. cbn. lia.
Qed.


(** * What a refresh publishes *)

Lemma elem_of_to_transports ts sg c : c ∈ to_transports ts sg ↔ ∃ t, t ∈ ts ∧ c = Publish t sg.
Proof. unfold to_transports. rewrite list_elem_of_fmap. naive_solver. Qed.

Lemma elem_of_concat_fmap {A B} (f : A → list B) (l : list A) x : x ∈ concat (f <$> l) ↔ ∃ y, y ∈ l ∧ x ∈ f y.
Proof.
  rewrite list_elem_of_In, in_concat. setoid_rewrite <- list_elem_of_In. setoid_rewrite list_elem_of_fmap. naive_solver.
Qed.

(** The calls of one publication. *)
Lemma publish_spec transports diff oldStates newStates oldReady newReady :
  let calls := publishDiff transports diff oldStates newStates oldReady newReady in
  (∀ t f, Publish t (InventoryChanged f) ∈ calls ↔ t ∈ transports ∧ (f ∈ changedFields diff ∨ f ∈ removedFields diff)) ∧
  (∀ t n, Publish t (SourceStateChanged n) ∈ calls ↔
    t ∈ transports ∧ ∃ st, newStates !! n = Some st ∧ transitioned oldStates n st = true) ∧
  (∀ b, SetReady b ∈ calls ↔ oldReady ≠ newReady ∧ b = newReady).
Proof.
  intros calls. unfold calls, publishDiff.
  assert (Hsrc : ∀ c, c ∈ concat ((λ '(name, newState),
      if transitioned oldStates name newState then to_transports transports (SourceStateChanged name) else [])
      <$> map_iter newStates) ↔
    ∃ t n st, c = Publish t (SourceStateChanged n) ∧ t ∈ transports ∧ newStates !! n = Some st ∧ transitioned oldStates n st = true).
  { intros c. rewrite elem_of_concat_fmap. split.
    - intros ([n st] & Hn%elem_of_map_iter & Hc). destruct (transitioned oldStates n st) eqn:Ht; [|by apply not_elem_of_nil in Hc].
      apply elem_of_to_transports in Hc as (t & Htt & ->). eauto 10.
    - intros (t & n & st & -> & Ht & Hn & Htr). exists (n, st). rewrite elem_of_map_iter, Htr, elem_of_to_transports. eauto. }
  assert (Hready : ∀ c, c ∈ (if bool_decide (oldReady ≠ newReady) then [SetReady newReady] else []) ↔
    c = SetReady newReady ∧ oldReady ≠ newReady).
  { intros c. case_bool_decide; [rewrite list_elem_of_singleton; tauto|]. split; [by intros ?%not_elem_of_nil|tauto]. }
  split_and!.
  - intros t f. rewrite !elem_of_app, Hsrc, Hready, !elem_of_concat_fmap. setoid_rewrite elem_of_to_transports. naive_solver.
  - intros t n. rewrite !elem_of_app, Hsrc, Hready, !elem_of_concat_fmap. setoid_rewrite elem_of_to_transports. naive_solver.
  - intros b. rewrite !elem_of_app, Hsrc, Hready, !elem_of_concat_fmap. setoid_rewrite elem_of_to_transports. naive_solver.
Qed.

Lemma refreshAll_diff ts now answers m :
  let '(diff, m') := InvManager.refreshAll ts now answers m in
  diff = diffSourceOwnedFields (is_fields (inv_snapshot_ m)) (is_fields (inv_snapshot_ m')).
Proof.
  unfold InvManager.refreshAll, refresh_merge. destruct (foldl _ _ _) as [newFields newStates].
  by destruct (negb (diff_empty _)).
Qed.

Lemma refresh_calls now r s s' calls :
  refresh_now now r s = (s', calls) →
  (∀ t f, Publish t (InventoryChanged f) ∈ calls ↔
    t ∈ transports_ s ∧ is_fields (getIdentity s) !! f ≠ is_fields (getIdentity s') !! f) ∧
  (∀ t n, Publish t (SourceStateChanged n) ∈ calls ↔
    t ∈ transports_ s ∧ ∃ st, getSourceStates s' !! n = Some st ∧ transitioned (getSourceStates s) n st = true) ∧
  (∀ b, SetReady b ∈ calls ↔ is_ready (getIdentity s) ≠ is_ready (getIdentity s') ∧ b = is_ready (getIdentity s')).
Proof.
  intros Hr. pose proof (refresh_now_spec now r s) as Hs. pose proof (refreshAll_diff (ri_attempt r) (ri_merge r) (ri_answers r) (manager_ s)) as Hd.
  destruct (InvManager.refreshAll _ _ _ _) as [diff m]. rewrite Hr in Hs. destruct Hs as [-> ->].
  unfold getIdentity, getSourceStates. cbn.
  destruct (publish_spec (transports_ s) diff (sourceStates_ (manager_ s)) (sourceStates_ m)
    (is_ready (inv_snapshot_ (manager_ s))) (is_ready (inv_snapshot_ m))) as (H1 & H2 & H3).
  split_and!; [|exact H2|exact H3]. intros t f. rewrite H1. apply and_iff_compat_l.
  destruct (diff_spec (is_fields (inv_snapshot_ (manager_ s))) (is_fields (inv_snapshot_ m))) as (Hc & Hrm & _). rewrite <- Hd in Hc, Hrm.
  rewrite Hc, Hrm. destruct (is_fields (inv_snapshot_ m) !! f) as [v|].
  - split; [naive_solver|]. intros Hn. left. by split.
  - split; [intros [[[? [=]] _]|[[v ->] _]]; done|]. intros Hn. right. split; [|done]. by apply not_eq_None_Some.
Qed.

(** * What modelling showed *)

(** A service whose manager is ready and which is not. *)
Definition never_ready (s : InventoryService) : Prop :=
  base_ready s = false ∧ is_ready (inv_snapshot_ (manager_ s)) = true.

Lemma cycle_never_ready force now r s s' calls b :
  doRefreshCycle force now r s = (s', calls, b) → answered r s → never_ready s → never_ready s'.
Proof.
  intros Hd Hans [H1 H2]. destruct (cycle_cases _ _ _ _ _ _ _ Hd) as [(_ & -> & _)|(_ & Hr & _)]; [done|].
  pose proof (refresh_now_spec now r s) as Hs.
  assert (is_ready (inv_snapshot_ (InvManager.refreshAll (ri_attempt r) (ri_merge r) (ri_answers r) (manager_ s)).2) = true) as Hm.
  { apply (step_ready (manager_ s)); [|done]. apply (ms_merge _ _ (sources_ (manager_ s)) []); [by rewrite app_nil_r|done]. }
  destruct (InvManager.refreshAll _ _ _ _) as [diff m]. rewrite Hr in Hs. destruct Hs as [-> _].
  unfold never_ready in *. cbn in *. by rewrite Hm, H2.
Qed.

Lemma flags_never_ready s s' : only_flags s s' → never_ready s → never_ready s'.
Proof. by intros (f & g & -> & _). Qed.

Lemma start_never_ready i s b s' : inventory_start i s = Ok (b, s') → never_ready s → never_ready s'.
Proof.
  intros Hst Hn. unfold inventory_start in Hst. destruct (negb _).
  { destruct (loopFailed_ s); [done|]. by injection Hst as _ <-. }
  destruct (initialize_cases i s) as [Hi|[g Hi]]; rewrite Hi in Hst; cbn [andb] in Hst; [by injection Hst as _ <-|].
  destruct (si_base i); cbn [negb] in Hst; [|by injection Hst as _ <-].
  destruct (si_worker i); injection Hst as _ <-; [done|]. split; [done|apply Hn].
Qed.

Lemma source_never_ready source watch s s' :
  service_addSource source watch s = Ok s' → never_ready s → never_ready s'.
Proof.
  intros Ha [H1 H2]. unfold service_addSource in Ha. destruct source as [src|]; [|done]. destruct (base_running s); [done|].
  destruct (addSource (Some src) (manager_ s)) as [m|] eqn:Hm; [|done].
  assert (is_ready (inv_snapshot_ m) = true) by (apply (step_ready (manager_ s)); [by apply (ms_add (Some src))|done]).
  by destruct watch; injection Ha as <-.
Qed.

Lemma step_never_ready s calls s' : service_step s calls s' → never_ready s → never_ready s'.
Proof.
  intros [source watch x y Ha|transport x y Ha|i x b y Ha|onWorker x|x|now r x y cs b Hw Hans Hd
    |t x y cs b Hw Hans Ht|t x y why Hw Ht] Hn.
  - by apply (source_never_ready source watch x).
  - unfold service_addTransport in Ha. destruct transport; [|done]. destruct (base_running x); [done|]. by injection Ha as <-.
  - by apply (start_never_ready i x b).
  - unfold inventory_stop. destruct onWorker; [done|]. destruct (negb _); [done|]. split; [done|apply Hn].
  - by apply (flags_never_ready x), Hn; apply refresh_only_flags.
  - by apply (cycle_never_ready true now r x y cs b).
  - destruct (turn_cases _ _ _ _ _ Ht) as (_ & sm & trig & Hsm & _ & Hcase).
    assert (only_flags x (if lt_late t then refresh sm else sm)) as Hf by (eapply only_flags_trans; [exact Hsm|apply asked_only_flags]).
    pose proof (flags_never_ready _ _ Hf Hn) as Hn2.
    assert (answered (lt_refresh t) (if lt_late t then refresh sm else sm)) as Ha by (destruct Hf as (f & g & -> & _); exact Hans).
    destruct Hcase as [[_ Hd]|[(_ & _ & Hd)|(_ & _ & -> & _)]]; [by eapply cycle_never_ready..|done].
  - by apply (flags_never_ready x y), Hn; apply (failed_turn_flags t x why).
Qed.

(** After a stop the service is not ready again until a refresh changes the
    manager's readiness, and that is latched: a restarted service is live by its
    snapshot and its phase and never ready. *)
Lemma restart_never_ready settings s s2 :
  service_reachable settings s → inv_lifecycle_ s = LRunning → is_ready (getIdentity s) = true →
  rtc service_next (inventory_stop false s) s2 →
  getReady s2 = false ∧ is_ready (getIdentity s2) = true ∧ getPhase s2 = Inv.PHASE_LIVE.
Proof.
  intros Hr Hl Hrd Hrun. pose proof (stop_ok settings false s (reachable_ok _ _ Hr)) as Hok.
  assert (never_ready (inventory_stop false s)) as Hn by (unfold inventory_stop; rewrite bool_decide_eq_true_2 by done; by split).
  assert (service_ok settings s2 ∧ never_ready s2) as [Hok2 [H1 H2]].
  { clear Hr Hl Hrd. revert Hok Hn. induction Hrun as [|a b c [calls Hs] _ IH]; [done|]. intros Hok Hn.
    apply IH; [by apply (service_step_ok settings a calls)|by apply (step_never_ready a calls)]. }
  split_and!; [done|done|]. unfold getPhase. apply so_manager, reachable_wf in Hok2 as Hwf.
  destruct (mw_phase _ Hwf) as [->|(_ & ? & _)]; [by rewrite H2|congruence].
Qed.

(** Started again less than a minimal interval after its last refresh, the loop
    polls without a timeout until the interval is over: the reconciliation is due
    since the start, and the throttle leaves the request pending. *)
Lemma quick_restart_spins i s s' now r s2 calls b wait :
  inventory_start i s = Ok (true, s') → inv_lifecycle_ s = LStopped →
  (si_now i ≤ now < lastRefreshSteadyTs_ s + minRefreshInterval (settings_ s))%Z → (now ≤ wait)%Z →
  doRefreshCycle true now r s' = (s2, calls, b) → b = false ∧ msUntil (wakeTs s2) wait = 0%Z.
Proof.
  intros Hst Hl Hnow Hw Hd. unfold inventory_start in Hst. rewrite bool_decide_eq_true_2 in Hst by done. cbn [negb] in Hst.
  destruct (initialize_cases i s) as [Hi|[g Hi]]; rewrite Hi in Hst; cbn [andb negb] in Hst; [by injection Hst|].
  destruct (si_base i); cbn [negb] in Hst; [|done]. destruct (si_worker i); [|done]. injection Hst as <-.
  destruct (cycle_cases _ _ _ _ _ _ _ Hd) as [(-> & -> & _)|(-> & _ & Hlt)]; [split; [done|]|].
  - unfold msUntil, wakeTs. cbn. rewrite bool_decide_eq_true_2; [done|]. lia.
  - specialize (Hlt eq_refl). cbn in Hlt. lia.
Qed.

(** * Witness *)

Definition demo_refresh : RefreshInput := mkRefreshInput 100 102 demo_answers.
Definition demo_settings : Settings := default_Settings.

Definition demo_launched : InventoryService :=
  (new_InventoryService demo_settings) <| manager_ := demo_manager |> <| transports_ := ["dbus"] |>
    <| nextReconcileTs_ := (5000 * ms)%Z |> <| refreshSignal_ := Some false |> <| inv_lifecycle_ := LRunning |>
    <| refreshWorker_ := WLaunched |>.

Definition demo_looping : InventoryService :=
  (refresh_now (5000 * ms) demo_refresh demo_launched).1 <| refreshWorker_ := WLooping |>.

Definition demo_turns : list LoopTurn :=
  [mkTurn true (5200 * ms) true (PollReady (mkRevents true false) (mkRevents false false)) 0 [] false false (5201 * ms) false
     (5201 * ms) demo_refresh;
   mkTurn true (5202 * ms) false PollTimeout 0 [] false false (6000 * ms) false (6001 * ms) demo_refresh].

Lemma demo_looping_reachable : service_reachable demo_settings demo_looping.
Proof.
  eapply rtc_l; [eexists; apply (sv_source (Some demo_source) None); reflexivity|].
  eapply rtc_l; [eexists; apply (sv_source (Some demo_source2) None); reflexivity|].
  eapply rtc_l; [eexists; apply (sv_transport (Some "dbus")); reflexivity|].
  eapply rtc_l; [eexists; apply (sv_start (mkStartInput true true true (5000 * ms)) _ true); reflexivity|].
  eapply rtc_l; [|apply rtc_refl]. eexists.
  apply (sv_first (5000 * ms) demo_refresh demo_launched _ (refresh_now (5000 * ms) demo_refresh demo_launched).2 true);
    [reflexivity|reflexivity|]. unfold doRefreshCycle. replace (throttled _ _ _) with false by (vm_compute; reflexivity).
  by destruct (refresh_now (5000 * ms) demo_refresh demo_launched).
Qed.

