(* ===== verification/Clients.v ===== *)
(** [network-observation/clients/dbus/DbusClient.cpp] and
    [rmc-inventory/clients/inventory-client/InventoryClient.cpp]: the queries of
    the clients with their error results, the compatibility getters, waiting for
    readiness, and what a client sees of a service through both codecs. *)

From S2P Require Import Prelude Contract Observation LocalState Filter Engine EngineProps.
From S2P Require Import Variant ObsCodec InvCodec InvManager InvFiles InvService.

(** * Results

    [interop_contract::ClientResult] and [dbus_client_support::invokeQuery] are
    libraries: the latter gives the value of a query, or classifies what it throws
    by a stable code. *)

Inductive ClientErrorCode := service_unavailable | timeout | transport_error | decode_error | invalid_response.

#[export] Instance ClientErrorCode_eq_dec : EqDecision ClientErrorCode.
Proof. solve_decision. Defined.

Record ClientError := mkClientError { ce_code : ClientErrorCode; ce_message : string }.

Abbreviation ClientResult := (result ClientError).

(** What a query throws: the codec's error, or what dbus-cxx raises. *)
Inductive QueryFailure := DecodeFailed (e : DecodeErrorCode) | BusFailed (what : string).

Class ClientInvoke := classify : QueryFailure → ClientError.

(** [result ? result.value() : fallback] *)
Definition value_or {A} (fallback : A) (r : ClientResult A) : A := match r with Ok v => v | Err _ => fallback end.

Section queries.
Context `{ClientInvoke} {V : Type} `{DbusVariant V}.
Abbreviation VariantMap := (gmap string V).

Definition invokeClientQuery {A} (r : result QueryFailure A) : ClientResult A :=
  match r with Ok v => Ok v | Err e => Err (classify e) end.

(** A decoder inside a query. *)
Definition decoded {A} (r : result DecodeErrorCode A) : result QueryFailure A :=
  match r with Ok v => Ok v | Err e => Err (DecodeFailed e) end.

(** Every query first looks at the interface proxy; [reply] is what the method
    call returns or throws. *)
Definition with_iface {A} (unavailable : string) (iface : bool) (query : result QueryFailure A) : ClientResult A :=
  if negb iface then Err (mkClientError service_unavailable unavailable) else invokeClientQuery query.

(** * [DbusClient] *)

Abbreviation Reply := (result QueryFailure).

Definition obs_unavailable : string := "network observation interface proxy is unavailable".

Definition validateStringList (values : list string) : result DecodeErrorCode unit :=
  _ ← throw_if (bool_decide (Ingress.obs_kMaxCandidates < length values)) limit_exceeded;
  check_all (λ value, throw_if (bool_decide (Ingress.kMaxStringLength < String.length value)) limit_exceeded) values.

Definition tryGetLocalSnapshot (iface : bool) (reply : Reply VariantMap) : ClientResult WireSnapshot :=
  with_iface obs_unavailable iface (raw ← reply; decoded (fromVariantMapLocalSnapshot raw)).

Definition tryGetInterface (iface : bool) (reply : Reply VariantMap) : ClientResult (option LocalInterfaceState) :=
  with_iface obs_unavailable iface
    (raw ← reply;
     if bool_decide (raw = ∅) then Ok None
     else decoded (i ← fromVariantMapIface raw; Ok (Some i))).

Definition tryGetRemoteCandidateMacs (iface : bool) (reply : Reply (list string)) : ClientResult (list string) :=
  with_iface obs_unavailable iface (raw ← reply; decoded (_ ← validateStringList raw; Ok raw)).

Definition tryGetCandidateByMac (iface : bool) (reply : Reply VariantMap) : ClientResult (option WireCandidate) :=
  with_iface obs_unavailable iface
    (raw ← reply;
     if bool_decide (raw = ∅) then Ok None
     else decoded (c ← fromVariantMapCandidate raw; Ok (Some c))).

Definition obs_tryGetIssues (iface : bool) (reply : Reply (gmap string VariantMap)) : ClientResult ObservationIssues :=
  with_iface obs_unavailable iface (raw ← reply; decoded (obs_decodeIssues raw)).

Definition obs_tryGetReady (iface : bool) (reply : Reply bool) : ClientResult bool := with_iface obs_unavailable iface reply.
Definition obs_tryGetPhase (iface : bool) (reply : Reply string) : ClientResult string := with_iface obs_unavailable iface reply.

Definition client_getLocalSnapshot iface reply : WireSnapshot := value_or (mkWireSnapshot ∅) (tryGetLocalSnapshot iface reply).
Definition client_getInterface iface reply : option LocalInterfaceState := value_or None (tryGetInterface iface reply).
Definition client_getRemoteCandidateMacs iface reply : list string := value_or [] (tryGetRemoteCandidateMacs iface reply).
Definition client_getCandidateByMac iface reply : option WireCandidate := value_or None (tryGetCandidateByMac iface reply).
Definition obs_client_getIssues iface reply : ObservationIssues := value_or ∅ (obs_tryGetIssues iface reply).
Definition obs_client_getReady iface reply : bool := value_or false (obs_tryGetReady iface reply).
Definition obs_client_getPhase iface reply : string := value_or "unknown" (obs_tryGetPhase iface reply).

(** ** Connection and subscriptions *)

(** [ci_connections]: the callbacks connected to each signal's proxy, by the
    signal's name, in the order they were connected. *)
Record DbusClientImpl := mkClientImpl {
  ci_iface : bool; ci_connected : bool; ci_connections : list (string * nat)
}.

Definition new_DbusClientImpl : DbusClientImpl := mkClientImpl false false [].

(** [made]: creating the dispatcher, connection and proxies gives an interface or
    a null one, or throws. *)
Definition tryConnect (made : result QueryFailure bool) (c : DbusClientImpl) : ClientResult unit * DbusClientImpl :=
  match made with
  | Err e => (Err (classify e), mkClientImpl false false [])
  | Ok connected =>
      (if negb connected then Err (mkClientError service_unavailable obs_unavailable) else Ok tt,
       mkClientImpl connected connected [])
  end.

Definition connect (made : result QueryFailure bool) (c : DbusClientImpl) : bool * DbusClientImpl :=
  let '(r, c) := tryConnect made c in (is_ok r, c).

(** [onLocalStateChanged] and the other subscriptions, for their signal. *)
Definition subscribe (signal : string) (cb : nat) (c : DbusClientImpl) : DbusClientImpl :=
  if negb (ci_iface c) then c
  else mkClientImpl (ci_iface c) (ci_connected c) (ci_connections c ++ [(signal, cb)]).

(** * [InventoryClient] *)

(** The bus a client connects to; the clients of both services decide alike. *)
Inductive BusType := SESSION | SYSTEM.
Definition toBusType (busType : string) : BusType := if bool_decide (busType = "session") then SESSION else SYSTEM.

(** The inventory client is connected by its constructor or not there: [proxy] and
    [iface], the object and the interface are not null. *)
Record InventoryClient := mkInventoryClient {
  ic_bus : BusType; ic_serviceName : string; ic_objectPath : string; ic_interfaceName : string
}.
Definition new_InventoryClient (busType serviceName objectPath interfaceName : string) (proxy iface : bool) : result string InventoryClient :=
  if negb proxy then Err "InventoryClient: failed to create object proxy"
  else if negb iface then Err "InventoryClient: failed to create interface proxy"
  else Ok (mkInventoryClient (toBusType busType) serviceName objectPath interfaceName).

Definition inv_unavailable : string := "inventory client interface proxy is unavailable".

Definition tryGetIdentity (iface : bool) (reply : Reply VariantMap) : ClientResult InventorySnapshot :=
  with_iface inv_unavailable iface (raw ← reply; decoded (decodeSnapshot raw)).
Definition tryGetField (iface : bool) (reply : Reply VariantMap) : ClientResult InventoryFields :=
  with_iface inv_unavailable iface (raw ← reply; decoded (decodeFields raw)).
Definition tryGetSourceStates (iface : bool) (reply : Reply (gmap string VariantMap)) : ClientResult SourceStateMap :=
  with_iface inv_unavailable iface (raw ← reply; decoded (decodeSourceStates raw)).
Definition inv_tryGetIssues (iface : bool) (reply : Reply (gmap string VariantMap)) : ClientResult InventoryIssues :=
  with_iface inv_unavailable iface (raw ← reply; decoded (inv_decodeIssues raw)).
Definition inv_tryGetReady (iface : bool) (reply : Reply bool) : ClientResult bool := with_iface inv_unavailable iface reply.
Definition inv_tryGetPhase (iface : bool) (reply : Reply string) : ClientResult string := with_iface inv_unavailable iface reply.
Definition tryGetVersion (iface : bool) (reply : Reply Z) : ClientResult Z := with_iface inv_unavailable iface reply.
Definition tryRefresh (iface : bool) (reply : Reply unit) : ClientResult unit := with_iface inv_unavailable iface reply.

Definition client_getIdentity iface reply : InventorySnapshot := value_or default_InventorySnapshot (tryGetIdentity iface reply).
Definition client_getField iface reply : InventoryFields := value_or ∅ (tryGetField iface reply).
Definition client_getSourceStates iface reply : SourceStateMap := value_or ∅ (tryGetSourceStates iface reply).
Definition inv_client_getIssues iface reply : InventoryIssues := value_or ∅ (inv_tryGetIssues iface reply).
Definition inv_client_getReady iface reply : bool := value_or false (inv_tryGetReady iface reply).
Definition inv_client_getPhase iface reply : string := value_or "unknown" (inv_tryGetPhase iface reply).
Definition client_getVersion iface reply : Z := value_or 0%Z (tryGetVersion iface reply).
End queries.

(** ** Waiting for readiness *)

Definition kPollInterval : Z := 200 * ms.

Definition timeout_message (lastError : option ClientError) : string :=
  let message := "inventory service did not become ready before timeout" in
  match lastError with Some e => message +:+ ": " +:+ ce_message e | None => message end.

(** [clock k] is the reading at the [k]-th test of the loop, [answer k] what the
    query after it gives; the query after the loop is [answer n] when the test
    [n] ends it. The result is with the number of queries. [None]: the fuel ran out. *)
Fixpoint waitReady_loop (fuel k : nat) (deadline : Z) (clock : nat → Z) (answer : nat → ClientResult bool)
    (lastError : option ClientError) : option (ClientResult bool * nat) :=
  match fuel with
  | 0 => None
  | S fuel =>
      if bool_decide (clock k < deadline)%Z then
        match answer k with
        | Ok true => Some (Ok true, S k)
        | Ok false => waitReady_loop fuel (S k) deadline clock answer lastError
        | Err e =>
            if bool_decide (ce_code e ≠ service_unavailable) then Some (Err e, S k)
            else waitReady_loop fuel (S k) deadline clock answer (Some e)
        end
      else
        Some (match answer k with
              | Ok true => Ok true
              | _ => Err (mkClientError timeout (timeout_message lastError))
              end, S k)
  end.

Definition tryWaitReady (fuel : nat) (start timeout : Z) (clock : nat → Z) (answer : nat → ClientResult bool)
    : option (ClientResult bool * nat) := waitReady_loop fuel 0 (start + timeout) clock answer None.

Definition waitReady (fuel : nat) (start timeout : Z) (clock : nat → Z) (answer : nat → ClientResult bool) : option bool :=
  (λ r, value_or false r.1) <$> tryWaitReady fuel start timeout clock answer.

(** * Waiting ends *)

(** Answers after which the client asks again. *)
Definition retry (r : ClientResult bool) : Prop :=
  match r with Ok b => b = false | Err e => ce_code e = service_unavailable end.

(** What the loop may conclude from its last query, the [n]-th. *)
Definition wait_outcome (deadline : Z) (clock : nat → Z) (answer : nat → ClientResult bool) (n : nat) (r : ClientResult bool)
    : Prop :=
  match r with
  | Ok b => b = true ∧ answer (Nat.pred n) = Ok true
  | Err e =>
      (clock (Nat.pred n) < deadline)%Z ∧ answer (Nat.pred n) = Err e ∧ ce_code e ≠ service_unavailable ∨
      (deadline ≤ clock (Nat.pred n))%Z ∧ answer (Nat.pred n) ≠ Ok true ∧ ce_code e = timeout
  end.

Lemma wait_loop_ends deadline (clock : nat → Z) (answer : nat → ClientResult bool) g : ∀ k lastError,
  (∀ j, clock j + kPollInterval ≤ clock (S j))%Z → (deadline - clock k ≤ Z.of_nat g * kPollInterval)%Z →
  ∃ r n, k < n ≤ k + g + 1 ∧
    (∀ fuel, n - k ≤ fuel → waitReady_loop fuel k deadline clock answer lastError = Some (r, n)) ∧
    (∀ j, k ≤ j → S j < n → (clock j < deadline)%Z ∧ retry (answer j)) ∧ wait_outcome deadline clock answer n r.
Proof.
  induction g as [|g IH]; intros k lastError Hclock Hg.
  all: assert (Hlast : (deadline ≤ clock k)%Z → ∃ r n, k < n ≤ k + 1 ∧
    (∀ fuel, n - k ≤ fuel → waitReady_loop fuel k deadline clock answer lastError = Some (r, n)) ∧
    (∀ j, k ≤ j → S j < n → (clock j < deadline)%Z ∧ retry (answer j)) ∧ wait_outcome deadline clock answer n r).
  1,3: intros Hd; eexists _, (S k); split; [lia|]; split; [intros [|fuel] Hf; [lia|]; cbn; rewrite bool_decide_eq_false_2 by lia; reflexivity|];
      split; [lia|]; unfold wait_outcome; cbn [Nat.pred]; destruct (answer k) as [[|]|e]; naive_solver.
  - destruct Hlast as (r & n & Hn & Hrest); [unfold kPollInterval in *; lia|]. exists r, n. split; [lia|done].
  - destruct (decide (deadline ≤ clock k)%Z) as [Hd|Hd].
    { destruct (Hlast Hd) as (r & n & Hn & Hrest). exists r, n. split; [lia|done]. }
    clear Hlast. assert (retry (answer k) ∨ ¬ retry (answer k)) as [Hr|Hr].
    { unfold retry. destruct (answer k) as [[]|e]; [by right|by left|]. destruct (decide (ce_code e = service_unavailable)); auto. }
    + set (last' := match answer k with Err e => Some e | Ok _ => lastError end).
      destruct (IH (S k) last' Hclock) as (r & n & Hn & Hl & Hq & Ho); [specialize (Hclock k); lia|].
      exists r, n. split; [lia|]. split.
      { intros [|fuel] Hf; [lia|]. cbn [waitReady_loop]. rewrite bool_decide_eq_true_2 by lia. unfold retry in Hr. unfold last' in Hl.
        destruct (answer k) as [[]|e]; [done| |]; [apply Hl; lia|]. rewrite bool_decide_eq_false_2 by (intros []; done). apply Hl. lia. }
      split; [|done]. intros j Hj Hjn. destruct (decide (j = k)) as [->|]; [split; [lia|done]|apply Hq; lia].
    + exists (answer k), (S k). split; [lia|]. split.
      { intros [|fuel] Hf; [lia|]. cbn [waitReady_loop]. rewrite bool_decide_eq_true_2 by lia. unfold retry in Hr.
        destruct (answer k) as [[]|e]; [done|done|]. by rewrite bool_decide_eq_true_2. }
      split; [lia|]. unfold wait_outcome, retry in *. cbn [Nat.pred].
      destruct (answer k) as [[]|e] eqn:Ha; [done|done|]. left. split_and!; [lia|done|done].
Qed.

(** C21: waiting for readiness ends: whatever the service answers, and however
    long the sleeps really take, there is one result, reached after at most one
    query per poll interval and two more, whatever fuel is left. It is true
    exactly when the last query said so; an error of a query is returned at once
    unless the service is merely unavailable; otherwise every query but the last
    was made before the deadline, and the result is the timeout. *)
Theorem wait_ready_terminates start limit (clock : nat → Z) (answer : nat → ClientResult bool) :
  (0 ≤ limit)%Z → (start ≤ clock 0%nat)%Z → (∀ j, clock j + kPollInterval ≤ clock (S j))%Z →
  ∃ r n, (Z.of_nat n ≤ limit / kPollInterval + 2)%Z ∧
    (∀ fuel, n ≤ fuel → tryWaitReady fuel start limit clock answer = Some (r, n) ∧
      waitReady fuel start limit clock answer = Some (value_or false r)) ∧
    (∀ j, S j < n → (clock j < start + limit)%Z ∧ retry (answer j)) ∧ wait_outcome (start + limit) clock answer n r.
Proof.
  intros Hlim Hstart Hclock. assert (0 < kPollInterval)%Z as Hp by (unfold kPollInterval, ms; lia).
  pose proof (Z.div_pos limit kPollInterval Hlim Hp) as Hq. pose proof (Z.mul_succ_div_gt limit kPollInterval Hp) as Hgt.
  destruct (wait_loop_ends (start + limit) clock answer (Z.to_nat (limit / kPollInterval + 1)) 0 None Hclock)
    as (r & n & Hn & Hl & Hr & Ho); [rewrite Z2Nat.id by lia; lia|].
  exists r, n. split_and!; [lia| |intros j; apply Hr; lia|done].
  intros fuel Hf. unfold waitReady, tryWaitReady. rewrite Hl by lia. by split.
Qed.

(** * What the observation client sees *)

Section observation.
Context `{ClientInvoke} {V : Type} `{DbusVariantLaws V} `{InetPton}.

Lemma encoded_iface_nonempty i (m : gmap string V) : toVariantMap_iface i = Ok m → m ≠ ∅.
Proof.
  intros Hm. unfold toVariantMap_iface in Hm. take_steps Hm. injection Hm as <-. apply insert_non_empty.
Qed.

Lemma encoded_candidate_nonempty c (m : gmap string V) : toVariantMap_candidate c = Ok m → m ≠ ∅.
Proof.
  intros Hm. unfold toVariantMap_candidate in Hm. take_steps Hm. injection Hm as <-. apply insert_non_empty.
Qed.

Lemma string_list_ok (l : list string) :
  length l ≤ Ingress.obs_kMaxCandidates → Forall string_fits l → validateStringList l = Ok tt.
Proof.
  intros Hl Hf. unfold validateStringList. rewrite bool_decide_eq_false_2 by lia. cbn [throw_if mbind result_bind].
  apply check_all_ok. eapply Forall_impl; [exact Hf|]. intros s Hs. apply throw_if_ok, bool_decide_eq_false.
  unfold string_fits in Hs. lia.
Qed.

(** A published candidate is found under its own MAC. *)
Lemma find_published inputs config :
  let e := (engine_run inputs (engine_init config)).1 in
  EvidenceRequired (createClassifier (classifierConfig config)) → Forall input_ok inputs →
  ∀ mac c, findCandidateByMac mac e = Some c ↔ c ∈ remoteCandidates e ∧ c_mac c = mac.
Proof.
  intros e Hcl Hin mac c. destruct (engine_run_ok inputs config Hcl Hin) as [_ Hall]. fold e in Hall.
  assert (Hk : ∀ mac c, candidates_ e !! mac = Some c → c_mac c = mac) by (intros mac' c' Hc; apply (Hall mac' c' Hc)).
  rewrite elem_of_remoteCandidates. unfold findCandidateByMac. split.
  - destruct (candidates_ e !! mac) as [c'|] eqn:Hc; [|done]. destruct (isPublishable c') eqn:Hp; [|done].
    intros [= ->]. split; [by eauto|]. by apply Hk.
  - intros ((Hp & k & Hc) & <-). rewrite (Hk k c Hc), Hc. by rewrite Hp.
Qed.

(** The queries of a bound service whose state the engine can reach. *)
Lemma client_queries_exact inputs config :
  let e := (engine_run inputs (engine_init config)).1 in
  EvidenceRequired (createClassifier (classifierConfig config)) → Forall input_ok inputs →
  length (remoteCandidates e) ≤ Ingress.obs_kMaxCandidates →
  Forall (λ c, candidate_fits (toWireCandidate c)) (remoteCandidates e) →
  tryGetRemoteCandidateMacs true (Ok (handler_getRemoteCandidateMacs true e)) = Ok (c_mac <$> remoteCandidates e) ∧
  (∀ mac, tryGetCandidateByMac true (Ok (handler_getCandidateByMac (V := V) true mac e)) =
    Ok (toWireCandidate <$> findCandidateByMac mac e)) ∧
  (∀ mac, mac ∈ c_mac <$> remoteCandidates e ↔ is_Some (findCandidateByMac mac e)) ∧
  (∀ ifname, (∀ i, sn_interfaces (localSnapshot e) !! ifname = Some i → int32 (if_ifindex i) ∧ iface_fits i) →
    tryGetInterface true (Ok (handler_getInterface (V := V) true ifname e)) = Ok (sn_interfaces (localSnapshot e) !! ifname)) ∧
  (snapshot_fits (toWireSnapshot (localSnapshot e)) →
    tryGetLocalSnapshot true (Ok (handler_getLocalSnapshot (V := V) true e)) = Ok (toWireSnapshot (localSnapshot e))).
Proof.
  intros e Hcl Hin Hlen Hfit. destruct (query_answers (V := V) inputs config Hcl Hin Hlen Hfit) as (Hm & Hq & Hnone & Hsnap & _).
  fold e in Hm, Hq, Hnone, Hsnap. pose proof (find_published inputs config Hcl Hin) as Hfind. fold e in Hfind.
  assert (Hmem : ∀ mac, mac ∈ c_mac <$> remoteCandidates e ↔ is_Some (findCandidateByMac mac e)).
  { intros mac. rewrite list_elem_of_fmap. unfold is_Some. setoid_rewrite Hfind. naive_solver. }
  split_and!; [| |exact Hmem| |].
  - rewrite Hm. unfold tryGetRemoteCandidateMacs, with_iface. cbn. rewrite string_list_ok; [done|by rewrite length_fmap|].
    apply Forall_fmap. eapply Forall_impl; [exact Hfit|]. by intros c [Hc _].
  - intros mac. unfold tryGetCandidateByMac, with_iface. cbn [negb mbind result_bind].
    destruct (findCandidateByMac mac e) as [c|] eqn:Hf.
    + apply Hfind in Hf as [Hc <-]. pose proof (proj1 (Forall_forall _ _) Hfit c Hc) as Hcf.
      destruct (toVariantMap_candidate_ok (V := V) _ Hcf) as [m Hm'].
      assert (handler_getCandidateByMac (V := V) true (c_mac c) e = m) as ->.
      { unfold handler_getCandidateByMac. by rewrite (proj2 (Hfind (c_mac c) c)), Hm'. }
      rewrite bool_decide_eq_false_2 by (by apply (encoded_candidate_nonempty (toWireCandidate c))).
      by rewrite (candidate_roundtrip _ _ Hm').
    + rewrite Hnone; [|rewrite Hm, Hmem, Hf; by intros []]. by rewrite bool_decide_eq_true_2.
  - intros ifname Hi. unfold tryGetInterface, with_iface, handler_getInterface. cbn [negb mbind result_bind].
    destruct (sn_interfaces (localSnapshot e) !! ifname) as [i|]; [|cbn; by rewrite bool_decide_eq_true_2].
    destruct (Hi i eq_refl) as [Hidx Hif]. destruct (toVariantMap_iface_ok (V := V) i Hif) as [m Hm']. rewrite Hm'. cbn.
    rewrite bool_decide_eq_false_2 by (by apply (encoded_iface_nonempty i)). by rewrite (iface_roundtrip i m Hidx Hm').
  - intros Hs. unfold tryGetLocalSnapshot, with_iface. cbn [negb mbind result_bind]. by rewrite (Hsnap Hs).
Qed.

End observation.

(** * What the inventory client sees *)

(** The sizes the codec admits; the rest holds of every manager. *)
Definition names_fit (fields : InventoryFields) : Prop := fields_fit Ingress.inv_kMaxFields fields.

Record states_fit (states : SourceStateMap) : Prop := mkStatesFit {
  sts_size : size states ≤ Ingress.inv_kMaxSources;
  sts_each : map_Forall (λ k st, key_fits k ∧ int64 (ss_lastAttemptTs st) ∧ int64 (ss_lastSuccessTs st) ∧
    from_option text_fits True (ss_lastError st) ∧ from_option text_fits True (ss_origin st)) states
}.

Section inventory.
Context `{ClientInvoke} {V : Type} `{DbusVariantLaws V}.

Lemma phase_fits m : manager_wf m → text_fits (is_phase (inv_snapshot_ m)).
Proof.
  intros Hwf. assert (is_phase (inv_snapshot_ m) ∈ [""; Inv.PHASE_LIVE; Inv.PHASE_INITIALIZING]) as Hp.
  { destruct (mw_phase m Hwf) as [->|(-> & _)]; [destruct (is_ready _)|]; set_solver. }
  unfold text_fits. repeat (apply elem_of_cons in Hp as [->|Hp]; [by apply (bool_decide_unpack (_ ≤ _))|]).
  by apply not_elem_of_nil in Hp.
Qed.

Lemma manager_snapshot_fits m :
  manager_wf m → int64 (is_timestamp (inv_snapshot_ m)) → names_fit (is_fields (inv_snapshot_ m)) →
  inv_snapshot_fits (inv_snapshot_ m).
Proof.
  intros Hwf Ht Hf. split; [|done|by apply phase_fits|done|].
  - exact (mw_version m Hwf).
  - intros f v Hv. destruct (mw_fields m Hwf f v Hv) as [n Hn]. apply (mw_owner m Hwf) in Hn as (s & Hs & _ & Hfo).
    by destruct (mw_owned m Hwf s f Hs Hfo).
Qed.

Lemma single_field_fits s f : inv_snapshot_fits s → names_fit (make_single_field_map s f).
Proof.
  intros [Hv Ht Hp Hf Hr]. unfold make_single_field_map, get_field_value, names_fit.
  assert (Hone : ∀ v, key_fits f → value_fits v → fields_fit Ingress.inv_kMaxFields {[f := v]}).
  { intros v Hk Hval. split; [rewrite map_size_singleton; by apply (bool_decide_unpack (_ ≤ _))|]. by apply map_Forall_singleton. }
  destruct (is_fields s !! f) as [v|] eqn:Hfv; [destruct (proj2 Hf f v Hfv); by apply Hone|].
  repeat case_decide; try (apply Hone; [subst f; by apply (bool_decide_unpack (_ ≤ _))|done]).
  split; [by apply Nat.le_0_l|by apply map_Forall_empty].
Qed.

Lemma manager_states_fit m : manager_wf m → states_fit (sourceStates_ m) → map_Forall source_fits (sourceStates_ m).
Proof.
  intros Hwf [_ He] k st Hk. destruct (He k st Hk) as (H1' & H2' & H3' & H4' & H5').
  destruct (mw_states m Hwf k st Hk) as [Hn _]. by split.
Qed.

(** The answer of one field query tells snapshots apart exactly at that field. *)
Lemma getField_differs s s' f :
  is_metadata_field f = false →
  make_single_field_map s f ≠ make_single_field_map s' f ↔ is_fields s !! f ≠ is_fields s' !! f.
Proof.
  intros Hm. assert (∀ s, make_single_field_map s f = match is_fields s !! f with Some v => {[f := v]} | None => ∅ end) as Hs.
  { intros x. unfold make_single_field_map, get_field_value. destruct (is_fields x !! f); [done|].
    repeat case_decide; try done; subst f; done. }
  rewrite !Hs. apply not_iff_compat.
  destruct (is_fields s !! f) as [v|], (is_fields s' !! f) as [v'|]; split; intros He; try done; try congruence.
  - apply (f_equal (lookup f)) in He. by rewrite !lookup_singleton_eq in He.
Qed.

End inventory.

(** * What modelling showed *)

(** The daemon encodes a field text of any length, and a scalar source accepts up
    to 64 KiB; the client refuses the whole snapshot for one text over 4096. *)
Lemma oversized_field_hides_inventory {V : Type} `{ClientInvoke} `{DbusVariantLaws V} s f text (m : gmap string V) :
  is_fields s !! f = Some (FString text) → is_metadata_field f = false → Ingress.kMaxStringLength < String.length text →
  encodeSnapshot s = Ok m → ∃ e, tryGetIdentity true (Ok m) = Err e.
Proof.
  intros Hf Hmeta Hlong Hm. unfold tryGetIdentity, with_iface. cbn [negb mbind result_bind].
  destruct (decodeSnapshot m) as [s'|e] eqn:Hd; [exfalso|by eexists].
  unfold encodeSnapshot in Hm. take_steps Hm. injection Hm as <-. unfold decodeSnapshot in Hd. take_steps Hd.
  do 4 apply bind_ok in Hd as (? & _ & Hd). apply bind_ok in Hd as (out & Ho & _).
  apply map_traverse_ok in Ho as [Ho _]. specialize (Ho f (of_string text)).
  destruct Ho as (y & _ & Hy).
  - fold (with_meta (of_uint64 (is_version s)) (of_int64 (is_timestamp s)) (of_bool (is_ready s)) (of_string (is_phase s))
      (encodeFields (V := V) (is_fields s))).
    rewrite with_meta_other by done. by rewrite lookup_encodeFields, Hf.
  - take_steps Hy. rewrite Hmeta in Hy. unfold decodeFieldValue in Hy. rewrite string_type, string_back in Hy.
    unfold validateString in Hy. rewrite bool_decide_eq_true_2 in Hy by lia. done.
Qed.

(** * Witnesses *)

#[local] Instance demo_invoke : ClientInvoke := λ _, mkClientError decode_error "".


Lemma wait_ready_terminates_witness :
  ∃ r n, (Z.of_nat n ≤ 400 * ms / kPollInterval + 2)%Z ∧
    ∀ fuel, n ≤ fuel →
      tryWaitReady fuel 0 (400 * ms) (λ k, Z.of_nat k * kPollInterval)%Z
        (λ k, if Nat.eqb k 1 then Ok true else Err (mkClientError service_unavailable "")) = Some (r, n).
Proof.
  destruct (wait_ready_terminates 0 (400 * ms) (λ k, Z.of_nat k * kPollInterval)%Z
    (λ k, if Nat.eqb k 1 then Ok true else Err (mkClientError service_unavailable ""))) as (r & n & Hn & Hl & _).
  - vm_compute. discriminate.
  - vm_compute. discriminate.
  - intros j. rewrite Nat2Z.inj_succ. lia.
  - exists r, n. split; [exact Hn|]. intros fuel Hf. exact (proj1 (Hl fuel Hf)).
Defined.

