(* ===== verification/InvAgent.v ===== *)
(** [rmc-inventory/apps/inventory-agentd/main.cpp]: the sources the daemon
    registers, over the manager and the file sources, and what its inventory can
    hold. *)

From S2P Require Import Prelude Contract InvManager InvFiles InvService.

#[local] Opaque kMaxFileBytes.

(** * The daemon's configuration *)

(** The flags, in milliseconds, are 32-bit integers. *)
Record AgentConfig := mkAgentConfig {
  reconcile_ms : Z; min_refresh_ms : Z; device_meta_path : string; node_name_path : string; firmware_path : string;
  uuid_path : string; software_path : string
}.

Definition default_AgentConfig : AgentConfig :=
  mkAgentConfig 60000 1000 "/data/info/device-meta.json" "/data/info/node-name" "/etc/rmc/firmware" "/etc/rmc/uuid"
    "/etc/rmc/software".

Definition agent_settings (cfg : AgentConfig) : Settings :=
  mkSettings (reconcile_ms cfg * ms) (min_refresh_ms cfg * ms).

Section agent.
Context {J : Type} `{Json J}.

(** The sources in the order of their registration; a constructor may throw. *)
Definition agent_sources (cfg : AgentConfig) : list (result string FileBackedInventorySource) :=
  [new_ScalarFileSource "node-name-file" false (node_name_path cfg) Inv.FIELD_NODE_NAME;
   new_DeviceMetaFileSource (device_meta_path cfg) false;
   new_ScalarFileSource "firmware-file" true (firmware_path cfg) Inv.FIELD_FIRMWARE_VERSION;
   new_ScalarFileSource "uuid-file" true (uuid_path cfg) Inv.FIELD_UUID;
   new_ScalarFileSource "software-file" false (software_path cfg) Inv.FIELD_SOFTWARE_VERSION].

Inductive AgentError := SourceFailed (what : string) | RegistrationFailed (e : ServiceError).

(** One registration: the file source is watchable by its path. *)
Definition agent_register (acc : InventoryService * list FileBackedInventorySource) (source : result string FileBackedInventorySource)
    : result AgentError (InventoryService * list FileBackedInventorySource) :=
  match source with
  | Err e => Err (SourceFailed e)
  | Ok src =>
      match service_addSource (Some (file_source src)) (Some (fb_path src)) acc.1 with
      | Err e => Err (RegistrationFailed e)
      | Ok s => Ok (s, acc.2 ++ [src])
      end
  end.

Definition agent_init (cfg : AgentConfig) : result AgentError (InventoryService * list FileBackedInventorySource) :=
  fold_result agent_register (agent_sources cfg) (new_InventoryService (agent_settings cfg), []).
End agent.

(** * Specification *)

(** A source that makes non-empty texts of fields it owns, none reserved. *)
Definition text_source (s : FileBackedInventorySource) : Prop :=
  ∀ contents fs, fb_fieldsFromContents s contents = Ok fs →
  map_Forall (λ k v, k ∈ fb_owned s ∧ is_metadata_field k = false ∧ ∃ t, v = FString t ∧ t ≠ "") fs.

Definition agent_fields : FieldNameList :=
  [Inv.FIELD_NODE_NAME; Inv.FIELD_DEVICE_CLASS; Inv.FIELD_DEVICE_MODEL_ID; Inv.FIELD_DEVICE_PROJECT;
   Inv.FIELD_FIRMWARE_VERSION; Inv.FIELD_UUID; Inv.FIELD_SOFTWARE_VERSION].

Definition agent_paths (cfg : AgentConfig) : list string :=
  [node_name_path cfg; device_meta_path cfg; firmware_path cfg; uuid_path cfg; software_path cfg].

Section files.
Context (generic_message : Z → string).

(** What the manager finds when every source reads its file; [None] while one
    still reads. *)
Fixpoint file_answers (inputs : list (Z * FileOutcome)) (sources : list FileBackedInventorySource)
    : option (list SourceAnswer * list FileBackedInventorySource) :=
  match inputs, sources with
  | [], [] => Some ([], [])
  | (now, o) :: inputs, s :: sources =>
      match file_answer generic_message now o s, file_answers inputs sources with
      | Some (a, s), Some (answers, sources) => Some (a :: answers, s :: sources)
      | _, _ => None
      end
  | _, _ => None
  end.

(** Any number of refreshes of the daemon's manager, each with its own files. *)
Inductive agent_refresh : DefaultInventoryManager * list FileBackedInventorySource →
    DefaultInventoryManager * list FileBackedInventorySource → Prop :=
| ar_refresh attempt now inputs m sources answers sources' :
    file_answers inputs sources = Some (answers, sources') →
    agent_refresh (m, sources) ((InvManager.refreshAll attempt now answers m).2, sources').

(** The text in a scalar source's file, if it can be read and holds one. *)
Definition file_text (path : string) (o : FileOutcome) : option string :=
  match readFileContents generic_message path o with
  | Some (Ok contents) => match scalarFromContents contents "" with Ok v => Some v | Err _ => None end
  | _ => None
  end.

(** The field of a scalar source after a refresh: the text, else as it was. *)
Definition shown (path : string) (o : FileOutcome) (old : option FieldValue) : option FieldValue :=
  match file_text path o with Some v => Some (FString v) | None => old end.

(** What a source makes of its file. *)
Definition file_fields (o : FileOutcome) (s : FileBackedInventorySource) : option InventoryFields :=
  match readFileContents generic_message (fb_path s) o with
  | Some (Ok contents) => match fb_fieldsFromContents s contents with Ok fs => Some fs | Err _ => None end
  | _ => None
  end.

(** * Lemmas *)

Lemma scalar_text_source name required path field s :
  is_metadata_field field = false → new_ScalarFileSource name required path field = Ok s → text_source s.
Proof.
  intros Hm Hs contents fs Hf. destruct (new_like _ _ _ _ _ _ Hs) as (_ & _ & _ & _ & Ho & Hff).
  rewrite Hff in Hf. apply bind_ok in Hf as (v & Hv & [= <-]). pose proof (scalar_spec contents name) as Hsp.
  rewrite Hv in Hsp. destruct Hsp as (_ & Hne & _). rewrite Ho. apply map_Forall_singleton. split; [by left|eauto].
Qed.

Lemma device_text_source {J} `{Json J} path required s : new_DeviceMetaFileSource path required = Ok s → text_source s.
Proof.
  intros Hs contents fs Hf. destruct (new_like _ _ _ _ _ _ Hs) as (_ & _ & _ & _ & Ho & Hff). rewrite Hff in Hf. rewrite Ho.
  eapply map_Forall_impl; [exact (deviceMeta_fields _ _ Hf)|]. intros k v [Hk Ht]. split_and!; [done| |done].
  by repeat (apply elem_of_cons in Hk as [->|Hk]; [reflexivity|]); apply not_elem_of_nil in Hk.
Qed.

(** A text source contributes what it makes of its file. *)
Lemma text_contribution s0 s now o a s' :
  text_source s0 → like s0 s → file_answer generic_message now o s = Some (a, s') →
  contribution (file_source s0) a = file_fields o s0 ∧ like s0 s'.
Proof.
  intros Ht Hl. unfold file_answer. destruct (collect generic_message o s) as [[r s1]|] eqn:Hc; [|done]. intros [= <- <-].
  split; [|by apply (collect_like generic_message s0 s o r s1)]. revert Hc. unfold collect, file_fields, contribution.
  destruct Hl as (_ & _ & -> & _ & -> & _). destruct (readFileContents _ _ _) as [[c|e]|]; cbn; [|by intros [= <- <-]|done].
  destruct (fb_fieldsFromContents s0 c) as [fs|e] eqn:Hf; intros [= <- <-]; cbn; [|done].
  specialize (Ht c fs Hf).
  assert (existsb is_metadata_field (map_iter fs).*1 = false) as ->.
  { apply not_true_iff_false. rewrite existsb_exists. intros (k & [v Hk]%list_elem_of_In%elem_of_map_keys & Hm).
    destruct (Ht k v Hk) as (_ & Hf' & _). congruence. }
  f_equal. apply map_eq. intros k. rewrite owned_part_lookup. destruct (decide _) as [|Hn]; [done|].
  destruct (fs !! k) as [v|] eqn:Hk; [|done]. by destruct (Ht k v Hk) as [? _].
Qed.

Lemma text_contributions sources0 sources inputs answers sources' :
  Forall text_source sources0 → Forall2 like sources0 sources → file_answers inputs sources = Some (answers, sources') →
  length answers = length sources0 ∧ length inputs = length sources0 ∧ Forall2 like sources0 sources' ∧
  ∀ i s0 a now o, sources0 !! i = Some s0 → answers !! i = Some a → inputs !! i = Some (now, o) →
    contribution (file_source s0) a = file_fields o s0.
Proof.
  intros Ht Hl. revert inputs answers sources'. induction Hl as [|s0 s sources0 sources Hs Hl IH];
    intros [|[now o] inputs] answers sources'; cbn; try done; [by intros [= <- <-]|].
  apply Forall_cons in Ht as [Ht0 Ht].
  destruct (file_answer generic_message now o s) as [[a s']|] eqn:Ha; [|done].
  destruct (file_answers inputs sources) as [[rest sources1]|] eqn:Hr; [|done]. intros [= <- <-].
  destruct (IH Ht inputs rest sources1 Hr) as (Hlen & Hlin & Hlike & Hcon).
  destruct (text_contribution s0 s now o a s' Ht0 Hs Ha) as [Hc Hl'].
  split_and!; [cbn; by f_equal..|by constructor|]. intros [|i] s1 a1 now1 o1; cbn; [|apply Hcon].
  by intros [= <-] [= <-] [= <- <-].
Qed.

(** What refreshes keep true of a manager over text sources. *)
Record files_ok (sources0 : list FileBackedInventorySource) (st : DefaultInventoryManager * list FileBackedInventorySource)
    : Prop := mkFilesOk {
  fo_reach : rtc manager_step new_manager st.1;
  fo_sources : sources_ st.1 = file_source <$> sources0;
  fo_like : Forall2 like sources0 st.2;
  fo_texts : ∀ f v, is_fields (inv_snapshot_ st.1) !! f = Some v → ∃ t, v = FString t ∧ t ≠ "";
  fo_ready : is_ready (inv_snapshot_ st.1) = true → ∀ s, s ∈ sources0 → fb_required s = true →
    ∃ contents fs, fb_fieldsFromContents s contents = Ok fs ∧
      ∀ f, f ∈ fb_owned s → is_fields (inv_snapshot_ st.1) !! f = fs !! f
}.

Lemma refresh_files sources0 attempt now inputs m sources answers sources' :
  Forall text_source sources0 → files_ok sources0 (m, sources) → file_answers inputs sources = Some (answers, sources') →
  let m' := (InvManager.refreshAll attempt now answers m).2 in
  (∀ i s0 now o f, sources0 !! i = Some s0 → inputs !! i = Some (now, o) → f ∈ fb_owned s0 →
    is_fields (inv_snapshot_ m') !! f =
      match file_fields o s0 with Some fs => fs !! f | None => is_fields (inv_snapshot_ m) !! f end) ∧
  (is_ready (inv_snapshot_ m') = true ↔ is_ready (inv_snapshot_ m) = true ∨
    ∀ i s0 now o, sources0 !! i = Some s0 → inputs !! i = Some (now, o) → fb_required s0 = true → is_Some (file_fields o s0)) ∧
  length inputs = length sources0.
Proof.
  intros Ht [Hr Hs Hl _ _] Ha m'. cbn in Hr, Hs, Hl.
  destruct (text_contributions sources0 sources inputs answers sources' Ht Hl Ha) as (Hlen & Hlin & _ & Hcon).
  apply reachable_wf in Hr as Hwf. assert (length answers = length (sources_ m)) as Hla by (by rewrite Hs, length_fmap).
  assert (Hi : ∀ i s0 nw o, sources0 !! i = Some s0 → inputs !! i = Some (nw, o) →
    ∃ a, sources_ m !! i = Some (file_source s0) ∧ answers !! i = Some a ∧ contribution (file_source s0) a = file_fields o s0).
  { intros i s0 nw o Hs0 Ho. destruct (lookup_lt_is_Some_2 answers i) as [a Hans]; [rewrite Hlen; by eapply lookup_lt_Some|].
    exists a. split_and!; [by rewrite Hs, list_lookup_fmap, Hs0|done|by apply (Hcon i s0 a nw o)]. }
  split_and!; [| |done].
  - intros i s0 nw o f Hs0 Ho Hf. destruct (Hi i s0 nw o Hs0 Ho) as (a & Hsm & Hans & <-).
    destruct (refresh_sources attempt now answers m Hwf Hla i _ a Hsm Hans) as [Hfields _]. by apply Hfields.
  - unfold m'. rewrite refresh_ready_iff by done. apply or_iff_compat_l. split.
    + intros Hall i s0 nw o Hs0 Ho Hreq. destruct (Hi i s0 nw o Hs0 Ho) as (a & Hsm & Hans & <-). by apply (Hall i _ a Hsm Hans).
    + intros Hall i s1 a Hsm Hans Hreq. rewrite Hs, list_lookup_fmap in Hsm. apply fmap_Some in Hsm as (s0 & Hs0 & ->).
      destruct (lookup_lt_is_Some_2 inputs i) as [[nw o] Ho]; [rewrite Hlin; by eapply lookup_lt_Some|].
      rewrite (Hcon i s0 a nw o Hs0 Hans Ho). by apply (Hall i s0 nw o).
Qed.

Lemma file_fields_contents o s fs :
  file_fields o s = Some fs → ∃ contents, fb_fieldsFromContents s contents = Ok fs.
Proof.
  unfold file_fields. destruct (readFileContents _ _ _) as [[c|e]|]; [|done..].
  destruct (fb_fieldsFromContents s c) as [fs'|e] eqn:Hf; [|done]. intros [= <-]. by exists c.
Qed.

(** A field belongs to one of the sources. *)
Lemma field_source m (sources0 : list FileBackedInventorySource) f v :
  manager_wf m → sources_ m = file_source <$> sources0 → is_fields (inv_snapshot_ m) !! f = Some v →
  ∃ i s0, sources0 !! i = Some s0 ∧ f ∈ fb_owned s0.
Proof.
  intros Hwf Hs Hv. destruct (mw_fields m Hwf f v Hv) as [n Hn]. apply (mw_owner m Hwf) in Hn as (s & Hin & _ & Hf).
  rewrite Hs in Hin. apply list_elem_of_fmap in Hin as (s0 & -> & [i Hi]%list_elem_of_lookup). by exists i, s0.
Qed.

Lemma refresh_files_ok sources0 st st' :
  Forall text_source sources0 → agent_refresh st st' → files_ok sources0 st → files_ok sources0 st'.
Proof.
  intros Ht [attempt now inputs m sources answers sources' Ha] Hok.
  destruct (refresh_files sources0 attempt now inputs m sources answers sources' Ht Hok Ha) as (Hfields & Hready & Hlin).
  destruct Hok as [Hr Hs Hl Htext Hrd]. cbn in Hr, Hs, Hl, Htext, Hrd.
  destruct (text_contributions sources0 sources inputs answers sources' Ht Hl Ha) as (Hlen & _ & Hl' & _).
  pose proof (refreshAll_steps attempt now answers m ltac:(by rewrite Hs, length_fmap) Hr) as Hr'.
  assert (sources_ (InvManager.refreshAll attempt now answers m).2 = file_source <$> sources0) as Hs'.
  { pose proof (refreshAll_parts attempt now answers m) as Hp. cbv zeta in Hp.
    destruct (InvManager.refreshAll _ _ _ _) as [d m']. destruct Hp as (_ & Hsm & _). cbn. by rewrite Hsm. }
  split; cbn [fst snd]; [done|done|done| |].
  - intros f v Hv. destruct (field_source _ _ _ _ (reachable_wf _ Hr') Hs' Hv) as (i & s0 & Hs0 & Hf).
    destruct (lookup_lt_is_Some_2 inputs i) as [[nw o] Ho]; [rewrite Hlin; by eapply lookup_lt_Some|].
    rewrite (Hfields i s0 nw o f Hs0 Ho Hf) in Hv. destruct (file_fields o s0) as [fs|] eqn:Hff; [|by apply (Htext f)].
    destruct (file_fields_contents _ _ _ Hff) as [c Hc]. rewrite Forall_lookup in Ht.
    by destruct (Ht i s0 Hs0 c fs Hc f v Hv) as (_ & _ & Htv).
  - intros Hnow s [i Hs0]%list_elem_of_lookup Hreq.
    destruct (lookup_lt_is_Some_2 inputs i) as [[nw o] Ho]; [rewrite Hlin; by eapply lookup_lt_Some|].
    destruct (file_fields o s) as [fs|] eqn:Hff.
    + destruct (file_fields_contents _ _ _ Hff) as [c Hc]. exists c, fs. split; [done|]. intros f Hf.
      by rewrite (Hfields i s nw o f Hs0 Ho Hf), Hff.
    + apply Hready in Hnow as [Hold|Hall]; [|destruct (Hall i s nw o Hs0 Ho Hreq) as [fs Hfs]; congruence].
      destruct (Hrd Hold s (list_elem_of_lookup_2 _ _ _ Hs0) Hreq) as (c & fs & Hc & Hfs). exists c, fs. split; [done|].
      intros f Hf. rewrite (Hfields i s nw o f Hs0 Ho Hf), Hff. by apply Hfs.
Qed.

Lemma run_files_ok sources0 st st' :
  Forall text_source sources0 → rtc agent_refresh st st' → files_ok sources0 st → files_ok sources0 st'.
Proof. intros Ht Hr. induction Hr as [|st1 st2 st3 Hs _ IH]; [done|]. intros Hok. by apply IH, (refresh_files_ok _ st1). Qed.

Lemma fresh_files_ok sources0 m :
  Forall text_source sources0 → Forall2 like sources0 sources0 → rtc manager_step new_manager m →
  sources_ m = file_source <$> sources0 → inv_snapshot_ m = default_InventorySnapshot → files_ok sources0 (m, sources0).
Proof. intros Ht Hl Hr Hs Hsn. split; cbn; try done; by rewrite Hsn. Qed.
End files.

(** * Registration *)

Section registration.
Context {J : Type} `{Json J}.

Lemma registered_sources l s files s' files' :
  fold_result agent_register l (s, files) = Ok (s', files') →
  ∃ new, l = Ok <$> new ∧ files' = files ++ new ∧
    sources_ (manager_ s') = sources_ (manager_ s) ++ (file_source <$> new) ∧
    (rtc manager_step new_manager (manager_ s) → rtc manager_step new_manager (manager_ s')) ∧
    inv_snapshot_ (manager_ s') = inv_snapshot_ (manager_ s).
Proof.
  revert s files. induction l as [|x l IH]; intros s files; cbn [fold_result].
  - intros [= <- <-]. exists []. by rewrite !app_nil_r.
  - intros ([s1 files1] & H1 & (new & -> & -> & Hs & Hr & Hsn)%IH)%bind_ok. unfold agent_register in H1.
    destruct x as [src|e]; [|done]. cbn [fst snd] in H1. unfold service_addSource in H1.
    destruct (base_running s); [done|]. destruct (addSource _ _) as [m|e] eqn:Ha; [|done]. injection H1 as <- <-.
    apply addSource_ok in Ha as Hm. destruct Hm as [_ Hm]. exists (src :: new). rewrite Hs, Hsn. cbn [manager_].
    rewrite Hm. cbn. rewrite <- !app_assoc. split_and!; [done|done|done| |done]. intros Hr0. apply Hr.
    apply (addSource_steps (Some (file_source src)) (manager_ s)); [|done]. by rewrite Ha, Hm.
Qed.

Lemma agent_sources_ok cfg files :
  agent_sources cfg = Ok <$> files → Forall text_source files ∧ Forall2 like files files.
Proof.
  unfold agent_sources. destruct files as [|f1 [|f2 [|f3 [|f4 [|f5 [|]]]]]]; try done. cbn. intros [= H1 H2 H3 H4 H5]. split.
  - repeat (apply Forall_cons; split); [..|apply Forall_nil_2];
      first [by eapply device_text_source|eapply scalar_text_source; [|eassumption]; reflexivity].
  - repeat (apply Forall2_cons; split); [..|apply Forall2_nil_2]; by eapply new_like.
Qed.

(** The daemon starts exactly when every path names a file. *)
Lemma agent_init_ok cfg : is_ok (agent_init cfg) = forallb (λ p, negb (no_filename p)) (agent_paths cfg).
Proof.
  unfold agent_init, agent_sources, agent_paths. cbn [forallb].
  unfold new_ScalarFileSource, new_DeviceMetaFileSource, new_FileBackedInventorySource.
  assert (Hp : ∀ p, str_empty p || no_filename p = no_filename p) by (by intros [|c p]). rewrite !Hp.
  destruct (no_filename (node_name_path cfg)); [done|]. destruct (no_filename (device_meta_path cfg)); [done|].
  destruct (no_filename (firmware_path cfg)); [done|]. destruct (no_filename (uuid_path cfg)); [done|].
  destruct (no_filename (software_path cfg)); [done|]. reflexivity.
Qed.
End registration.

(** A scalar source of the daemon, as its file is read. *)
Lemma scalar_source_file (generic_message : Z → string) name required path field s0 o :
  new_ScalarFileSource name required path field = Ok s0 →
  fb_owned s0 = [field] ∧ fb_required s0 = required ∧
  file_fields generic_message o s0 = (λ v, {[field := FString v]}) <$> file_text generic_message path o.
Proof.
  intros Hs. destruct (new_like _ _ _ _ _ _ Hs) as (_ & _ & Hr & Hp & Ho & Hff). split_and!; [done|done|].
  unfold file_fields, file_text. rewrite Hp, Hff. destruct (readFileContents _ _ _) as [[c|e]|]; [|done..].
  unfold scalarFromContents. by destruct (find_first_not_of c), (find_last_not_of c).
Qed.

(** Its field after a refresh. *)
Lemma scalar_shown generic_message name required path field s0 (o : FileOutcome) (old new : option FieldValue) :
  new_ScalarFileSource name required path field = Ok s0 →
  (∀ f, f ∈ fb_owned s0 → f = field →
     new = match file_fields generic_message o s0 with Some fs => fs !! f | None => old end) →
  new = shown generic_message path o old.
Proof.
  intros Hs Hn. destruct (scalar_source_file generic_message _ _ _ _ _ o Hs) as (Ho & _ & Hf).
  rewrite (Hn field), Hf by (try done; rewrite Ho; by left). unfold shown.
  destruct (file_text _ _ _) as [v|]; [|done]. apply lookup_singleton_eq.
Qed.

(** The fields the sources own. *)
Lemma agent_owned {J : Type} `{Json J} cfg files s0 f :
  agent_sources cfg = Ok <$> files → s0 ∈ files → f ∈ fb_owned s0 → f ∈ agent_fields.
Proof.
  unfold agent_sources. intros Hs Hin. destruct files as [|f1 [|f2 [|f3 [|f4 [|f5 [|]]]]]]; try done.
  cbn in Hs. injection Hs as H1 H2 H3 H4 H5.
  repeat (apply elem_of_cons in Hin as [->|Hin]); [..|by apply not_elem_of_nil in Hin];
    match goal with Hn : _ = Ok ?s |- _ ∈ fb_owned ?s → _ =>
      destruct (new_like _ _ _ _ _ _ Hn) as (_ & _ & _ & _ & -> & _) end; unfold agent_fields; set_solver.
Qed.

(** A ready inventory has the field of every mandatory scalar source. *)
Lemma required_present sources0 st name path field s0 :
  files_ok sources0 st → is_ready (inv_snapshot_ st.1) = true → new_ScalarFileSource name true path field = Ok s0 →
  s0 ∈ sources0 → is_Some (is_fields (inv_snapshot_ st.1) !! field).
Proof.
  intros Hok Hrd Hs Hin. destruct (new_like _ _ _ _ _ _ Hs) as (_ & _ & Hr & _ & Ho & Hff).
  destruct (fo_ready _ _ Hok Hrd s0 Hin Hr) as (c & fs & Hc & Hf). rewrite (Hf field) by (rewrite Ho; by left).
  rewrite Hff in Hc. apply bind_ok in Hc as (v & _ & [= <-]). rewrite lookup_singleton_eq. by eexists.
Qed.

(** C20: the daemon starts exactly when every configured path names a file. Its
    inventory is well typed: however often it refreshes and whatever its files
    hold, every field is one of the seven it declares and a text that is not
    empty; a ready inventory has the firmware version and the device's identifier.
    After each refresh a scalar field is the trimmed text of its file as it was
    read, or what it was if the file could not be read or was blank; and readiness
    comes, for good, with the first refresh that reads both mandatory files. *)
Theorem agent_fields_typed {J : Type} `{Json J} (generic_message : Z → string) cfg :
  is_ok (agent_init cfg) = forallb (λ p, negb (no_filename p)) (agent_paths cfg) ∧
  ∀ s files m files',
    agent_init cfg = Ok (s, files) → rtc (agent_refresh generic_message) (manager_ s, files) (m, files') →
    let fields := is_fields (inv_snapshot_ m) in
    (∀ f v, fields !! f = Some v → f ∈ agent_fields ∧ ∃ t, v = FString t ∧ t ≠ "") ∧
    (is_ready (inv_snapshot_ m) = true →
      is_Some (fields !! Inv.FIELD_FIRMWARE_VERSION) ∧ is_Some (fields !! Inv.FIELD_UUID)) ∧
    ∀ attempt now node device firmware uuid software answers files'',
      file_answers generic_message [node; device; firmware; uuid; software] files' = Some (answers, files'') →
      let m' := (InvManager.refreshAll attempt now answers m).2 in
      let fields' := is_fields (inv_snapshot_ m') in
      let shown path o f := fields' !! f = shown generic_message path o.2 (fields !! f) in
      shown (node_name_path cfg) node Inv.FIELD_NODE_NAME ∧ shown (firmware_path cfg) firmware Inv.FIELD_FIRMWARE_VERSION ∧
      shown (uuid_path cfg) uuid Inv.FIELD_UUID ∧ shown (software_path cfg) software Inv.FIELD_SOFTWARE_VERSION ∧
      (is_ready (inv_snapshot_ m') = true ↔ is_ready (inv_snapshot_ m) = true ∨
        is_Some (file_text generic_message (firmware_path cfg) firmware.2) ∧
        is_Some (file_text generic_message (uuid_path cfg) uuid.2)).
Proof.
  split; [apply agent_init_ok|]. intros s files m files' Hinit Hrun fields.
  unfold agent_init in Hinit. apply registered_sources in Hinit as (new & Hsrc & -> & Hs & Hr & Hsn). cbn [app] in *.
  destruct (agent_sources_ok cfg new Hsrc) as [Ht Hl].
  assert (files_ok new (m, files')) as Hok.
  { apply (run_files_ok generic_message new _ _ Ht Hrun). apply fresh_files_ok; try done. by apply Hr. }
  unfold agent_sources in Hsrc. destruct new as [|f1 [|f2 [|f3 [|f4 [|f5 [|]]]]]]; try done.
  cbn in Hsrc. injection Hsrc as H1 H2 H3 H4 H5.
  destruct (new_like _ _ _ _ _ _ H2) as (_ & _ & Hr2 & _ & Ho2 & _).
  split_and!.
  - intros f v Hv. split; [|by apply (fo_texts _ _ Hok f)].
    destruct (field_source m _ f v (reachable_wf _ (fo_reach _ _ Hok)) (fo_sources _ _ Hok) Hv) as (i & s0 & Hi & Hf).
    apply (agent_owned cfg [f1; f2; f3; f4; f5] s0); [unfold agent_sources; cbn; by rewrite H1, H2, H3, H4, H5| |done]. by apply list_elem_of_lookup_2 in Hi.
  - intros Hrd. split.
    + apply (required_present _ (m, files') _ _ _ _ Hok Hrd H3). by do 2 right; left.
    + apply (required_present _ (m, files') _ _ _ _ Hok Hrd H4). by do 3 right; left.
  - intros attempt now node device firmware uuid software answers files'' Ha.
    destruct (refresh_files generic_message _ attempt now _ m files' answers files'' Ht Hok Ha) as (Hf & Hready & _).
    split_and!.
    + eapply scalar_shown; [exact H1|]. intros f Hin <-. destruct node. by eapply (Hf 0).
    + eapply scalar_shown; [exact H3|]. intros f Hin <-. destruct firmware. by eapply (Hf 2).
    + eapply scalar_shown; [exact H4|]. intros f Hin <-. destruct uuid. by eapply (Hf 3).
    + eapply scalar_shown; [exact H5|]. intros f Hin <-. destruct software. by eapply (Hf 4).
    + rewrite Hready. apply or_iff_compat_l.
      destruct (scalar_source_file generic_message _ _ _ _ _ node.2 H1) as (_ & Hr1 & _).
      destruct (scalar_source_file generic_message _ _ _ _ _ firmware.2 H3) as (_ & Hr3 & Hf3).
      destruct (scalar_source_file generic_message _ _ _ _ _ uuid.2 H4) as (_ & Hr4 & Hf4).
      destruct (scalar_source_file generic_message _ _ _ _ _ software.2 H5) as (_ & Hr5 & _).
      assert (is_Some (file_text generic_message (firmware_path cfg) firmware.2) ↔ is_Some (file_fields generic_message firmware.2 f3))
        as -> by (rewrite Hf3; symmetry; apply fmap_is_Some).
      assert (is_Some (file_text generic_message (uuid_path cfg) uuid.2) ↔ is_Some (file_fields generic_message uuid.2 f4))
        as -> by (rewrite Hf4; symmetry; apply fmap_is_Some).
      split.
      * intros Hall. split; [by apply (Hall 2 f3 firmware.1); [|destruct firmware|]|by apply (Hall 3 f4 uuid.1); [|destruct uuid|]].
      * intros [Hfw Huu] [|[|[|[|[|i]]]]] s0 nw o; cbn; intros [= <-] [= Ho] Hreq; try congruence; by subst.
Qed.

(** * Witness *)

(** A reader of objects with one member. *)
Definition demo_json : Json string := {|
  json_parse := Ok; json_isObject := λ _, true;
  json_member := λ root key, if decide (key = "device_class") then Some root else None;
  json_string := Some
|}.

Definition demo_text (contents : string) : FileOutcome :=
  mkFileOutcome None (Ok (mkStat true 8)) [RdData contents; RdEof].

(** The software file is missing. *)
Definition demo_inputs : list (Z * FileOutcome) :=
  [(1%Z, demo_text "node7 "); (2%Z, demo_text "rack"); (3%Z, demo_text "1.2
"); (4%Z, demo_text "c0ffee"); (5%Z, mkFileOutcome (Some 2%Z) (Err 2%Z) [])].

Lemma agent_fields_typed_witness :
  ∃ s files answers files',
    agent_init (H := demo_json) default_AgentConfig = Ok (s, files) ∧
    file_answers (λ _, "") demo_inputs files = Some (answers, files') ∧
    let snapshot := inv_snapshot_ (InvManager.refreshAll 10 11 answers (manager_ s)).2 in
    is_fields snapshot !! Inv.FIELD_FIRMWARE_VERSION = Some (FString "1.2") ∧
    is_fields snapshot !! Inv.FIELD_SOFTWARE_VERSION = is_fields (inv_snapshot_ (manager_ s)) !! Inv.FIELD_SOFTWARE_VERSION ∧
    is_ready snapshot = true.
Proof.
  destruct (agent_fields_typed (H := demo_json) (λ _, "") default_AgentConfig) as [Hok Hall].
  destruct (agent_init (H := demo_json) default_AgentConfig) as [[s files]|e] eqn:Hs; [|vm_compute in Hok; discriminate Hok].
  assert (match agent_init (H := demo_json) default_AgentConfig with
          | Ok (s, files) => match file_answers (λ _, "") demo_inputs files with Some _ => true | None => false end
          | Err _ => false
          end = true) as Ha by (vm_compute; reflexivity).
  rewrite Hs in Ha. destruct (file_answers (λ _, "") demo_inputs files) as [[answers files']|] eqn:Hf; [|discriminate Ha].
  exists s, files, answers, files'. split; [reflexivity|]. split; [exact Hf|].
  destruct (Hall s files (manager_ s) files eq_refl (rtc_refl _ _)) as (_ & _ & Href).
  destruct (Href 10%Z 11%Z _ _ _ _ _ _ _ Hf) as (_ & Hfw & _ & Hsw & Hrd). split; [exact Hfw|]. split; [exact Hsw|].
  apply Hrd. right. split; eexists; vm_compute; reflexivity.
Defined.
