(* ===== verification/Transports.v ===== *)
(** The transports of both services: [transports/dbus/DbusTransport.cpp],
    [NetworkObservationDbusAdapter.cpp], [DbusInventoryTransport.cpp],
    [InventoryDbusAdapter.cpp], the stdout transports and the factories: what they
    register and create on the bus, what they emit, and when queries reach the
    service. *)

From S2P Require Import Prelude Contract Publication InvService Clients.

(** * D-Bus

    Types of arguments and results, a registered method with the member function
    that answers it, the argument a signal carries. *)
Inductive DType := DString | DBool | DUint64 | DStrings | DVariants | DVariantMaps.

#[export] Instance DType_eq_dec : EqDecision DType.
Proof. solve_decision. Defined.

Record Method (Q : Type) := mkMethod { m_name : string; m_args : list DType; m_result : option DType; m_handler : Q }.
Arguments mkMethod {Q}.
Arguments m_name {Q}.
Arguments m_args {Q}.
Arguments m_result {Q}.
Arguments m_handler {Q}.

Inductive Arg := ANone | AString (s : string) | ABool (b : bool).

Definition arg_type (a : Arg) : option DType :=
  match a with ANone => None | AString _ => Some DString | ABool _ => Some DBool end.

(** What is emitted: the signal and its argument. *)
Abbreviation Emission := (string * Arg)%type.

(** * [ServiceBinding]

    A library class: a binding holds a service or none, and a query runs against
    the service its lease gives. *)
Class ServiceBinding (B S : Type) := {
  sb_new : B; sb_bind : option S → B → B; sb_detach : B → B; sb_lease : B → option S
}.

(** As documented: a bound service is given to queries; after [detach] none is. *)
Class ServiceBindingLaws (B S : Type) `{ServiceBinding B S} := {
  sb_lease_new : sb_lease sb_new = None;
  sb_lease_bind s b : sb_lease (sb_bind s b) = s;
  sb_lease_detach b : sb_lease (sb_detach b) = None
}.

(** * The adapters *)

Inductive ObsQuery := QLocalSnapshot | QInterface | QCandidateMacs | QCandidateByMac | QIssues | QReady | QPhase.
Inductive InvQuery :=
| IQIdentity | IQField | IQSourceStates | IQReady | IQPhase | IQVersion | IQRefresh | IQIssues.

#[export] Instance ObsQuery_eq_dec : EqDecision ObsQuery.
Proof. solve_decision. Defined.
#[export] Instance InvQuery_eq_dec : EqDecision InvQuery.
Proof. solve_decision. Defined.

Definition obs_bindMethods : list (Method ObsQuery) :=
  [mkMethod NetObs.METHOD_GET_LOCAL_SNAPSHOT [] (Some DVariants) QLocalSnapshot;
   mkMethod NetObs.METHOD_GET_INTERFACE [DString] (Some DVariants) QInterface;
   mkMethod NetObs.METHOD_GET_REMOTE_CANDIDATE_MACS [] (Some DStrings) QCandidateMacs;
   mkMethod NetObs.METHOD_GET_CANDIDATE_BY_MAC [DString] (Some DVariants) QCandidateByMac;
   mkMethod NetObs.METHOD_GET_ISSUES [] (Some DVariantMaps) QIssues;
   mkMethod NetObs.METHOD_GET_READY [] (Some DBool) QReady;
   mkMethod NetObs.METHOD_GET_PHASE [] (Some DString) QPhase].

Definition obs_createSignals : list (string * option DType) :=
  [(NetObs.SIGNAL_LOCAL_STATE_CHANGED, None); (NetObs.SIGNAL_INTERFACE_CHANGED, Some DString);
   (NetObs.SIGNAL_INTERFACE_REMOVED, Some DString); (NetObs.SIGNAL_CANDIDATE_CHANGED, Some DString);
   (NetObs.SIGNAL_CANDIDATE_REMOVED, Some DString); (NetObs.SIGNAL_READY_CHANGED, Some DBool)].

Definition inv_bindMethods : list (Method InvQuery) :=
  [mkMethod Inv.METHOD_GET_IDENTITY [] (Some DVariants) IQIdentity;
   mkMethod Inv.METHOD_GET_FIELD [DString] (Some DVariants) IQField;
   mkMethod Inv.METHOD_GET_SOURCE_STATES [] (Some DVariantMaps) IQSourceStates;
   mkMethod Inv.METHOD_GET_READY [] (Some DBool) IQReady;
   mkMethod Inv.METHOD_GET_PHASE [] (Some DString) IQPhase;
   mkMethod Inv.METHOD_GET_VERSION [] (Some DUint64) IQVersion;
   mkMethod Inv.METHOD_REFRESH [] None IQRefresh;
   mkMethod Inv.METHOD_GET_ISSUES [] (Some DVariantMaps) IQIssues].

Definition inv_createSignals : list (string * option DType) :=
  [(Inv.SIGNAL_INVENTORY_CHANGED, Some DString); (Inv.SIGNAL_SOURCE_STATE_CHANGED, Some DString);
   (Inv.SIGNAL_READY_CHANGED, Some DBool)].

(** The publishing calls of the transport interfaces. *)
Inductive ObsCall := ObsPublish (s : Signal) | ObsReady (ready : bool).
Inductive InvCall := InvPublish (s : InventorySignal) | InvReady (ready : bool).

Definition obs_emission (c : ObsCall) : Emission :=
  match c with
  | ObsPublish PublishLocalStateChanged => (NetObs.SIGNAL_LOCAL_STATE_CHANGED, ANone)
  | ObsPublish (PublishInterfaceChanged ifname) => (NetObs.SIGNAL_INTERFACE_CHANGED, AString ifname)
  | ObsPublish (PublishInterfaceRemoved ifname) => (NetObs.SIGNAL_INTERFACE_REMOVED, AString ifname)
  | ObsPublish (PublishCandidateChanged mac) => (NetObs.SIGNAL_CANDIDATE_CHANGED, AString mac)
  | ObsPublish (PublishCandidateRemoved mac) => (NetObs.SIGNAL_CANDIDATE_REMOVED, AString mac)
  | ObsReady ready => (NetObs.SIGNAL_READY_CHANGED, ABool ready)
  end.

Definition inv_emission (c : InvCall) : Emission :=
  match c with
  | InvPublish (InventoryChanged fieldPath) => (Inv.SIGNAL_INVENTORY_CHANGED, AString fieldPath)
  | InvPublish (SourceStateChanged sourceName) => (Inv.SIGNAL_SOURCE_STATE_CHANGED, AString sourceName)
  | InvReady ready => (Inv.SIGNAL_READY_CHANGED, ABool ready)
  end.

(** The signals an adapter holds: none before it is bound to an object. *)
Definition has_signal (signals : list (string * option DType)) (name : string) : bool :=
  bool_decide (name ∈ signals.*1).

(** [publishX] of an adapter, when [emit] does what [outcome] says. *)
Definition obs_adapter_publish (signals : list (string * option DType)) (outcome : PublishOutcome) (c : ObsCall)
    : PublishOutcome * list Emission :=
  if negb (has_signal signals (obs_emission c).1) then (PReturns, []) else (outcome, [obs_emission c]).

(** The inventory's adapter logs a [std::exception]. *)
Definition inv_adapter_publish (signals : list (string * option DType)) (outcome : PublishOutcome) (c : InvCall)
    : PublishOutcome * list Emission :=
  if negb (has_signal signals (inv_emission c).1) then (PReturns, [])
  else (match outcome with PThrows _ => PReturns | o => o end, [inv_emission c]).

(** * [DbusTransport] and [DbusInventoryTransport]

    Both are [DbusTransportBase], a library class that owns the connection: it
    binds the adapter to the exported object, tells whether it is running, and on
    a stop calls [onTransportStopping]. What its [start] does is an input, and so
    is what [isRunning] answers when something is published. *)
Record DbusTransport (B : Type) := mkDbusTransport { dt_binding : B; dt_signals : list (string * option DType) }.
Arguments mkDbusTransport {B}.
Arguments dt_binding {B}.
Arguments dt_signals {B}.

(** [object]: whether the adapter was bound to an object before [start] ended. *)
Inductive StartResult := BaseStarts | BaseThrows (what : string) | BaseThrowsUnknown.

Section dbus.
Context {B Svc : Type} `{ServiceBinding B Svc}.

Definition new_DbusTransport : DbusTransport B := mkDbusTransport sb_new [].

(** [setService] *)
Definition setService (service : option Svc) (t : DbusTransport B) : DbusTransport B :=
  mkDbusTransport (sb_bind service (dt_binding t)) (dt_signals t).

Definition bindQueryService (service : Svc) (t : DbusTransport B) : DbusTransport B := setService (Some service) t.

Definition adapter_quiesceQueries (t : DbusTransport B) : DbusTransport B :=
  mkDbusTransport (sb_detach (dt_binding t)) (dt_signals t).
Definition onTransportStopping (t : DbusTransport B) : DbusTransport B := adapter_quiesceQueries t.

(** [bind] of an adapter that creates these signals; [None]: the object is null,
    which throws. *)
Definition adapter_bind (createSignals : list (string * option DType)) (object : bool) (t : DbusTransport B)
    : option (DbusTransport B) :=
  if negb object then None else Some (mkDbusTransport (dt_binding t) createSignals).

(** [start]: the answer, [None] when an exception that is no [std::exception]
    leaves it. *)
Definition transport_start (createSignals : list (string * option DType)) (object : bool) (r : StartResult)
    (t : DbusTransport B) : option bool * DbusTransport B :=
  let t := default t (adapter_bind createSignals object t) in
  match r with
  | BaseStarts => (Some true, t)
  | BaseThrows _ => (Some false, setService None t)
  | BaseThrowsUnknown => (None, t)
  end.

Definition transport_stop (t : DbusTransport B) : DbusTransport B := onTransportStopping t.
Definition transport_quiesceQueries (t : DbusTransport B) : DbusTransport B := adapter_quiesceQueries t.

Definition obs_transport_publish (running : bool) (outcome : PublishOutcome) (c : ObsCall) (t : DbusTransport B)
    : PublishOutcome * list Emission :=
  if negb running then (PReturns, []) else obs_adapter_publish (dt_signals t) outcome c.

Definition inv_transport_publish (running : bool) (outcome : PublishOutcome) (c : InvCall) (t : DbusTransport B)
    : PublishOutcome * list Emission :=
  if negb running then (PReturns, []) else inv_adapter_publish (dt_signals t) outcome c.

(** The service a query handler works on, if any. *)
Definition transport_lease (t : DbusTransport B) : option Svc := sb_lease (dt_binding t).

(** What happens to a transport besides publishing. *)
Inductive TransportOp := TBind (service : Svc) | TStart (object : bool) (r : StartResult) | TStop | TQuiesce.

Definition transport_op (createSignals : list (string * option DType)) (t : DbusTransport B) (o : TransportOp) : DbusTransport B :=
  match o with
  | TBind service => bindQueryService service t
  | TStart object r => (transport_start createSignals object r t).2
  | TStop => transport_stop t
  | TQuiesce => transport_quiesceQueries t
  end.

Definition transport_run (createSignals : list (string * option DType)) (ops : list TransportOp) : DbusTransport B :=
  foldl (transport_op createSignals) new_DbusTransport ops.
End dbus.
Arguments TransportOp : clear implicits.

(** * The stdout transports *)

(** [StdoutTransport]; the state is [running_]. *)
Definition stdout_line (c : ObsCall) : string :=
  match c with
  | ObsPublish PublishLocalStateChanged => "[transport] LocalStateChanged"
  | ObsPublish (PublishInterfaceChanged ifname) => "[transport] InterfaceChanged: " +:+ ifname
  | ObsPublish (PublishInterfaceRemoved ifname) => "[transport] InterfaceRemoved: " +:+ ifname
  | ObsPublish (PublishCandidateChanged mac) => "[transport] CandidateChanged: " +:+ mac
  | ObsPublish (PublishCandidateRemoved mac) => "[transport] CandidateRemoved: " +:+ mac
  | ObsReady ready => "[transport] ReadyChanged: ready=" +:+ (if ready then "true" else "false")
  end.

Definition stdout_start (running : bool) : bool * bool := (true, true).
Definition stdout_stop (running : bool) : bool := false.
Definition stdout_publish (running : bool) (c : ObsCall) : list string := if negb running then [] else [stdout_line c].

(** [StdoutInventoryTransport]: [query_] and [running_]. *)
Record StdoutInventoryTransport (Svc : Type) := mkStdoutInventory { si_query : option Svc; si_running : bool }.
Arguments mkStdoutInventory {Svc}.
Arguments si_query {Svc}.
Arguments si_running {Svc}.

Definition fieldValueToString (v : FieldValue) : string :=
  match v with
  | FBool b => if b then "true" else "false"
  | FString s => s
  | FInt64 z | FUint64 z => pretty z
  end.

Section stdout_inventory.
(** [getField] of the query service. *)
Context {Svc : Type} (getField : Svc → string → InventoryFields).

Definition si_bindQueryService (service : Svc) (t : StdoutInventoryTransport Svc) : StdoutInventoryTransport Svc :=
  mkStdoutInventory (Some service) (si_running t).

Definition si_start (t : StdoutInventoryTransport Svc) : bool * StdoutInventoryTransport Svc * list string :=
  (true, mkStdoutInventory (si_query t) true, ["[transport] StdoutInventoryTransport started"]).

Definition si_stop (t : StdoutInventoryTransport Svc) : StdoutInventoryTransport Svc * list string :=
  (mkStdoutInventory None false, ["[transport] StdoutInventoryTransport stopped"]).

Definition printField (fieldPath : string) (t : StdoutInventoryTransport Svc) : string :=
  match si_query t with
  | None => ""
  | Some query =>
      match map_iter (getField query fieldPath) with
      | [] => " = <absent>"
      | (_, v) :: _ => " = " +:+ fieldValueToString v
      end
  end.

Definition si_publish (c : InvCall) (t : StdoutInventoryTransport Svc) : list string :=
  if negb (si_running t) then []
  else
    match c with
    | InvPublish (InventoryChanged fieldPath) => ["[event] InventoryChanged: " +:+ fieldPath +:+ printField fieldPath t]
    | InvPublish (SourceStateChanged sourceName) => ["[event] SourceStateChanged: " +:+ sourceName]
    | InvReady ready => ["[event] ReadyChanged: " +:+ (if ready then "true" else "false")]
    end.
End stdout_inventory.

(** * The factories *)

Inductive TransportKind := KDbus | KStdout.

(** A created transport, with what its constructor is given. *)
Inductive CreatedTransport := CDbus (busType : string) | CStdout.

Definition createTransport_kind (kind : TransportKind) (config : string) : CreatedTransport :=
  match kind with
  | KDbus => CDbus (if str_empty config then "system" else config)
  | KStdout => CStdout
  end.

Definition createTransport (name config : string) : option CreatedTransport :=
  match find (λ e, bool_decide (e.1 = name)) [("dbus", KDbus); ("stdout", KStdout)] with
  | None => None
  | Some (_, kind) => Some (createTransport_kind kind config)
  end.

(** [stdout_enabled]: the build has INVENTORY_ENABLE_STDOUT_TRANSPORT. *)
Inductive CreatedInventoryTransport := CIDbus (serviceName objectPath interfaceName : string) | CIStdout.

Definition inv_createTransport (stdout_enabled : bool) (name : string) (connection : bool)
    (serviceName objectPath interfaceName : string) : option CreatedInventoryTransport :=
  if stdout_enabled && bool_decide (name = "stdout") then Some CIStdout
  else if bool_decide (name = "dbus") then
    if negb connection then None
    else
      let or_default s d := if str_empty s then d else s in
      Some (CIDbus (or_default serviceName Inv.SERVICE_NAME) (or_default objectPath Inv.OBJECT_PATH)
              (or_default interfaceName Inv.INTERFACE))
  else None.

(** * The clients' side *)

(** The method a query of the client makes: its name, arguments and result. *)
Definition obs_client_method (q : ObsQuery) : string * list DType * option DType :=
  match q with
  | QLocalSnapshot => (NetObs.METHOD_GET_LOCAL_SNAPSHOT, [], Some DVariants)
  | QInterface => (NetObs.METHOD_GET_INTERFACE, [DString], Some DVariants)
  | QCandidateMacs => (NetObs.METHOD_GET_REMOTE_CANDIDATE_MACS, [], Some DStrings)
  | QCandidateByMac => (NetObs.METHOD_GET_CANDIDATE_BY_MAC, [DString], Some DVariants)
  | QIssues => (NetObs.METHOD_GET_ISSUES, [], Some DVariantMaps)
  | QReady => (NetObs.METHOD_GET_READY, [], Some DBool)
  | QPhase => (NetObs.METHOD_GET_PHASE, [], Some DString)
  end.

Definition inv_client_method (q : InvQuery) : string * list DType * option DType :=
  match q with
  | IQIdentity => (Inv.METHOD_GET_IDENTITY, [], Some DVariants)
  | IQField => (Inv.METHOD_GET_FIELD, [DString], Some DVariants)
  | IQSourceStates => (Inv.METHOD_GET_SOURCE_STATES, [], Some DVariantMaps)
  | IQReady => (Inv.METHOD_GET_READY, [], Some DBool)
  | IQPhase => (Inv.METHOD_GET_PHASE, [], Some DString)
  | IQVersion => (Inv.METHOD_GET_VERSION, [], Some DUint64)
  | IQRefresh => (Inv.METHOD_REFRESH, [], None)
  | IQIssues => (Inv.METHOD_GET_ISSUES, [], Some DVariantMaps)
  end.

(** The subscriptions, [onX], with the signal they create. *)
Inductive ObsEvent :=
| OnLocalStateChanged | OnInterfaceChanged | OnCandidateChanged | OnInterfaceRemoved | OnCandidateRemoved | OnReadyChanged.
Inductive InvEvent := OnInventoryChanged | OnSourceStateChanged | OnInvReadyChanged.

#[export] Instance ObsEvent_eq_dec : EqDecision ObsEvent.
Proof. solve_decision. Defined.
#[export] Instance InvEvent_eq_dec : EqDecision InvEvent.
Proof. solve_decision. Defined.

Definition obs_client_signal (e : ObsEvent) : string * option DType :=
  match e with
  | OnLocalStateChanged => (NetObs.SIGNAL_LOCAL_STATE_CHANGED, None)
  | OnInterfaceChanged => (NetObs.SIGNAL_INTERFACE_CHANGED, Some DString)
  | OnCandidateChanged => (NetObs.SIGNAL_CANDIDATE_CHANGED, Some DString)
  | OnInterfaceRemoved => (NetObs.SIGNAL_INTERFACE_REMOVED, Some DString)
  | OnCandidateRemoved => (NetObs.SIGNAL_CANDIDATE_REMOVED, Some DString)
  | OnReadyChanged => (NetObs.SIGNAL_READY_CHANGED, Some DBool)
  end.

Definition inv_client_signal (e : InvEvent) : string * option DType :=
  match e with
  | OnInventoryChanged => (Inv.SIGNAL_INVENTORY_CHANGED, Some DString)
  | OnSourceStateChanged => (Inv.SIGNAL_SOURCE_STATE_CHANGED, Some DString)
  | OnInvReadyChanged => (Inv.SIGNAL_READY_CHANGED, Some DBool)
  end.

(** * Specification *)

(** The service queries reach after some operations: the one bound last, unless a
    start failed, or queries were stopped, since. *)
Definition lease_after {Svc} (ops : list (TransportOp Svc)) : option Svc :=
  foldl (λ l o, match o with
                | TBind service => Some service
                | TStart _ (BaseThrows _) | TStop | TQuiesce => None
                | TStart _ _ => l
                end) None ops.

(** Whether the adapter was ever bound to an object. *)
Definition exported {Svc} (ops : list (TransportOp Svc)) : bool :=
  existsb (λ o, match o with TStart object _ => object | _ => false end) ops.

(** The subscription a publishing call is for. *)
Definition obs_event (c : ObsCall) : ObsEvent :=
  match c with
  | ObsPublish PublishLocalStateChanged => OnLocalStateChanged
  | ObsPublish (PublishInterfaceChanged _) => OnInterfaceChanged
  | ObsPublish (PublishInterfaceRemoved _) => OnInterfaceRemoved
  | ObsPublish (PublishCandidateChanged _) => OnCandidateChanged
  | ObsPublish (PublishCandidateRemoved _) => OnCandidateRemoved
  | ObsReady _ => OnReadyChanged
  end.

Definition inv_event (c : InvCall) : InvEvent :=
  match c with
  | InvPublish (InventoryChanged _) => OnInventoryChanged
  | InvPublish (SourceStateChanged _) => OnSourceStateChanged
  | InvReady _ => OnInvReadyChanged
  end.

(** A client after subscriptions, and the callbacks that get an emission: D-Bus
    gives a signal to the connections made for its name. *)
Definition client_after {E} (client_signal : E → string * option DType) (subs : list (E * nat)) (c : DbusClientImpl)
    : DbusClientImpl :=
  foldl (λ c s, subscribe (client_signal s.1).1 s.2 c) c subs.

Definition delivered_to (e : Emission) (c : DbusClientImpl) : list (nat * Arg) :=
  omap (λ s, if bool_decide (s.1 = e.1) then Some (s.2, e.2) else None) (ci_connections c).

(** The subscribers of one event. *)
Definition subscribers {E} `{EqDecision E} (e : E) (arg : Arg) (subs : list (E * nat)) : list (nat * Arg) :=
  omap (λ s, if decide (s.1 = e) then Some (s.2, arg) else None) subs.

(** * Lemmas *)

Section run.
Context {B Svc : Type} `{ServiceBindingLaws B Svc} (createSignals : list (string * option DType)).

Lemma transport_op_lease t o :
  transport_lease (transport_op createSignals t o) =
    match o with
    | TBind service => Some service
    | TStart _ (BaseThrows _) | TStop | TQuiesce => None
    | TStart _ _ => transport_lease t
    end.
Proof.
  destruct o as [s|object r| |]; unfold transport_lease; cbn; try apply sb_lease_bind; try apply sb_lease_detach.
  destruct r; cbn; [by destruct object|apply sb_lease_bind|by destruct object].
Qed.

Lemma transport_op_signals t o :
  dt_signals (transport_op createSignals t o) =
    (if match o with TStart object _ => object | _ => false end then createSignals else dt_signals t).
Proof. by destruct o as [s|[] []| |]. Qed.

Lemma transport_run_spec (ops : list (TransportOp Svc)) :
  transport_lease (transport_run createSignals ops) = lease_after ops ∧
  dt_signals (transport_run createSignals ops) = if exported ops then createSignals else [].
Proof.
  unfold transport_run, lease_after.
  assert (Hg : ∀ l t, transport_lease t = l →
    transport_lease (foldl (transport_op createSignals) t ops) =
      foldl (λ l o, match o with
                    | TBind service => Some service
                    | TStart _ (BaseThrows _) | TStop | TQuiesce => None
                    | TStart _ _ => l
                    end) l ops ∧
    dt_signals (foldl (transport_op createSignals) t ops) = if exported ops then createSignals else dt_signals t).
  { induction ops as [|o ops IH]; intros l t Hl; [done|]. cbn [foldl].
    destruct (IH _ _ (transport_op_lease t o)) as [-> ->]. rewrite transport_op_signals, Hl. split; [done|].
    unfold exported. cbn [existsb]. destruct (match o with TStart object _ => object | _ => false end); [|done].
    by destruct (existsb _ ops). }
  destruct (Hg None new_DbusTransport) as [H1 H2]; [apply sb_lease_new|]. split; [exact H1|exact H2].
Qed.
End run.

Lemma client_after_connections {E} (client_signal : E → string * option DType) subs c :
  ci_iface c = true →
  ci_connections (client_after client_signal subs c) = ci_connections c ++ ((λ s, ((client_signal s.1).1, s.2)) <$> subs).
Proof.
  unfold client_after. revert c. induction subs as [|s subs IH]; intros c Hc; cbn; [by rewrite app_nil_r|].
  unfold subscribe at 2. rewrite Hc. cbn [negb]. rewrite IH by done. cbn. by rewrite <- app_assoc.
Qed.

(** A signal reaches the subscribers of its event when names identify events. *)
Lemma delivered_to_subscribers {E} `{EqDecision E} (client_signal : E → string * option DType) (ev : E) (em : Emission) subs c :
  ci_iface c = true → ci_connections c = [] → (∀ e, (client_signal e).1 = em.1 ↔ e = ev) →
  delivered_to em (client_after client_signal subs c) = subscribers ev em.2 subs.
Proof.
  intros Hi Hn Hev. unfold delivered_to, subscribers. rewrite client_after_connections, Hn by done. cbn [app].
  induction subs as [|s subs IH]; [done|]. cbn. rewrite IH. destruct (decide (s.1 = ev)) as [He|He].
  - by rewrite bool_decide_eq_true_2 by (by apply Hev).
  - rewrite bool_decide_eq_false_2; [done|]. by intros ?%Hev.
Qed.


(** * The factories *)

(** Exactly the two names are known; an empty configuration is the system bus. *)
Lemma createTransport_known name config :
  createTransport name config =
    if decide (name = "dbus") then Some (CDbus (if str_empty config then "system" else config))
    else if decide (name = "stdout") then Some CStdout else None.
Proof.
  unfold createTransport. cbn [find fst].
  destruct (decide (name = "dbus")) as [->|Hd]; [done|]. rewrite bool_decide_eq_false_2 by congruence.
  destruct (decide (name = "stdout")) as [->|Hs]; [done|]. by rewrite bool_decide_eq_false_2 by congruence.
Qed.

(** [main] of the inventory daemon makes a connection exactly for "dbus", so that
    creating the transport fails for unknown names only. *)
Lemma inv_createTransport_known stdout_enabled name :
  inv_createTransport stdout_enabled name (bool_decide (name = "dbus")) "" "" "" =
    if decide (name = "dbus") then Some (CIDbus Inv.SERVICE_NAME Inv.OBJECT_PATH Inv.INTERFACE)
    else if decide (name = "stdout") then (if stdout_enabled then Some CIStdout else None) else None.
Proof.
  unfold inv_createTransport. destruct (decide (name = "dbus")) as [->|Hd]; [by destruct stdout_enabled|].
  rewrite (bool_decide_eq_false_2 (name = "dbus")) by done.
  destruct (decide (name = "stdout")) as [->|Hs]; [by destruct stdout_enabled|].
  rewrite bool_decide_eq_false_2 by done. by destruct stdout_enabled.
Qed.

(** * What modelling showed *)

(** An exception of the bus leaves the observation adapter and transport. *)
Lemma obs_emit_escapes c what :
  (obs_adapter_publish obs_createSignals (PThrows what) c).1 = PThrows what.
Proof. by destruct c as [[]|]. Qed.

(** * Witness *)

#[local] Instance demo_invoke : ClientInvoke := λ _, mkClientError decode_error "".
#[local] Instance demo_binding : ServiceBinding (option nat) nat :=
  {| sb_new := None; sb_bind := λ s _, s; sb_detach := λ _, None; sb_lease := λ b, b |}.
#[local] Instance demo_binding_laws : ServiceBindingLaws (option nat) nat.
Proof. by split. Defined.

