(* ===== verification/ObsApps.v ===== *)
(** [network-observation/apps]: the command-line client [net-observe/main.cpp] over
    the client of [Clients], and the wiring of [network-observationd/main.cpp].

    jsoncpp is a library: a JSON value is a parameter ([JsonCpp]) with the laws its
    documentation states for objects and arrays ([JsonCppLaws]). *)

From S2P Require Import Prelude Contract Observation LocalState Filter Engine EngineProps.
From S2P Require Import Variant ObsCodec InvCodec InvManager InvFiles InvService Clients Publication Transports.

(** * [Json::Value] *)

(** The null value of [Json::Value()], [value[key] = v], [value[key]],
    [value.append(v)] and [Json::writeString] with an indentation. *)
Class JsonCpp (J : Type) := {
  jnull : J; jstring : string → J; jint : Z → J; jbool : bool → J;
  jset : string → J → J → J; jget : string → J → J; jappend : J → J → J; jwrite : string → J → string
}.

(** Assigning a member to a null value makes it an object, appending an array. *)
Class JsonCppLaws (J : Type) `{JsonCpp J} := {
  is_object : J → Prop; is_array : J → Prop; jmembers : J → gmap string J; jelements : J → list J;
  object_null : is_object jnull; array_null : is_array jnull;
  members_null : jmembers jnull = ∅; elements_null : jelements jnull = [];
  object_set k v j : is_object j → is_object (jset k v j) ∧ jmembers (jset k v j) = <[k := v]> (jmembers j);
  array_append v j : is_array j → is_array (jappend v j) ∧ jelements (jappend v j) = jelements j ++ [v];
  get_member k v j : is_object j → jmembers j !! k = Some v → jget k j = v
}.

(** * [net-observe] *)

Record NetObserveFlags := mkFlags {
  FLAGS_command : string; FLAGS_bus : string; FLAGS_interface : string; FLAGS_mac : string;
  FLAGS_pretty : bool; FLAGS_lldp : bool
}.

(** What the client answers to the calls of one command; the candidates are asked
    for one by one, and the state may change between the calls. *)
Record Answers := mkAnswers {
  an_snapshot : WireSnapshot; an_interface : string → option LocalInterfaceState;
  an_macs : list string; an_candidate : nat → string → option WireCandidate
}.

Section json.
Context {J : Type} `{JsonCpp J}.

Definition printJson (fl : NetObserveFlags) (root : J) : string := jwrite (if FLAGS_pretty fl then "  " else "") root.

Definition jset_opt (k : string) (o : option string) (j : J) : J :=
  match o with Some s => jset k (jstring s) j | None => j end.

Definition jstrings (l : gset string) : J := foldl (λ a s, jappend (jstring s) a) jnull (set_iter l).

Definition ifaceToJson (iface : LocalInterfaceState) : J :=
  let j := jnull in
  let j := jset "ifindex" (jint (if_ifindex iface)) j in
  let j := jset "ifname" (jstring (if_ifname iface)) j in
  let j := jset "mac" (jstring (if_mac iface)) j in
  let j := jset "adminUp" (jbool (if_adminUp iface)) j in
  let j := jset "running" (jbool (if_running iface)) j in
  let j := jset "operstate" (jstring (if_operstate iface)) j in
  let j := jset_opt "master" (if_masterIfname iface) j in
  let j := jset "ipv4" (jstrings (if_ipv4 iface)) j in
  jset "ipv6" (jstrings (if_ipv6 iface)) j.

Definition candidateToJson (c : WireCandidate) : J :=
  let j := jnull in
  let j := jset "mac" (jstring (w_mac c)) j in
  let j := jset "classification" (jstring (classificationToString (w_classification c))) j in
  let j := jset "status" (jstring (statusToString (w_status c))) j in
  let j := jset "seenInFdb" (jbool (w_seenInFdb c)) j in
  let j := jset "seenInNeigh" (jbool (w_seenInNeigh c)) j in
  let j := jset "seenInLldp" (jbool (w_seenInLldp c)) j in
  let j := jset_opt "bridgePort" (w_bridgePort c) j in
  let j := jset_opt "remoteChassisId" (w_remoteChassisId c) j in
  let j := jset_opt "remotePortId" (w_remotePortId c) j in
  let j := jset_opt "remoteSystemName" (w_remoteSystemName c) j in
  let j := jset "ipv4" (jstrings (w_ipv4 c)) j in
  let j := jset "ipv6" (jstrings (w_ipv6 c)) j in
  jset "neighborIfaces" (jstrings (w_neighborIfaces c)) j.

(** The MACs first, then a query for each. *)
Definition fetchAllCandidates (an : Answers) : list WireCandidate :=
  omap (λ p, an_candidate an p.1 p.2) (imap pair (an_macs an)).

Definition neighborToJson (c : WireCandidate) : J :=
  let entry := jset_opt "chassisId" (w_remoteChassisId c) jnull in
  let entry := jset_opt "portId" (w_remotePortId c) entry in
  jset_opt "systemName" (w_remoteSystemName c) entry.

Definition getLldpNeighbors (ifname : string) (candidates : list WireCandidate) : J :=
  foldl (λ arr c,
    if negb (w_seenInLldp c) then arr
    else if negb (bool_decide (ifname ∈ w_neighborIfaces c)) then arr
    else jappend (neighborToJson c) arr) jnull candidates.

(** [root[name] = ifaceToJson(iface)], and its neighbours if they are asked for. *)
Definition put_iface (fl : NetObserveFlags) (candidates : list WireCandidate) (root : J) (name : string) (iface : LocalInterfaceState)
    : J :=
  let root := jset name (ifaceToJson iface) root in
  if FLAGS_lldp fl then jset name (jset "lldpNeighbors" (getLldpNeighbors name candidates) (jget name root)) root else root.

Definition status_root (fl : NetObserveFlags) (candidates : list WireCandidate) (interfaces : gmap string LocalInterfaceState) : J :=
  foldl (λ root p, put_iface fl candidates root p.1 p.2) jnull (map_iter interfaces).

Definition printStatus (fl : NetObserveFlags) (an : Answers) : list string :=
  let candidates := if FLAGS_lldp fl then fetchAllCandidates an else [] in
  if negb (str_empty (FLAGS_interface fl)) then
    match an_interface an (FLAGS_interface fl) with
    | Some iface => [printJson fl (put_iface fl candidates jnull (FLAGS_interface fl) iface)]
    | None => ["{}"]
    end
  else [printJson fl (status_root fl candidates (ws_interfaces (an_snapshot an)))].

Definition remote_array (fl : NetObserveFlags) (candidates : list WireCandidate) : J :=
  foldl (λ arr c, if FLAGS_lldp fl && negb (w_seenInLldp c) then arr else jappend (candidateToJson c) arr) jnull candidates.

Definition printRemote (fl : NetObserveFlags) (an : Answers) : list string :=
  if negb (str_empty (FLAGS_mac fl)) then
    match an_candidate an 0 (FLAGS_mac fl) with
    | Some c => if FLAGS_lldp fl && negb (w_seenInLldp c) then ["{}"] else [printJson fl (candidateToJson c)]
    | None => ["{}"]
    end
  else [printJson fl (remote_array fl (fetchAllCandidates an))].

(** [watchEvents]: the subscriptions in order; a callback is the event it is for. *)
Definition watch_subscriptions : list ObsEvent :=
  [OnLocalStateChanged; OnInterfaceChanged; OnInterfaceRemoved; OnCandidateChanged; OnCandidateRemoved; OnReadyChanged].

Definition watch_line (ev : ObsEvent) (arg : Arg) : string :=
  let name := match arg with AString s => s | _ => "" end in
  match ev with
  | OnLocalStateChanged => "[event] LocalStateChanged"
  | OnInterfaceChanged => "[event] InterfaceChanged: " +:+ name
  | OnInterfaceRemoved => "[event] InterfaceRemoved: " +:+ name
  | OnCandidateChanged => "[event] CandidateChanged: " +:+ name
  | OnCandidateRemoved => "[event] CandidateRemoved: " +:+ name
  | OnReadyChanged => "[event] ReadyChanged: " +:+ (match arg with ABool true => "ready" | _ => "not ready" end)
  end.

Definition watchEvents (c : DbusClientImpl) : DbusClientImpl :=
  client_after obs_client_signal (zip watch_subscriptions (seq 0 6)) c.

(** The lines a signal makes the watching client print. *)
Definition watch_lines (em : Emission) (c : DbusClientImpl) : list string :=
  omap (λ p, (λ ev, watch_line ev p.2) <$> watch_subscriptions !! p.1) (delivered_to em c).

(** [main]: what it prints to [std::cout] and [std::cerr], the client it watches
    with for ever, or the code it returns. [an], [an']: the answers to the first
    and the second command; [connect]: see [Clients.connect]. *)
Inductive CliEnd := CliReturns (code : Z) | CliWatches (c : DbusClientImpl).

Definition net_observe_main `{ClientInvoke} (fl : NetObserveFlags) (made : result QueryFailure bool) (an an' : Answers)
    : list string * list string * CliEnd :=
  let '(connected, client) := connect made new_DbusClientImpl in
  if negb connected then ([], ["Failed to connect to network-observationd"], CliReturns 1)
  else if bool_decide (FLAGS_command fl = "status") then (printStatus fl an, [], CliReturns 0)
  else if bool_decide (FLAGS_command fl = "remote") then (printRemote fl an, [], CliReturns 0)
  else if bool_decide (FLAGS_command fl = "watch") then ([], [], CliWatches (watchEvents client))
  else if bool_decide (FLAGS_command fl = "monitor") then
    (printStatus fl an ++ printRemote fl an', [], CliWatches (watchEvents client))
  else ([], ["Unknown command: " +:+ FLAGS_command fl; "Available: status, remote, watch, monitor"], CliReturns 1).
End json.

(** * [network-observationd] *)

(** The configuration keys [transport] and [transport_config], the transport
    made of them, and the service over a runtime with the default model. *)
Record DaemonWiring := mkWiring { dw_transport : CreatedTransport; dw_model : ModelConfig }.

Definition observationd_main (cfg : string → option string) : result (string * Z) DaemonWiring :=
  let transportName := default "dbus" (cfg "transport") in
  let transportConfig := default "system" (cfg "transport_config") in
  match createTransport transportName transportConfig with
  | None => Err ("Unknown transport type: " +:+ transportName, 1%Z)
  | Some transport => Ok (mkWiring transport default_model_config)
  end.

(** * What the command-line client shows *)

(** When the state does not change between the queries, their order is all the
    same. *)
Lemma fetch_const f an : (∀ i mac, an_candidate an i mac = f mac) → fetchAllCandidates an = omap f (an_macs an).
Proof.
  intros Hf. unfold fetchAllCandidates. assert (Hg : ∀ g, (∀ i mac, (g i mac).2 = mac) →
    omap (λ p, an_candidate an p.1 p.2) (imap g (an_macs an)) = omap f (an_macs an)); [|by apply Hg].
  induction (an_macs an) as [|mac macs IH]; intros g Hg; [done|]. rewrite imap_cons. cbn [omap list_omap].
  rewrite Hf, Hg, (IH (g ∘ S)); [done|]. intros i. apply Hg.
Qed.

Lemma omap_all {A B C} (f : A → option B) (g : C → A) (h : C → B) (l : list C) : (∀ c, c ∈ l → f (g c) = Some (h c)) → omap f (g <$> l) = h <$> l.
Proof.
  induction l as [|c l IH]; intros Hf; [done|]. cbn. rewrite Hf by (by left). f_equal. apply IH. intros d Hd. apply Hf. by right.
Qed.

Section laws.
Context {J : Type} `{JsonCppLaws J}.

(** A loop that appends the items of a list it selects. *)
Lemma append_selected {A} (keep : A → bool) (f : A → J) l : ∀ arr, is_array arr →
  jelements (foldl (λ arr c, if keep c then jappend (f c) arr else arr) arr l) = jelements arr ++ (f <$> filter (λ c, keep c = true) l).
Proof.
  induction l as [|c l IH]; intros arr Ha; cbn [foldl]; [by rewrite app_nil_r|].
  rewrite filter_cons. destruct (keep c) eqn:Hk; cbn [decide].
  - destruct (array_append (f c) arr Ha) as [Ha' He]. rewrite IH, He, <- app_assoc by done.
    destruct (decide _); [done|congruence].
  - rewrite IH by done. by destruct (decide _).
Qed.

Definition shown_remote (fl : NetObserveFlags) (c : WireCandidate) : bool := negb (FLAGS_lldp fl) || w_seenInLldp c.
Definition lldp_on (ifname : string) (c : WireCandidate) : bool := w_seenInLldp c && bool_decide (ifname ∈ w_neighborIfaces c).

Lemma remote_array_elements fl cs :
  jelements (remote_array fl cs) = candidateToJson <$> filter (λ c, shown_remote fl c = true) cs.
Proof.
  rewrite <- (app_nil_l (_ <$> _)), <- elements_null, <- append_selected by apply array_null. unfold remote_array. f_equal.
  generalize (jnull (J := J)). induction cs as [|c cs IH]; intros arr; [done|]. cbn [foldl]. rewrite IH. unfold shown_remote.
  by destruct (FLAGS_lldp fl), (w_seenInLldp c).
Qed.

Lemma lldp_neighbors_elements ifname cs :
  jelements (getLldpNeighbors ifname cs) = neighborToJson <$> filter (λ c, lldp_on ifname c = true) cs.
Proof.
  rewrite <- (app_nil_l (_ <$> _)), <- elements_null, <- append_selected by apply array_null. unfold getLldpNeighbors. f_equal.
  generalize (jnull (J := J)). induction cs as [|c cs IH]; intros arr; [done|]. cbn [foldl]. rewrite IH. unfold lldp_on.
  by destruct (w_seenInLldp c), (bool_decide _).
Qed.

(** The member of an interface: its JSON, with its LLDP neighbours if asked for. *)
Definition iface_entry (fl : NetObserveFlags) (cs : list WireCandidate) (name : string) (iface : LocalInterfaceState) : J :=
  if FLAGS_lldp fl then jset "lldpNeighbors" (getLldpNeighbors name cs) (ifaceToJson iface) else ifaceToJson iface.

Lemma put_iface_members fl cs root name iface :
  is_object root →
  is_object (put_iface fl cs root name iface) ∧
  jmembers (put_iface fl cs root name iface) = <[name := iface_entry fl cs name iface]> (jmembers root).
Proof.
  intros Ho. unfold put_iface, iface_entry. destruct (object_set name (ifaceToJson iface) root Ho) as [Ho' Hm].
  destruct (FLAGS_lldp fl); [|done].
  rewrite (get_member name (ifaceToJson iface)) by (by rewrite ?Hm, ?lookup_insert_eq).
  edestruct (object_set name) as [Ho2 Hm2]; [exact Ho'|]. split; [done|]. by rewrite Hm2, Hm, insert_insert_eq.
Qed.

Lemma status_root_members fl cs interfaces name :
  jmembers (status_root fl cs interfaces) !! name = iface_entry fl cs name <$> interfaces !! name.
Proof.
  unfold status_root. assert (Hg : ∀ l root, is_object root → NoDup l.*1 →
    jmembers (foldl (λ root p, put_iface fl cs root p.1 p.2) root l) !! name =
      match (list_to_map l : gmap string LocalInterfaceState) !! name with Some i => Some (iface_entry fl cs name i) | None => jmembers root !! name end).
  { induction l as [|[n i] l IH]; intros root Ho Hnd; [done|]. cbn [foldl fmap list_fmap fst] in *. apply NoDup_cons in Hnd as [Hn Hnd].
    destruct (put_iface_members fl cs root n i Ho) as [Ho' Hm]. rewrite IH by done. cbn [fst snd] in *. rewrite Hm. cbn.
    destruct (decide (n = name)) as [->|Hne].
    - rewrite !lookup_insert_eq. assert ((list_to_map l : gmap string LocalInterfaceState) !! name = None) as -> by (by apply not_elem_of_list_to_map_1). done.
    - by rewrite !lookup_insert_ne. }
  rewrite Hg by auto using object_null, map_iter_nodup_fst. rewrite list_to_map_map_iter, members_null.
  by destruct (interfaces !! name).
Qed.
End laws.

Section exact.
Context `{ClientInvoke} {V : Type} `{DbusVariantLaws V} `{InetPton} {J : Type} `{JsonCppLaws J}.

(** The answers of a bound service with the state [e]. *)
Definition bus_answers (e : ObservationModelEngine) : Answers :=
  mkAnswers (client_getLocalSnapshot (V := V) true (Ok (handler_getLocalSnapshot true e)))
    (λ n, client_getInterface (V := V) true (Ok (handler_getInterface true n e)))
    (client_getRemoteCandidateMacs true (Ok (handler_getRemoteCandidateMacs true e)))
    (λ _ mac, client_getCandidateByMac (V := V) true (Ok (handler_getCandidateByMac true mac e))).

End exact.

(** With no neighbour the array was never appended to: it is still null. *)
Lemma no_neighbors_null {J} `{JsonCpp J} ifname cs :
  filter (λ c, lldp_on ifname c = true) cs = [] → getLldpNeighbors ifname cs = (jnull : J).
Proof.
  unfold getLldpNeighbors. generalize (jnull (J := J)). induction cs as [|c cs IH]; intros arr Hf; [done|].
  rewrite filter_cons in Hf. unfold lldp_on in *. cbn [foldl].
  destruct (w_seenInLldp c), (bool_decide _); cbn in *; first [by apply IH|discriminate Hf].
Qed.

(** * [network-observationd] *)

(** The daemon runs over D-Bus unless it is told otherwise, refuses any other
    transport than the two with code 1, and models with the default configuration. *)
Lemma observationd_wiring cfg :
  observationd_main cfg =
    let name := default "dbus" (cfg "transport") in
    if decide (name = "dbus") then
      let config := default "system" (cfg "transport_config") in
      Ok (mkWiring (CDbus (if str_empty config then "system" else config)) default_model_config)
    else if decide (name = "stdout") then Ok (mkWiring CStdout default_model_config)
    else Err ("Unknown transport type: " +:+ name, 1%Z).
Proof.
  unfold observationd_main. cbv zeta. rewrite createTransport_known. by repeat case_decide.
Qed.

(** * Witness *)

#[local] Instance demo_cli_invoke : ClientInvoke := λ _, mkClientError decode_error "".

(** A plain tree, written as its kind. *)
#[warnings="-register-all"]
Inductive JTree := JNull | JString (s : string) | JInt (z : Z) | JBool (b : bool) | JArray (l : list JTree)
| JObject (members : list (string * JTree)).

Definition tree_members (j : JTree) : gmap string JTree :=
  match j with JObject l => list_to_map l | _ => ∅ end.
Definition tree_elements (j : JTree) : list JTree := match j with JArray l => l | _ => [] end.

#[local] Instance tree_json : JsonCpp JTree := {|
  jnull := JNull; jstring := JString; jint := JInt; jbool := JBool;
  jset k v j := JObject ((k, v) :: match j with JObject l => l | _ => [] end);
  jget k j := default JNull (tree_members j !! k);
  jappend v j := JArray (tree_elements j ++ [v]);
  jwrite _ j := match j with JNull => "null" | JArray _ => "array" | JObject _ => "object" | _ => "scalar" end
|}.

#[local] Instance tree_laws : JsonCppLaws JTree.
Proof.
  refine {| is_object j := match j with JNull | JObject _ => True | _ => False end;
            is_array j := match j with JNull | JArray _ => True | _ => False end;
            jmembers := tree_members; jelements := tree_elements |}; try done.
  - intros k v [] Hj; try done; split; done.
  - intros k v j Hj Hk. cbn. by rewrite Hk.
Defined.

Definition demo_flags : NetObserveFlags := mkFlags "remote" "system" "" "" true false.

