(* ===== verification/InvWatch.v ===== *)
(** [rmc-inventory/apps/inventory-watch/main.cpp]: the display of the inventory.
    The callbacks of the client run on its dispatcher thread, the loop on the main
    thread and the signal handler on either; they share atomics and three values
    under a mutex. Each atomic access and each critical section is one step, and
    the theorem is about every interleaving of the steps. *)

From S2P Require Import Prelude Contract.

(** * What is printed

    A line of output without its end; [std::endl] ends the blank line. *)

Definition dquote : string := String (Ascii.ascii_of_nat 34) EmptyString.

Definition bool_text (b : bool) : string := if b then "true" else "false".

Definition watch_fieldValueToString (v : FieldValue) : string :=
  match v with
  | FBool b => bool_text b
  | FString s => dquote +:+ s +:+ dquote
  | FInt64 z | FUint64 z => pretty z
  end.

Definition printSnapshotUnlocked (snap : InventorySnapshot) : list string :=
  ["--- Inventory Snapshot ---";
   "version:   " +:+ pretty (is_version snap);
   "timestamp: " +:+ pretty (is_timestamp snap);
   "ready:     " +:+ bool_text (is_ready snap);
   "phase:     " +:+ is_phase snap;
   "fields (" +:+ pretty (size (is_fields snap)) +:+ "):"] ++
  ((λ p, "  " +:+ p.1 +:+ " = " +:+ watch_fieldValueToString p.2) <$> map_iter (is_fields snap)).

Definition health_text (h : SourceHealth) : string :=
  match h with OK => "ok" | DEGRADED => "degraded" | FAILED => "failed" end.

Definition optional_text (label : string) (o : option string) : string :=
  match o with Some s => label +:+ dquote +:+ s +:+ dquote | None => "" end.

Definition source_state_line (name : string) (state : SourceState) : string :=
  "  " +:+ name +:+ ": health=" +:+ health_text (ss_health state)
  +:+ " required=" +:+ bool_text (ss_required state)
  +:+ " stale=" +:+ bool_text (ss_stale state)
  +:+ optional_text " error=" (ss_lastError state)
  +:+ optional_text " origin=" (ss_origin state).

Definition printSourceStatesUnlocked (states : SourceStateMap) : list string :=
  "--- Source States ---" :: ((λ p, source_state_line p.1 p.2) <$> map_iter states).

Definition issue_line (name : string) (fields : gmap string FieldValue) : string :=
  "  " +:+ name +:+ ":"
  +:+ foldr (λ p s, " " +:+ p.1 +:+ "=" +:+ watch_fieldValueToString p.2 +:+ s) "" (map_iter fields).

Definition printIssuesUnlocked (issues : InventoryIssues) : list string :=
  if bool_decide (issues = ∅) then ["--- Issues: none ---"]
  else "--- Issues ---" :: ((λ p, issue_line p.1 p.2) <$> map_iter issues).

(** What the three queries of [printAll] give. *)
Record InventoryView := mkView { v_snap : InventorySnapshot; v_states : SourceStateMap; v_issues : InventoryIssues }.

Definition view_lines (v : InventoryView) : list string :=
  printSnapshotUnlocked (v_snap v) ++ printSourceStatesUnlocked (v_states v) ++ printIssuesUnlocked (v_issues v) ++ [""].

(** * The shared state *)

Inductive WatchEvent := WInventory (fieldPath : string) | WSource (sourceName : string) | WReady (ready : bool).
Inductive WatchKind := KInventory | KSource | KReadiness.

#[export] Instance WatchKind_eq_dec : EqDecision WatchKind.
Proof. solve_decision. Defined.

Definition kind_of (ev : WatchEvent) : WatchKind :=
  match ev with WInventory _ => KInventory | WSource _ => KSource | WReady _ => KReadiness end.

Definition event_line (ev : WatchEvent) : string :=
  match ev with
  | WInventory field => "[event] InventoryChanged: " +:+ field
  | WSource source => "[event] SourceStateChanged: " +:+ source
  | WReady ready => "[event] ReadyChanged: " +:+ bool_text ready
  end.

(** The values under [g_eventMutex]; the loop copies them together. *)
Record LastEvents := mkLast {
  g_lastInventoryField : option string; g_lastSourceName : option string; g_lastReadyValue : option bool
}.

Definition store_last (ev : WatchEvent) (l : LastEvents) : LastEvents :=
  match ev with
  | WInventory field => mkLast (Some field) (g_lastSourceName l) (g_lastReadyValue l)
  | WSource source => mkLast (g_lastInventoryField l) (Some source) (g_lastReadyValue l)
  | WReady ready => mkLast (g_lastInventoryField l) (g_lastSourceName l) (Some ready)
  end.

Definition last_of (k : WatchKind) (l : LastEvents) : option WatchEvent :=
  match k with
  | KInventory => WInventory <$> g_lastInventoryField l
  | KSource => WSource <$> g_lastSourceName l
  | KReadiness => WReady <$> g_lastReadyValue l
  end.

(** [g_seenInventoryChanged], [g_seenSourceStateChanged], [g_seenReadyChanged];
    and the locals of the loop that take them over. *)
Record SeenFlags := mkSeen { seenInventory : bool; seenSource : bool; seenReady : bool }.
Definition none_seen : SeenFlags := mkSeen false false false.

Definition seen_of (k : WatchKind) (s : SeenFlags) : bool :=
  match k with KInventory => seenInventory s | KSource => seenSource s | KReadiness => seenReady s end.

Definition put_seen (k : WatchKind) (b : bool) (s : SeenFlags) : SeenFlags :=
  match k with
  | KInventory => mkSeen b (seenSource s) (seenReady s)
  | KSource => mkSeen (seenInventory s) b (seenReady s)
  | KReadiness => mkSeen (seenInventory s) (seenSource s) b
  end.

Record WatchGlobals := mkGlobals {
  g_running : bool; g_shuttingDown : bool; g_refreshRequested : bool; g_seen : SeenFlags; g_last : LastEvents
}.
Definition initial_globals : WatchGlobals := mkGlobals true false false none_seen (mkLast None None None).

Definition eta_globals (g : WatchGlobals) : WatchGlobals :=
  mkGlobals (g_running g) (g_shuttingDown g) (g_refreshRequested g) (g_seen g) (g_last g).
#[export] Instance set_g_running : Setter g_running := ltac:(mk_setter eta_globals g_running).
#[export] Instance set_g_shuttingDown : Setter g_shuttingDown := ltac:(mk_setter eta_globals g_shuttingDown).
#[export] Instance set_g_refreshRequested : Setter g_refreshRequested := ltac:(mk_setter eta_globals g_refreshRequested).
#[export] Instance set_g_seen : Setter g_seen := ltac:(mk_setter eta_globals g_seen).
#[export] Instance set_g_last : Setter g_last := ltac:(mk_setter eta_globals g_last).

(** * The threads *)

(** A callback on the dispatcher thread; the number is the position of its store
    in the history [y_stored], which the program does not keep. *)
Inductive HandlerPc := HCheck | HStore | HSeen (pos : nat) | HRequest (pos : nat) | HDone.

(** Inside [printAll]: the first test, the queries, the second test, the output. *)
Inductive PrintPc := PEnter | PQuery | PTest (r : result string InventoryView) | POutput (r : result string InventoryView).

(** The statements of [main]. *)
Inductive MainPc :=
| MConstruct | MWait | MInitial | MInitialPrint (p : PrintPc) | MSubscribe (k : WatchKind) | MAnnounce
| LTest | LExchange | LSeen (k : WatchKind) (saw : SeenFlags) | LRead (saw : SeenFlags)
| LPrint (saw : SeenFlags) (last : LastEvents) | LTestAll | LPrintAll (p : PrintPc) | LSleep
| MShutdown | MReset | MReturn (code : Z).

Inductive WatchOut := OText (line : string) | OEvent (ev : WatchEvent) | OView (v : InventoryView) | OError (line : string).

(** The lines on [std::cout] and on [std::cerr]. *)
Definition out_lines (o : WatchOut) : list string :=
  match o with OText l => [l] | OEvent ev => [event_line ev] | OView v => view_lines v | OError _ => [] end.
Definition err_lines (o : WatchOut) : list string := match o with OError l => [l] | _ => [] end.

Record WatchSystem := mkWatch {
  y_globals : WatchGlobals; y_main : MainPc; y_subscribed : list WatchKind;
  y_handlers : list (WatchEvent * HandlerPc); y_out : list WatchOut; y_stored : list WatchEvent
}.

Definition eta_watch (y : WatchSystem) : WatchSystem :=
  mkWatch (y_globals y) (y_main y) (y_subscribed y) (y_handlers y) (y_out y) (y_stored y).
#[export] Instance set_y_globals : Setter y_globals := ltac:(mk_setter eta_watch y_globals).
#[export] Instance set_y_main : Setter y_main := ltac:(mk_setter eta_watch y_main).
#[export] Instance set_y_subscribed : Setter y_subscribed := ltac:(mk_setter eta_watch y_subscribed).
#[export] Instance set_y_handlers : Setter y_handlers := ltac:(mk_setter eta_watch y_handlers).
#[export] Instance set_y_out : Setter y_out := ltac:(mk_setter eta_watch y_out).
#[export] Instance set_y_stored : Setter y_stored := ltac:(mk_setter eta_watch y_stored).

Definition watch_init : WatchSystem := mkWatch initial_globals MConstruct [] [] [] [].

Definition emit (o : list WatchOut) (y : WatchSystem) : WatchSystem := y <| y_out := y_out y ++ o |>.
Definition goto (pc : MainPc) (y : WatchSystem) : WatchSystem := y <| y_main := pc |>.
Definition globals (f : WatchGlobals → WatchGlobals) (y : WatchSystem) : WatchSystem := y <| y_globals := f (y_globals y) |>.

(** [handleSignal]: two stores. *)
Definition signal_step (y : WatchSystem) : WatchSystem :=
  globals (λ g, if g_shuttingDown g then g <| g_running := false |> else g <| g_shuttingDown := true |>) y.

(** One step of a callback: its next program point and the state. *)
Definition callback_step (ev : WatchEvent) (pc : HandlerPc) (y : WatchSystem) : HandlerPc * WatchSystem :=
  match pc with
  | HCheck => (if g_shuttingDown (y_globals y) then HDone else HStore, y)
  | HStore =>
      (HSeen (length (y_stored y)),
       globals (λ g, g <| g_last := store_last ev (g_last g) |>) y <| y_stored := y_stored y ++ [ev] |>)
  | HSeen n => (HRequest n, globals (λ g, g <| g_seen := put_seen (kind_of ev) true (g_seen g) |>) y)
  | HRequest n => (HDone, globals (λ g, g <| g_refreshRequested := true |>) y)
  | HDone => (HDone, y)
  end.

Definition handler_step (i : nat) (y : WatchSystem) : WatchSystem :=
  match y_handlers y !! i with
  | Some (ev, pc) => let '(pc, y) := callback_step ev pc y in y <| y_handlers := <[i := (ev, pc)]> (y_handlers y) |>
  | None => y
  end.

(** What the calls of the client give to the step of [main] that makes them. *)
Record MainInput := mkMainInput {
  wi_throws : option string; wi_ready : bool; wi_answer : result string InventoryView
}.

(** A call of the client outside [printAll]: an exception ends [main] with 1. *)
Definition guarded (input : MainInput) (k : WatchSystem → WatchSystem) (y : WatchSystem) : WatchSystem :=
  match wi_throws input with
  | Some what => goto (MReturn 1) (emit [OError ("inventory-watch failed: " +:+ what)] y)
  | None => k y
  end.

(** [printAll] from [p]; [at_] is the program point of its next step, [next] that
    after the call. *)
Definition printAll_step (input : MainInput) (p : PrintPc) (at_ : PrintPc → MainPc) (next : MainPc) (y : WatchSystem)
    : WatchSystem :=
  let down := g_shuttingDown (y_globals y) in
  match p with
  | PEnter => goto (if down then next else at_ PQuery) y
  | PQuery => goto (at_ (PTest (wi_answer input))) y
  | PTest r => goto (if down then next else at_ (POutput r)) y
  | POutput (Ok v) => goto next (emit [OView v] y)
  | POutput (Err what) => goto next (emit [OError ("printAll failed: " +:+ what)] y)
  end.

Definition next_seen (k : WatchKind) (saw : SeenFlags) : MainPc :=
  match k with KInventory => LSeen KSource saw | KSource => LSeen KReadiness saw | KReadiness => LRead saw end.

Definition next_subscription (k : WatchKind) : MainPc :=
  match k with KInventory => MSubscribe KSource | KSource => MSubscribe KReadiness | KReadiness => MAnnounce end.

(** The lines of the events of one turn. *)
Definition turn_events (saw : SeenFlags) (last : LastEvents) : list WatchOut :=
  [KInventory; KSource; KReadiness] ≫= λ k, if seen_of k saw then OEvent <$> option_list (last_of k last) else [].

Definition main_step (input : MainInput) (y : WatchSystem) : WatchSystem :=
  let g := y_globals y in
  match y_main y with
  | MConstruct => guarded input (goto MWait) y
  | MWait =>
      guarded input (λ y, goto MInitial
        (emit (if wi_ready input then [] else [OText "Note: daemon is not ready yet (still initializing)"]) y)) y
  | MInitial => goto (MInitialPrint PEnter) (emit [OText "=== Initial inventory ==="] y)
  | MInitialPrint p => printAll_step input p MInitialPrint (MSubscribe KInventory) y
  | MSubscribe k => guarded input (λ y, goto (next_subscription k) (y <| y_subscribed := y_subscribed y ++ [k] |>)) y
  | MAnnounce => goto LTest (emit [OText "Monitoring inventory changes (Ctrl-C to exit)..."] y)
  | LTest => goto (if g_running g then LExchange else MShutdown) y
  | LExchange =>
      goto (if g_refreshRequested g then LSeen KInventory none_seen else LSleep) (globals (λ g, g <| g_refreshRequested := false |>) y)
  | LSeen k saw =>
      goto (next_seen k (put_seen k (seen_of k (g_seen g)) saw)) (globals (λ g, g <| g_seen := put_seen k false (g_seen g) |>) y)
  | LRead saw => goto (LPrint saw (g_last g)) y
  | LPrint saw last => goto LTestAll (emit (turn_events saw last) y)
  | LTestAll => goto (if g_shuttingDown g then LSleep else LPrintAll PEnter) y
  | LPrintAll p => printAll_step input p LPrintAll LSleep y
  | LSleep => goto LTest y
  | MShutdown =>
      goto MReset (globals (λ g, g <| g_shuttingDown := true |>) (emit [OText ""; OText "Shutting down..."] y))
  | MReset => goto (MReturn 0) (y <| y_subscribed := [] |>)
  | MReturn _ => y
  end.

(** A signal of the bus reaches the client: the callback runs if it is connected. *)
Inductive WatchAct := AArrive (ev : WatchEvent) | AHandler (i : nat) | AMain (input : MainInput) | ASignal.

Definition watch_step (a : WatchAct) (y : WatchSystem) : WatchSystem :=
  match a with
  | AArrive ev =>
      if bool_decide (kind_of ev ∈ y_subscribed y) then y <| y_handlers := y_handlers y ++ [(ev, HCheck)] |> else y
  | AHandler i => handler_step i y
  | AMain input => main_step input y
  | ASignal => signal_step y
  end.

Definition watch_run (acts : list WatchAct) (y : WatchSystem) : WatchSystem := foldl (flip watch_step) y acts.

(** * What a reachable state keeps *)

(** The event at position [n], or a later one of its kind, is the stored [x]. *)
Definition covers (stored : list WatchEvent) (n : nat) (k : WatchKind) (x : WatchEvent) : Prop :=
  ∃ m, n ≤ m ∧ stored !! m = Some x ∧ kind_of x = k.

Definition shown (n : nat) (k : WatchKind) (y : WatchSystem) : Prop :=
  ∃ x, covers (y_stored y) n k x ∧ OEvent x ∈ y_out y.

(** The order in which the loop exchanges the flags. *)
Definition kind_index (k : WatchKind) : nat := match k with KInventory => 0 | KSource => 1 | KReadiness => 2 end.

(** What the loop has taken over for the kind [k] in the present turn. *)
Definition taken (n : nat) (k : WatchKind) (y : WatchSystem) : Prop :=
  match y_main y with
  | LSeen next saw => kind_index k < kind_index next ∧ seen_of k saw = true
  | LRead saw => seen_of k saw = true
  | LPrint saw last => seen_of k saw = true ∧ ∃ x, last_of k last = Some x ∧ covers (y_stored y) n k x
  | _ => False
  end.

(** The line of the event is out, or its flag is up, or the loop holds it. *)
Definition owed (n : nat) (k : WatchKind) (y : WatchSystem) : Prop :=
  shown n k y ∨ seen_of k (g_seen (y_globals y)) = true ∨ taken n k y.

Definition position_of (pc : HandlerPc) : option nat := match pc with HSeen n | HRequest n => Some n | _ => None end.

Record watch_ok (y : WatchSystem) : Prop := mkWatchOk {
  wo_last n x : y_stored y !! n = Some x → ∃ z, last_of (kind_of x) (g_last (y_globals y)) = Some z ∧ covers (y_stored y) n (kind_of x) z;
  wo_position i ev pc n : y_handlers y !! i = Some (ev, pc) → position_of pc = Some n → y_stored y !! n = Some ev;
  wo_owed i ev n : y_handlers y !! i = Some (ev, HRequest n) → owed n (kind_of ev) y
}.

Lemma covers_app stored more n k x : covers stored n k x → covers (stored ++ more) n k x.
Proof. intros (m & Hm & Hx & Hk). exists m. split_and!; [done|by apply lookup_app_l_Some|done]. Qed.

Lemma shown_mono n k y y' : shown n k y → (∃ m, y_stored y' = y_stored y ++ m) → (∃ o, y_out y' = y_out y ++ o) → shown n k y'.
Proof.
  intros (x & Hx & Ho) [m Hm] [o He]. exists x. split; [rewrite Hm; by apply covers_app|]. rewrite He. apply elem_of_app. by left.
Qed.

Lemma seen_put k k' b s : seen_of k (put_seen k' b s) = if decide (k = k') then b else seen_of k s.
Proof. by destruct k, k', s. Qed.

Lemma last_store k ev l : last_of k (store_last ev l) = if decide (k = kind_of ev) then Some ev else last_of k l.
Proof. by destruct k, ev, l. Qed.

Lemma elem_of_turn_events saw last k x :
  seen_of k saw = true → last_of k last = Some x → OEvent x ∈ turn_events saw last.
Proof.
  intros Hs Hx. apply list_elem_of_bind. exists k. rewrite Hs, Hx. split; [by apply list_elem_of_singleton|].
  destruct k; set_solver.
Qed.

(** ** What each step leaves alone *)

(** The parts of the state [owed] looks at besides the main program point. *)
Lemma printAll_step_same input p at_ next y :
  let y' := printAll_step input p at_ next y in
  y_globals y' = y_globals y ∧ y_stored y' = y_stored y ∧ y_handlers y' = y_handlers y ∧ y_subscribed y' = y_subscribed y ∧
  ∃ o, y_out y' = y_out y ++ o.
Proof.
  destruct p as [| |r|[v|e]]; cbn; (split_and!; [done..|]); first [exists []; by rewrite app_nil_r|by eexists].
Qed.

#[local] Ltac case_throws := match goal with |- context [wi_throws ?input] => destruct (wi_throws input) end.

Lemma main_step_same input y :
  let y' := main_step input y in
  y_stored y' = y_stored y ∧ y_handlers y' = y_handlers y ∧ g_last (y_globals y') = g_last (y_globals y) ∧
  ∃ o, y_out y' = y_out y ++ o.
Proof.
  unfold main_step, guarded.
  destruct (y_main y); cbn zeta;
    try (match goal with |- context [printAll_step ?i ?p ?a ?n ?y] => destruct (printAll_step_same i p a n y) as (-> & -> & -> & _ & Ho) end;
         by split_and!);
    try case_throws; cbn; split_and!; try done; try (exists []; by rewrite app_nil_r); try by eexists.
Qed.

Lemma handler_step_out i y : y_out (handler_step i y) = y_out y ∧ y_main (handler_step i y) = y_main y.
Proof. unfold handler_step. destruct (y_handlers y !! i) as [[ev []]|]; done. Qed.

Lemma handler_step_stored i y : ∃ m, y_stored (handler_step i y) = y_stored y ++ m.
Proof.
  unfold handler_step. destruct (y_handlers y !! i) as [[ev []]|]; cbn; try (exists []; by rewrite app_nil_r). by eexists.
Qed.

Lemma handler_step_seen i y k :
  seen_of k (g_seen (y_globals y)) = true → seen_of k (g_seen (y_globals (handler_step i y))) = true.
Proof.
  unfold handler_step. destruct (y_handlers y !! i) as [[ev []]|]; cbn; try done. rewrite seen_put. by destruct (decide _).
Qed.

Lemma taken_mono n k y y' : taken n k y → y_main y' = y_main y → (∃ m, y_stored y' = y_stored y ++ m) → taken n k y'.
Proof.
  unfold taken. intros Ht -> [m Hm]. destruct (y_main y); try done. destruct Ht as (Hs & x & Hx & Hc).
  split; [done|]. exists x. split; [done|]. rewrite Hm. by apply covers_app.
Qed.

(** What is owed stays owed, over every step. *)
Lemma owed_main input n x y : watch_ok y → y_stored y !! n = Some x → owed n (kind_of x) y → owed n (kind_of x) (main_step input y).
Proof.
  intros Hok Hx Ho. destruct (main_step_same input y) as (Hst & _ & _ & Hout).
  assert (Hsh : shown n (kind_of x) y → owed n (kind_of x) (main_step input y)).
  { intros Hs. left. apply (shown_mono n (kind_of x) y); [done| |done]. exists []. by rewrite app_nil_r. }
  destruct (wo_last y Hok n x Hx) as (z & Hz & Hc).
  destruct Ho as [Hs|[Hs|Ht]]; [by apply Hsh| |]; clear Hsh Hst Hout Hx; set (k := kind_of x) in *; clearbody k;
    unfold owed, taken, main_step, guarded in *.
  - destruct (y_main y) as [| | |p|kk| | | |kk saw|saw|saw last| |p| | | |]; cbn zeta;
      try (match goal with |- context [printAll_step ?i ?p ?a ?n ?y] => destruct (printAll_step_same i p a n y) as (-> & _) end; by right; left);
      try case_throws; cbn; try (by right; left).
    destruct (decide (k = kk)) as [->|Hk].
    + right. right. rewrite Hs. destruct kk, saw; cbn; try done; (split; [lia|done]).
    + right. left. rewrite seen_put. by rewrite decide_False.
  - destruct (y_main y) as [| | |p|kk| | | |kk saw|saw|saw last| |p| | | |] eqn:Hm; try done; cbn.
    + destruct Ht as [Hk Hs]. right. right. destruct k, kk, saw; cbn in *; try lia; try done; split; try lia; done.
    + right. right. split; [done|]. by exists z.
    + destruct Ht as (Hs & w & Hw & Hcw). left. exists w. split; [done|]. apply elem_of_app. right.
      exact (elem_of_turn_events _ _ _ _ Hs Hw).
Qed.

Lemma handler_keeps i y : (∀ n k, taken n k y → taken n k (handler_step i y)) ∧ (∀ n k, shown n k y → shown n k (handler_step i y)).
Proof.
  destruct (handler_step_out i y) as [Ho Hm]. pose proof (handler_step_stored i y) as Hs. split; intros n k Ht.
  - by apply (taken_mono n k y).
  - apply (shown_mono n k y); [done|done|]. exists []. by rewrite Ho, app_nil_r.
Qed.

Lemma owed_handler i n k y : owed n k y → owed n k (handler_step i y).
Proof.
  destruct (handler_keeps i y) as [Ht Hs]. intros [H|[H|H]]; [left; by apply Hs|right; left; by apply handler_step_seen|right; right; by apply Ht].
Qed.

(** A step of a callback keeps the stored values and what they are owed. *)
Lemma covers_self stored n x : stored !! n = Some x → covers stored n (kind_of x) x.
Proof. intros Hx. exists n. by split_and!. Qed.

Lemma last_handler i y : watch_ok y → ∀ n x, y_stored (handler_step i y) !! n = Some x →
  ∃ z, last_of (kind_of x) (g_last (y_globals (handler_step i y))) = Some z ∧ covers (y_stored (handler_step i y)) n (kind_of x) z.
Proof.
  intros Hok n x. unfold handler_step. destruct (y_handlers y !! i) as [[ev pc]|]; [|apply (wo_last y Hok)].
  destruct pc as [| |p|p|]; cbn; try apply (wo_last y Hok). intros Hx. rewrite last_store.
  destruct (decide (kind_of x = kind_of ev)) as [He|He].
  - exists ev. split; [done|]. exists (length (y_stored y)). apply lookup_lt_Some in Hx. rewrite length_app in Hx. cbn in Hx.
    split_and!; [lia| |done]. rewrite lookup_app_r, Nat.sub_diag by lia. done.
  - apply lookup_app_Some in Hx as [Hx|[_ Hx]].
    + destruct (wo_last y Hok n x Hx) as (z & Hz & Hc). exists z. split; [done|by apply covers_app].
    + apply list_lookup_singleton_Some in Hx as [_ <-]. done.
Qed.

Lemma watch_ok_handler i y : watch_ok y → watch_ok (handler_step i y).
Proof.
  intros Hok. split; [by apply last_handler| |].
  - intros j ev pc n. destruct (handler_step_stored i y) as [more Hmore]. rewrite Hmore.
    unfold handler_step in *. destruct (y_handlers y !! i) as [[ev' pc']|] eqn:Hi.
    2: { intros Hj Hp. apply lookup_app_l_Some. by apply (wo_position y Hok j ev pc). }
    destruct (callback_step ev' pc' y) as [pc2 y2] eqn:Hc. cbn in *.
    assert (y_handlers y2 = y_handlers y) as -> by (destruct pc'; injection Hc as <- <-; done).
    intros Hj Hp. destruct (decide (i = j)) as [->|Hij].
    + rewrite list_lookup_insert_eq in Hj by (by eapply lookup_lt_Some). injection Hj as -> ->.
      destruct pc'; injection Hc as <- <-; cbn in Hp, Hmore; simplify_eq.
      * by destruct (g_shuttingDown (y_globals y)).
      * by rewrite lookup_app_r, Nat.sub_diag by lia.
      * apply lookup_app_l_Some. by apply (wo_position y Hok j ev (HSeen n)).
    + rewrite list_lookup_insert_ne in Hj by done. apply lookup_app_l_Some. by apply (wo_position y Hok j ev pc).
  - intros j ev n Hj. destruct (y_handlers y !! i) as [[ev' pc']|] eqn:Hi.
    2: { unfold handler_step in *. rewrite Hi in *. by apply (wo_owed y Hok j). }
    destruct (decide (i = j)) as [->|Hij].
    + unfold handler_step in *. rewrite Hi in *. destruct pc'; cbn in Hj; rewrite list_lookup_insert_eq in Hj by (by eapply lookup_lt_Some);
        try destruct (g_shuttingDown _); injection Hj as -> ?; simplify_eq.
      right. left. cbn. rewrite seen_put. by rewrite decide_True.
    + apply owed_handler, (wo_owed y Hok j). unfold handler_step in Hj. rewrite Hi in Hj.
      destruct pc'; cbn in Hj; by rewrite list_lookup_insert_ne in Hj.
Qed.

Lemma watch_ok_step a y : watch_ok y → watch_ok (watch_step a y).
Proof.
  intros Hok. destruct a as [ev|i|input|]; cbn.
  - destruct (bool_decide _); [|done]. split; [exact (wo_last y Hok)| |].
    + intros i ev' pc n [Hi|[_ Hi]]%lookup_app_Some Hp; [by apply (wo_position y Hok i ev' pc)|].
      apply list_lookup_singleton_Some in Hi as [_ [= <- <-]]. done.
    + intros i ev' n [Hi|[_ Hi]]%lookup_app_Some; [by apply (wo_owed y Hok i)|].
      by apply list_lookup_singleton_Some in Hi as [_ [=]].
  - by apply watch_ok_handler.
  - destruct (main_step_same input y) as (Hst & Hh & Hl & _). split; rewrite ?Hst, ?Hh, ?Hl.
    + exact (wo_last y Hok).
    + exact (wo_position y Hok).
    + intros i ev n Hi. apply owed_main; [done| |by apply (wo_owed y Hok i)]. by apply (wo_position y Hok i ev (HRequest n)).
  - unfold signal_step. assert (∀ g', g_last g' = g_last (y_globals y) → g_seen g' = g_seen (y_globals y) → watch_ok (globals (λ _, g') y)) as Hg.
    { intros g' H1 H2. destruct Hok as [H3 H4 H5]. split; [cbn; by rewrite H1|done|]. intros i ev n Hi. destruct (H5 i ev n Hi) as [H|[H|H]];
        [by left|right; left; cbn; by rewrite H2|by right; right]. }
    destruct (g_shuttingDown (y_globals y)) eqn:Hd; [specialize (Hg ((y_globals y) <| g_running := false |>))|specialize (Hg ((y_globals y) <| g_shuttingDown := true |>))];
      unfold globals in *; rewrite ?Hd; by apply Hg.
Qed.

Lemma watch_ok_run acts y : watch_ok y → watch_ok (watch_run acts y).
Proof. revert y. induction acts as [|a acts IH]; intros y Hok; [done|]. apply IH. by apply watch_ok_step. Qed.

Lemma watch_ok_init : watch_ok watch_init.
Proof. split; intros; discriminate. Qed.

(** * Progress *)

(** The output of [printAll] for an answer. *)
Definition answer_out (r : result string InventoryView) : WatchOut :=
  match r with Ok v => OView v | Err what => OError ("printAll failed: " +:+ what) end.

Definition answers (acts : list WatchAct) : list (result string InventoryView) :=
  omap (λ a, match a with AMain input => Some (wi_answer input) | _ => None end) acts.

(** Steps of the loop until it exchanges [g_refreshRequested]. *)
Definition to_exchange (pc : MainPc) : option nat :=
  match pc with
  | LExchange => Some 0 | LTest => Some 1 | LSleep | MAnnounce => Some 2
  | MSubscribe KReadiness => Some 3 | MSubscribe KSource => Some 4 | MSubscribe KInventory => Some 5
  | LPrintAll (POutput _) => Some 3 | LPrintAll (PTest _) => Some 4 | LPrintAll PQuery => Some 5 | LPrintAll PEnter => Some 6
  | LTestAll => Some 7 | LPrint _ _ => Some 8 | LRead _ => Some 9
  | LSeen KReadiness _ => Some 10 | LSeen KSource _ => Some 11 | LSeen KInventory _ => Some 12
  | _ => None
  end.

(** Steps of the loop from there until the view is out. *)
Definition to_view (pc : MainPc) : option nat :=
  match pc with
  | LSeen KInventory _ => Some 10 | LSeen KSource _ => Some 9 | LSeen KReadiness _ => Some 8
  | LRead _ => Some 7 | LPrint _ _ => Some 6 | LTestAll => Some 5
  | LPrintAll PEnter => Some 4 | LPrintAll PQuery => Some 3 | LPrintAll (PTest _) => Some 2 | LPrintAll (POutput _) => Some 1
  | _ => None
  end.

(** In the turn that serves the request: the flag of the kind is not yet
    exchanged, or taken; after the print the line is out. *)
Definition served (n : nat) (k : WatchKind) (y : WatchSystem) : Prop :=
  shown n k y ∨ taken n k y ∨
  match y_main y with LSeen next _ => kind_index next ≤ kind_index k ∧ seen_of k (g_seen (y_globals y)) = true | _ => False end.

Definition holds_answer (asked : list (result string InventoryView)) (pc : MainPc) : Prop :=
  match pc with LPrintAll (PTest r) | LPrintAll (POutput r) => r ∈ asked | _ => True end.

(** With [fuel] steps of the loop left, the request is up, or its turn is on. *)
Inductive stage (n : nat) (k : WatchKind) (asked : list (result string InventoryView)) (fuel : nat) (y : WatchSystem) : Prop :=
| stage_requested d : to_exchange (y_main y) = Some d → d + 11 ≤ fuel → g_refreshRequested (y_globals y) = true → owed n k y →
    stage n k asked fuel y
| stage_turn d : to_view (y_main y) = Some d → d ≤ fuel → served n k y → holds_answer asked (y_main y) → stage n k asked fuel y.

(** The line is out, and a view asked for since is in the output after [out]. *)
Definition reported (n : nat) (k : WatchKind) (out : list WatchOut) (asked : list (result string InventoryView)) (y : WatchSystem) : Prop :=
  shown n k y ∧ ∃ r o, r ∈ asked ∧ y_out y = out ++ o ∧ answer_out r ∈ o.

Definition is_up (y : WatchSystem) : Prop := g_running (y_globals y) = true ∧ g_shuttingDown (y_globals y) = false.

Inductive progress (n : nat) (x : WatchEvent) (out : list WatchOut) (asked : list (result string InventoryView)) (fuel : nat) (y : WatchSystem)
    : Prop :=
| progress_done : reported n (kind_of x) out asked y → progress n x out asked fuel y
| progress_going : watch_ok y → y_stored y !! n = Some x → is_up y → (∃ o, y_out y = out ++ o) → stage n (kind_of x) asked fuel y →
    progress n x out asked fuel y.

Lemma stage_asked n k asked asked' fuel y :
  stage n k asked fuel y → (∀ r, r ∈ asked → r ∈ asked') → stage n k asked' fuel y.
Proof.
  intros Hs Ha. destruct Hs as [d H1 H2 H3 H4|d H1 H2 H3 H4]; [by apply (stage_requested _ _ _ _ _ d)|].
  apply (stage_turn _ _ _ _ _ d); [done..|]. unfold holds_answer in *. destruct (y_main y) as [| | | | | | | | | | | |[]| | | |]; auto.
Qed.

(** ** Steps of the other threads *)

Lemma handler_step_globals i y :
  let g' := y_globals (handler_step i y) in
  g_running g' = g_running (y_globals y) ∧ g_shuttingDown g' = g_shuttingDown (y_globals y) ∧
  (g_refreshRequested (y_globals y) = true → g_refreshRequested g' = true).
Proof. unfold handler_step. destruct (y_handlers y !! i) as [[ev []]|]; done. Qed.

Lemma stage_handler i n k asked fuel y : stage n k asked fuel y → stage n k asked fuel (handler_step i y).
Proof.
  destruct (handler_step_out i y) as [Ho Hm]. destruct (handler_keeps i y) as [Ht Hs].
  destruct (handler_step_globals i y) as (_ & _ & Hr).
  intros [d H1 H2 H3 H4|d H1 H2 H3 H4].
  - apply (stage_requested _ _ _ _ _ d); [by rewrite Hm|done|by apply Hr|by apply owed_handler].
  - apply (stage_turn _ _ _ _ _ d); [by rewrite Hm|done| |by rewrite Hm].
    destruct H3 as [H3|[H3|H3]]; [left; by apply Hs|right; left; by apply Ht|right; right]. rewrite Hm.
    destruct (y_main y); try done. destruct H3 as [? ?]. split; [done|by apply handler_step_seen].
Qed.

(** Histories and output only grow. *)
Lemma watch_step_grows a y :
  (∃ m, y_stored (watch_step a y) = y_stored y ++ m) ∧ ∃ o, y_out (watch_step a y) = y_out y ++ o.
Proof.
  destruct a as [ev|i|input|]; cbn.
  - destruct (bool_decide _); (split; exists []; by rewrite app_nil_r).
  - split; [apply handler_step_stored|]. destruct (handler_step_out i y) as [-> _]. exists []. by rewrite app_nil_r.
  - destruct (main_step_same input y) as (-> & _ & _ & Hout). split; [|done]. exists []. by rewrite app_nil_r.
  - unfold signal_step, globals. split; exists []; by rewrite app_nil_r.
Qed.

Lemma watch_run_stored acts y : ∃ m, y_stored (watch_run acts y) = y_stored y ++ m.
Proof.
  revert y. induction acts as [|a acts IH]; intros y; [exists []; by rewrite app_nil_r|].
  destruct (IH (watch_step a y)) as [m Hm], (watch_step_grows a y) as [[m' Hm'] _].
  exists (m' ++ m). by rewrite app_assoc, <- Hm'.
Qed.

Lemma reported_step a n k out asked y : reported n k out asked y → reported n k out (asked ++ answers [a]) (watch_step a y).
Proof.
  intros (Hs & r & o & Hr & Ho & Hin).
  destruct (watch_step_grows a y) as [Hst [o' Ho']].
  split; [apply (shown_mono n k y); [done|done|by exists o']|].
  exists r, (o ++ o'). split_and!; [apply elem_of_app; by left|by rewrite Ho', Ho, app_assoc|apply elem_of_app; by left].
Qed.

(** ** Steps of the loop *)

Lemma served_seen n k y kk saw :
  y_main y = LSeen kk saw → served n k y →
  let saw' := put_seen kk (seen_of kk (g_seen (y_globals y))) saw in
  let y' := goto (next_seen kk saw') (globals (λ g, g <| g_seen := put_seen kk false (g_seen g) |>) y) in
  shown n k y ∨ taken n k y' ∨
  match y_main y' with LSeen next _ => kind_index next ≤ kind_index k ∧ seen_of k (g_seen (y_globals y')) = true | _ => False end.
Proof.
  intros Hm [H|[H|H]]; [by left|right|right]; unfold taken in *; rewrite Hm in H; cbn -[kind_index put_seen seen_of].
  - left. destruct k, kk, saw; cbn in *; intuition lia.
  - destruct H as [Hk Hs]. destruct (decide (k = kk)) as [->|Hne].
    + left. rewrite Hs. destruct kk, saw; cbn; try done; (split; [lia|done]).
    + right. destruct k, kk; cbn in *; try done; try lia; (split; [lia|done]).
Qed.

Lemma stage_main input n x asked fuel y :
  wi_throws input = None → watch_ok y → y_stored y !! n = Some x → is_up y → stage n (kind_of x) asked (S fuel) y →
  let y' := main_step input y in
  is_up y' ∧
  (stage n (kind_of x) (asked ++ [wi_answer input]) fuel y' ∨
   shown n (kind_of x) y' ∧ ∃ r, r ∈ asked ∧ y_out y' = y_out y ++ [answer_out r]).
Proof.
  intros Hnt Hok Hx [Hrun Hdown] Hst. pose proof (owed_main input n x y Hok Hx) as Howed.
  destruct (wo_last y Hok n x Hx) as (z & Hz & Hc). set (k := kind_of x) in *. clearbody k. cbv zeta.
  destruct Hst as [d H1 H2 H3 H4|d H1 H2 H3 H4].
  - assert (is_up (main_step input y)) as Hup.
    { unfold is_up, main_step, guarded. rewrite Hnt. destruct (y_main y) as [| | | | | | | | | | | |[| | |[]]| | | |]; try done. }
    split; [done|]. left. specialize (Howed H4). destruct d as [|d].
    + assert (y_main y = LExchange) as Hm.
      { destruct (y_main y) as [| | | |[]| | | |[]| | | |[]| | | |]; cbn in H1; congruence. }
      apply (stage_turn _ _ _ _ _ 10).
      * unfold main_step. rewrite Hm. cbn. by rewrite H3.
      * lia.
      * destruct Howed as [Hs|[Hs|Ht]]; [by left| |by right; left]. right. right. revert Hs. unfold main_step. rewrite Hm. cbn.
        rewrite H3. intros Hs. split; [cbn; lia|done].
      * unfold main_step. rewrite Hm. cbn. by rewrite H3.
    + apply (stage_requested _ _ _ _ _ d); [|lia| |done]; unfold main_step, guarded; rewrite ?Hnt;
        (destruct (y_main y) as [| | | |[]| | | |[]| | | |[| | |[]]| | | |]; cbn in H1; try discriminate H1; injection H1 as <-; cbn;
         rewrite ?Hrun, ?Hdown; done).
  - assert (Hsh : shown n k y → shown n k (main_step input y)).
    { destruct (main_step_same input y) as (Hsto & _ & _ & Hout). intros Hs. apply (shown_mono n k y); [done| |done].
      exists []. by rewrite app_nil_r. }
    destruct (y_main y) as [| | |p|kk| | | |kk saw|saw|saw last| |p| | | |] eqn:Hm; try discriminate H1.
    + assert (main_step input y = goto (next_seen kk (put_seen kk (seen_of kk (g_seen (y_globals y))) saw))
        (globals (λ g, g <| g_seen := put_seen kk false (g_seen g) |>) y)) as Hy by (unfold main_step; by rewrite Hm).
      split; [by rewrite Hy|]. left. apply (stage_turn _ _ _ _ _ (pred d)).
      * rewrite Hy. destruct kk; cbn in *; by injection H1 as <-.
      * lia.
      * apply (served_seen _ _ _ _ _ Hm) in H3. rewrite Hy in *. destruct H3 as [H3|H3]; [left; by apply Hsh|right; exact H3].
      * rewrite Hy. by destruct kk.
    + injection H1 as <-. assert (main_step input y = goto (LPrint saw (g_last (y_globals y))) y) as Hy by (unfold main_step; by rewrite Hm).
      rewrite Hy in *. split; [done|]. left. apply (stage_turn _ _ _ _ _ 6); [done|lia| |done].
      destruct H3 as [H3|[H3|H3]]; unfold taken in H3; rewrite ?Hm in H3; [by left|right; left|done]. split; [done|by exists z].
    + injection H1 as <-. assert (main_step input y = goto LTestAll (emit (turn_events saw last) y)) as Hy by (unfold main_step; by rewrite Hm).
      rewrite Hy in *. split; [done|]. left. apply (stage_turn _ _ _ _ _ 5); [done|lia| |done]. left.
      destruct H3 as [H3|[H3|H3]]; unfold taken in H3; rewrite ?Hm in H3; [by apply Hsh| |done].
      destruct H3 as (Hs & w & Hw & Hcw). exists w. split; [done|]. apply elem_of_app. right. exact (elem_of_turn_events _ _ _ _ Hs Hw).
    + injection H1 as <-. assert (main_step input y = goto (LPrintAll PEnter) y) as Hy by (unfold main_step; rewrite Hm; by rewrite Hdown).
      rewrite Hy in *. split; [done|]. left. apply (stage_turn _ _ _ _ _ 4); [done|lia| |done]. left. destruct H3 as [H3|[H3|H3]]; unfold taken in H3; by rewrite ?Hm in H3.
    + assert (shown n k y) as Hs by (destruct H3 as [H3|[H3|H3]]; unfold taken in H3; by rewrite ?Hm in H3).
      specialize (Hsh Hs). unfold main_step in *. rewrite Hm in *.
      destruct p as [| |r|r]; injection H1 as <-; cbn in Hsh |- *; rewrite ?Hdown in *; (split; [by try destruct r|]).
      1-3: left. 4: right; split; [done|]; exists r; split; [exact H4|by destruct r].
      * apply (stage_turn _ _ _ _ _ 3); [done|lia|by left|done].
      * apply (stage_turn _ _ _ _ _ 2); [done|lia|by left|]. cbn. set_solver.
      * apply (stage_turn _ _ _ _ _ 1); [done|lia|by left|]. cbn. set_solver.
Qed.

(** Steps of the loop in a schedule. *)
Fixpoint main_steps (acts : list WatchAct) : nat :=
  match acts with [] => 0 | AMain _ :: acts => S (main_steps acts) | _ :: acts => main_steps acts end.

Lemma main_steps_cons a acts : main_steps (a :: acts) = main_steps [a] + main_steps acts.
Proof. by destruct a. Qed.

(** No signal comes, and the subscriptions succeed. *)
Definition undisturbed (a : WatchAct) : Prop :=
  match a with ASignal => False | AMain input => wi_throws input = None | _ => True end.

Lemma progress_step a n x out asked fuel y :
  undisturbed a → progress n x out asked (main_steps [a] + fuel) y →
  progress n x out (asked ++ answers [a]) fuel (watch_step a y).
Proof.
  intros Hns [Hd|Hok Hx Hup [o Ho] Hst]; [by apply progress_done, reported_step|].
  pose proof (watch_ok_step a y Hok) as Hok'. destruct a as [ev|i|input|]; cbn [watch_step answers omap list_omap main_steps] in *; rewrite ?app_nil_r.
  - destruct (bool_decide _); [|by apply progress_going; [done..|exists o|]]. apply progress_going; [done..|by exists o|].
    destruct Hst as [d H1 H2 H3 H4|d H1 H2 H3 H4]; [by apply (stage_requested _ _ _ _ _ d)|by apply (stage_turn _ _ _ _ _ d)].
  - destruct (handler_step_globals i y) as (H1 & H2 & _), (handler_step_stored i y) as [more Hm], (handler_step_out i y) as [Hout _].
    apply progress_going; [done| | | |by apply stage_handler].
    + rewrite Hm. by apply lookup_app_l_Some.
    + unfold is_up. by rewrite H1, H2.
    + exists o. by rewrite Hout.
  - destruct (main_step_same input y) as (Hsto & _ & _ & [o' Ho']).
    destruct (stage_main input n x asked fuel y Hns Hok Hx Hup Hst) as [Hup' [Hst'|(Hs & r & Hr & Hout)]].
    + apply progress_going; [done|by rewrite Hsto|done| |done]. exists (o ++ o'). by rewrite Ho', Ho, app_assoc.
    + apply progress_done. split; [done|]. exists r, (o ++ [answer_out r]). split_and!; [set_solver|by rewrite Hout, Ho, app_assoc|set_solver].
  - done.
Qed.

Lemma progress_run acts n x out asked fuel y :
  Forall undisturbed acts → progress n x out asked (main_steps acts + fuel) y →
  progress n x out (asked ++ answers acts) fuel (watch_run acts y).
Proof.
  intros Hns. revert asked y. induction acts as [|a acts IH]; intros asked y Hp; [by rewrite app_nil_r|].
  apply Forall_cons in Hns as [Ha Hns].
  assert (answers (a :: acts) = answers [a] ++ answers acts) as -> by (unfold answers; by rewrite <- omap_app).
  rewrite app_assoc. apply IH; [done|]. apply progress_step; [done|]. rewrite Nat.add_assoc.
  by rewrite <- main_steps_cons.
Qed.

(** ** Nothing is invented, and a signal ends the program *)

Record watch_sound (arrived : list WatchEvent) (y : WatchSystem) : Prop := mkWatchSound {
  ws_out x : OEvent x ∈ y_out y → x ∈ y_stored y;
  ws_last k x : last_of k (g_last (y_globals y)) = Some x → x ∈ y_stored y;
  ws_print saw last k x : y_main y = LPrint saw last → last_of k last = Some x → x ∈ y_stored y;
  ws_stored x : x ∈ y_stored y → x ∈ arrived;
  ws_handlers ev pc : (ev, pc) ∈ y_handlers y → ev ∈ arrived
}.

Definition arrivals (acts : list WatchAct) : list WatchEvent :=
  omap (λ a, match a with AArrive ev => Some ev | _ => None end) acts.

Lemma turn_events_last saw last x : OEvent x ∈ turn_events saw last → ∃ k, last_of k last = Some x.
Proof.
  intros (k & Hx & _)%list_elem_of_bind. exists k. destruct (seen_of k saw); [|by apply elem_of_nil in Hx].
  destruct (last_of k last); [|by apply elem_of_nil in Hx]. apply list_elem_of_singleton in Hx. congruence.
Qed.

(** Number of steps of [main] until it returns when [g_running] is false. *)
Definition to_return (pc : MainPc) : nat :=
  let printing p after := match p with PQuery => 2 + after | PTest _ => 1 + after | PEnter | POutput _ => after end in
  match pc with
  | MReturn _ => 0 | MReset => 1 | MShutdown => 2 | LTest => 3 | LSleep | MAnnounce => 4
  | LPrintAll p => printing p 5 | LTestAll => 6 | LPrint _ _ => 7 | LRead _ => 8
  | LSeen KReadiness _ => 9 | LSeen KSource _ => 10 | LSeen KInventory _ => 11 | LExchange => 12
  | MSubscribe KReadiness => 5 | MSubscribe KSource => 6 | MSubscribe KInventory => 7
  | MInitialPrint p => printing p 8 | MInitial => 9 | MWait => 10 | MConstruct => 11
  end.

Definition told_to_stop (y : WatchSystem) : Prop := g_running (y_globals y) = false ∧ g_shuttingDown (y_globals y) = true.

Lemma told_to_stop_step a y : told_to_stop y → told_to_stop (watch_step a y) ∧
  to_return (y_main (watch_step a y)) ≤ to_return (y_main y) - main_steps [a].
Proof.
  intros [Hr Hd]. destruct a as [ev|i|input|]; cbn [watch_step].
  - destruct (bool_decide _); cbn; (split; [done|lia]).
  - destruct (handler_step_globals i y) as (H1 & H2 & _), (handler_step_out i y) as [_ Hm]. unfold told_to_stop.
    rewrite H1, H2, Hm. cbn. split; [done|lia].
  - unfold told_to_stop, main_step, guarded.
    destruct (y_main y) as [| | |[| | |[]]|[]| | | |[]| | | |[| | |[]]| | | |] eqn:Hm; cbn; try case_throws; cbn; rewrite ?Hr, ?Hd, ?Hm; cbn;
      try destruct (g_refreshRequested _); cbn; (split; [done|lia]).
  - unfold told_to_stop, signal_step, globals. rewrite Hd. cbn. split; [done|lia].
Qed.

Lemma watch_stops acts y : told_to_stop y → to_return (y_main y) ≤ main_steps acts → ∃ code, y_main (watch_run acts y) = MReturn code.
Proof.
  revert y. induction acts as [|a acts IH]; intros y Hy Hn.
  - cbn in *. destruct (y_main y) as [| | |[]|[]| | | |[]| | | |[]| | | |code]; cbn in Hn |- *; try lia. by exists code.
  - destruct (told_to_stop_step a y Hy) as [Hy' Hle]. apply IH; [done|].
    rewrite main_steps_cons in Hn. unfold flip. lia.
Qed.

Lemma watch_sound_init : watch_sound [] watch_init.
Proof. split; cbn; try (by intros ? []%elem_of_nil); try (by intros ? ? []%elem_of_nil); try done. by intros []. Qed.

(** Parts of the output and of the program point. *)
Lemma main_step_events input y x :
  OEvent x ∈ y_out (main_step input y) → OEvent x ∈ y_out y ∨ ∃ saw last, y_main y = LPrint saw last ∧ OEvent x ∈ turn_events saw last.
Proof.
  unfold main_step, guarded. destruct (y_main y) as [| | |[| | |[]]|[]| | | |[]| |saw last| |[| | |[]]| | | |] eqn:Hm; cbn -[turn_events];
    try case_throws; cbn -[turn_events]; try (by left); try (destruct (wi_ready input));
    rewrite ?app_nil_r; try (by left); intros [Hx|Hx]%elem_of_app; try (by left);
    try (by repeat (apply elem_of_cons in Hx as [Hx|Hx]; [discriminate Hx|]); apply elem_of_nil in Hx).
  all: right; by exists saw, last.
Qed.

Lemma main_step_point input y saw last : y_main (main_step input y) = LPrint saw last → last = g_last (y_globals y).
Proof.
  unfold main_step, guarded. destruct (y_main y) as [| | |[| | |[]]|[]| | | |[]| |saw' last'| |[| | |[]]| | | |] eqn:Hm; cbn;
    try case_throws; cbn; rewrite ?Hm; try done; try (destruct (g_shuttingDown _); done); try (destruct (g_running _); done);
    try (destruct (g_refreshRequested _); done).
  by intros [= <- <-].
Qed.

Lemma elem_of_insert_sub {A} (l : list A) i x y : x ∈ <[i := y]> l → x ∈ l ∨ x = y.
Proof.
  intros (j & Hj)%list_elem_of_lookup. destruct (decide (i = j)) as [->|Hn].
  - right. apply lookup_lt_Some in Hj as Hl. rewrite length_insert in Hl. rewrite list_lookup_insert_eq in Hj by done. congruence.
  - left. rewrite list_lookup_insert_ne in Hj by done. by eapply list_elem_of_lookup_2.
Qed.

Lemma watch_sound_step a arrived y : watch_sound arrived y → watch_sound (arrived ++ arrivals [a]) (watch_step a y).
Proof.
  intros [H1 H2 H3 H4 H5].
  assert (Hmore : ∀ x, x ∈ arrived → x ∈ arrived ++ arrivals [a]) by set_solver.
  destruct a as [ev|i|input|]; cbn [watch_step].
  - destruct (bool_decide _); split; cbn; eauto. intros ev' pc [Hi|Hi]%elem_of_app; [eauto|].
    apply list_elem_of_singleton in Hi as [= -> ->]. set_solver.
  - destruct (handler_step_out i y) as [Ho Hm], (handler_step_stored i y) as [m Hst].
    assert (Hkeep : ∀ x, x ∈ y_stored y → x ∈ y_stored (handler_step i y)) by (intros x; rewrite Hst; set_solver).
    unfold handler_step in *. destruct (y_handlers y !! i) as [[ev pc]|] eqn:Hi; [|split; eauto].
    assert (ev ∈ arrived) as Hev by (apply (H5 ev pc); by eapply list_elem_of_lookup_2).
    split; rewrite ?Ho, ?Hm; [eauto| |eauto| |].
    + intros k x. destruct pc; cbn in *; eauto. rewrite last_store. destruct (decide _); [intros [= <-]; set_solver|eauto].
    + destruct pc; cbn; eauto. intros x [Hx| ->%list_elem_of_singleton]%elem_of_app; eauto.
    + intros ev' pc'. unfold set_field, set_y_handlers. destruct pc; cbn; intros [Hx|[= -> ->]]%elem_of_insert_sub; eauto.
  - destruct (main_step_same input y) as (Hst & Hh & Hl & _). split; rewrite ?Hst, ?Hh, ?Hl; eauto.
    + intros x [Hx|(saw & last & Hm & Hk)]%main_step_events; [by apply H1|]. apply turn_events_last in Hk as [k Hk]. by apply (H3 saw last k).
    + intros saw last k x ->%main_step_point. eauto.
  - unfold signal_step, globals. destruct (g_shuttingDown (y_globals y)); split; cbn; eauto.
Qed.

Lemma watch_sound_run acts arrived y : watch_sound arrived y → watch_sound (arrived ++ arrivals acts) (watch_run acts y).
Proof.
  revert arrived y. induction acts as [|a acts IH]; intros arrived y Hs; [by rewrite app_nil_r|].
  assert (arrivals (a :: acts) = arrivals [a] ++ arrivals acts) as -> by (unfold arrivals; by rewrite <- omap_app).
  rewrite app_assoc. by apply IH, watch_sound_step.
Qed.

(** * Properties *)

(** C36: no event of the inventory is lost on the display, whatever the
    interleaving of callbacks and loop: when a callback has stored its event and
    raised its flag, and no signal comes, then 23 steps of the loop after the
    callback raises the refresh its line, or that of a later event of the same kind, has been printed,
    and the inventory, asked for after the callback was done, has been printed
    too (or the error of asking). Every event printed has arrived. And once a
    signal is handled, 12 steps of the main thread end the program. *)
Theorem watch_no_event_lost acts i ev n acts' :
  let y := watch_run acts watch_init in
  let y1 := watch_step (AHandler i) y in
  let y2 := watch_run acts' y1 in
  is_up y → is_Some (to_exchange (y_main y)) → y_handlers y !! i = Some (ev, HRequest n) →
  Forall undisturbed acts' → 23 ≤ main_steps acts' →
  y_stored y2 !! n = Some ev ∧
  (∃ x, covers (y_stored y2) n (kind_of ev) x ∧ OEvent x ∈ y_out y2) ∧
  (∃ r o, r ∈ answers acts' ∧ y_out y2 = y_out y1 ++ o ∧ answer_out r ∈ o) ∧
  (∀ x, OEvent x ∈ y_out y2 → x ∈ arrivals (acts ++ AHandler i :: acts')) ∧
  (∀ acts'', 12 ≤ main_steps acts'' → ∃ code, y_main (watch_run acts'' (watch_step ASignal (watch_step ASignal y2))) = MReturn code).
Proof.
  intros y y1 y2 Hup Hloop Hi Hacts Hlen.
  assert (watch_ok y) as Hok by apply watch_ok_run, watch_ok_init.
  pose proof (wo_position y Hok i ev _ n Hi eq_refl) as Hn. pose proof (wo_owed y Hok i ev n Hi) as Ho.
  destruct Hloop as [d Hd].
  assert (progress n ev (y_out y1) [] (main_steps acts' + 0) y1) as Hp.
  { destruct (handler_step_out i y) as [_ Hm], (handler_step_stored i y) as [more Hst], (handler_step_globals i y) as (H1 & H2 & _).
    apply progress_going; [by apply watch_ok_step| | |by exists []; rewrite app_nil_r|].
    - cbn. rewrite Hst. by apply lookup_app_l_Some.
    - destruct Hup. unfold is_up, y1. cbn. by rewrite H1, H2.
    - apply (stage_requested _ _ _ _ _ d); [unfold y1; cbn; by rewrite Hm| | |by apply owed_handler].
      + assert (d ≤ 12) by (clear -Hd; destruct (y_main y) as [| | | |[]| | | |[]| | | |[]| | | |]; cbn in Hd; simplify_eq; lia). lia.
      + unfold y1. cbn. unfold handler_step. by rewrite Hi. }
  apply progress_run in Hp; [|done]. cbn [app] in Hp. fold y2 in Hp.
  assert (reported n (kind_of ev) (y_out y1) (answers acts') y2) as [Hsh Hr].
  { destruct Hp as [Hp|_ _ _ _ [d' H1 H2|d' H1 H2]]; [done|lia|].
    destruct (y_main y2) as [| | | |[]| | | |[]| | | |[]| | | |]; cbn in H1; simplify_eq; lia. }
  assert (∃ more, y_stored y2 = y_stored y ++ more) as [more Hmore] by (apply (watch_run_stored (AHandler i :: acts'))).
  split_and!; [rewrite Hmore; by apply lookup_app_l_Some|exact Hsh|exact Hr| |].
  - intros x Hx. pose proof (watch_sound_run (acts ++ AHandler i :: acts') [] watch_init watch_sound_init) as Hs.
    cbn [app] in Hs. unfold watch_run in Hs. rewrite foldl_app in Hs. by apply (ws_stored _ _ Hs), (ws_out _ _ Hs).
  - intros acts'' Hl. apply watch_stops.
    + unfold told_to_stop. cbn. unfold signal_step, globals. destruct (g_shuttingDown (y_globals y2)) eqn:Hd2; cbn; by rewrite ?Hd2.
    + etrans; [|exact Hl]. assert (∀ pc, to_return pc ≤ 12) as Hmax; [|apply Hmax].
      intros [| | |[]|[]| | | |[]| | | |[]| | | |]; cbn; lia.
Qed.

(** ** Witness

    An inventory event while the loop prints an earlier source event. *)
Definition demo_view : InventoryView := mkView default_InventorySnapshot ∅ ∅.
Definition demo_main : WatchAct := AMain (mkMainInput None true (Ok demo_view)).
Definition demo_acts : list WatchAct :=
  replicate 12 demo_main ++ [AArrive (WSource "s"); AHandler 0; AHandler 0; AHandler 0; AHandler 0] ++ replicate 7 demo_main ++
  [AArrive (WInventory "uuid"); AHandler 1; AHandler 1; AHandler 1].

Lemma watch_no_event_lost_witness :
  let y2 := watch_run (replicate 23 demo_main) (watch_step (AHandler 1) (watch_run demo_acts watch_init)) in
  ∃ x, covers (y_stored y2) 1 KInventory x ∧ OEvent x ∈ y_out y2.
Proof.
  refine (proj1 (proj2 (watch_no_event_lost demo_acts 1 (WInventory "uuid") 1 (replicate 23 demo_main) _ _ _ _ _))).
  - split; vm_compute; reflexivity.
  - vm_compute. by eexists.
  - vm_compute. reflexivity.
  - by apply Forall_replicate.
  - vm_compute. lia.
Defined.

(** What arrives between the first display and the subscriptions is not shown:
    the display stays as it was until the next event. *)
Lemma change_before_subscription_unseen :
  let acts := replicate 6 demo_main ++ [AArrive (WInventory "uuid")] ++ replicate 100 demo_main in
  main_steps acts = 106 ∧ y_main (watch_run acts watch_init) ≠ MReturn 0 ∧
  y_out (watch_run acts watch_init) =
    [OText "=== Initial inventory ==="; OView demo_view; OText "Monitoring inventory changes (Ctrl-C to exit)..."].
Proof. split_and!; [vm_compute; reflexivity|vm_compute; discriminate|vm_compute; reflexivity]. Qed.
