(* ===== verification/Pipeline.v ===== *)
(** The way from the kernel's links and addresses to the model's local state,
    over the components in between: [NetlinkState] suppresses duplicates, the
    mapper makes observations ([service/NetlinkObservationMapper.cpp]), the
    runtime queues them ([makeCallbacks], [BoundedObservationQueue]) and the
    consumer applies them ([observationLoop]) to the engine's tracker; and the way
    from a link event to the LLDP neighbours of the interface
    ([LldpObserver]). *)

From S2P Require Import Prelude Contract Observation LocalState Filter Engine NetlinkState LldpSource LldpObserver Runtime.

(** * Composition *)

(** The sinks of the runtime's [makeCallbacks]: observations are queued under
    Netlink; [onLinkStateForLldp] is a call on the observer, and merged devices
    have no callback. *)
Definition runtime_sinks : ObservationSinks := mkSinks true true true true true.

Definition sink_item (c : SinkCall) : option ObservationItem :=
  mkItem SrcNetlink <$>
    match c with
    | SinkLink o => Some (PLink o)
    | SinkAddress o => Some (PAddress o)
    | SinkFdb o => Some (PFdb o)
    | SinkNeighbor o => Some (PNeighbor o)
    | SinkLinkStateForLldp _ _ => None
    end.

(** What an event of the monitor puts into the queue. *)
Definition event_items (now : time_point) (ev : NetEvent) : list ObservationItem :=
  omap sink_item
    match ev with
    | EmitInput (NLink e) => cb_onLinkChanged runtime_sinks now e
    | EmitInput (NAddress e) => cb_onInterfaceIpChanged runtime_sinks now e
    | EmitInput (NFdb e) => cb_onFdbChanged runtime_sinks now e
    | EmitInput (NNeighbor e) => cb_onNeighborChanged runtime_sinks now e
    | EmitDevice _ => []
    end.

(** The callback of a link's state, on the published observer ([None]: there is
    none), over any source. *)
Section link.
Context {S : Type} `{ILldpSource S}.

Definition onLinkStateForLldp (now : time_point) (env : il_env) (ifname : string) (up : bool) (observer : option S)
    : list LldpObservation * option S :=
  match observer with
  | None => ([], None)
  | Some s => let '(out, s) := if up then onInterfaceUp env ifname s else onInterfaceDown now ifname s in (out, Some s)
  end.

(** The callback of a link event: what it pushes, in order, and the observer's
    source after it. *)
Definition link_call (now : time_point) (env : il_env) (acc : list ObservationItem * option S) (c : SinkCall)
    : list ObservationItem * option S :=
  match c with
  | SinkLinkStateForLldp ifname up =>
      let '(out, observer) := onLinkStateForLldp now env ifname up acc.2 in
      (acc.1 ++ ((λ o, mkItem SrcLldp (PLldp o)) <$> out), observer)
  | c => (acc.1 ++ option_list (sink_item c), acc.2)
  end.

Definition runtime_onLink (now : time_point) (env : il_env) (e : LinkEvent) (observer : option S)
    : list ObservationItem * option S :=
  foldl (link_call now env) ([], observer) (cb_onLinkChanged runtime_sinks now e).
End link.

(** [observationLoop]: items in the order they are popped, with the clock. *)
Definition observationLoop `{InetPton} (l : list (time_point * time_point * ObservationItem)) (e : ObservationModelEngine)
    : ObservationModelEngine := foldl (λ e x, (applyObservation x.1.1 x.1.2 x.2 e).1) e l.

(** * Specification *)

Definition cidr_of (k : InterfaceAddressKey) : string := ak_address k +:+ "/" +:+ pretty (ak_prefixLen k).

Definition has_cidr (A : gset InterfaceAddressKey) (name : string) (family : Z) (c : string) : Prop :=
  ∃ k, k ∈ A ∧ ak_ifname k = name ∧ ak_family k = family ∧ c = cidr_of k.

(** An interface of the model is what the kernel's tables hold for its name. *)
Record iface_matches (link : option LinkEvent) (A : gset InterfaceAddressKey) (name : string) (i : LocalInterfaceState)
    : Prop := mkMatches {
  im_link : match link with
            | Some e => if_ifname i = name ∧ if_ifindex i = le_ifindex e ∧ if_mac i = le_mac e ∧ if_adminUp i = le_adminUp e ∧
                if_running i = le_running e ∧ if_operstate i = pretty (le_operState e) ∧ if_masterIfname i = le_masterIfname e
            | None => if_ifname i = "" ∧ if_mac i = ""
            end;
  im_ipv4 c : c ∈ if_ipv4 i ↔ has_cidr A name AF_INET c;
  im_ipv6 c : c ∈ if_ipv6 i ↔ has_cidr A name AF_INET6 c
}.

(** Names and addresses as the kernel has them: a link has a name, an address a
    text without a slash and one of the two families. *)
Definition key_ok (k : InterfaceAddressKey) : Prop :=
  ak_address k ≠ "" ∧ str_has "/" (ak_address k) = false ∧ (ak_family k = AF_INET ∨ ak_family k = AF_INET6).

Definition input_ok (i : NetInput) : Prop :=
  match i with
  | NLink e => le_ifname e ≠ ""
  | NAddress e => key_ok (mkInterfaceAddressKey (ie_ifname e) (ie_family e) (ie_address e) (ie_prefixLen e))
  | _ => True
  end.

Definition event_ok (ev : NetEvent) : Prop := match ev with EmitInput i => input_ok i | EmitDevice _ => True end.

(** * The tracker under a policy *)

Section track.
Context (include : string → bool).

Definition track (t : LocalStateTracker) (x : ObservationItem) : LocalStateTracker :=
  match it_payload x with
  | PLink o => if include (lo_ifname o) then (tracker_onLinkObservation o t).2 else t
  | PAddress o => if include (ao_ifname o) then (tracker_onAddressObservation o t).2 else t
  | _ => t
  end.

Definition matches (m : Mirror) (t : LocalStateTracker) : Prop :=
  set_Forall key_ok (mi_addresses m) ∧
  ∀ i, if include i then iface_matches (mi_links m !! i) (mi_addresses m) i (iface_at t i) else interfaces t !! i = None.

Lemma cidr_of_inj k k' :
  key_ok k → key_ok k' → cidr_of k = cidr_of k' → ak_address k = ak_address k' ∧ ak_prefixLen k = ak_prefixLen k'.
Proof.
  intros (_ & H1 & _) (_ & H2 & _). unfold cidr_of. intros He.
  assert (ak_address k = ak_address k') as Ha.
  { apply (f_equal (str_before "/")) in He. unfold String.append in He. cbn in He.
    rewrite !(str_before_app "/") in He by done. congruence. }
  split; [done|]. rewrite Ha in He. assert (Hinj : ∀ a s t, a +:+ s = a +:+ t → s = t).
  { clear. unfold String.append. intros a. induction a as [|c a IH]; intros s t; cbn; [done|]. intros [= He]. by apply IH. }
  apply Hinj, Hinj in He. by apply (inj pretty).
Qed.

Lemma extract_cidr k : key_ok k → extractIpFromCidr (cidr_of k) = ak_address k.
Proof.
  intros (_ & Hs & _). unfold extractIpFromCidr, cidr_of.
  change ("/" +:+ pretty (ak_prefixLen k)) with (String "/" (pretty (ak_prefixLen k))). by rewrite str_before_app.
Qed.

(** What the operations of the tracker do to the interface table. *)
Lemma link_interfaces o t :
  interfaces (tracker_onLinkObservation o t).2 =
    match lo_event o with
    | EvRemoved => delete (lo_ifname o) (interfaces t)
    | EvPresent =>
        let i := iface_at t (lo_ifname o) in
        <[lo_ifname o := mkLocalInterfaceState (lo_ifindex o) (lo_ifname o) (lo_mac o) (lo_adminUp o) (lo_running o)
            (lo_operstate o) (lo_masterIfname o) (if_ipv4 i) (if_ipv6 i)]> (interfaces t)
    end.
Proof.
  unfold tracker_onLinkObservation. destruct (lo_event o).
  - cbv zeta. cbn [snd]. destruct (str_empty _); [by autorewrite with rmc|].
    case_bool_decide as Hm; [by autorewrite with rmc|]. autorewrite with rmc. by rewrite <- Hm.
  - destruct (interfaces t !! lo_ifname o) as [i|] eqn:Hi; cbn [snd]; [by autorewrite with rmc|].
    by rewrite delete_id.
Qed.

Definition with_cidrs (f : gset string → gset string) (family : Z) (i : LocalInterfaceState) : LocalInterfaceState :=
  if (family =? AF_INET)%Z then i <| if_ipv4 := f (if_ipv4 i) |> else i <| if_ipv6 := f (if_ipv6 i) |>.

Lemma address_interfaces o t :
  extractIpFromCidr (ao_cidr o) ≠ "" →
  interfaces (tracker_onAddressObservation o t).2 =
    <[ao_ifname o := with_cidrs (match ao_event o with
                                 | EvPresent => λ X, {[ao_cidr o]} ∪ X
                                 | EvRemoved => λ X, X ∖ {[ao_cidr o]}
                                 end) (ao_family o) (iface_at t (ao_ifname o))]> (interfaces t).
Proof.
  intros Hip%str_empty_false. unfold tracker_onAddressObservation, with_cidrs. rewrite Hip.
  destruct (ao_event o), (ao_family o =? AF_INET)%Z; destruct (decide _) as [Hc|Hc]; cbn [snd]; autorewrite with rmc; try done;
    match goal with |- <[_ := ?i]> _ = <[_ := ?j]> _ => assert (j = i) as ->; [|done] end;
    destruct (iface_at t (ao_ifname o)); unfold set_field, set_if_ipv4, set_if_ipv6; cbn in *; f_equal; set_solver.
Qed.

Lemma iface_at_insert t t' n i n' :
  interfaces t' = <[n := i]> (interfaces t) → iface_at t' n' = if decide (n = n') then i else iface_at t n'.
Proof.
  intros He. unfold iface_at. rewrite He. destruct (decide (n = n')) as [->|Hn]; [by rewrite lookup_insert_eq|].
  by rewrite lookup_insert_ne.
Qed.

Lemma iface_at_delete t t' n n' :
  interfaces t' = delete n (interfaces t) → iface_at t' n' = if decide (n = n') then default_iface else iface_at t n'.
Proof.
  intros He. unfold iface_at. rewrite He. destruct (decide (n = n')) as [->|Hn]; [by rewrite lookup_delete_eq|].
  by rewrite lookup_delete_ne.
Qed.

(** The addresses of a name after the operations of the mirror. *)
Lemma has_cidr_kept A n i f c : n ≠ i → has_cidr (A ∖ filter (on_interface n) A) i f c ↔ has_cidr A i f c.
Proof.
  intros Hn. unfold has_cidr. split; intros (k & Hk & Hi & Hr); exists k; (split; [|done]); [set_solver|].
  apply elem_of_difference. split; [done|]. intros [Ho _]%elem_of_filter. unfold on_interface in Ho. congruence.
Qed.

Lemma has_cidr_gone A n f c : ¬ has_cidr (A ∖ filter (on_interface n) A) n f c.
Proof.
  intros (k & [Hk Hn]%elem_of_difference & Hi & _). apply Hn, elem_of_filter. by split.
Qed.

Definition is_cidr (k : InterfaceAddressKey) (i : string) (f : Z) (c : string) : Prop :=
  ak_ifname k = i ∧ ak_family k = f ∧ c = cidr_of k.

Lemma has_cidr_add k A i f c : has_cidr ({[k]} ∪ A) i f c ↔ is_cidr k i f c ∨ has_cidr A i f c.
Proof.
  unfold has_cidr, is_cidr. split.
  - intros (k' & [->%elem_of_singleton|Hk]%elem_of_union & Hr); [by left|right; by exists k'].
  - intros [Hr|(k' & Hk & Hr)]; [exists k|exists k']; (split; [set_solver|done]).
Qed.

Lemma has_cidr_del k A i f c :
  key_ok k → set_Forall key_ok A → has_cidr (A ∖ {[k]}) i f c ↔ has_cidr A i f c ∧ ¬ is_cidr k i f c.
Proof.
  intros Hk HA. unfold has_cidr, is_cidr. split.
  - intros (k' & [Hin Hne]%elem_of_difference & Hi & Hf & ->). split; [by exists k'|]. intros (Hi' & Hf' & Hc).
    apply Hne, elem_of_singleton. apply cidr_of_inj in Hc as [H1 H2]; [|by apply HA|done].
    destruct k, k'. cbn in *. congruence.
  - intros [(k' & Hin & Hi & Hf & ->) Hn]. exists k'. split; [|done]. apply elem_of_difference. split; [done|].
    intros ->%elem_of_singleton. by apply Hn.
Qed.

Lemma track_link now e m t :
  le_ifname e ≠ "" → matches m t →
  matches (mirror_event m (EmitInput (NLink e))) (foldl track t (event_items now (EmitInput (NLink e)))).
Proof.
  intros Hne [HA Hm]. destruct m as [L A F N V]. cbn [mi_links mi_addresses] in *.
  unfold event_items. cbn [omap list_omap cb_onLinkChanged when app sink_item fmap option_fmap option_map foldl mirror_event runtime_sinks
    has_onLink has_onLinkStateForLldp]. set (o := toLinkObservation e now).
  change (track t _) with (if include (lo_ifname o) then (tracker_onLinkObservation o t).2 else t).
  pose proof (link_interfaces o t) as Hl. cbv zeta in Hl.
  assert (lo_event o = if le_present e then EvPresent else EvRemoved) as Hev by done. rewrite Hev in Hl.
  change (lo_ifname o) with (le_ifname e) in *.
  assert (Hin : ∀ i, include i = true → le_ifname e ≠ i → iface_at (if include (le_ifname e) then (tracker_onLinkObservation o t).2 else t) i = iface_at t i).
  { intros i _ Hn. destruct (include (le_ifname e)); [|done]. destruct (le_present e).
    - by rewrite (iface_at_insert _ _ _ _ _ Hl), decide_False.
    - by rewrite (iface_at_delete _ _ _ _ Hl), decide_False. }
  assert (Hout : ∀ i, include i = false → interfaces t !! i = None →
    interfaces (if include (le_ifname e) then (tracker_onLinkObservation o t).2 else t) !! i = None).
  { intros i Hi Hnone. destruct (include (le_ifname e)) eqn:He; [|done]. assert (le_ifname e ≠ i) by congruence. rewrite Hl.
    destruct (le_present e); [by rewrite lookup_insert_ne|by rewrite lookup_delete_ne]. }
  destruct (le_present e) eqn:Hp; (split; cbn [mi_links mi_addresses]; [|intros i; specialize (Hm i)]).
  - done.
  - destruct (include i) eqn:Hi; [|by apply Hout]. destruct (decide (le_ifname e = i)) as [<-|Hn].
    + rewrite Hi, (iface_at_insert _ _ _ _ _ Hl), decide_True by done. rewrite lookup_insert_eq. split; cbn; [done|apply Hm|apply Hm].
    + by rewrite lookup_insert_ne, Hin.
  - intros k [Hk _]%elem_of_difference. by apply HA.
  - destruct (include i) eqn:Hi; [|by apply Hout]. destruct (decide (le_ifname e = i)) as [<-|Hn].
    + rewrite Hi, (iface_at_delete _ _ _ _ Hl), decide_True by done. rewrite lookup_delete_eq.
      split; [done| |]; intros c; cbn; (split; [by intros ?%elem_of_empty|by intros ?%has_cidr_gone]).
    + rewrite lookup_delete_ne, Hin by done. destruct Hm as [H1 H2 H3].
      split; [done| |]; intros c; rewrite has_cidr_kept by done; [apply H2|apply H3].
Qed.

Definition key_of (e : InterfaceIpEvent) : InterfaceAddressKey :=
  mkInterfaceAddressKey (ie_ifname e) (ie_family e) (ie_address e) (ie_prefixLen e).

(** The addresses of one interface after an address event. *)
Lemma address_matches e link A i st :
  key_ok (key_of e) → set_Forall key_ok A → iface_matches link A i st →
  let A' := if ie_present e then {[key_of e]} ∪ A else A ∖ {[key_of e]} in
  iface_matches link A' i
    (if decide (ie_ifname e = i)
     then with_cidrs (if ie_present e then (λ X, {[makeCidr e]} ∪ X) else (λ X, X ∖ {[makeCidr e]})) (ie_family e) st
     else st).
Proof.
  intros Hk HA [H1 H2 H3] A'. change (makeCidr e) with (cidr_of (key_of e)).
  assert (HA' : ∀ f c, has_cidr A' i f c ↔
    if ie_present e then is_cidr (key_of e) i f c ∨ has_cidr A i f c else has_cidr A i f c ∧ ¬ is_cidr (key_of e) i f c).
  { intros f c. unfold A'. destruct (ie_present e); [apply has_cidr_add|by apply has_cidr_del]. }
  destruct (decide (ie_ifname e = i)) as [Hi|Hi].
  - unfold with_cidrs. destruct (Z.eqb_spec (ie_family e) AF_INET) as [Hf|Hf].
    + split; [by destruct link| |]; intros c; rewrite HA'; unfold is_cidr; cbn; (destruct (ie_present e); [rewrite ?elem_of_union|rewrite ?elem_of_difference]);
        rewrite ?elem_of_singleton, ?H2, ?H3, ?Hf; naive_solver.
    + destruct Hk as (_ & _ & [Hf'|Hf']); [done|]. cbn in Hf'.
      split; [by destruct link| |]; intros c; rewrite HA'; unfold is_cidr; cbn; (destruct (ie_present e); [rewrite ?elem_of_union|rewrite ?elem_of_difference]);
        rewrite ?elem_of_singleton, ?H2, ?H3, ?Hf'; naive_solver.
  - split; [done| |]; intros c; rewrite HA'; unfold is_cidr; cbn; destruct (ie_present e); rewrite ?H2, ?H3; naive_solver.
Qed.

Lemma track_address now e m t :
  key_ok (key_of e) → matches m t →
  matches (mirror_event m (EmitInput (NAddress e))) (foldl track t (event_items now (EmitInput (NAddress e)))).
Proof.
  intros Hk [HA Hm]. destruct m as [L A F N V]. cbn [mi_links mi_addresses] in *.
  unfold event_items. cbn [omap list_omap cb_onInterfaceIpChanged when sink_item fmap option_fmap option_map foldl mirror_event runtime_sinks
    has_onAddress]. set (o := toAddressObservation e now).
  change (track t _) with (if include (ie_ifname e) then (tracker_onAddressObservation o t).2 else t). fold (key_of e).
  assert (extractIpFromCidr (ao_cidr o) ≠ "") as Hip
    by (change (ao_cidr o) with (cidr_of (key_of e)); rewrite extract_cidr by done; apply Hk).
  pose proof (address_interfaces o t Hip) as Hl. change (ao_ifname o) with (ie_ifname e) in Hl.
  split; cbn [mi_links mi_addresses].
  - destruct (ie_present e); [|intros k [Hin _]%elem_of_difference; by apply HA].
    intros k [->%elem_of_singleton|Hin]%elem_of_union; [done|by apply HA].
  - intros i. specialize (Hm i). destruct (include i) eqn:Hi.
    + pose proof (address_matches e _ _ _ _ Hk HA Hm) as Ha. cbv zeta in Ha.
      destruct (include (ie_ifname e)) eqn:He.
      * rewrite (iface_at_insert _ _ _ _ _ Hl). change (ao_event o) with (toObsEvent (ie_present e)).
        destruct (decide (ie_ifname e = i)) as [<-|]; [|done]. by destruct (ie_present e).
      * rewrite decide_False in Ha by congruence. done.
    + destruct (include (ie_ifname e)) eqn:He; [|done]. rewrite Hl, lookup_insert_ne by congruence. done.
Qed.

Lemma track_event now ev m t :
  event_ok ev → matches m t → matches (mirror_event m ev) (foldl track t (event_items now ev)).
Proof.
  destruct ev as [[e|e|e|e]|d]; intros Hok Hm; [by apply track_link|by apply track_address|..]; by destruct m.
Qed.

Lemma track_events timed m t :
  Forall (λ p, event_ok p.2) timed → matches m t →
  matches (foldl mirror_event m timed.*2) (foldl track t (timed ≫= λ p, event_items p.1 p.2)).
Proof.
  intros Hok. revert m t. induction Hok as [|[now ev] timed Hev _ IH]; intros m t Hm; [done|].
  rewrite bind_cons, foldl_app. cbn [fmap list_fmap foldl fst snd]. apply IH. by apply track_event.
Qed.

(** Observations of lldpd do not touch the tracker. *)
Lemma track_netlink items t :
  (∀ x, x ∈ items → it_source x = SrcLldp → ∃ o, it_payload x = PLldp o) →
  foldl track t items = foldl track t (filter (λ x, it_source x = SrcNetlink) items).
Proof.
  revert t. induction items as [|x items IH]; intros t Hx; [done|]. rewrite filter_cons.
  assert (∀ y, y ∈ items → it_source y = SrcLldp → ∃ o, it_payload y = PLldp o) as Hx' by (intros y Hy; apply Hx; by right).
  destruct (decide (it_source x = SrcNetlink)) as [Hs|Hs]; cbn [foldl]; [by apply IH|].
  assert (track t x = t) as ->; [|by apply IH]. destruct (Hx x) as [o Ho]; [by left|by destruct (it_source x)|].
  unfold track. by rewrite Ho.
Qed.

Lemma matches_empty : matches (mirror_of netlink_empty) default_tracker.
Proof.
  split; [by intros k ?%elem_of_empty|]. intros i. destruct (include i); [|done].
  split; [done| |]; intros c; (split; [by intros ?%elem_of_empty|]); by intros (k & ?%elem_of_empty & _).
Qed.

(** The tracker stays well formed. *)
Lemma track_wf items t :
  Forall (λ x, ∀ o, it_payload x = PLink o → lo_ifname o ≠ "") items → tracker_wf t → tracker_wf (foldl track t items).
Proof.
  intros Hok. revert t. induction Hok as [|x items Hx _ IH]; intros t Hwf; [done|]. cbn [foldl]. apply IH.
  unfold track. destruct (it_payload x) as [o|o|o|o|o] eqn:Hp; try done; destruct (include _); try done;
    apply (tracker_step_wf t); try done; constructor. by apply Hx.
Qed.
End track.

(** * The engine and the events *)

Lemma apply_local `{InetPton} now t2 x e :
  localState_ (applyObservation now t2 x e).1 = track (includeInLocalState (interfacePolicy_ e)) (localState_ e) x ∧
  interfacePolicy_ (applyObservation now t2 x e).1 = interfacePolicy_ e.
Proof.
  unfold applyObservation, track. destruct (it_payload x) as [o|o|o|o|o];
    unfold onLinkObservation, onAddressObservation, onNeighborObservation, onFdbObservation,
      onLldpObservation, settle_candidate, reconcileAffectedByLocalMac, reconcileByKey;
    repeat case_match; simplify_eq/=; try done.
Qed.

Lemma loop_local `{InetPton} l e :
  localState_ (observationLoop l e) = foldl (track (includeInLocalState (interfacePolicy_ e))) (localState_ e) l.*2.
Proof.
  unfold observationLoop. revert e. induction l as [|[[now t2] x] l IH]; intros e; [done|]. cbn [foldl fmap list_fmap fst snd].
  rewrite IH. destruct (apply_local now t2 x e) as [-> ->]. done.
Qed.

Lemma emitted_input watched i s ev j : ev ∈ (net_step watched i s).1 → ev = EmitInput j → j = i.
Proof.
  intros Hin ->. destruct i as [e|e|e|e]; cbn in Hin.
  - unfold updateLink in Hin. repeat case_match; simplify_eq/=; set_solver.
  - unfold updateAddress in Hin. repeat case_match; simplify_eq/=; set_solver.
  - destruct (negb _); [set_solver|]. destruct (updateFdb e s) as [[o d] s'] eqn:He. unfold updateFdb in He.
    cbn in Hin. destruct (refreshMergedDeviceLocked _ _) as [d' s'']. simplify_eq/=. destruct d, (bool_decide _); set_solver.
  - destruct (negb _); [set_solver|]. destruct (updateNeighbor e s) as [[o d] s'] eqn:He. unfold updateNeighbor in He.
    destruct (if negb (ne_present e) then _ else _) as [changed s1].
    destruct (refreshMergedDeviceLocked _ _) as [d' s'']. simplify_eq/=. destruct d, changed; set_solver.
Qed.

Lemma emitted_inputs watched l s j : EmitInput j ∈ (net_run watched l s).1 → j ∈ l.
Proof.
  revert s. induction l as [|i l IH]; intros s; cbn [net_run]; [by intros ?%elem_of_nil|].
  destruct (net_step watched i s) as [ev s1] eqn:Hs. destruct (net_run watched l s1) as [ev' s2] eqn:Hr.
  cbn [fst]. intros [Hin|Hin]%elem_of_app.
  - assert (j = i) as ->; [|by left]. apply (emitted_input watched i s (EmitInput j)); [by rewrite Hs|done].
  - right. apply (IH s1). by rewrite Hr.
Qed.

(** The local sets, read off the kernel's tables. *)
Lemma local_sets include (L : gmap string LinkEvent) (A : gset InterfaceAddressKey) t :
  set_Forall key_ok A →
  (∀ i, if include i : bool then iface_matches (L !! i) A i (iface_at t i) else interfaces t !! i = None) → tracker_wf t →
  (∀ mac, isLocalMac mac t = true ↔ mac ≠ "" ∧ ∃ i e, include i = true ∧ L !! i = Some e ∧ le_mac e = mac) ∧
  (∀ ip, isLocalIp ip t = true ↔ ∃ k, k ∈ A ∧ include (ak_ifname k) = true ∧ ak_address k = ip).
Proof.
  intros HA Hm Hwf. assert (Hinc : ∀ i st, interfaces t !! i = Some st → include i = true ∧ iface_at t i = st ∧ iface_matches (L !! i) A i st).
  { intros i st Hst. specialize (Hm i). unfold iface_at in Hm. rewrite Hst in Hm. destruct (include i) eqn:Hi; [|done].
    unfold iface_at. by rewrite Hst. }
  assert (Hat : ∀ i st, iface_at t i = st → st ≠ default_iface → interfaces t !! i = Some st).
  { intros i st <-. unfold iface_at. by destruct (interfaces t !! i). }
  split; [intros mac|intros ip]; [rewrite (proj1 (tracker_wf_local t mac "" Hwf))|rewrite (proj2 (tracker_wf_local t "" ip Hwf))].
  - split; (intros [Hmac Hx]; split; [done|]; revert Hx).
    + intros (i & st & Hst & <-). destruct (Hinc i st Hst) as (Hi & _ & [Hl _ _]).
      destruct (L !! i) as [e|] eqn:He; [|destruct Hl; congruence]. exists i, e. split_and!; [done|done|]. symmetry. apply Hl.
    + intros (i & e & Hi & He & <-). pose proof (Hm i) as Hmi. rewrite Hi, He in Hmi. destruct Hmi as [(_ & _ & Hl & _) _ _].
      exists i, (iface_at t i). split; [|done]. apply Hat; [done|]. intros Hd. rewrite Hd in Hl. cbn in Hl. congruence.
  - split.
    + intros (Hne & i & st & cidr & Hst & Hc & <-). destruct (Hinc i st Hst) as (Hi & _ & [_ H4 H6]).
      apply elem_of_union in Hc. rewrite H4, H6 in Hc.
      destruct Hc as [(k & Hk & Hn & _ & ->)|(k & Hk & Hn & _ & ->)]; exists k; subst i; rewrite extract_cidr by (by apply HA); done.
    + intros (k & Hk & Hi & <-). pose proof (HA k Hk) as Hok. split; [apply Hok|]. pose proof (Hm (ak_ifname k)) as Hmi.
      rewrite Hi in Hmi. destruct Hmi as [_ H4 H6].
      assert (cidr_of k ∈ if_ipv4 (iface_at t (ak_ifname k)) ∪ if_ipv6 (iface_at t (ak_ifname k))) as Hc.
      { apply elem_of_union. rewrite H4, H6. destruct Hok as (_ & _ & [Hf|Hf]); [left|right]; by exists k. }
      exists (ak_ifname k), (iface_at t (ak_ifname k)), (cidr_of k). split_and!; [|done|by apply extract_cidr].
      apply Hat; [done|]. intros Hd. rewrite Hd in Hc. cbn in Hc. set_solver.
Qed.

(** The tracker is what the kernel's tables say, for the interfaces the policy
    includes. *)
Record local_exact (include : string → bool) (L : gmap string LinkEvent) (A : gset InterfaceAddressKey) (t : LocalStateTracker)
    : Prop := mkLocalExact {
  le_interfaces i : if include i then iface_matches (L !! i) A i (iface_at t i) else interfaces t !! i = None;
  le_macs mac : isLocalMac mac t = true ↔ mac ≠ "" ∧ ∃ i e, include i = true ∧ L !! i = Some e ∧ le_mac e = mac;
  le_ips ip : isLocalIp ip t = true ↔ ∃ k, k ∈ A ∧ include (ak_ifname k) = true ∧ ak_address k = ip
}.

(** From the queued items: [items] are what the consumer took, in order. *)
Lemma items_local include watched inputs timed items :
  Forall input_ok inputs → timed.*2 = (net_run watched inputs netlink_empty).1 →
  filter (λ x, it_source x = SrcNetlink) items = timed ≫= (λ p, event_items p.1 p.2) →
  (∀ x, x ∈ items → it_source x = SrcLldp → ∃ o, it_payload x = PLldp o) →
  let s := (net_run watched inputs netlink_empty).2 in
  local_exact include (linkStates_ s) (interfaceAddresses_ s) (foldl (track include) default_tracker items).
Proof.
  intros Hok Hev Hpush Hlldp s. destruct (net_run_ok watched inputs netlink_empty netlink_empty_wf) as [_ Hmir]. fold s in Hmir.
  assert (Forall (λ p, event_ok p.2) timed) as Htimed.
  { apply Forall_forall. intros [now ev] Hp. cbn. destruct ev as [j|]; [|done]. rewrite Forall_forall in Hok.
    apply Hok, (emitted_inputs watched inputs netlink_empty). rewrite <- Hev. apply list_elem_of_fmap. by exists (now, EmitInput j). }
  rewrite track_netlink, Hpush by done. set (t := foldl _ _ _).
  assert (tracker_wf t) as Hwf.
  { apply track_wf; [|apply (tracker_clear_wf default_tracker)]. apply Forall_forall.
    intros x ([now ev] & Hx & Hp)%list_elem_of_bind o Ho. rewrite Forall_forall in Htimed. specialize (Htimed _ Hp). cbn in Hx, Htimed.
    unfold event_items in Hx. destruct ev as [[e|e|e|e]|d]; cbn in Hx; try (by apply elem_of_nil in Hx);
      apply list_elem_of_singleton in Hx; subst x; simplify_eq/=. exact Htimed. }
  assert (matches include (mirror_of s) t) as [HA Hmatch]
    by (rewrite <- Hmir, <- Hev; apply track_events; [exact Htimed|apply matches_empty]).
  destruct (local_sets include _ _ t HA Hmatch Hwf). by split.
Qed.

(** A link that goes down, or away, takes the LLDP neighbours of its interface
    along, with any backend that keeps its contract: behind the observation of the
    link the queue gets removals on that interface, nothing else, a consumer that
    knew the neighbours knows them, and none is left there; and a link that comes
    up leaves the consumer as well informed. *)
Lemma link_flushes_neighbors {S} `{ILldpSourceContract S} now env e (s : S) V :
  il_ok s → il_isRunning s = true → knows V s →
  let link := mkItem SrcNetlink (PLink (toLinkObservation e now)) in
  ∃ out s', runtime_onLink now env e (Some s) = (link :: ((λ o, mkItem SrcLldp (PLldp o)) <$> out), Some s') ∧
    il_ok s' ∧ il_isRunning s' = true ∧ knows (foldl apply_view V out) s' ∧
    (le_present e && le_running e = false →
      Forall (λ o, ll_event o = EvRemoved ∧ ll_localIfname o = le_ifname e) out ∧ ∀ k, ¬ il_cached s' (le_ifname e, k)).
Proof.
  intros Hok Hrun HV link. unfold runtime_onLink, cb_onLinkChanged. cbn [runtime_sinks has_onLink has_onLinkStateForLldp when app foldl
    link_call sink_item fst snd onLinkStateForLldp option_list fmap option_fmap option_map].
  destruct (le_present e && le_running e).
  - destruct (call_follows (CallUp env (le_ifname e)) s V Hok Hrun HV) as (Hok' & Hrun' & HV'). cbn [observer_call] in *.
    destruct (onInterfaceUp env (le_ifname e) s) as [out s']. exists out, s'. by split_and!.
  - destruct (call_follows (CallDown now (le_ifname e)) s V Hok Hrun HV) as (Hok' & Hrun' & HV'). cbn [observer_call] in *.
    pose proof (λ k, il_remove_gone now (le_ifname e) s k Hok Hrun) as Hg. pose proof (il_remove_only now (le_ifname e) s) as Ho.
    unfold onInterfaceDown in *. destruct (il_removeInterface now (le_ifname e) s) as [out s']. exists out, s'. split_and!; try done.
    intros _. split; [|done]. apply Forall_forall. intros o Hin. by destruct (Ho o Hin) as (? & _ & ?).
Qed.

(** The model's local state is the kernel's: whatever links, addresses and
    other entries the kernel reports, with repetitions, in any order and with any
    watched interfaces; when the queue never dropped anything and is empty, and
    however its pushes, pops and the observations of lldpd interleaved, every
    interface that the policy includes has in the model exactly the attributes
    and addresses the netlink tables hold for its name, no other interface is
    there, a MAC is local exactly when an included link has it, and an IP exactly
    when an included interface has it. *)
Theorem kernel_state_reaches_model `{InetPton} {Q} `{BoundedQueueLaws Q} watched inputs timed (q0 : BoundedObservationQueue Q) ops consumed e0 :
  Forall input_ok inputs → localState_ e0 = default_tracker →
  bq_items (queue_ q0) = [] → bq_closed (queue_ q0) = false → resyncMask_ q0 = 0%Z →
  let '(events, s) := net_run watched inputs netlink_empty in
  let '(q, popped, taken) := foldl (λ st op, queue_op op st) (q0, [], 0%Z) ops in
  timed.*2 = events →
  filter (λ x, it_source x = SrcNetlink) (pushes ops) = timed ≫= (λ p, event_items p.1 p.2) →
  (∀ x, x ∈ pushes ops → it_source x = SrcLldp → ∃ o, it_payload x = PLldp o) →
  bq_items (queue_ q) = [] → Z.lor (resyncMask_ q) taken = 0%Z → consumed.*2 = popped →
  let t := localState_ (observationLoop consumed e0) in
  let include := includeInLocalState (interfacePolicy_ e0) in
  (∀ i, if include i : bool then iface_matches (linkStates_ s !! i) (interfaceAddresses_ s) i (iface_at t i)
        else interfaces t !! i = None) ∧
  (∀ mac, isLocalMac mac t = true ↔ mac ≠ "" ∧ ∃ i e, include i = true ∧ linkStates_ s !! i = Some e ∧ le_mac e = mac) ∧
  (∀ ip, isLocalIp ip t = true ↔ ∃ k, k ∈ interfaceAddresses_ s ∧ include (ak_ifname k) = true ∧ ak_address k = ip).
Proof.
  intros Hok He0 Hi Hc Hm. pose proof (accounted_lossless _ _ (queue_accounted q0 ops Hi Hc Hm)) as Hl.
  pose proof (items_local (includeInLocalState (interfacePolicy_ e0)) watched inputs timed (pushes ops) Hok) as Hex.
  destruct (net_run watched inputs netlink_empty) as [events s]. destruct (foldl _ _ ops) as [[q popped] taken]. cbn [fst snd] in *.
  intros Hev Hpush Hlldp Hempty Hmask Hcons.
  assert (popped = pushes ops) as -> by (rewrite <- (Hl Hmask), Hempty; by rewrite app_nil_r).
  rewrite loop_local, He0, Hcons. by destruct (Hex Hev Hpush Hlldp).
Qed.

(** * Witness

    A link and its address, both reported twice, and an observation of lldpd. *)
#[local] Instance demo_pipeline_pton : InetPton := λ _, None.

Definition demo_link : LinkEvent := mkLinkEvent 2 "eth0" "02:00:00:00:00:01" true true 6 None None true.
Definition demo_address : InterfaceIpEvent := mkInterfaceIpEvent "eth0" AF_INET "10.0.0.1" 24 true.
Definition demo_kernel : list NetInput := [NLink demo_link; NAddress demo_address; NLink demo_link; NAddress demo_address].
Definition demo_timed : list (time_point * NetEvent) :=
  [(1%Z, EmitInput (NLink demo_link)); (2%Z, EmitInput (NAddress demo_address))].
Definition demo_items : list ObservationItem := demo_timed ≫= (λ p, event_items p.1 p.2).
Definition demo_ops : list QueueOp := (QPush <$> demo_items) ++ [QPop; QPush demo_lldp_item; QPop; QPop].
Definition demo_consumed : list (time_point * time_point * ObservationItem) :=
  (λ x, (3%Z, 3%Z, x)) <$> (demo_items ++ [demo_lldp_item]).

Lemma kernel_state_reaches_model_witness :
  isLocalIp "10.0.0.1" (localState_ (observationLoop demo_consumed (engine_init default_model_config))) = true.
Proof.
  pose proof (kernel_state_reaches_model ∅ demo_kernel demo_timed demo_queue demo_ops demo_consumed
    (engine_init default_model_config)) as Hk.
  assert ((net_run ∅ demo_kernel netlink_empty).1 = demo_timed.*2) as Hev by (vm_compute; reflexivity).
  assert (bool_decide (mkInterfaceAddressKey "eth0" AF_INET "10.0.0.1" 24 ∈
    interfaceAddresses_ (net_run ∅ demo_kernel netlink_empty).2) = true) as Hin by (vm_compute; reflexivity).
  destruct (net_run ∅ demo_kernel netlink_empty) as [events s]. cbn [fst snd] in Hev, Hin. apply bool_decide_eq_true in Hin.
  destruct (foldl (λ st op, queue_op op st) (demo_queue, [], 0%Z) demo_ops) as [[q popped] taken] eqn:Hq.
  vm_compute in Hq. injection Hq as <- <- <-.
  destruct Hk as (_ & _ & Hip).
  - repeat (apply Forall_cons; split); [..|apply Forall_nil_2]; cbn; try discriminate; (split; [discriminate|split; [reflexivity|by left]]).
  - reflexivity.
  - reflexivity.
  - reflexivity.
  - reflexivity.
  - symmetry. exact Hev.
  - vm_compute. reflexivity.
  - intros x Hx Hs. vm_compute in Hx. repeat (apply elem_of_cons in Hx as [->|Hx]; [try discriminate Hs; by eexists|]).
    by apply elem_of_nil in Hx.
  - reflexivity.
  - reflexivity.
  - vm_compute. reflexivity.
  - apply Hip. eexists. split; [exact Hin|]. split; reflexivity.
Defined.
