(* ===== verification/Evidence.v ===== *)
(** The way from the kernel's neighbour and forwarding tables to a remote
    candidate of the model: [NetlinkState], the mapper
    ([service/NetlinkObservationMapper.cpp]) and the queue as in [Pipeline], and
    the evidence handlers of the engine. Everything is about the candidate of one
    MAC [k] that is not the machine's own. *)

From S2P Require Import Prelude Contract Observation LocalState Filter Engine EngineProps EngineEvents NetlinkState LldpSource Runtime Pipeline.

(** * Specification *)

Section admits.
Context `{InetPton} (policy : IInterfacePolicy) (cfg : ModelConfig).

(** The policy and the hard filter, for observations of other machines. *)
Definition admits_neighbor (o : NeighborObservation) : bool :=
  allowRemoteNeighborEvidence policy (no_ifname o) && passes_neighbor cfg o false false.
Definition admits_fdb (o : FdbObservation) : bool :=
  allowRemoteFdbEvidence policy (fo_portIfname o) && passes_fdb cfg o false.
End admits.

Definition nobs_key (o : NeighborObservation) : NeighborEvidenceKey := mkNeighborKey (no_ifname o) (no_family o) (no_ip o).
Definition entry_key (n : NeighborEvent) : NeighborEvidenceKey := mkNeighborKey (ne_ifname n) (ne_family n) (ne_ip n).

(** What the observations so far say about [k]: its neighbour entries, the ports it
    was learned on and the interfaces lldpd sees it on. *)
Record Reports := mkReports { rp_neighbors : gset NeighborEvidenceKey; rp_ports : gset string; rp_lldp : gset string }.
Definition no_reports : Reports := mkReports ∅ ∅ ∅.

(** The observation a step of the engine takes in. *)
Definition input_payload (i : EngineInput) : option ObservationPayload :=
  match i with
  | ILink o _ => Some (PLink o)
  | IAddress o _ => Some (PAddress o)
  | INeighbor o _ _ => Some (PNeighbor o)
  | IFdb o _ _ => Some (PFdb o)
  | ILldp o _ _ => Some (PLldp o)
  | _ => None
  end.

(** The engine between two restarts, with policy and classifier as configured. *)
Definition running_input (i : EngineInput) : Prop :=
  match i with IRestart _ | ISetPolicy _ | ISetClassifier _ => False | _ => True end.

(** The candidate of [k], with no evidence when there is none. *)
Definition candidate_at (e : ObservationModelEngine) (k : string) : RemoteCandidate :=
  default default_candidate (candidates_ e !! k).

Section report.
Context `{InetPton} (policy : IInterfacePolicy) (cfg : ModelConfig) (k : string).

(** An observation of lldpd about [k], on an interface the policy allows. *)
Definition admits_lldp (o : LldpObservation) : bool :=
  allowLldpEvidence policy (ll_localIfname o) && negb (str_empty k) &&
  bool_decide (k = resolveLldpIdentity (ll_remoteChassisId o) (ll_remotePortId o)).

Definition report (r : Reports) (p : ObservationPayload) : Reports :=
  match p with
  | PNeighbor o =>
      if bool_decide (no_mac o = k) && admits_neighbor policy cfg o then
        match no_event o with
        | EvPresent => mkReports ({[nobs_key o]} ∪ rp_neighbors r) (rp_ports r) (rp_lldp r)
        | EvRemoved => mkReports (rp_neighbors r ∖ {[nobs_key o]}) (rp_ports r) (rp_lldp r)
        end
      else r
  | PFdb o =>
      if bool_decide (fo_mac o = k) && admits_fdb policy cfg o then
        match fo_event o with
        | EvPresent => mkReports (rp_neighbors r) ({[fo_portIfname o]} ∪ rp_ports r) (rp_lldp r)
        | EvRemoved => mkReports (rp_neighbors r) (rp_ports r ∖ {[fo_portIfname o]}) (rp_lldp r)
        end
      else r
  | PLldp o =>
      if admits_lldp o then
        match ll_event o with
        | EvPresent => mkReports (rp_neighbors r) (rp_ports r) ({[ll_localIfname o]} ∪ rp_lldp r)
        | EvRemoved => mkReports (rp_neighbors r) (rp_ports r) (rp_lldp r ∖ {[ll_localIfname o]})
        end
      else r
  | _ => r
  end.

(** The candidate holds exactly the evidence reported. *)
Record backed (r : Reports) (c : RemoteCandidate) : Prop := mkBacked {
  bk_neighbors : c_neighborEvidence c = rp_neighbors r;
  bk_fdb fk : fk ∈ c_fdbEvidence c ↔ fk_mac fk = k ∧ fk_ifname fk ∈ rp_ports r;
  bk_ipv4 ip : ip ∈ c_ipv4 c ↔ ∃ nk, nk ∈ rp_neighbors r ∧ nk_family nk = AF_INET ∧ nk_ip nk = ip;
  bk_ipv6 ip : ip ∈ c_ipv6 c ↔ ∃ nk, nk ∈ rp_neighbors r ∧ nk_family nk ≠ AF_INET ∧ nk_ip nk = ip;
  bk_port p : c_bridgePort c = Some p ↔ p ∈ rp_ports r;
  bk_lldp : c_seenInLldp c = bool_decide (rp_lldp r ≠ ∅)
}.

(** Observations about [k] that the model can follow: [k] and its IPs are not the
    machine's own, an IP of [k] is seen on one interface, [k] is learned on one
    port, and lldpd sees it on one interface. *)
Record followable (ps : list ObservationPayload) : Prop := mkFollowable {
  fw_mac o : PLink o ∈ ps → lo_mac o ≠ k;
  fw_ip a o : PAddress a ∈ ps → PNeighbor o ∈ ps → no_mac o = k → extractIpFromCidr (ao_cidr a) ≠ no_ip o;
  fw_iface o o' : PNeighbor o ∈ ps → PNeighbor o' ∈ ps → no_mac o = k → no_mac o' = k → no_ip o = no_ip o' → nobs_key o = nobs_key o';
  fw_port o o' : PFdb o ∈ ps → PFdb o' ∈ ps → fo_mac o = k → fo_mac o' = k → fo_portIfname o = fo_portIfname o';
  fw_lldp o o' : PLldp o ∈ ps → PLldp o' ∈ ps → admits_lldp o = true → admits_lldp o' = true → ll_localIfname o = ll_localIfname o'
}.

(** A keepalive only repeats what was reported. *)
Definition repeats (r : Reports) (p : ObservationPayload) : Prop :=
  match p with
  | PLldp o => ll_keepalive o = true → admits_lldp o = true → ll_event o = EvPresent ∧ ll_localIfname o ∈ rp_lldp r
  | _ => True
  end.

Fixpoint repeating (r : Reports) (ps : list ObservationPayload) : Prop :=
  match ps with [] => True | p :: ps => repeats r p ∧ repeating (report r p) ps end.

(** A stored candidate of another machine: never marked as the machine's own; in
    the live phase with evidence, classified by it, and not provisional. *)
Record status_ok (ph : ModelPhase) (c : RemoteCandidate) : Prop := mkStatusOk {
  so_foreign : c_status c ≠ Removed;
  so_live : ph = Live → hasNoEvidence c = false ∧ c_classification c = RuleBased_classify c ∧ c_status c ≠ Provisional
}.

(** * One candidate *)

Record known (ps : list ObservationPayload) (r : Reports) : Prop := mkKnown {
  kn_neighbor nk : nk ∈ rp_neighbors r → ∃ o, PNeighbor o ∈ ps ∧ no_mac o = k ∧ nobs_key o = nk;
  kn_port p : p ∈ rp_ports r → ∃ o, PFdb o ∈ ps ∧ fo_mac o = k ∧ fo_portIfname o = p;
  kn_lldp i : i ∈ rp_lldp r → ∃ o, PLldp o ∈ ps ∧ admits_lldp o = true ∧ ll_localIfname o = i
}.

Lemma report_known ps r p : p ∈ ps → known ps r → known ps (report r p).
Proof.
  intros Hp [H1 H2 H3]. unfold report. destruct p as [o|o|o|o|o]; try done; try (case_bool_decide as Hm; try done; cbn [andb]);
    try destruct (admits_neighbor _ _ _); try destruct (admits_fdb _ _ _); try (destruct (admits_lldp o) eqn:Ha); try done;
    (destruct (no_event o) || destruct (fo_event o) || destruct (ll_event o)); split; cbn; set_solver.
Qed.

(** Evidence is all that counts. *)
Lemma backed_same r c d :
  backed r c → c_neighborEvidence d = c_neighborEvidence c → c_fdbEvidence d = c_fdbEvidence c →
  c_ipv4 d = c_ipv4 c → c_ipv6 d = c_ipv6 c → c_bridgePort d = c_bridgePort c → c_seenInLldp d = c_seenInLldp c → backed r d.
Proof. intros [] E1 E2 E3 E4 E5 E6. split; intros; rewrite ?E1, ?E2, ?E3, ?E4, ?E5, ?E6; auto. Qed.

Lemma neighbor_backed ps r o c :
  followable ps → known ps r → PNeighbor o ∈ ps → no_mac o = k → admits_neighbor policy cfg o = true →
  backed r c → backed (report r (PNeighbor o)) (neighbor_evidence o c).
Proof.
  intros Hf Hk Hp Hm Ha [B1 B2 B3 B4 B5 B6]. unfold report. rewrite bool_decide_true, Ha by done. cbn [andb].
  assert (Hone : ∀ nk, nk ∈ rp_neighbors r → nk_ip nk = no_ip o → nk = nobs_key o).
  { intros nk (o' & Ho' & Hm' & <-)%(kn_neighbor _ _ Hk) Hi. by apply (fw_iface ps Hf). }
  unfold neighbor_evidence. fold (nobs_key o). destruct (no_event o), (Z.eqb_spec (no_family o) AF_INET) as [Hfam|Hfam];
    split; cbn; rewrite ?B1; try done; intros ip; try (rewrite ?elem_of_union, ?elem_of_difference, elem_of_singleton); rewrite ?B3, ?B4;
    setoid_rewrite elem_of_union || setoid_rewrite elem_of_difference; setoid_rewrite elem_of_singleton.
  all: try (split; [intros (nk & Hin & Hr); exists nk; (split; [tauto|done])|intros (nk & [->|Hin] & Hr); [by destruct Hr|by exists nk]]; done).
  all: try (split; [intros [->|(nk & Hin & Hr)]; [by exists (nobs_key o); split; [left|]|by exists nk; split; [right|]]|
                    intros (nk & [->|Hin] & Hr); [by left; destruct Hr|by right; exists nk]]; done).
  all: try (split; [intros [(nk & Hin & Hr) Hne]; exists nk; (split; [|done]); (split; [done|]); intros ->; by apply Hne; destruct Hr|
                    intros (nk & [Hin Hne] & Hr); (split; [by exists nk|]); intros ->; apply Hne, Hone; [done|by destruct Hr]]; done).
  all: try (split; [intros (nk & Hin & Hr); exists nk; (split; [|done]); (split; [done|]); intros ->; by destruct Hr|
                    intros (nk & [Hin Hne] & Hr); by exists nk]; done).
Qed.

Lemma fdb_backed ps r o c :
  followable ps → known ps r → PFdb o ∈ ps → fo_mac o = k → admits_fdb policy cfg o = true →
  backed r c → backed (report r (PFdb o)) (fdb_evidence o c).
Proof.
  intros Hf Hk Hp Hm Ha [B1 B2 B3 B4 B5 B6]. unfold report. rewrite bool_decide_true, Ha by done. cbn [andb].
  assert (Hone : ∀ p, p ∈ rp_ports r → p = fo_portIfname o).
  { intros p (o' & Ho' & Hm' & <-)%(kn_port _ _ Hk). by apply (fw_port ps Hf). }
  assert (Hkey : ∀ fk, fk = mkFdbKey (fo_portIfname o) (fo_mac o) ↔ fk_mac fk = k ∧ fk_ifname fk = fo_portIfname o).
  { intros [i m]. cbn. rewrite Hm. split; [by intros [= -> ->]|by intros [-> ->]]. }
  unfold fdb_evidence. destruct (fo_event o).
  - split; cbn; [done| |done|done| |done].
    + intros fk. rewrite !elem_of_union, !elem_of_singleton, Hkey, B2. tauto.
    + intros p. rewrite elem_of_union, elem_of_singleton. split; [intros [= ->]; by left|]. by intros [->|?%Hone]; [|subst].
  - change (c_bridgePort (c <| c_fdbEvidence := _ |>)) with (c_bridgePort c).
    destruct (decide (c_bridgePort c = Some (fo_portIfname o))) as [Hb|Hb];
      [rewrite (bool_decide_eq_true_2 _ Hb)|rewrite (bool_decide_eq_false_2 _ Hb)]; split; cbn; try done.
    1,3: intros fk; rewrite elem_of_difference, elem_of_difference, !elem_of_singleton, Hkey, B2; tauto.
    all: intros p; rewrite elem_of_difference, elem_of_singleton.
    + split; [done|]. by intros [?%Hone].
    + rewrite <- B5. split; [|tauto]. intros Hp'. split; [done|]. intros ->. by apply Hb.
Qed.

Lemma lldp_backed ps r o c :
  followable ps → known ps r → PLldp o ∈ ps → admits_lldp o = true → backed r c → backed (report r (PLldp o)) (lldp_evidence o c).
Proof.
  intros Hf Hk Hp Ha [B1 B2 B3 B4 B5 B6]. unfold report. rewrite Ha.
  assert (Hone : ∀ i, i ∈ rp_lldp r → i = ll_localIfname o).
  { intros i (o' & Ho' & Ha' & <-)%(kn_lldp _ _ Hk). by apply (fw_lldp ps Hf). }
  unfold lldp_evidence. destruct (ll_event o); split; cbn; try done; symmetry.
  - apply bool_decide_eq_true. set_solver.
  - apply bool_decide_eq_false. intros Hne. apply Hne. set_solver.
Qed.

(** A candidate without evidence backs no report, one with evidence is worthy. *)
Lemma backed_seen r c :
  c_seenInNeigh c = bool_decide (c_neighborEvidence c ≠ ∅) → c_seenInFdb c = bool_decide (c_fdbEvidence c ≠ ∅) → backed r c →
  (c_seenInNeigh c = false → rp_neighbors r = ∅ ∧ c_ipv4 c = ∅ ∧ c_ipv6 c = ∅) ∧
  (c_seenInFdb c = false → rp_ports r = ∅ ∧ c_bridgePort c = None) ∧
  (c_seenInNeigh c = true → c_ipv4 c ≠ ∅ ∨ c_ipv6 c ≠ ∅).
Proof.
  intros Hn Hf [B1 B2 B3 B4 B5 B6]. rewrite Hn, Hf. split_and!.
  - intros He%bool_decide_eq_false%dec_stable. rewrite B1 in He. split; [done|]. rewrite He in B3, B4.
    split; apply set_eq; intros ip; rewrite ?B3, ?B4; set_solver.
  - intros He%bool_decide_eq_false%dec_stable. assert (rp_ports r = ∅) as Hr.
    { apply set_eq. intros p. split; [|by intros ?%elem_of_empty]. intros Hp.
      assert (mkFdbKey p k ∈ c_fdbEvidence c) as Hin by (by apply B2). rewrite He in Hin. by apply elem_of_empty in Hin. }
    split; [done|]. destruct (c_bridgePort c) as [p|] eqn:Hp; [|done].
    assert (p ∈ rp_ports r) as Hin by (by apply B5). rewrite Hr in Hin. by apply elem_of_empty in Hin.
  - intros (nk & Hnk)%bool_decide_eq_true%set_choose_L. rewrite B1 in Hnk.
    destruct (decide (nk_family nk = AF_INET)) as [Hfam|Hfam]; [left|right]; intros He.
    + assert (nk_ip nk ∈ c_ipv4 c) as Hin by (apply B3; by exists nk). rewrite He in Hin. by apply elem_of_empty in Hin.
    + assert (nk_ip nk ∈ c_ipv6 c) as Hin by (apply B4; by exists nk). rewrite He in Hin. by apply elem_of_empty in Hin.
Qed.

Section evidenced.
Context (r : Reports) (c : RemoteCandidate).
Hypothesis Hn : c_seenInNeigh c = bool_decide (c_neighborEvidence c ≠ ∅).
Hypothesis Hf : c_seenInFdb c = bool_decide (c_fdbEvidence c ≠ ∅).
Hypothesis Hb : backed r c.

Lemma backed_none : hasNoEvidence c = true → backed r default_candidate.
Proof.
  intros (H1 & H2 & H3 & _)%hasNoEvidence_true. destruct (backed_seen r c Hn Hf Hb) as (Hn' & Hf' & _).
  destruct (Hn' H1) as [Hr _]. destruct (Hf' H2) as [Hp _]. pose proof (bk_lldp _ _ Hb) as Hl. rewrite H3 in Hl.
  split; cbn; rewrite ?Hr, ?Hp; [done|..|done]; intros; (split; [|set_solver]); try done; by intros ?%elem_of_empty.
Qed.

Lemma backed_worthy : hasNoEvidence c = false → isConfirmedWorthy (RuleBased_classify c) = true.
Proof.
  intros Hno. destruct (backed_seen r c Hn Hf Hb) as (Hn' & Hf' & Hip). unfold hasNoEvidence in Hno. unfold RuleBased_classify.
  destruct (c_seenInLldp c); [done|]. destruct (c_seenInFdb c); cbn [andb].
  - by repeat case_match.
  - destruct (Hf' eq_refl) as [_ Hport]. destruct (c_seenInNeigh c); cbn [andb].
    + assert (negb (bool_decide (c_ipv4 c = ∅)) || negb (bool_decide (c_ipv6 c = ∅)) = true) as ->; [|done].
      apply orb_true_iff. rewrite !negb_true_iff, !bool_decide_eq_false. by apply Hip.
    + destruct (Hn' eq_refl) as (_ & H4 & H6). by rewrite H4, H6, Hport in Hno.
Qed.

(** The end of an evidence handler. *)
Definition good (ph : ModelPhase) (o : option RemoteCandidate) : Prop :=
  backed r (default default_candidate o) ∧ ∀ d, o = Some d → status_ok ph d.

Lemma settle_good e was ev :
  classifier_ e = RuleBasedClassifier → c_status c ≠ Removed → good (phase_ e) (settle_one e was ev c).1.
Proof.
  intros Hcl Hs. unfold settle_one. destruct (hasNoEvidence c) eqn:Hno; [split; [by apply backed_none|done]|].
  pose proof (backed_worthy Hno) as Hw. cbn [fst].
  destruct (reconcileStatus_status e ev (updateClassification e c)) as (st & He & _).
  assert (st ≠ Removed ∧ (phase_ e = Live → st ≠ Provisional)) as [Hst Hl].
  { apply (f_equal c_status) in He. change (c_status (_ <| c_status := st |>)) with st in He. subst st.
    unfold reconcileStatusLocked, updateClassification. rewrite Hcl. change (classify RuleBasedClassifier c) with (RuleBased_classify c).
    generalize (RuleBased_classify c), Hw. clear - Hs. intros cls Hw. destruct c as [? ? ? ? ? ? ? ? ? ? ? ? ? ? ? ? ? st]. cbn in *.
    by destruct ev, (phase_ e), st, cls. }
  rewrite He. split; [by apply (backed_same r c)|]. intros d [= <-]. split; [done|]. intros Hph. split_and!; [done| |by apply Hl].
  cbn. by rewrite Hcl.
Qed.
End evidenced.

(** * Local names: only what a link or an address brought *)

(** The sets of [t'] are those of [t], with [mac] and [ip] at most added. *)
Definition grows (mac ip : option string) (t t' : LocalStateTracker) : Prop :=
  (∀ m, isLocalMac m t' = true → isLocalMac m t = true ∨ mac = Some m) ∧
  (∀ i, isLocalIp i t' = true → isLocalIp i t = true ∨ ip = Some i).

Lemma grows_refl mac ip t t' :
  sn_localMacs (snapshot_ t') = sn_localMacs (snapshot_ t) → sn_localIps (snapshot_ t') = sn_localIps (snapshot_ t) → grows mac ip t t'.
Proof. intros Hm Hi. unfold grows, isLocalMac, isLocalIp. rewrite Hm, Hi. split; by left. Qed.

Lemma grows_trans mac ip t t' t'' : grows mac ip t t' → grows mac ip t' t'' → grows mac ip t t''.
Proof. intros [A1 A2] [B1 B2]. split; [intros m [?|?]%B1|intros i [?|?]%B2]; auto. Qed.

Ltac grows_tac :=
  unfold grows, isLocalMac, isLocalIp; repeat case_match; cbn; split; intros ?; rewrite !bool_decide_eq_true; set_solver.

Lemma incrementMac_grows ip mac t : grows (Some mac) ip t (incrementMac mac t).
Proof. unfold incrementMac. grows_tac. Qed.
Lemma decrementMac_grows mac ip m t : grows mac ip t (decrementMac m t).
Proof. unfold decrementMac. grows_tac. Qed.
Lemma incrementIp_grows mac ip t : grows mac (Some ip) t (incrementIp ip t).
Proof. unfold incrementIp. grows_tac. Qed.
Lemma decrementIp_grows mac ip i t : grows mac ip t (decrementIp i t).
Proof. unfold decrementIp. grows_tac. Qed.
Lemma decrementCidrs_grows mac ip l t : grows mac ip t (decrementCidrs l t).
Proof.
  unfold decrementCidrs. revert t. induction l as [|c l IH]; intros t; cbn [foldl]; [by apply grows_refl|].
  eapply grows_trans; [|apply IH]. unfold decrementCidr. case_match; [by apply grows_refl|apply decrementIp_grows].
Qed.

Lemma link_grows o t : grows (Some (lo_mac o)) None t (tracker_onLinkObservation o t).2.
Proof.
  unfold tracker_onLinkObservation. destruct (lo_event o); cbn [snd].
  - case_match; [|case_bool_decide; [|by apply grows_refl]].
    + eapply grows_trans; [|apply incrementMac_grows]. by apply grows_refl.
    + eapply grows_trans; [apply (decrementMac_grows _ _ (if_mac (iface_at t (lo_ifname o))))|].
      eapply grows_trans; [|apply incrementMac_grows]. by apply grows_refl.
  - case_match; [|by apply grows_refl]. cbn [snd]. eapply grows_trans; [|by apply grows_refl].
    eapply grows_trans; [apply decrementMac_grows|]. eapply grows_trans; apply decrementCidrs_grows.
Qed.

Lemma address_grows o t : grows None (Some (extractIpFromCidr (ao_cidr o))) t (tracker_onAddressObservation o t).2.
Proof.
  unfold tracker_onAddressObservation. repeat case_match; cbn [snd];
    try (eapply grows_trans; [|by first [apply incrementIp_grows|apply decrementIp_grows]]); by apply grows_refl.
Qed.

(** What a step adds to the local sets, and what it keeps. *)
Definition local_step (p : option ObservationPayload) (e e' : ObservationModelEngine) : Prop :=
  grows (match p with Some (PLink o) => Some (lo_mac o) | _ => None end)
    (match p with Some (PAddress o) => Some (extractIpFromCidr (ao_cidr o)) | _ => None end) (localState_ e) (localState_ e') ∧
  interfacePolicy_ e' = interfacePolicy_ e.

(** The local state follows the payloads. *)
Lemma engine_tracks i e :
  running_input i →
  localState_ (engine_step i e).1 =
    (match input_payload i with
     | Some p => track (includeInLocalState (interfacePolicy_ e)) (localState_ e) (mkItem SrcNetlink p)
     | None => localState_ e
     end) ∧
  interfacePolicy_ (engine_step i e).1 = interfacePolicy_ e.
Proof.
  intros Hi. destruct i as [o now|o now|o t1 t2|o t1 t2|o t1 t2| | | | | |]; try done.
  - exact (apply_local now now (mkItem SrcNetlink (PLink o)) e).
  - exact (apply_local now now (mkItem SrcNetlink (PAddress o)) e).
  - exact (apply_local t1 t2 (mkItem SrcNetlink (PNeighbor o)) e).
  - exact (apply_local t1 t2 (mkItem SrcNetlink (PFdb o)) e).
  - exact (apply_local t1 t2 (mkItem SrcNetlink (PLldp o)) e).
Qed.

Lemma engine_local_step i e : running_input i → local_step (input_payload i) e (engine_step i e).1.
Proof.
  intros Hi. unfold local_step. destruct (engine_tracks i e Hi) as [-> ->]. split; [|done].
  destruct (input_payload i) as [p|]; [|by apply grows_refl]. unfold track. cbn [it_payload].
  destruct p; try (by apply grows_refl); (destruct (includeInLocalState _ _); [|by apply grows_refl]);
    [apply link_grows|apply address_grows].
Qed.

Lemma engine_run_tracks inputs e :
  Forall running_input inputs →
  localState_ (engine_run inputs e).1 =
    foldl (λ t p, track (includeInLocalState (interfacePolicy_ e)) t (mkItem SrcNetlink p)) (localState_ e) (omap input_payload inputs).
Proof.
  revert e. induction inputs as [|i inputs IH]; intros e Hi; [done|]. apply Forall_cons in Hi as [Hi Hrest]. cbn [engine_run].
  destruct (engine_tracks i e Hi) as [Hl Hp]. destruct (engine_step i e) as [e1 d1]. cbn [fst] in *. specialize (IH e1 Hrest).
  destruct (engine_run inputs e1) as [e2 d2]. cbn [fst] in *. rewrite IH, Hl, Hp. cbn. by destruct (input_payload i).
Qed.

(** * The engine *)

Definition reports (r : Reports) (i : EngineInput) : Reports := default r (report r <$> input_payload i).

Record follows (ps : list ObservationPayload) (r : Reports) (e : ObservationModelEngine) : Prop := mkFollows {
  fl_engine : engine_ok e;
  fl_classifier : classifier_ e = RuleBasedClassifier;
  fl_policy : interfacePolicy_ e = policy;
  fl_config : config_ e = cfg;
  fl_mac : isLocalMac k (localState_ e) = false;
  fl_ip ip : isLocalIp ip (localState_ e) = true → ∃ a, PAddress a ∈ ps ∧ extractIpFromCidr (ao_cidr a) = ip;
  fl_known : known ps r;
  fl_good : good r (phase_ e) (candidates_ e !! k)
}.

Lemma create_fields t (o : option RemoteCandidate) :
  let c := create_one t k o in
  let d := default default_candidate o in
  c_neighborEvidence c = c_neighborEvidence d ∧ c_fdbEvidence c = c_fdbEvidence d ∧ c_ipv4 c = c_ipv4 d ∧ c_ipv6 c = c_ipv6 d ∧
  c_bridgePort c = c_bridgePort d ∧ c_seenInLldp c = c_seenInLldp d.
Proof. by destruct o. Qed.

Lemma create_backed r t o : backed r (default default_candidate o) → backed r (create_one t k o).
Proof. intros Hb. destruct (create_fields t o) as (?&?&?&?&?&?). by apply (backed_same r (default default_candidate o)). Qed.

Lemma keepalive_result e was c :
  ∃ st, (keepalive_one e was c).1 = Some ((updateClassification e c) <| c_status := st |>) ∧ (st = c_status c ∨ st = Confirmed).
Proof.
  unfold keepalive_one. cbv zeta. cbn [fst]. set (b := bool_decide (_ ∨ _)). exists (if b then Confirmed else c_status c).
  clearbody b. destruct c, b; (split; [done|]); [by right|by left].
Qed.

Lemma neighbor_status o c : c_status (neighbor_evidence o c) = c_status c.
Proof. unfold neighbor_evidence. by destruct (no_event o), (_ =? _)%Z. Qed.
Lemma fdb_status o c : c_status (fdb_evidence o c) = c_status c.
Proof. unfold fdb_evidence. destruct (fo_event o); cbn; try destruct (bool_decide (c_bridgePort _ = _)); done. Qed.
Lemma lldp_status o c : c_status (lldp_evidence o c) = c_status c.
Proof. unfold lldp_evidence. by destruct (ll_event o). Qed.

Lemma create_status ph t o : (∀ c, o = Some c → status_ok ph c) → c_status (create_one t k o) ≠ Removed.
Proof. intros Ho. destruct o as [c|]; cbn; [by apply (Ho c)|done]. Qed.

Section step.
Context (ps : list ObservationPayload) (r : Reports) (e : ObservationModelEngine).
Hypothesis Hps : followable ps.
Hypothesis He : follows ps r e.

Lemma stored_ok c : candidates_ e !! k = Some c → cand_ok (phase_ e) k c.
Proof. apply (ok_candidates e (fl_engine _ _ _ He)). Qed.

(** The IPs of the candidate are not the machine's own. *)
Lemma foreign_ip a c : PAddress a ∈ ps → candidates_ e !! k = Some c → has_ip (extractIpFromCidr (ao_cidr a)) c = false.
Proof.
  intros Ha Hc. destruct (fl_good _ _ _ He) as [Hb _]. rewrite Hc in Hb. cbn in Hb.
  assert (Hno : ∀ nk, nk ∈ rp_neighbors r → nk_ip nk ≠ extractIpFromCidr (ao_cidr a)).
  { intros nk (o & Ho & Hm & <-)%(kn_neighbor _ _ (fl_known _ _ _ He)) Heq. by apply (fw_ip ps Hps a o). }
  unfold has_ip. apply orb_false_iff. rewrite !bool_decide_eq_false. rewrite (bk_ipv4 _ _ Hb), (bk_ipv6 _ _ Hb). naive_solver.
Qed.

Lemma foreign_neighbor o : PNeighbor o ∈ ps → no_mac o = k → isLocalIp (no_ip o) (localState_ e) = false.
Proof.
  intros Ho Hm. destruct (isLocalIp _ _) eqn:Hl; [|done]. apply (fl_ip _ _ _ He) in Hl as (a & Ha & Hip).
  by destruct (fw_ip ps Hps a o Ha Ho Hm).
Qed.

Lemma concerns_neighbor o t1 t2 :
  PNeighbor o ∈ ps → concerns (INeighbor o t1 t2) e k (candidates_ e !! k) = bool_decide (no_mac o = k) && admits_neighbor policy cfg o.
Proof.
  intros Ho. cbn. rewrite (fl_policy _ _ _ He), (fl_config _ _ _ He). unfold admits_neighbor.
  destruct (decide (no_mac o = k)) as [Hm|Hm].
  - rewrite (foreign_neighbor o) by done. rewrite Hm, (fl_mac _ _ _ He), !bool_decide_true by done. by rewrite andb_true_r.
  - rewrite (bool_decide_eq_false_2 (k = _)) by congruence. by rewrite andb_false_r, bool_decide_eq_false_2.
Qed.

Lemma concerns_fdb o t1 t2 :
  concerns (IFdb o t1 t2) e k (candidates_ e !! k) = bool_decide (fo_mac o = k) && admits_fdb policy cfg o.
Proof.
  cbn. rewrite (fl_policy _ _ _ He), (fl_config _ _ _ He). unfold admits_fdb. destruct (decide (fo_mac o = k)) as [Hm|Hm].
  - rewrite Hm, (fl_mac _ _ _ He), !bool_decide_true by done. by rewrite andb_true_r.
  - rewrite (bool_decide_eq_false_2 (k = _)) by congruence. by rewrite andb_false_r, bool_decide_eq_false_2.
Qed.

Lemma step_neighbor_good o t1 t2 :
  PNeighbor o ∈ ps → good (report r (PNeighbor o)) (phase_ e) (cand_step (INeighbor o t1 t2) e k (candidates_ e !! k)).1.
Proof.
  intros Ho. destruct (fl_good _ _ _ He) as [Hb Hst]. pose proof (concerns_neighbor o t1 t2 Ho) as Hc. unfold cand_step. rewrite Hc.
  destruct (bool_decide (no_mac o = k)) eqn:Hm; cbn [andb]; [|unfold report; by rewrite Hm].
  apply bool_decide_eq_true in Hm. destruct (admits_neighbor policy cfg o) eqn:Ha; cbn [negb].
  - destruct (neighbor_evidence_ok o (phase_ e) k t1 (candidates_ e !! k)) as (_ & Hn & Hf & _); [apply stored_ok|].
    apply settle_good; [exact Hn|exact Hf| |by apply fl_classifier with ps r|].
    + apply (neighbor_backed ps); [done|by apply (fl_known _ _ _ He)|done..|by apply create_backed].
    + rewrite neighbor_status.
      by apply (create_status (phase_ e)).
  - unfold report. rewrite Ha, andb_false_r. done.
Qed.

Lemma step_fdb_good o t1 t2 :
  PFdb o ∈ ps → good (report r (PFdb o)) (phase_ e) (cand_step (IFdb o t1 t2) e k (candidates_ e !! k)).1.
Proof.
  intros Ho. destruct (fl_good _ _ _ He) as [Hb Hst]. pose proof (concerns_fdb o t1 t2) as Hc. unfold cand_step. rewrite Hc.
  destruct (bool_decide (fo_mac o = k)) eqn:Hm; cbn [andb]; [|unfold report; by rewrite Hm].
  apply bool_decide_eq_true in Hm. destruct (admits_fdb policy cfg o) eqn:Ha; cbn [negb].
  - destruct (fdb_evidence_ok o (phase_ e) k t1 (candidates_ e !! k)) as (_ & Hn & Hf & _); [apply stored_ok|].
    apply settle_good; [exact Hn|exact Hf| |by apply fl_classifier with ps r|].
    + apply (fdb_backed ps); [done|by apply (fl_known _ _ _ He)|done..|by apply create_backed].
    + rewrite fdb_status.
      by apply (create_status (phase_ e)).
  - unfold report. rewrite Ha, andb_false_r. done.
Qed.

Lemma concerns_lldp o t1 t2 :
  concerns (ILldp o t1 t2) e k (candidates_ e !! k) = admits_lldp o && negb (keepalive_dropped o (candidates_ e !! k)).
Proof. cbn. unfold admits_lldp. by rewrite (fl_policy _ _ _ He). Qed.

(** The candidate a keepalive repeats is there, and not one of the machine's own. *)
Lemma repeated_found o :
  admits_lldp o = true → repeats r (PLldp o) → ll_keepalive o = true →
  ll_event o = EvPresent ∧ ∃ c, candidates_ e !! k = Some c ∧ c_status c ≠ Removed.
Proof.
  intros Ha Hrep Hka. destruct (Hrep Hka Ha) as [Hev Hin]. destruct (fl_good _ _ _ He) as [Hb Hst]. split; [done|].
  destruct (candidates_ e !! k) as [c|]; [by exists c; split; [|apply Hst]|]. pose proof (bk_lldp _ _ Hb) as Hl. cbn in Hl.
  symmetry in Hl. apply bool_decide_eq_false in Hl. destruct Hl. set_solver.
Qed.

Lemma step_lldp_good o t1 t2 :
  PLldp o ∈ ps → repeats r (PLldp o) → good (report r (PLldp o)) (phase_ e) (cand_step (ILldp o t1 t2) e k (candidates_ e !! k)).1.
Proof.
  intros Ho Hrep. destruct (fl_good _ _ _ He) as [Hb Hst]. pose proof (concerns_lldp o t1 t2) as Hc. unfold cand_step. rewrite Hc. clear Hc.
  destruct (admits_lldp o) eqn:Ha; cbn [andb negb]; [|unfold report; by rewrite Ha].
  pose proof (repeated_found o Ha Hrep) as Hfound.
  assert (keepalive_dropped o (candidates_ e !! k) = false) as ->.
  { unfold keepalive_dropped. destruct (ll_keepalive o); [|done]. destruct (Hfound eq_refl) as (-> & c & -> & Hs). cbn. by apply bool_decide_eq_false. }
  cbn [negb]. destruct (lldp_evidence_ok o (phase_ e) k t1 (candidates_ e !! k)) as (_ & Hn & Hf & _); [apply stored_ok|].
  assert (backed (report r (PLldp o)) (lldp_evidence o (create_one t1 k (candidates_ e !! k)))) as Hb'
    by (apply (lldp_backed ps); [done|apply (fl_known _ _ _ He)|done..|by apply create_backed]).
  pose proof (lldp_status o (create_one t1 k (candidates_ e !! k))) as Hs.
  unfold lldp_one. destruct (hasNoEvidence _) eqn:Hno; [split; [by eapply backed_none|done]|]. destruct (ll_keepalive o) eqn:Hka.
  - destruct (keepalive_result e (isPublishable (create_one t1 k (candidates_ e !! k))) (lldp_evidence o (create_one t1 k (candidates_ e !! k))))
      as (st & -> & Hst'). rewrite Hs in Hst'.
    split; [by apply (backed_same (report r (PLldp o)) (lldp_evidence o (create_one t1 k (candidates_ e !! k))))|].
    intros d [= <-]. unfold updateClassification. rewrite (fl_classifier _ _ _ He).
    destruct (Hfound eq_refl) as (_ & c & Hcc & _). rewrite Hcc in *. destruct (Hst c eq_refl) as [H1 H2]. cbn in Hst'.
    split; [by destruct Hst' as [->| ->]|]. intros Hph. destruct (H2 Hph) as (_ & _ & H3). split_and!; [exact Hno|done|by destruct Hst' as [->| ->]].
  - apply settle_good; [exact Hn|exact Hf|done|by apply fl_classifier with ps r|]. rewrite Hs. by apply (create_status (phase_ e)).
Qed.

(** Aging and going live change the status only, or drop what has no evidence. *)
Lemma step_age_good now t2 : good r (phase_ e) (cand_step (IAge now t2) e k (candidates_ e !! k)).1.
Proof.
  destruct (fl_good _ _ _ He) as [Hb Hst]. unfold cand_step. cbn. destruct (candidates_ e !! k) as [c|]; [|done].
  destruct (Hst c eq_refl) as [H1 H2]. cbn. unfold age_candidate. repeat case_match;
    (split; [by apply (backed_same r c)|]); intros d [= <-]; try (by apply Hst); (split; [done|]); intros Hph;
    destruct (H2 Hph) as (? & ? & ?); by split_and!.
Qed.

Lemma step_live_good t2 : good r Live (cand_step (IMarkLive t2) e k (candidates_ e !! k)).1.
Proof.
  destruct (fl_good _ _ _ He) as [Hb Hst]. unfold cand_step. cbn. destruct (candidates_ e !! k) as [c|] eqn:Hc; [|done].
  destruct (Hst c eq_refl) as [H1 H2]. destruct (stored_ok c Hc) as [_ Hn Hf Hi _]. cbn in Hb. cbn. unfold live_candidate.
  destruct (decide (c_status c = Provisional)) as [Hs|Hs].
  - rewrite bool_decide_eq_false_2 by tauto. unfold updateClassification. rewrite (fl_classifier _ _ _ He).
    change (c_classification _) with (RuleBased_classify c).
    destruct (hasNoEvidence c) eqn:Hno.
    + rewrite (no_evidence_unworthy (cl := RuleBasedClassifier) c Hno : isConfirmedWorthy (RuleBased_classify c) = false).
      split; [by eapply backed_none|done].
    + rewrite (backed_worthy r c) by done. split; [by apply (backed_same r c)|]. intros d [= <-]. split; [done|]. intros _. by split_and!.
  - rewrite bool_decide_eq_true_2 by done. split; [done|]. intros d [= <-]. split; [done|]. intros _.
    destruct (phase_ e); [|by apply H2]. by destruct (Hi eq_refl).
Qed.

Lemma step_good i :
  running_input i → (∀ p, input_payload i = Some p → p ∈ ps ∧ repeats r p) →
  good (reports r i) (next_phase i (phase_ e)) (cand_step i e k (candidates_ e !! k)).1.
Proof.
  intros Hi Hp. destruct (fl_good _ _ _ He) as [Hb Hst]. destruct i as [o now|o now|o t1 t2|o t1 t2|o t1 t2|now t2|t2|t2|s|po|cl]; try done; cbn [next_phase].
  - unfold cand_step. cbn. destruct (bool_decide (k = lo_mac o)) eqn:Hk; [|by rewrite andb_false_r].
    apply bool_decide_eq_true in Hk. destruct (fw_mac ps Hps o); [by apply Hp|done].
  - unfold cand_step. destruct (concerns (IAddress o now) e k (candidates_ e !! k)); cbn [negb]; [|done].
    destruct (candidates_ e !! k) as [c|] eqn:Hc; [|done]. cbn. by rewrite (foreign_ip o c) by (try apply Hp; done).
  - apply step_neighbor_good. by apply Hp.
  - apply step_fdb_good. by apply Hp.
  - by apply step_lldp_good; apply Hp.
  - apply step_age_good.
  - apply step_live_good.
Qed.

Lemma step_follows i :
  running_input i → (∀ p, input_payload i = Some p → p ∈ ps ∧ repeats r p) → follows ps (reports r i) (engine_step i e).1.
Proof.
  intros Hi Hp. destruct (engine_frame i e) as (Hph & Hcfg & _ & Hcl & _). destruct (engine_local_step i e Hi) as [[Hm Hip] Hpol].
  split.
  - apply engine_step_ok; [by destruct i|apply (fl_engine _ _ _ He)].
  - rewrite Hcl; [apply (fl_classifier _ _ _ He)|]. intros cl ->. done.
  - rewrite Hpol. apply (fl_policy _ _ _ He).
  - rewrite Hcfg. apply (fl_config _ _ _ He).
  - destruct (isLocalMac k _) eqn:Hl; [|done]. apply Hm in Hl as [Hl|Hl]; [by rewrite (fl_mac _ _ _ He) in Hl|].
    destruct (input_payload i) as [[o|?|?|?|?]|]; try done. injection Hl as Hl. destruct (fw_mac ps Hps o); [by apply Hp|done].
  - intros ip Hl. apply Hip in Hl as [Hl|Hl]; [by apply (fl_ip _ _ _ He)|].
    destruct (input_payload i) as [[?|o|?|?|?]|]; try done. injection Hl as Hl. exists o. split; [by apply Hp|done].
  - unfold reports. destruct (input_payload i) as [p|]; [|apply (fl_known _ _ _ He)]. apply report_known; [by apply Hp|apply (fl_known _ _ _ He)].
  - rewrite (proj1 (pointwise_step i e)), Hph. by apply step_good.
Qed.
End step.

Lemma omap_payloads i inputs : omap input_payload (i :: inputs) = option_list (input_payload i) ++ omap input_payload inputs.
Proof. cbn. by destruct (input_payload i). Qed.

Lemma run_follows ps r e inputs :
  followable ps → follows ps r e → Forall running_input inputs → (∀ p, p ∈ omap input_payload inputs → p ∈ ps) →
  repeating r (omap input_payload inputs) → follows ps (foldl report r (omap input_payload inputs)) (engine_run inputs e).1.
Proof.
  intros Hps He Hall. revert r e He. induction Hall as [|i inputs Hi _ IH]; intros r e He Hin Hrep; [done|]. cbn [engine_run].
  rewrite omap_payloads in *.
  assert (∀ p, input_payload i = Some p → p ∈ ps ∧ repeats r p) as Hp.
  { intros p Hp. split; [apply Hin; rewrite Hp; by left|]. rewrite Hp in Hrep. by destruct Hrep. }
  pose proof (step_follows ps r e Hps He i Hi Hp) as He'. destruct (engine_step i e) as [e1 d1]. cbn [fst] in He'.
  specialize (IH _ _ He'). destruct (engine_run inputs e1) as [e2 d2]. cbn [fst] in IH |- *. rewrite foldl_app. unfold reports in IH.
  destruct (input_payload i) as [p|]; (apply IH; [intros q Hq; apply Hin, elem_of_app; by right|by destruct Hrep || done]).
Qed.

(** After a restart nothing is held about any other machine. *)
Lemma restart_follows ps t e :
  engine_ok e → classifier_ e = RuleBasedClassifier → interfacePolicy_ e = policy → config_ e = cfg →
  follows ps no_reports (prepareForRestart t e).1.
Proof.
  intros Hok Hcl Hpol Hcfg. split; try done.
  - exact (engine_step_ok (IRestart t) e I Hok).
  - assert (candidates_ (prepareForRestart t e).1 !! k = restart_candidate <$> candidates_ e !! k) as -> by apply lookup_fmap.
    split; [destruct (candidates_ e !! k); cbn; split; cbn; set_solver|]. intros d Hd.
    destruct (candidates_ e !! k) as [c|]; [|done]. injection Hd as <-. by split.
Qed.
End report.

(** * The tables of the kernel *)

Section kernel.
Context `{InetPton} (policy : IInterfacePolicy) (cfg : ModelConfig) (k : string).

(** The entries of a table that count as evidence for [k]. *)
Definition evident (n : NeighborEvent) : Prop := ne_mac n = k ∧ admits_neighbor policy cfg (toNeighborObservation n 0) = true.
Definition evident_neighbor (N : gmap string NeighborEvent) (n : NeighborEvent) : Prop := (∃ key, N !! key = Some n) ∧ evident n.
Definition evident_fdb (F : gmap string FdbEvent) (f : FdbEvent) : Prop :=
  F !! k = Some f ∧ admits_fdb policy cfg (toFdbObservation f 0) = true.

(** What the kernel reports about [k] while the model follows it: [k] and its IPs
    are not the machine's own, an IP of [k] is seen on one interface, [k] is
    learned on one port, and not now as local and now as learned. The texts are as
    the parser makes them. *)
Record kernel_followable (inputs : list NetInput) : Prop := mkKernelFollowable {
  kf_mac e : NLink e ∈ inputs → le_mac e ≠ k;
  kf_ip a n : NAddress a ∈ inputs → NNeighbor n ∈ inputs → ne_mac n = k → ie_address a ≠ ne_ip n;
  kf_iface n n' : NNeighbor n ∈ inputs → NNeighbor n' ∈ inputs → ne_mac n = k → ne_mac n' = k → ne_ip n = ne_ip n' → entry_key n = entry_key n';
  kf_port f f' : NFdb f ∈ inputs → NFdb f' ∈ inputs → fe_mac f = k → fe_mac f' = k → fe_ifname f = fe_ifname f' ∧ fe_local f = fe_local f';
  kf_text n : NNeighbor n ∈ inputs → str_has "|" (ne_mac n) = false ∧ str_has "|" (ne_ip n) = false;
  kf_cidr a : NAddress a ∈ inputs → key_ok (key_of a)
}.

(** The mirror of the tables holds entries of the inputs under their keys, and the
    reports are its evident entries. *)
Record tables (inputs : list NetInput) (m : Mirror) (r : Reports) : Prop := mkTables {
  tb_neighbor key n : mi_neighbors m !! key = Some n →
    NNeighbor n ∈ inputs ∧ key = makeNeighborKey (ne_ifname n) (ne_mac n) (ne_family n) (ne_ip n);
  tb_fdb mac f : mi_fdb m !! mac = Some f → NFdb f ∈ inputs ∧ fe_mac f = mac;
  tb_neighbors nk : nk ∈ rp_neighbors r ↔ ∃ n, evident_neighbor (mi_neighbors m) n ∧ entry_key n = nk;
  tb_ports p : p ∈ rp_ports r ↔ ∃ f, evident_fdb (mi_fdb m) f ∧ fe_ifname f = p
}.

Lemma tables_empty inputs : tables inputs (mirror_of netlink_empty) no_reports.
Proof.
  split; cbn; [done|done|..]; intros x; (split; [by intros ?%elem_of_empty|]);
    [intros (n & ([key Hk] & _) & _)|intros (f & [Hf _] & _)]; by rewrite lookup_empty in *.
Qed.

Lemma neighbor_key_inputs inputs n n' :
  kernel_followable inputs → NNeighbor n ∈ inputs → NNeighbor n' ∈ inputs →
  makeNeighborKey (ne_ifname n) (ne_mac n) (ne_family n) (ne_ip n) = makeNeighborKey (ne_ifname n') (ne_mac n') (ne_family n') (ne_ip n') →
  ne_mac n = ne_mac n' ∧ entry_key n = entry_key n'.
Proof.
  intros Hk Hn Hn' He. destruct (kf_text _ Hk n Hn), (kf_text _ Hk n' Hn').
  apply makeNeighborKey_inj in He as (Hi & Hm & Hf & Hip); try done. split; [done|]. unfold entry_key. by rewrite Hi, Hf, Hip.
Qed.

(** The hard filter looks at the texts only. *)
Lemma admits_key n n' t t' :
  ne_mac n = ne_mac n' → entry_key n = entry_key n' →
  admits_neighbor policy cfg (toNeighborObservation n t) = admits_neighbor policy cfg (toNeighborObservation n' t').
Proof.
  intros Hm [= Hi Hf Hip]. unfold admits_neighbor, passes_neighbor. cbn. by rewrite Hm, Hi, Hip.
Qed.

Lemma admits_port f f' t t' :
  fe_mac f = fe_mac f' → fe_ifname f = fe_ifname f' → fe_local f = fe_local f' →
  admits_fdb policy cfg (toFdbObservation f t) = admits_fdb policy cfg (toFdbObservation f' t').
Proof.
  intros Hm Hi Hl. unfold admits_fdb, passes_fdb, fdbToEntryKind. cbn. unfold fdbToEntryKind. rewrite Hm, Hi, Hl.
  repeat case_match; repeat case_bool_decide; naive_solver.
Qed.

(** The keys of the evident entries, when an entry is stored or removed. *)
Definition alike (n e : NeighborEvent) : Prop := ne_mac n = ne_mac e ∧ entry_key n = entry_key e.

Lemma alike_evident n e : alike n e → evident n → evident e.
Proof. intros [Hm Hk] [H1 H2]. split; [congruence|]. by rewrite <- (admits_key n e 0). Qed.

Definition evident_key (N : gmap string NeighborEvent) (nk : NeighborEvidenceKey) : Prop :=
  ∃ n, evident_neighbor N n ∧ entry_key n = nk.

Lemma evident_insert N key e nk :
  (∀ n, N !! key = Some n → alike n e) → evident_key (<[key:=e]> N) nk ↔ evident e ∧ nk = entry_key e ∨ evident_key N nk.
Proof.
  intros Hsame. split.
  - intros (n & ([key' [[_ <-]|[_ Hn]]%lookup_insert_Some] & Hev) & <-); [by left|]. right. exists n. split; [split; [by exists key'|done]|done].
  - assert (He : evident e → evident_key (<[key:=e]> N) (entry_key e))
      by (intros Hev; exists e; split; [split; [exists key; apply lookup_insert_eq|done]|done]).
    intros [[Hev ->]|(n & ([key' Hn] & Hev) & <-)]; [by apply He|]. destruct (decide (key = key')) as [<-|Hne].
    + destruct (Hsame n Hn) as [Hm Hk]. rewrite Hk. apply He. by apply (alike_evident n).
    + exists n. split; [|done]. split; [|done]. exists key'. by rewrite lookup_insert_ne.
Qed.

Lemma evident_delete N key e nk :
  (∀ key' n, N !! key' = Some n → key' = key ↔ alike n e) →
  evident_key (delete key N) nk ↔ evident_key N nk ∧ ¬ (evident e ∧ nk = entry_key e).
Proof.
  intros Hsame. split.
  - intros (n & ([key' [Hne Hn]%lookup_delete_Some] & Hev) & <-). split; [exists n; split; [split; [by exists key'|done]|done]|].
    intros [[Hm _] He]. apply Hne. symmetry. apply (Hsame key' n Hn). split; [|done]. destruct Hev. congruence.
  - intros [(n & ([key' Hn] & Hev) & <-) Hno]. exists n. split; [|done]. split; [|done]. exists key'. rewrite lookup_delete_ne; [done|].
    intros ->. destruct (proj1 (Hsame key' n Hn) eq_refl) as [Hm Hk]. apply Hno. split; [by apply (alike_evident n)|done].
Qed.

Lemma report_neighbor r e now nk :
  nk ∈ rp_neighbors (report policy cfg k r (PNeighbor (toNeighborObservation e now))) ↔
    if ne_present e then evident e ∧ nk = entry_key e ∨ nk ∈ rp_neighbors r
    else nk ∈ rp_neighbors r ∧ ¬ (evident e ∧ nk = entry_key e).
Proof.
  unfold report, evident. set (o := toNeighborObservation e now). rewrite (admits_key e e 0 now) by done. fold o.
  change (no_mac o) with (ne_mac e). change (nobs_key o) with (entry_key e). change (no_event o) with (toObsEvent (ne_present e)).
  case_bool_decide as Hm; [destruct (admits_neighbor policy cfg o) eqn:Ha|]; cbn [andb]; destruct (ne_present e); cbn; try rewrite Ha; set_solver.
Qed.

Lemma tables_neighbor inputs now e m r :
  kernel_followable inputs → NNeighbor e ∈ inputs → tables inputs m r →
  tables inputs (mirror_event m (EmitInput (NNeighbor e))) (report policy cfg k r (PNeighbor (toNeighborObservation e now))).
Proof.
  intros Hk He [T1 T2 T3 T4]. destruct m as [L A F N V]. cbn [mi_neighbors mi_fdb mirror_event] in *.
  set (key := makeNeighborKey _ _ _ _) in *.
  assert (Hkey : ∀ key' n, N !! key' = Some n → key' = key ↔ alike n e).
  { intros key' n (Hin & ->)%T1. split; [by apply (neighbor_key_inputs inputs)|]. intros [Hm [= Hi Hf Hip]]. unfold key. by rewrite Hi, Hm, Hf, Hip. }
  split; cbn [mi_neighbors mi_fdb]; [|exact T2| |].
  - intros key' n. destruct (ne_present e); [|intros [_ Hn]%lookup_delete_Some; by apply T1].
    intros [[<- <-]|[_ Hn]]%lookup_insert_Some; [done|by apply T1].
  - intros nk. rewrite report_neighbor. fold (evident_key N nk) in T3. destruct (ne_present e).
    + rewrite T3. symmetry. apply evident_insert. intros n Hn. by apply (Hkey key n Hn).
    + rewrite T3. symmetry. by apply evident_delete.
  - assert (∀ p, rp_ports (report policy cfg k r (PNeighbor p)) = rp_ports r) as -> by (intros p; unfold report; by repeat case_match). exact T4.
Qed.

Lemma tables_fdb inputs now e m r :
  kernel_followable inputs → NFdb e ∈ inputs → tables inputs m r →
  tables inputs (mirror_event m (EmitInput (NFdb e))) (report policy cfg k r (PFdb (toFdbObservation e now))).
Proof.
  intros Hk He [T1 T2 T3 T4]. destruct m as [L A F N V]. cbn [mi_neighbors mi_fdb mirror_event] in *.
  set (o := toFdbObservation e now).
  assert (Hsame : ∀ f, F !! k = Some f → fe_mac e = k → fe_ifname f = fe_ifname e ∧
    admits_fdb policy cfg (toFdbObservation f 0) = admits_fdb policy cfg o).
  { intros f (Hin & Hm)%T2 Hme. destruct (kf_port _ Hk f e Hin He Hm Hme) as [Hi Hl]. split; [done|]. apply admits_port; [congruence|done..]. }
  split; cbn [mi_neighbors mi_fdb]; [exact T1| | |].
  - intros mac f. destruct (fe_present e); [|intros [_ Hn]%lookup_delete_Some; by apply T2].
    intros [[<- <-]|[_ Hn]]%lookup_insert_Some; [done|by apply T2].
  - assert (∀ p, rp_neighbors (report policy cfg k r (PFdb p)) = rp_neighbors r) as -> by (intros p; unfold report; by repeat case_match). exact T3.
  - intros p. unfold report. change (fo_mac o) with (fe_mac e). change (fo_portIfname o) with (fe_ifname e).
    change (fo_event o) with (toObsEvent (fe_present e)). unfold evident_fdb in *. destruct (decide (fe_mac e = k)) as [Hm|Hm].
    + rewrite bool_decide_eq_true_2 by done. cbn [andb]. rewrite Hm.
      assert (Hold : p ∈ rp_ports r → p = fe_ifname e ∧ admits_fdb policy cfg o = true).
      { intros (f & [Hf Ha] & <-)%T4. destruct (Hsame f Hf Hm) as [Hi <-]. by split. }
      destruct (fe_present e); [rewrite lookup_insert_eq|rewrite lookup_delete_eq]; cbn [toObsEvent].
      * split.
        -- intros Hp. exists e. split; [split; [done|]|]; destruct (admits_fdb policy cfg o) eqn:Ha; cbn in Hp;
             try (by rewrite (admits_port e e 0 now)); first [by apply Hold in Hp as [_ ?]|set_solver].
        -- intros (f & [[= <-] Ha] & <-). rewrite (admits_port e e 0 now) in Ha by done. fold o in Ha. rewrite Ha. cbn. set_solver.
      * split; [|by intros (f & [? _] & _)]. destruct (admits_fdb policy cfg o) eqn:Ha; cbn; [|by intros [_ ?]%Hold].
        intros [[-> _]%Hold Hne]%elem_of_difference. set_solver.
    + rewrite bool_decide_eq_false_2 by done. cbn [andb]. rewrite T4. destruct (fe_present e); [by rewrite lookup_insert_ne|by rewrite lookup_delete_ne].
Qed.

(** ** Events and what is queued *)

Definition from_inputs (inputs : list NetInput) (timed : list (time_point * NetEvent)) : Prop :=
  ∀ now j, (now, EmitInput j) ∈ timed → j ∈ inputs.

Lemma tables_events inputs timed m r :
  kernel_followable inputs → from_inputs inputs timed → tables inputs m r →
  tables inputs (foldl mirror_event m timed.*2)
    (foldl (report policy cfg k) r (it_payload <$> (timed ≫= λ p, event_items p.1 p.2))).
Proof.
  intros Hk. revert m r. induction timed as [|[now ev] timed IH]; intros m r Hin Ht; [done|].
  rewrite bind_cons, fmap_app, foldl_app. cbn [fmap list_fmap foldl fst snd]. apply IH; [intros t j Hj; apply (Hin t); by right|].
  assert (∀ j, ev = EmitInput j → j ∈ inputs) as Hj by (intros j ->; apply (Hin now); by left).
  destruct ev as [[e|e|e|e]|d]; [| |apply (tables_fdb inputs now e); auto|apply (tables_neighbor inputs now e); auto|];
    destruct m as [L A F N V], Ht as [T1 T2 T3 T4]; cbn; try destruct (le_present e); by split.
Qed.

(** Where a queued observation comes from. *)
Definition sourced (inputs : list NetInput) (p : ObservationPayload) : Prop :=
  match p with
  | PLink o => ∃ e now, NLink e ∈ inputs ∧ o = toLinkObservation e now
  | PAddress o => ∃ e now, NAddress e ∈ inputs ∧ o = toAddressObservation e now
  | PNeighbor o => ∃ e now, NNeighbor e ∈ inputs ∧ o = toNeighborObservation e now
  | PFdb o => ∃ e now, NFdb e ∈ inputs ∧ o = toFdbObservation e now
  | PLldp _ => True
  end.

Lemma items_sourced inputs timed items :
  from_inputs inputs timed →
  filter (λ x, it_source x = SrcNetlink) items = timed ≫= (λ p, event_items p.1 p.2) →
  (∀ x, x ∈ items → it_source x = SrcLldp → ∃ o, it_payload x = PLldp o) →
  ∀ x, x ∈ items → sourced inputs (it_payload x).
Proof.
  intros Hin Hf Hl x Hx. destruct (it_source x) eqn:Hs; [|by destruct (Hl x Hx Hs) as [o ->]].
  assert (x ∈ filter (λ x, it_source x = SrcNetlink) items) as Hx' by (by apply list_elem_of_filter).
  rewrite Hf in Hx'. apply list_elem_of_bind in Hx' as ([now ev] & Hi & Hp). unfold event_items in Hi. cbn in Hi.
  destruct ev as [[e|e|e|e]|d]; cbn in Hi; try (by apply elem_of_nil in Hi);
    apply list_elem_of_singleton in Hi; subst x; cbn; exists e, now; (split; [by apply (Hin now)|done]).
Qed.

Definition one_lldp_interface (os : list LldpObservation) : Prop :=
  ∀ o o', o ∈ os → o' ∈ os → admits_lldp policy k o = true → admits_lldp policy k o' = true → ll_localIfname o = ll_localIfname o'.

Definition lldp_of (ps : list ObservationPayload) : list LldpObservation :=
  omap (λ p, match p with PLldp o => Some o | _ => None end) ps.

Lemma elem_of_lldp_of ps o : PLldp o ∈ ps → o ∈ lldp_of ps.
Proof. intros Ho. apply list_elem_of_omap. by exists (PLldp o). Qed.

Lemma sourced_followable inputs ps :
  kernel_followable inputs → one_lldp_interface (lldp_of ps) → (∀ p, p ∈ ps → sourced inputs p) → followable policy k ps.
Proof.
  intros Hk Hl Hs. split.
  - intros o (e & now & He & ->)%Hs. by apply (kf_mac _ Hk).
  - intros a o (e & now & He & ->)%Hs (n & now' & Hn & ->)%Hs Hm. change (extractIpFromCidr (cidr_of (key_of e)) ≠ ne_ip n).
    rewrite extract_cidr by (by apply (kf_cidr _ Hk)). by apply (kf_ip _ Hk).
  - intros o o' (n & now & Hn & ->)%Hs (n' & now' & Hn' & ->)%Hs Hm Hm' Hip. by apply (kf_iface _ Hk).
  - intros o o' (f & now & Hf & ->)%Hs (f' & now' & Hf' & ->)%Hs Hm Hm'. by apply (kf_port _ Hk).
  - intros o o' Ho%elem_of_lldp_of Ho'%elem_of_lldp_of. by apply Hl.
Qed.

(** ** Observations of lldpd *)

(** Keepalives repeat neighbours that were reported and not removed since. *)
Fixpoint repeats_view (V : gset (string * string)) (os : list LldpObservation) : Prop :=
  match os with
  | [] => True
  | o :: os => (ll_keepalive o = true → ll_event o = EvPresent ∧ obs_key o ∈ V) ∧ repeats_view (apply_view V o) os
  end.

(** The interfaces reported are those of the view a consumer has of lldpd. *)
Definition views (r : Reports) (V : gset (string * string)) : Prop :=
  ∀ i, i ∈ rp_lldp r ↔ (i, k) ∈ V ∧ allowLldpEvidence policy i = true.

Lemma report_view r V o : k ≠ "" → views r V → views (report policy cfg k r (PLldp o)) (apply_view V o).
Proof.
  intros Hk Hv i. unfold report, apply_view, admits_lldp, obs_key. cbn [snd]. apply str_empty_false in Hk. rewrite Hk. cbn [negb]. rewrite andb_true_r.
  set (id := resolveLldpIdentity _ _). destruct (decide (k = id)) as [<-|Hne].
  - rewrite Hk, bool_decide_eq_true_2, andb_true_r by done. specialize (Hv i).
    assert (Hp : (i, k) = (ll_localIfname o, k) ↔ i = ll_localIfname o) by (split; [by intros [= ->]|by intros ->]).
    destruct (decide (i = ll_localIfname o)) as [->|Hi]; destruct (allowLldpEvidence policy (ll_localIfname o)) eqn:Ha, (ll_event o); cbn;
      rewrite ?elem_of_union, ?elem_of_difference, ?elem_of_singleton, ?Hp, Hv; intuition congruence.
  - rewrite bool_decide_eq_false_2, andb_false_r by done. rewrite (Hv i). destruct (str_empty id); [done|].
    assert ((i, k) ≠ (ll_localIfname o, id)) as Hp by congruence.
    destruct (ll_event o); rewrite ?elem_of_union, ?elem_of_difference, ?elem_of_singleton; intuition congruence.
Qed.

Lemma reports_view ps r V :
  k ≠ "" → views r V →
  views (foldl (report policy cfg k) r ps) (foldl apply_view V (lldp_of ps)) ∧
  (repeats_view V (lldp_of ps) → repeating policy cfg k r ps).
Proof.
  intros Hk. revert r V. induction ps as [|p ps IH]; intros r V Hv; [done|]. cbn [foldl repeating].
  destruct p as [o|o|o|o|o]; try (destruct (IH _ V Hv) as [H1 H2]; split; [exact H1|intros Hr; split; [done|by apply H2]]; done).
  - assert (views (report policy cfg k r (PNeighbor o)) V) as Hv'
      by (intros i; rewrite <- (Hv i); unfold report; by repeat case_match).
    destruct (IH _ V Hv') as [H1 H2]. split; [exact H1|]. intros Hr. split; [done|by apply H2].
  - assert (views (report policy cfg k r (PFdb o)) V) as Hv'
      by (intros i; rewrite <- (Hv i); unfold report; by repeat case_match).
    destruct (IH _ V Hv') as [H1 H2]. split; [exact H1|]. intros Hr. split; [done|by apply H2].
  - destruct (IH _ _ (report_view r V o Hk Hv)) as [H1 H2]. split; [exact H1|]. intros [Hr Hrs]. split; [|by apply H2].
    intros Hka Ha. destruct (Hr Hka) as [Hev Hin]. split; [done|]. apply Hv. unfold admits_lldp in Ha.
    rewrite !andb_true_iff, bool_decide_eq_true in Ha. destruct Ha as [[Hal _] Hid]. split; [|done]. unfold obs_key in Hin. by rewrite <- Hid in Hin.
Qed.

(** Observations of lldpd do not touch what the kernel reported. *)
Definition same_tables (r r' : Reports) : Prop := rp_neighbors r = rp_neighbors r' ∧ rp_ports r = rp_ports r'.

Lemma report_same_tables p r r' : same_tables r r' → same_tables (report policy cfg k r p) (report policy cfg k r' p).
Proof. intros [Hn Hp]. unfold report, same_tables. repeat case_match; cbn; by rewrite ?Hn, ?Hp. Qed.

Lemma reports_netlink items r r' :
  (∀ x, x ∈ items → it_source x = SrcLldp → ∃ o, it_payload x = PLldp o) → same_tables r r' →
  same_tables (foldl (report policy cfg k) r (it_payload <$> items))
    (foldl (report policy cfg k) r' (it_payload <$> filter (λ x, it_source x = SrcNetlink) items)).
Proof.
  revert r r'. induction items as [|x items IH]; intros r r' Hx Hs'; [done|]. rewrite filter_cons.
  assert (∀ y, y ∈ items → it_source y = SrcLldp → ∃ o, it_payload y = PLldp o) as Hx' by (intros y Hy; apply Hx; by right).
  destruct (decide (it_source x = SrcNetlink)) as [Hs|Hs]; cbn [foldl fmap list_fmap]; [by apply IH, report_same_tables|].
  destruct (Hx x) as [o ->]; [by left|by destruct (it_source x)|]. apply IH; [done|]. unfold report. by repeat case_match.
Qed.

(** ** A candidate that is followed is published *)

Lemma followed_published ps r e :
  follows policy cfg k ps r e → phase_ e = Live →
  let c := candidate_at e k in
  let reported := rp_neighbors r ≠ ∅ ∨ rp_ports r ≠ ∅ ∨ rp_lldp r ≠ ∅ in
  (reported → c_status c ≠ Expired → findCandidateByMac k e = Some c) ∧ (is_Some (findCandidateByMac k e) → reported).
Proof.
  intros He Hph c reported. destruct (fl_good _ _ _ _ _ _ He) as [Hb Hst]. unfold c, candidate_at, findCandidateByMac. clear c.
  pose proof (ok_candidates e (fl_engine _ _ _ _ _ _ He) k) as Hok.
  destruct (candidates_ e !! k) as [c|]; cbn in Hb; cbn [default].
  - destruct (Hok c eq_refl) as [_ Hn Hf _ _]. destruct (Hst c eq_refl) as [H1 H2]. destruct (H2 Hph) as (Hno & Hcl & Hpr). split.
    + intros _ Hexp. cbn in Hexp. assert (isPublishable c = true) as ->; [|done]. pose proof (backed_worthy k r c Hn Hf Hb Hno) as Hw.
      unfold isPublishable. rewrite bool_decide_eq_false_2 by (intros [? ?]; destruct (c_status c) eqn:Hcs; congruence). rewrite Hcl. by destruct (RuleBased_classify c).
    + intros _. unfold reported. destruct (decide (rp_neighbors r = ∅)) as [Er|]; [|by left]. destruct (decide (rp_ports r = ∅)) as [Ep|]; [|by right; left].
      right. right. intros El. enough (hasNoEvidence c = true) by congruence. destruct Hb as [B1 B2 B3 B4 B5 B6]. apply hasNoEvidence_true.
      assert (c_fdbEvidence c = ∅) as Ef by (apply set_eq; intros fk; rewrite B2, Ep; set_solver).
      rewrite Hn, Hf, B1, Er, Ef, B6, El. split_and!; try (by apply bool_decide_eq_false; intros Hne; apply Hne).
      * apply set_eq; intros ip; rewrite B3, Er; set_solver.
      * apply set_eq; intros ip; rewrite B4, Er; set_solver.
      * destruct (c_bridgePort c) as [p|]; [|done]. assert (p ∈ rp_ports r) as Hp by (by apply B5). rewrite Ep in Hp. by apply elem_of_empty in Hp.
  - split; [|by intros []]. intros Hr. exfalso. destruct Hb as [B1 _ _ _ B5 B6]. cbn in B1, B5, B6. destruct Hr as [Hr|[Hr|Hr]]; [by rewrite <- B1 in Hr| |].
    + apply set_choose_L in Hr as [p Hp%B5]. done.
    + symmetry in B6. apply bool_decide_eq_false in B6. by apply B6.
Qed.

(** ** The promise: what the model holds about [k] is what the kernel and lldpd say

    [N] and [F] are the kernel's tables, [V] is the view of lldpd. *)
Definition reported (N : gmap string NeighborEvent) (F : gmap string FdbEvent) (V : gset (string * string)) : Prop :=
  (∃ n, evident_neighbor N n) ∨ (∃ f, evident_fdb F f) ∨ ∃ i, (i, k) ∈ V ∧ allowLldpEvidence policy i = true.

Record model_tracks (N : gmap string NeighborEvent) (F : gmap string FdbEvent) (V : gset (string * string)) (e : ObservationModelEngine)
    : Prop := mkModelTracks {
  mt_neighbors nk : nk ∈ c_neighborEvidence (candidate_at e k) ↔ ∃ n, evident_neighbor N n ∧ entry_key n = nk;
  mt_fdb fk : fk ∈ c_fdbEvidence (candidate_at e k) ↔ ∃ f, evident_fdb F f ∧ fk = mkFdbKey (fe_ifname f) k;
  mt_ipv4 ip : ip ∈ c_ipv4 (candidate_at e k) ↔ ∃ n, evident_neighbor N n ∧ ne_family n = AF_INET ∧ ne_ip n = ip;
  mt_ipv6 ip : ip ∈ c_ipv6 (candidate_at e k) ↔ ∃ n, evident_neighbor N n ∧ ne_family n ≠ AF_INET ∧ ne_ip n = ip;
  mt_port p : c_bridgePort (candidate_at e k) = Some p ↔ ∃ f, evident_fdb F f ∧ fe_ifname f = p;
  mt_lldp : c_seenInLldp (candidate_at e k) = true ↔ ∃ i, (i, k) ∈ V ∧ allowLldpEvidence policy i = true;
  mt_published : phase_ e = Live → reported N F V → c_status (candidate_at e k) ≠ Expired →
    findCandidateByMac k e = Some (candidate_at e k);
  mt_unpublished : phase_ e = Live → is_Some (findCandidateByMac k e) → reported N F V
}.

Lemma nonempty_iff {A} `{Countable A} {B} (X : gset A) (P : B → Prop) (g : B → A) :
  (∀ x, x ∈ X ↔ ∃ b, P b ∧ g b = x) → X ≠ ∅ ↔ ∃ b, P b.
Proof.
  intros HX. split; [intros [x (b & Hb & _)%HX]%set_choose_L; by exists b|].
  intros [b Hb] He. assert (g b ∈ X) as Hx by (apply HX; by exists b). rewrite He in Hx. by apply elem_of_empty in Hx.
Qed.

Lemma model_tracks_reports ps r e N F V :
  follows policy cfg k ps r e →
  (∀ nk, nk ∈ rp_neighbors r ↔ ∃ n, evident_neighbor N n ∧ entry_key n = nk) →
  (∀ p, p ∈ rp_ports r ↔ ∃ f, evident_fdb F f ∧ fe_ifname f = p) → views r V → model_tracks N F V e.
Proof.
  intros He Tn Tp Tv. destruct (fl_good _ _ _ _ _ _ He) as [Hb _]. fold (candidate_at e k) in Hb.
  assert (Hl : rp_lldp r ≠ ∅ ↔ ∃ i, (i, k) ∈ V ∧ allowLldpEvidence policy i = true)
    by (apply (nonempty_iff (rp_lldp r) _ id); intros i; rewrite (Tv i); naive_solver).
  assert (Hr : rp_neighbors r ≠ ∅ ∨ rp_ports r ≠ ∅ ∨ rp_lldp r ≠ ∅ ↔ reported N F V).
  { unfold reported. by rewrite (nonempty_iff _ _ _ Tn), (nonempty_iff _ _ _ Tp), Hl. }
  destruct Hb as [B1 B2 B3 B4 B5 B6]. split.
  - intros nk. by rewrite B1, Tn.
  - intros [i m]. rewrite B2, Tp. cbn. split; [intros (-> & f & Hf' & <-); by exists f|intros (f & Hf' & [= -> ->])]. split; [done|by exists f].
  - intros ip. rewrite B3. setoid_rewrite Tn. split; [intros (nk & (n & Hn & <-) & Hr')|intros (n & Hn & Hr')]; [by exists n|].
    exists (entry_key n). split; [by exists n|done].
  - intros ip. rewrite B4. setoid_rewrite Tn. split; [intros (nk & (n & Hn & <-) & Hr')|intros (n & Hn & Hr')]; [by exists n|].
    exists (entry_key n). split; [by exists n|done].
  - intros p. by rewrite B5, Tp.
  - rewrite B6, bool_decide_eq_true. exact Hl.
  - intros Hph. destruct (followed_published ps r e He Hph) as [P _]. rewrite Hr in P. exact P.
  - intros Hph. destruct (followed_published ps r e He Hph) as [_ P]. rewrite Hr in P. exact P.
Qed.

(** From the queued items: [items] are what the consumer took, in order. *)
Lemma items_tracked watched inputs timed items applied t0 e :
  k ≠ "" → engine_ok e → classifier_ e = RuleBasedClassifier → interfacePolicy_ e = policy → config_ e = cfg →
  kernel_followable inputs → one_lldp_interface (lldp_of (it_payload <$> items)) → repeats_view ∅ (lldp_of (it_payload <$> items)) →
  timed.*2 = (net_run watched inputs netlink_empty).1 →
  filter (λ x, it_source x = SrcNetlink) items = timed ≫= (λ p, event_items p.1 p.2) →
  (∀ x, x ∈ items → it_source x = SrcLldp → ∃ o, it_payload x = PLldp o) →
  Forall running_input applied → omap input_payload applied = it_payload <$> items →
  let s := (net_run watched inputs netlink_empty).2 in
  model_tracks (neighborStatesByKey_ s) (fdbStatesByMac_ s) (foldl apply_view ∅ (lldp_of (it_payload <$> items)))
    (engine_run applied (prepareForRestart t0 e).1).1.
Proof.
  intros Hne Hok Hcl Hpol Hcfg Hk Hone Hrep Hev Hpush Hlldp Hrun Happ s.
  destruct (net_run_ok watched inputs netlink_empty netlink_empty_wf) as [_ Hmir]. fold s in Hmir.
  assert (from_inputs inputs timed) as Hfrom.
  { intros now j Hj. apply (emitted_inputs watched inputs netlink_empty). rewrite <- Hev. apply list_elem_of_fmap. by exists (now, EmitInput j). }
  pose proof (items_sourced inputs timed items Hfrom Hpush Hlldp) as Hsrc.
  assert (followable policy k (it_payload <$> items)) as Hps
    by (apply (sourced_followable inputs); [done|done|]; intros p (x & -> & Hx)%list_elem_of_fmap; by apply Hsrc).
  destruct (reports_view (it_payload <$> items) no_reports ∅ Hne) as [Hv Hr]; [intros i; cbn; set_solver|].
  pose proof (run_follows policy cfg k _ _ _ applied Hps (restart_follows policy cfg k _ t0 e Hok Hcl Hpol Hcfg) Hrun) as Hf.
  rewrite Happ in Hf. specialize (Hf (λ p Hp, Hp) (Hr Hrep)).
  destruct (reports_netlink items no_reports no_reports Hlldp) as [Sn Sp]; [done|]. rewrite Hpush in Sn, Sp.
  pose proof (tables_events inputs timed _ _ Hk Hfrom (tables_empty inputs)) as [_ _ Tn Tp].
  rewrite Hev, Hmir in Tn, Tp. cbn [mirror_of mi_neighbors mi_fdb] in Tn, Tp.
  apply (model_tracks_reports _ _ _ _ _ _ Hf); [by intros nk; rewrite Sn|by intros p; rewrite Sp|exact Hv].
Qed.
End kernel.

(** * Properties *)

(** What the model holds about another machine is what the kernel and lldpd
    say. Whatever the kernel and lldpd report, with repetitions, in any order and
    with any watched interfaces; however the pushes and pops of the queue, aging
    and going live interleave after a restart of the model: when the queue dropped
    nothing and is empty, the candidate of a MAC that the model can follow
    ([kernel_followable], one interface towards lldpd) holds exactly the admitted
    entries of the kernel's neighbour and forwarding tables for it, their IPs and
    bridge port, and is seen in LLDP exactly when lldpd has it ([model_tracks]);
    in the live phase, with the default classifier, it is published when there is
    such an entry, unless it expired, and only then. *)
Theorem kernel_evidence_reaches_model `{InetPton} {Q} `{BoundedQueueLaws Q} k watched inputs timed (q0 : BoundedObservationQueue Q) ops applied t0 e :
  let policy := interfacePolicy_ e in
  let os := lldp_of (it_payload <$> pushes ops) in
  k ≠ "" → engine_ok e → classifier_ e = RuleBasedClassifier →
  kernel_followable k inputs → one_lldp_interface policy k os → repeats_view ∅ os →
  bq_items (queue_ q0) = [] → bq_closed (queue_ q0) = false → resyncMask_ q0 = 0%Z →
  let '(events, s) := net_run watched inputs netlink_empty in
  let '(q, popped, taken) := foldl (λ st op, queue_op op st) (q0, [], 0%Z) ops in
  timed.*2 = events →
  filter (λ x, it_source x = SrcNetlink) (pushes ops) = timed ≫= (λ p, event_items p.1 p.2) →
  (∀ x, x ∈ pushes ops → it_source x = SrcLldp → ∃ o, it_payload x = PLldp o) →
  bq_items (queue_ q) = [] → Z.lor (resyncMask_ q) taken = 0%Z →
  Forall running_input applied → omap input_payload applied = it_payload <$> popped →
  model_tracks policy (config_ e) k (neighborStatesByKey_ s) (fdbStatesByMac_ s) (foldl apply_view ∅ os)
    (engine_run applied (prepareForRestart t0 e).1).1.
Proof.
  intros policy os Hne Hok Hcl Hk Hone Hrep Hi Hc Hm.
  pose proof (accounted_lossless _ _ (queue_accounted q0 ops Hi Hc Hm)) as Hl.
  pose proof (items_tracked policy (config_ e) k watched inputs timed (pushes ops) applied t0 e Hne Hok Hcl eq_refl eq_refl Hk Hone Hrep) as Ht.
  destruct (net_run watched inputs netlink_empty) as [events s]. destruct (foldl _ _ ops) as [[q popped] taken]. cbn [fst snd] in *.
  intros Hev Hpush Hlldp Hempty Hmask Hrun Happ.
  assert (popped = pushes ops) as -> by (rewrite <- (Hl Hmask), Hempty; by rewrite app_nil_r).
  by apply Ht.
Qed.

(** ** Witness: a link, its address, a neighbour and its forwarding entry, some of
    them reported twice, and an observation of lldpd with its keepalive; the model
    goes live in between. *)
#[local] Instance demo_evidence_pton : InetPton := demo_pton.

Definition demo_mac : string := "02:00:00:00:00:07".
Definition demo_entry : NeighborEvent := mkNeighborEvent "eth0" demo_mac AF_INET "10.0.0.7" NUD_REACHABLE true.
Definition demo_port : FdbEvent := mkFdbEvent "eth0" demo_mac true false false.
Definition demo_tables : list NetInput :=
  [NLink demo_link; NAddress demo_address; NNeighbor demo_entry; NNeighbor demo_entry; NFdb demo_port].
Definition demo_seen (keepalive : bool) : LldpObservation :=
  mkLldpObservation (mkBase KLldp 1) "eth0" EvPresent (Some demo_mac) None None keepalive.
Definition demo_reported : list (time_point * NetEvent) := pair 1%Z <$> (net_run ∅ demo_tables netlink_empty).1.
Definition demo_queued : list ObservationItem :=
  (demo_reported ≫= (λ p, event_items p.1 p.2)) ++ ((λ b, mkItem SrcLldp (PLldp (demo_seen b))) <$> [false; true]).
Definition demo_queue_ops : list QueueOp := demo_queued ≫= (λ x, [QPush x; QPop]).
Definition demo_applied : list EngineInput :=
  [ILink (toLinkObservation demo_link 1) 1; IAddress (toAddressObservation demo_address 1) 1;
   INeighbor (toNeighborObservation demo_entry 1) 1 1; IMarkLive 2; IFdb (toFdbObservation demo_port 1) 1 1; IAge 3 3;
   ILldp (demo_seen false) 3 3; ILldp (demo_seen true) 4 4].

Lemma demo_followable : kernel_followable demo_mac demo_tables.
Proof.
  assert (Hl : ∀ e, NLink e ∈ demo_tables → e = demo_link) by set_solver.
  assert (Ha : ∀ e, NAddress e ∈ demo_tables → e = demo_address) by set_solver.
  assert (Hn : ∀ e, NNeighbor e ∈ demo_tables → e = demo_entry) by set_solver.
  assert (Hf : ∀ e, NFdb e ∈ demo_tables → e = demo_port) by set_solver.
  split.
  - by intros e ->%Hl.
  - by intros a n ->%Ha ->%Hn.
  - by intros n n' ->%Hn ->%Hn.
  - by intros f f' ->%Hf ->%Hf.
  - by intros n ->%Hn.
  - intros a ->%Ha. split; [done|]. split; [done|by left].
Qed.

Lemma demo_one_interface policy k : one_lldp_interface policy k [demo_seen false; demo_seen true].
Proof. intros o o' Ho Ho' _ _. rewrite !elem_of_cons, elem_of_nil in Ho, Ho'. by destruct Ho as [->|[->|[]]], Ho' as [->|[->|[]]]. Qed.

Lemma kernel_evidence_reaches_model_witness :
  let e := (engine_run demo_applied (prepareForRestart 0 (engine_init default_model_config)).1).1 in
  findCandidateByMac demo_mac e = Some (candidate_at e demo_mac) ∧ c_bridgePort (candidate_at e demo_mac) = Some "eth0".
Proof.
  pose proof (kernel_evidence_reaches_model demo_mac ∅ demo_tables demo_reported demo_queue demo_queue_ops demo_applied 0
    (engine_init default_model_config)) as Hk.
  assert ((net_run ∅ demo_tables netlink_empty).1 = demo_reported.*2) as Hev by (vm_compute; reflexivity).
  assert (fdbStatesByMac_ (net_run ∅ demo_tables netlink_empty).2 !! demo_mac = Some demo_port) as Hport by (vm_compute; reflexivity).
  destruct (net_run ∅ demo_tables netlink_empty) as [events s]. cbn [fst snd] in Hev, Hport.
  destruct (foldl (λ st op, queue_op op st) (demo_queue, [], 0%Z) demo_queue_ops) as [[q popped] taken] eqn:Hq.
  vm_compute in Hq. injection Hq as <- <- <-.
  assert (lldp_of (it_payload <$> pushes demo_queue_ops) = [demo_seen false; demo_seen true]) as Hos by (vm_compute; reflexivity).
  rewrite Hos in Hk. destruct Hk as [_ _ _ _ Hbridge _ Hlive _].
  - discriminate.
  - apply engine_init_ok. exact RuleBased_required.
  - reflexivity.
  - exact demo_followable.
  - apply demo_one_interface.
  - split; [discriminate|]. split; [|exact I]. intros _. split; [reflexivity|]. apply (bool_decide_unpack _). vm_compute. exact I.
  - reflexivity.
  - reflexivity.
  - reflexivity.
  - symmetry. exact Hev.
  - vm_compute. reflexivity.
  - intros x Hx Hs. vm_compute in Hx. repeat (apply elem_of_cons in Hx as [->|Hx]; [try discriminate Hs; by eexists|]). by apply elem_of_nil in Hx.
  - reflexivity.
  - reflexivity.
  - repeat (apply Forall_cons; split); [..|apply Forall_nil_2]; exact I.
  - vm_compute. reflexivity.
  - assert (evident_fdb DefaultInterfacePolicy default_model_config demo_mac (fdbStatesByMac_ s) demo_port) as Hf
      by (split; [exact Hport|vm_compute; reflexivity]).
    split; [|apply Hbridge; exists demo_port; split; [exact Hf|reflexivity]].
    apply Hlive; [vm_compute; reflexivity|right; left; exists demo_port; exact Hf|vm_compute; discriminate].
Defined.

(** * Where the model does not follow the kernel *)

Definition demo_run (inputs : list EngineInput) : ObservationModelEngine := (engine_run inputs (engine_init default_model_config)).1.

(** A MAC that moves from one port to another: the kernel only reports the new
    entry, so the evidence of the old port stays; when the MAC is forgotten the
    tables are empty and the candidate is still published. *)
Lemma moved_mac_stays :
  let at_ port := mkFdbEvent port demo_mac in
  let kernel := [NFdb (at_ "swp1" true false false); NFdb (at_ "swp2" true false false); NFdb (at_ "swp2" false false false)] in
  let '(events, s) := net_run ∅ kernel netlink_empty in
  let inputs := omap (λ x, match it_payload x with PFdb o => Some (IFdb o 1 1) | _ => None end) (events ≫= event_items 1) in
  fdbStatesByMac_ s = ∅ ∧ length inputs = 3 ∧ is_Some (findCandidateByMac demo_mac (demo_run (IMarkLive 1 :: inputs))).
Proof. vm_compute. split; [reflexivity|]. split; [reflexivity|by eexists]. Qed.

(** Removing one of two neighbour entries of a MAC on one interface (of its IPv4
    and its IPv6 address) takes the interface from the candidate. *)
Lemma neighbor_removed_drops_shared_iface :
  let n family ip ev := INeighbor (mkNeighborObservation (mkBase KNeighbor 1) "eth0" ev family demo_mac ip Reachable) 1 1 in
  let e := demo_run [IMarkLive 1; n AF_INET "10.0.0.7" EvPresent; n AF_INET6 "fe80::7" EvPresent; n AF_INET6 "fe80::7" EvRemoved] in
  (λ c, (size (c_neighborEvidence c), c_neighborIfaces c)) <$> findCandidateByMac demo_mac e = Some (1, ∅).
Proof. vm_compute. reflexivity. Qed.

(** The removal of a neighbour whose IP has become the machine's own is dropped by
    the hard filter, so its evidence is still there when the IP is not local any
    more. *)
Lemma removal_while_local_ignored :
  let n ev := INeighbor (demo_neighbor ev 1) 1 1 in
  let a ev := IAddress (mkAddressObservation (mkBase KAddress 1) "eth0" ev AF_INET "10.0.0.7/24") 1 in
  let e := demo_run [IMarkLive 1; n EvPresent; a EvPresent; n EvRemoved; a EvRemoved;
                     IFdb (mkFdbObservation (mkBase KFdb 2) "swp1" EvPresent demo_mac Dynamic) 2 2] in
  (λ c, (c_seenInNeigh c, bool_decide ("10.0.0.7" ∈ c_ipv4 c))) <$> findCandidateByMac demo_mac e = Some (true, true).
Proof. vm_compute. reflexivity. Qed.
