(* ===== verification/System.v ===== *)
(** The observation daemon as one system: the monitor's thread, the threads of the
    LLDP source, the runtime's consumer and the three workers of the service work
    on shared state in any order, one step at a time. The components are those of
    the other files, composed as [NetlinkLldpObservationRuntime::makeCallbacks],
    [observationLoop] and [ObservationService] compose them; the theorem takes the
    refinements of the components together, from the kernel and lldpd to a client
    on the bus. *)

From S2P Require Import Prelude Contract Observation LocalState Filter Engine EngineProps EngineEvents Publication ServiceRun NetlinkState LldpIo LldpSource LldpObserver Runtime Pipeline Evidence.

(** * Steps *)

(** [da_pushed]: everything that was pushed into the queue, in order. *)
Record Daemon (Q D : Type) := mkDaemon {
  da_netlink : NetlinkState;
  da_lldp : LldpdSource * Batch;
  da_queue : BoundedObservationQueue Q;
  da_service : ServiceState D;
  da_pushed : list ObservationItem
}.
Arguments mkDaemon {Q D}.
Arguments da_netlink {Q D}.
Arguments da_lldp {Q D}.
Arguments da_queue {Q D}.
Arguments da_service {Q D}.
Arguments da_pushed {Q D}.

(** The monitor handles a message ([env]: what the LLDP source would meet); a thread of the LLDP source does an operation,
    or a turn of its keepalive batch; the consumer takes an item; [start] ends with
    [markLive]; a worker of the service has a turn. *)
Inductive DaemonStep :=
| KernelReports (now : time_point) (env : LldpdEnv) (i : NetInput)
| LldpdReports (op : LldpOp)
| Consumes (t1 t2 : time_point)
| GoesLive (t2 : time_point)
| Ages (t : Turn AgingInput)
| Supervises (t : Turn unit)
| Publishes (stop : bool).

Definition lldp_item (o : LldpObservation) : ObservationItem := mkItem SrcLldp (PLldp o).

(** The model's operation for an item ([applyObservation]). *)
Definition item_input (t1 t2 : time_point) (x : ObservationItem) : EngineInput :=
  match it_payload x with
  | PLink o => ILink o t1
  | PAddress o => IAddress o t1
  | PNeighbor o => INeighbor o t1 t2
  | PFdb o => IFdb o t1 t2
  | PLldp o => ILldp o t1 t2
  end.

Section daemon.
Context `{InetPton} {Q D : Type} `{BoundedQueue Q} `{DirtySet D}.
Context (watched : gset string) (lldp : LldpSourceConfig) (sf sm : string → string) (service : ObservationService).
Implicit Types y : Daemon Q D.

Definition push_all (items : list ObservationItem) (q : BoundedObservationQueue Q) : BoundedObservationQueue Q :=
  foldl (λ q x, (queue_push x q).2) q items.

Definition pushes_items (items : list ObservationItem) y : Daemon Q D :=
  mkDaemon (da_netlink y) (da_lldp y) (push_all items (da_queue y)) (da_service y) (da_pushed y ++ items).

(** What the runtime's callbacks do with an event of the monitor: a link event also
    reaches the LLDP source. *)
Definition monitor_event (now : time_point) (env : LldpdEnv) y (ev : NetEvent) : Daemon Q D :=
  match ev with
  | EmitInput (NLink e) =>
      let '(items, observer) := runtime_onLink (H := lldpd_source lldp) now env e (Some (da_lldp y).1) in
      pushes_items items (mkDaemon (da_netlink y) (default (da_lldp y).1 observer, (da_lldp y).2) (da_queue y) (da_service y) (da_pushed y))
  | _ => pushes_items (event_items now ev) y
  end.

Definition serve (x : ServiceStep) y : Daemon Q D :=
  mkDaemon (da_netlink y) (da_lldp y) (da_queue y) (service_step sf sm service (da_service y) x) (da_pushed y).

(** A turn of the consumer; without an item it waits. *)
Definition consume (t1 t2 : time_point) y : Daemon Q D :=
  match queue_tryPop (da_queue y) with
  | (Some x, q) => serve (StepModel (item_input t1 t2 x)) (mkDaemon (da_netlink y) (da_lldp y) q (da_service y) (da_pushed y))
  | (None, q) => mkDaemon (da_netlink y) (da_lldp y) q (da_service y) (da_pushed y)
  end.

Definition daemon_step y (x : DaemonStep) : Daemon Q D :=
  match x with
  | KernelReports now env i =>
      let '(events, s) := net_step watched i (da_netlink y) in
      foldl (monitor_event now env) (mkDaemon s (da_lldp y) (da_queue y) (da_service y) (da_pushed y)) events
  | LldpdReports op =>
      let '(out, l) := lldp_op lldp op (da_lldp y) in
      pushes_items (lldp_item <$> out) (mkDaemon (da_netlink y) l (da_queue y) (da_service y) (da_pushed y))
  | Consumes t1 t2 => consume t1 t2 y
  | GoesLive t2 => serve (StepModel (IMarkLive t2)) y
  | Ages t => serve (StepAging t) y
  | Supervises t => serve (StepSupervision t) y
  | Publishes stop => serve (StepPublication stop) y
  end.

Definition daemon_run (steps : list DaemonStep) y : Daemon Q D := foldl daemon_step y steps.

(** The first half of [start]: the model is prepared, the queue reopened, the LLDP
    source started, with what it enumerated pushed; the monitor is about to dump. *)
Definition daemon_begin (self : nat) (config : ModelConfig) (t0 : time_point) (q : BoundedObservationQueue Q) (d : D)
    (out : list LldpObservation) (source : LldpdSource) : Daemon Q D :=
  mkDaemon netlink_empty (source, ([], 0%Z)) (push_all (lldp_item <$> out) (queue_reopen q))
    (service_step sf sm service (service_begin service self config d) (StepModel (IRestart t0))) (lldp_item <$> out).
End daemon.

(** * Specification *)

Definition kernel_inputs (steps : list DaemonStep) : list NetInput :=
  omap (λ x, match x with KernelReports _ _ i => Some i | _ => None end) steps.

(** The operations on the LLDP cache, which counts them in 64 bits. *)
Definition step_writes (x : DaemonStep) : nat :=
  match x with KernelReports _ _ _ => 1 | LldpdReports op => op_writes op | _ => 0 end.

Section exact.
Context `{InetPton} {Q D : Type} `{DirtySet D}.
Context (watched : gset string) (sf sm : string → string) (service : ObservationService) (config : ModelConfig) (k : string).
Implicit Types y : Daemon Q D.

Definition da_engine y : ObservationModelEngine := sv_engine (da_service y).

(** What a consumer of the observations of lldpd holds. *)
Definition da_view y : gset (string * string) := foldl apply_view ∅ (lldp_of (it_payload <$> da_pushed y)).

(** A client that follows the signals of a transport, after the next turn of the
    publication worker. *)
Definition da_client (t : IObservationTransport) (stop : bool) y : gset string :=
  foldl apply_signal ∅ (calls_of (transport_name t) (sv_calls (da_service (serve sf sm service (StepPublication stop) y)))).

Definition da_policy : IInterfacePolicy := default DefaultInterfacePolicy (interfacePolicy config).

(** The tables of the monitor, the view of lldpd, the model with its local state,
    and a client agree on the [inputs] of the kernel about the MAC [k]. *)
Record daemon_exact (inputs : list NetInput) (y : Daemon Q D) : Prop := mkDaemonExact {
  dx_netlink : da_netlink y = (net_run watched inputs netlink_empty).2;
  dx_lldp ifname key : (ifname, key) ∈ da_view y ↔ is_Some (byInterface_ (ls_cache (da_lldp y).1) !! ifname ≫= λ m, m !! key);
  dx_model : model_tracks da_policy config k (neighborStatesByKey_ (da_netlink y)) (fdbStatesByMac_ (da_netlink y)) (da_view y) (da_engine y);
  dx_local : Forall input_ok inputs →
    local_exact (includeInLocalState da_policy) (linkStates_ (da_netlink y)) (interfaceAddresses_ (da_netlink y)) (localState_ (da_engine y));
  dx_client t stop : sv_publication (da_service y) = None → t ∈ observationTransports (sv_transports service) →
    (k ∈ da_client t stop y ↔ is_Some (findCandidateByMac k (da_engine y))) ∧
    (phase_ (da_engine y) = Live → c_status (candidate_at (da_engine y) k) ≠ Expired →
     k ∈ da_client t stop y ↔
     reported da_policy config k (neighborStatesByKey_ (da_netlink y)) (fdbStatesByMac_ (da_netlink y)) (da_view y))
}.
End exact.

(** * Lemmas *)

Lemma engine_run_app `{InetPton} l l' e : (engine_run (l ++ l') e).1 = (engine_run l' (engine_run l e).1).1.
Proof.
  revert e. induction l as [|j l IH]; intros e; cbn [engine_run app]; [done|].
  destruct (engine_step j e) as [e1 d1]. specialize (IH e1). destruct (engine_run (l ++ l') e1), (engine_run l e1). exact IH.
Qed.

Lemma engine_run_one `{InetPton} i e : (engine_run [i] e).1 = (engine_step i e).1.
Proof. cbn. by destruct (engine_step i e). Qed.

Lemma repeats_view_app V a b : repeats_view V (a ++ b) ↔ repeats_view V a ∧ repeats_view (foldl apply_view V a) b.
Proof. revert V. induction a as [|o a IH]; intros V; cbn; [tauto|]. rewrite IH. tauto. Qed.

Lemma fresh_repeats V os : Forall (λ o, ll_keepalive o = false) os → repeats_view V os.
Proof. intros Hf. revert V. induction Hf as [|o os Ho _ IH]; intros V; [done|]. split; [congruence|done]. Qed.

(** ** What the source delivers besides its keepalive batches is news *)

Abbreviation news := (Forall (λ o, ll_keepalive o = false)).

Lemma dispatch_news config now ifname change nb s : news (dispatchChange config now ifname change nb s).1.
Proof. unfold dispatchChange. repeat case_match; repeat constructor. Qed.

Lemma walk_neighbors_news config now ifname l s : news (walk_neighbors config now ifname l s).1.1.
Proof.
  revert s. induction l as [|[lease nb] l IH]; intros s; cbn [walk_neighbors]; [constructor|]. case_match; [constructor|].
  pose proof (dispatch_news config now ifname lldpctl_c_added nb s) as Hd. destruct (dispatchChange _ _ _ _ _ _) as [out s1].
  specialize (IH s1). destruct (walk_neighbors _ _ _ _ _) as [[out' aborted] s2]. cbn in *. by apply Forall_app.
Qed.

Lemma walk_interfaces_news config now l s : news (walk_interfaces config now l s).1.1.
Proof.
  revert s. induction l as [|[cancelled ifname nbs|] l IH]; intros s; cbn [walk_interfaces]; [constructor| |constructor].
  destruct cancelled; [constructor|]. destruct ifname as [ifname|]; [|apply IH]. case_match; [apply IH|].
  pose proof (walk_neighbors_news config now ifname nbs s) as Hw. destruct (walk_neighbors _ _ _ _ _) as [[out aborted] s1].
  destruct aborted; [exact Hw|]. specialize (IH s1). destruct (walk_interfaces _ _ _ _) as [[out' aborted] s2]. cbn in *. by apply Forall_app.
Qed.

Lemma enumerate_news config now connected walk s : news (enumerateInitialNeighbors config now connected walk s).1.
Proof.
  unfold enumerateInitialNeighbors. case_match; [constructor|]. pose proof (walk_interfaces_news config now walk s) as Hw.
  by destruct (walk_interfaces _ _ _ _) as [[out aborted] s1].
Qed.

Lemma remove_news now ifname s : news (removeInterface now ifname s).1.
Proof.
  unfold removeInterface. case_match; [constructor|]. destruct (flushInterface _ _) as [gone c]. cbn.
  apply Forall_forall. by intros o (x & -> & _)%list_elem_of_fmap.
Qed.

Lemma refresh_news config now built connected walk s : news (refreshAll config now built connected walk s).1.2.
Proof.
  unfold refreshAll. case_match; [constructor|]. destruct (supervisor_refresh _ _) as [ok sv]. destruct ok; cbn [negb]; [|constructor].
  destruct (cache_exchange _ _) as [old c]. set (s1 := _ <| ls_lastWatchEventAt := now |>).
  pose proof (enumerate_news config now connected walk s1) as He. destruct (enumerateInitialNeighbors _ _ _ _ s1) as [out s2].
  apply Forall_app. split; [exact He|]. unfold reconcileAfterRefresh. case_match; [constructor|].
  apply Forall_forall. by intros o ([i x] & -> & _)%list_elem_of_fmap.
Qed.

Lemma start_news config now i s : news (source_start config now i s).1.2.
Proof.
  unfold source_start. repeat (case_match; [constructor|]). destruct (supervisor_start _ _) as [ok sv]. destruct ok; cbn [negb]; [|constructor].
  set (s1 := _ <| ls_lastWatchEventAt := now |>).
  pose proof (enumerate_news config now (ss_connected i) (ss_walk i) s1) as He. destruct (enumerateInitialNeighbors _ _ _ _ s1) as [out s2].
  destruct (ss_completes i); cbn; [exact He|]. by destruct (supervisor_stop _ _).
Qed.

(** A turn of a batch only repeats what the consumer knows. *)
Lemma lldp_op_repeats config op W V st :
  run_ok W V st → (Z.of_nat W < 2 ^ 64)%Z → repeats_view V (lldp_op config op st).1.
Proof.
  destruct st as [s b]. intros Hok HW. destruct op as [now ifname change nb|now ifname|now built connected walk|now|]; cbn [lldp_op].
  - apply fresh_repeats. unfold onWatchChange. destruct (negb (ls_gate s)); [constructor|]. pose proof (dispatch_news config now ifname change nb s) as Hd.
    by destruct (dispatchChange _ _ _ _ _ _).
  - apply fresh_repeats. pose proof (remove_news now ifname s) as Hr. by destruct (removeInterface _ _ _).
  - apply fresh_repeats. pose proof (refresh_news config now built connected walk s) as Hr. by destruct (refreshAll _ _ _ _ _ _) as [[ok out] s1].
  - done.
  - destruct Hok as [H1' H2' H3' H4' H5' H6']. cbn in *. unfold emitBatch_next. destruct b as [[|obs rest] g]; cbn in *; [done|].
    case_bool_decide as Hgen; cbn; [done|]. split; [|done]. intros _.
    destruct H6' as [|(n & c0 & Hn & M & Hg & He & [Hp Hc]%Forall_cons)]; [done|]. split; [apply Hp|]. apply H5'. right.
    cbn in He. assert (ls_cache s = c0) as -> by (eapply moved_same; [exact M|done|lia|congruence]). apply Hp.
Qed.

(** * The history behind a state *)

Lemma filter_everything {A} (P : A → Prop) `{∀ x, Decision (P x)} (l : list A) : Forall P l → filter P l = l.
Proof. induction 1 as [|x l Hx _ IH]; [done|]. by rewrite filter_cons, decide_True, IH. Qed.

Lemma run_ok_mono W W' V st : run_ok W V st → W ≤ W' → run_ok W' V st.
Proof.
  intros [] Hle. split; try done. destruct ro_batch as [|(n & c0 & Hn & Hr)]; [by left|right]. exists n, c0. split; [lia|done].
Qed.

Section history.
Context `{InetPton} {Q D : Type} `{BoundedQueueLaws Q} `{DirtySet D}.
Context (watched : gset string) (lldp : LldpSourceConfig) (sf sm : string → string) (service : ObservationService).
Context (q0 : BoundedObservationQueue Q) (e0 : ObservationModelEngine) (s0 : ServiceState D).
Implicit Types y : Daemon Q D.

(** The operations on the queue, the events of the monitor with their times, what
    the engine and the service did; [W] bounds the mutations of the LLDP cache. *)
Record History := mkHistory {
  hi_timed : list (time_point * NetEvent); hi_ops : list QueueOp; hi_popped : list ObservationItem;
  hi_applied : list EngineInput; hi_served : list ServiceStep
}.

Definition pushed (h : History) : list ObservationPayload := it_payload <$> pushes (hi_ops h).

(** The steps of the service: on what was popped, and its own. *)
Definition serves (h : History) (x : ServiceStep) : Prop :=
  match x with
  | StepModel i => running_input i ∧ match input_payload i with Some p => p ∈ it_payload <$> hi_popped h | None => announced i end
  | StepClose => False
  | _ => True
  end.

Record linked (W : nat) (h : History) (y : Daemon Q D) : Prop := mkLinked {
  li_queue : foldl (λ st op, queue_op op st) (q0, [], 0%Z) (hi_ops h) = (da_queue y, hi_popped h, 0%Z);
  li_netlink : filter (λ x, it_source x = SrcNetlink) (pushes (hi_ops h)) = hi_timed h ≫= (λ p, event_items p.1 p.2);
  li_source x : x ∈ pushes (hi_ops h) → it_source x = SrcLldp → ∃ o, it_payload x = PLldp o;
  li_view : run_ok W (foldl apply_view ∅ (lldp_of (pushed h))) (da_lldp y);
  li_repeats : repeats_view ∅ (lldp_of (pushed h));
  li_applied : omap input_payload (hi_applied h) = it_payload <$> hi_popped h;
  li_running : Forall running_input (hi_applied h);
  li_engine : sv_engine (da_service y) = (engine_run (hi_applied h) e0).1;
  li_service : da_service y = service_run sf sm service (hi_served h) s0;
  li_served : Forall (serves h) (hi_served h);
  li_pushed : pushes (hi_ops h) = da_pushed y
}.

Lemma push_all_ops items q popped taken :
  foldl (λ st op, queue_op op st) (q, popped, taken) (QPush <$> items) = (push_all items q, popped, taken).
Proof. revert q. induction items as [|x items IH]; intros q; [done|]. cbn. by rewrite IH. Qed.

Lemma pushes_app ops ops' : pushes (ops ++ ops') = pushes ops ++ pushes ops'.
Proof. apply omap_app. Qed.
Lemma pushes_items_of items : pushes (QPush <$> items) = items.
Proof. unfold pushes. induction items as [|x items IH]; [done|]. cbn. by f_equal. Qed.

Lemma lldp_of_app ps ps' : lldp_of (ps ++ ps') = lldp_of ps ++ lldp_of ps'.
Proof. apply omap_app. Qed.
Lemma lldp_of_items os : lldp_of (it_payload <$> (lldp_item <$> os)) = os.
Proof. unfold lldp_of. induction os as [|o os IH]; [done|]. cbn. by f_equal. Qed.

Lemma event_items_netlink now ev : Forall (λ x, it_source x = SrcNetlink) (event_items now ev) ∧ lldp_of (it_payload <$> event_items now ev) = [].
Proof. destruct ev as [[e|e|e|e]|d]; cbn; split; repeat constructor. Qed.

Lemma timed_netlink (timed : list (time_point * NetEvent)) :
  filter (λ x, it_source x = SrcNetlink) (timed ≫= λ p, event_items p.1 p.2) = (timed ≫= λ p, event_items p.1 p.2) ∧
  lldp_of (it_payload <$> (timed ≫= λ p, event_items p.1 p.2)) = [].
Proof.
  induction timed as [|[now ev] timed [IH1 IH2]]; [done|]. rewrite bind_cons, filter_app, IH1, fmap_app, lldp_of_app, IH2, app_nil_r.
  destruct (event_items_netlink now ev) as [Hf Hl]. cbn [fst snd]. by rewrite filter_everything, Hl.
Qed.

Lemma lldp_items_filtered os : filter (λ x, it_source x = SrcNetlink) (lldp_item <$> os) = [].
Proof. induction os as [|o os IH]; [done|]. rewrite fmap_cons, filter_cons, decide_False by done. exact IH. Qed.

(** The monitor's news and what the LLDP source delivers go to the queue. *)
Definition history_pushes (timed : list (time_point * NetEvent)) (out : list LldpObservation) (h : History) : History :=
  mkHistory (hi_timed h ++ timed)
    (hi_ops h ++ (QPush <$> ((timed ≫= λ p, event_items p.1 p.2) ++ (lldp_item <$> out))))
    (hi_popped h) (hi_applied h) (hi_served h).

Lemma push_linked W W' h y s timed out l :
  linked W h y →
  run_ok W' (foldl apply_view (foldl apply_view ∅ (lldp_of (pushed h))) out) l →
  repeats_view (foldl apply_view ∅ (lldp_of (pushed h))) out →
  linked W' (history_pushes timed out h)
    (pushes_items ((timed ≫= λ p, event_items p.1 p.2) ++ (lldp_item <$> out)) (mkDaemon s l (da_queue y) (da_service y) (da_pushed y))).
Proof.
  intros [Q1 N1 S1 V1 R1 A1 U1 E1 P1 D1 L1] Hl Hr. set (items := (timed ≫= λ p, event_items p.1 p.2) ++ (lldp_item <$> out)).
  destruct (timed_netlink timed) as [Tf Tl].
  assert (Hp : pushes (hi_ops (history_pushes timed out h)) = pushes (hi_ops h) ++ items)
    by (cbn [history_pushes hi_ops]; by rewrite pushes_app, pushes_items_of).
  assert (Ho : lldp_of (pushed (history_pushes timed out h)) = lldp_of (pushed h) ++ out).
  { unfold pushed at 1. rewrite Hp, fmap_app, lldp_of_app. unfold items. by rewrite fmap_app, lldp_of_app, Tl, lldp_of_items. }
  split; rewrite ?Hp, ?Ho; cbn [history_pushes hi_ops hi_timed hi_popped hi_applied hi_served pushes_items da_queue da_lldp da_service da_pushed];
    try done.
  - rewrite foldl_app, Q1. apply push_all_ops.
  - rewrite filter_app, N1, bind_app. unfold items. by rewrite filter_app, Tf, lldp_items_filtered, app_nil_r.
  - intros x [Hx|[Hx|Hx]%elem_of_app]%elem_of_app Hs; [by apply S1| |].
    + apply list_elem_of_bind in Hx as ([now ev] & Hx & _). destruct (event_items_netlink now ev) as [Hf _].
      rewrite Forall_forall in Hf. cbn in Hx. specialize (Hf x Hx). congruence.
    + apply list_elem_of_fmap in Hx as (o & -> & _). by exists o.
  - by rewrite foldl_app.
  - by apply repeats_view_app.
  - by rewrite L1.
Qed.

(** An event of the monitor is at most one operation on the LLDP source. *)
Definition event_writes (ev : NetEvent) : nat := match ev with EmitInput (NLink _) => 1 | _ => 0 end.

Lemma event_linked W h y now env ev :
  linked W h y → (Z.of_nat (W + event_writes ev) < 2 ^ 64)%Z →
  ∃ out, linked (W + event_writes ev) (history_pushes [(now, ev)] out h) (monitor_event lldp now env y ev) ∧
    da_netlink (monitor_event lldp now env y ev) = da_netlink y.
Proof.
  intros Hl HW. pose proof (li_view _ _ _ Hl) as Hv.
  assert (Hquiet : ∀ ev, event_writes ev = 0 → monitor_event lldp now env y ev = pushes_items (event_items now ev) y →
    ∃ out, linked (W + event_writes ev) (history_pushes [(now, ev)] out h) (monitor_event lldp now env y ev) ∧
      da_netlink (monitor_event lldp now env y ev) = da_netlink y).
  { intros ev' Hw ->. exists []. rewrite Hw, Nat.add_0_r. split; [|done].
    pose proof (push_linked W W h y (da_netlink y) [(now, ev')] [] (da_lldp y) Hl Hv I) as Hp.
    cbn [mbind list_bind fmap list_fmap fst snd] in Hp. rewrite !app_nil_r in Hp. by destruct y. }
  destruct ev as [[e|e|e|e]|d]; try (by apply Hquiet). clear Hquiet. cbn [event_writes monitor_event] in *.
  unfold runtime_onLink, cb_onLinkChanged. cbn [runtime_sinks has_onLink has_onLinkStateForLldp when app foldl link_call sink_item fst snd
    onLinkStateForLldp option_list fmap option_fmap option_map].
  destruct y as [n [src b] q sv pu]. cbn [da_lldp fst snd] in *. destruct (le_present e && le_running e).
  - exists []. unfold onInterfaceUp. cbn [il_refreshInterface lldpd_source fst snd default option_map fmap list_fmap]. split; [|done].
    apply (push_linked W (W + 1) h _ n [(now, EmitInput (NLink e))] [] (src, b) Hl); [|done]. eapply run_ok_mono; [exact Hv|lia].
  - unfold onInterfaceDown. cbn [il_removeInterface lldpd_source].
    pose proof (lldp_op_ok lldp (OpRemove now (le_ifname e)) W _ _ Hv HW) as Ho. pose proof (remove_news now (le_ifname e) src) as Hn.
    cbn [lldp_op op_writes] in Ho. destruct (removeInterface now (le_ifname e) src) as [out s1]. cbn [fst snd default option_map] in *.
    exists out. split; [|done].
    exact (push_linked W (W + 1) h _ n [(now, EmitInput (NLink e))] out (s1, b) Hl Ho (fresh_repeats _ _ Hn)).
Qed.

(** The service takes steps on items taken from the queue. *)
Lemma serve_linked W h y ops q items xs inputs :
  linked W h y → pushes ops = [] →
  foldl (λ st op, queue_op op st) (da_queue y, hi_popped h, 0%Z) ops = (q, hi_popped h ++ items, 0%Z) →
  let sv := service_run sf sm service xs (da_service y) in
  let h' := mkHistory (hi_timed h) (hi_ops h ++ ops) (hi_popped h ++ items) (hi_applied h ++ inputs) (hi_served h ++ xs) in
  sv_engine sv = (engine_run inputs (sv_engine (da_service y))).1 →
  omap input_payload inputs = it_payload <$> items → Forall running_input inputs → Forall (serves h') xs →
  linked W h' (mkDaemon (da_netlink y) (da_lldp y) q sv (da_pushed y)).
Proof.
  intros [Q1 N1 S1 V1 R1 A1 U1 E1 P1 D1 L1] Hops Hq sv h' He Hp Hr Hs.
  assert (pushes (hi_ops h') = pushes (hi_ops h)) as Hpu by (cbn; by rewrite pushes_app, Hops, app_nil_r).
  split; unfold pushed; rewrite ?Hpu; cbn [h' hi_timed hi_popped hi_applied hi_served da_queue da_lldp da_service]; try done.
  - cbn [hi_ops h']. by rewrite foldl_app, Q1.
  - by rewrite omap_app, A1, Hp, fmap_app.
  - by apply Forall_app.
  - by rewrite engine_run_app, <- E1.
  - unfold sv, service_run. by rewrite foldl_app, P1.
  - apply Forall_app. split; [|done]. eapply Forall_impl; [exact D1|]. intros x. unfold serves. destruct x as [i|t|t|stop|]; try done.
    intros [Hi Hx]. split; [done|]. destruct (input_payload i); [|done]. cbn. rewrite fmap_app. apply elem_of_app. by left.
Qed.

(** What a turn of a worker does to the model. *)
Lemma worker_engine x (s : ServiceState D) :
  match x with StepModel _ | StepClose => False | _ => True end →
  ∃ inputs, sv_engine (service_step sf sm service s x) = (engine_run inputs (sv_engine s)).1 ∧
    omap input_payload inputs = [] ∧ Forall running_input inputs.
Proof.
  intros Hx. destruct x as [i|t|t|stop|]; try done; cbn [service_step].
  - destruct (sv_aging s); [by exists []|]. cbn [while_running]. destruct t as [|what|i]; [by exists []..|].
    exists [IAge (ai_now i) (ai_t2 i)]. rewrite engine_run_one. split; [done|]. split; [done|]. by repeat constructor.
  - exists []. destruct (sv_supervision s), t; done.
  - exists []. split; [|done]. destruct (sv_publication s); [done|]. cbn [while_running]. unfold publication_turn.
    destruct (waitAndTake stop (sv_queue s)) as [[[p|]|] d]; try done. by destruct (publishBatch _ _ _ _ _).
Qed.

Lemma events_linked now env events W h y :
  linked W h y → (Z.of_nat (W + list_sum (event_writes <$> events)) < 2 ^ 64)%Z →
  ∃ h', linked (W + list_sum (event_writes <$> events)) h' (foldl (monitor_event lldp now env) y events) ∧
    hi_timed h' = hi_timed h ++ (pair now <$> events) ∧ da_netlink (foldl (monitor_event lldp now env) y events) = da_netlink y.
Proof.
  revert W h y. induction events as [|ev events IH]; intros W h y Hl HW; cbn [fmap list_fmap foldl] in *.
  - exists h. change (list_sum []) with 0. by rewrite Nat.add_0_r, app_nil_r.
  - change (list_sum (event_writes ev :: _)) with (event_writes ev + list_sum (event_writes <$> events)) in *.
    destruct (event_linked W h y now env ev Hl ltac:(lia)) as (out & Hl1 & Hn).
    destruct (IH _ _ _ Hl1 ltac:(lia)) as (h' & Hl' & Ht & Hn'). exists h'. rewrite Nat.add_assoc. split; [done|].
    rewrite Ht, Hn', Hn. cbn [history_pushes hi_timed]. by rewrite <- app_assoc.
Qed.

Lemma net_step_writes i s : list_sum (event_writes <$> (net_step watched i s).1) ≤ 1.
Proof.
  destruct i as [e|e|e|e]; cbn [net_step].
  - destruct (updateLink e s) as [[o|] s']; cbn; lia.
  - destruct (updateAddress e s) as [[o|] s']; cbn; lia.
  - destruct (negb _); [cbn; lia|]. destruct (updateFdb e s) as [[[o|] [d|]] s']; cbn; lia.
  - destruct (negb _); [cbn; lia|]. destruct (updateNeighbor e s) as [[[o|] [d|]] s']; cbn; lia.
Qed.

(** The monitor's tables and events are those of the kernel's reports so far. *)
Definition tables_linked (inputs : list NetInput) (h : History) (y : Daemon Q D) : Prop :=
  net_run watched inputs netlink_empty = ((hi_timed h).*2, da_netlink y).

Lemma worker_linked W h y x :
  linked W h y → match x with StepModel _ | StepClose => False | _ => True end →
  ∃ h', linked W h' (serve sf sm service x y) ∧ hi_timed h' = hi_timed h.
Proof.
  intros Hl Hx. destruct (worker_engine x (da_service y) Hx) as (inputs & He & Ho & Hr).
  eexists. split; [apply (serve_linked W h y [] (da_queue y) [] [x] inputs Hl eq_refl)|done]; cbn [foldl]; rewrite ?app_nil_r; try done.
  repeat constructor. by destruct x.
Qed.

Lemma item_serves h t1 t2 item : item ∈ hi_popped h → serves h (StepModel (item_input t1 t2 item)).
Proof.
  intros Hx. cbn. unfold item_input.
  destruct (it_payload item) eqn:Hp; (split; [done|]); apply list_elem_of_fmap; exists item; cbn; rewrite Hp; done.
Qed.

Lemma step_linked x W inputs h y :
  linked W h y → tables_linked inputs h y → (Z.of_nat (W + step_writes x) < 2 ^ 64)%Z →
  ∃ h', linked (W + step_writes x) h' (daemon_step watched lldp sf sm service y x) ∧
    tables_linked (inputs ++ kernel_inputs [x]) h' (daemon_step watched lldp sf sm service y x).
Proof.
  intros Hl Ht HW. unfold tables_linked in *.
  destruct x as [now env i|op|t1 t2|t2|t|t|stop]; cbn [daemon_step step_writes kernel_inputs omap list_omap] in *;
    rewrite ?Nat.add_0_r, ?app_nil_r in *.
  - rewrite net_run_app, Ht. cbn [net_run]. pose proof (net_step_writes i (da_netlink y)) as Hw.
    destruct (net_step watched i (da_netlink y)) as [events s]. cbn [fst] in Hw.
    assert (linked W h (mkDaemon s (da_lldp y) (da_queue y) (da_service y) (da_pushed y))) as Hl' by (destruct Hl; by split).
    assert (Z.of_nat (W + list_sum (event_writes <$> events)) < 2 ^ 64)%Z as HW1 by lia.
    destruct (events_linked now env events W h _ Hl' HW1) as (h' & Hl1 & Ht1 & Hn).
    exists h'. split; [|rewrite app_nil_r, Ht1, Hn, fmap_app; f_equal; f_equal; rewrite <- list_fmap_compose; symmetry; apply list_fmap_id].
    destruct Hl1. split; try done. eapply run_ok_mono; [done|lia].
  - pose proof (lldp_op_ok lldp op W _ _ (li_view _ _ _ Hl) HW) as Hv.
    pose proof (lldp_op_repeats lldp op W _ _ (li_view _ _ _ Hl) ltac:(lia)) as Hr.
    destruct (lldp_op lldp op (da_lldp y)) as [out l]. cbn [fst snd] in *. exists (history_pushes [] out h).
    split; [exact (push_linked W _ h y (da_netlink y) [] out l Hl Hv Hr)|]. cbn [history_pushes hi_timed]. by rewrite app_nil_r.
  - unfold consume. destruct (queue_tryPop (da_queue y)) as [[item|] q] eqn:Hq.
    + eexists. split; [apply (serve_linked W h y [QPop] q [item] [StepModel (item_input t1 t2 item)] [item_input t1 t2 item] Hl eq_refl)|done].
      * cbn. by rewrite Hq.
      * rewrite engine_run_one. done.
      * unfold item_input. by destruct (it_payload item) eqn:Hp; cbn; rewrite Hp.
      * repeat constructor. unfold item_input. by destruct (it_payload item).
      * apply Forall_singleton, item_serves. cbn. apply elem_of_app. right. by left.
    + eexists. split; [apply (serve_linked W h y [QPop] q [] [] [] Hl eq_refl)|done]; try done. cbn [foldl queue_op]. by rewrite Hq.
  - eexists. split; [apply (serve_linked W h y [] (da_queue y) [] [StepModel (IMarkLive t2)] [IMarkLive t2] Hl eq_refl)|done]; try done.
    + by rewrite app_nil_r.
    + by repeat constructor.
    + by repeat constructor.
  - destruct (worker_linked W h y (StepAging t) Hl I) as (h' & Hl' & Ht'). exists h'. by rewrite Ht'.
  - destruct (worker_linked W h y (StepSupervision t) Hl I) as (h' & Hl' & Ht'). exists h'. by rewrite Ht'.
  - destruct (worker_linked W h y (StepPublication stop) Hl I) as (h' & Hl' & Ht'). exists h'. by rewrite Ht'.
Qed.

Lemma run_linked steps W inputs h y :
  linked W h y → tables_linked inputs h y → (Z.of_nat (W + list_sum (step_writes <$> steps)) < 2 ^ 64)%Z →
  ∃ h', linked (W + list_sum (step_writes <$> steps)) h' (daemon_run watched lldp sf sm service steps y) ∧
    tables_linked (inputs ++ kernel_inputs steps) h' (daemon_run watched lldp sf sm service steps y).
Proof.
  revert W inputs h y. induction steps as [|x steps IH]; intros W inputs h y Hl Ht HW; cbn [daemon_run foldl].
  - exists h. change (list_sum (step_writes <$> [])) with 0. by rewrite Nat.add_0_r, app_nil_r.
  - change (list_sum (step_writes <$> x :: steps)) with (step_writes x + list_sum (step_writes <$> steps)) in *.
    destruct (step_linked x W inputs h y Hl Ht ltac:(lia)) as (h1 & Hl1 & Ht1).
    destruct (IH _ _ _ _ Hl1 Ht1 ltac:(lia)) as (h2 & Hl2 & Ht2). exists h2. rewrite Nat.add_assoc. split; [done|].
    rewrite <- app_assoc in Ht2. assert (kernel_inputs [x] ++ kernel_inputs steps = kernel_inputs (x :: steps)) as <-; [|done].
    unfold kernel_inputs. by rewrite <- omap_app.
Qed.

(** The start. *)
Lemma begin_linked q out source self config t0 (d : D) :
  q0 = queue_reopen q → run_ok 0 (foldl apply_view ∅ out) (source, ([], 0%Z)) → news out →
  s0 = service_step sf sm service (service_begin service self config d) (StepModel (IRestart t0)) → e0 = sv_engine s0 →
  let y := daemon_begin sf sm service self config t0 q d out source in
  ∃ h, linked 0 h y ∧ tables_linked [] h y.
Proof.
  intros Hq Hok Hn Hs He y. set (h := mkHistory [] (QPush <$> (lldp_item <$> out)) [] [] []). exists h.
  assert (pushes (hi_ops h) = lldp_item <$> out) as Hp by apply pushes_items_of.
  assert (lldp_of (pushed h) = out) as Ho by (unfold pushed; by rewrite Hp, lldp_of_items).
  split; [|done]. split; rewrite ?Hp, ?Ho; cbn [h y daemon_begin hi_ops hi_timed hi_popped hi_applied hi_served da_queue da_lldp da_service da_pushed];
    try done.
  - rewrite <- Hq. apply push_all_ops.
  - apply lldp_items_filtered.
  - intros x (o & -> & _)%list_elem_of_fmap _. by exists o.
  - by apply fresh_repeats.
  - by rewrite He, Hs.
Qed.

(** What the service was told about links that are not [k]'s own. *)
Lemma served_announced W h y k inputs :
  linked W h y → (∀ x, x ∈ hi_popped h → sourced inputs (it_payload x)) → (∀ e, NLink e ∈ inputs → le_mac e ≠ k) →
  Forall (announced_step k) (hi_served h).
Proof.
  intros Hl Hs Hk. eapply Forall_impl; [exact (li_served _ _ _ Hl)|]. intros x. unfold serves, announced_step.
  destruct x as [i|t|t|stop|]; try done. destruct i as [o t1|o t1|o t1 t2|o t1 t2|o t1 t2|t1 t2|t|t|t|t|t]; cbn; try done; try (by intros [_ ?]).
  intros [_ (x & Hx & Hin)%list_elem_of_fmap] He. specialize (Hs x Hin). rewrite <- Hx in Hs. destruct Hs as (e & now & Hin' & ->).
  by destruct (Hk e Hin').
Qed.
End history.

Lemma foldl_payloads include t (items : list ObservationItem) :
  foldl (λ t p, track include t (mkItem SrcNetlink p)) t (it_payload <$> items) = foldl (track include) t items.
Proof. revert t. induction items as [|x items IH]; intros t; [done|]. cbn. by rewrite IH. Qed.

Lemma visible_found k e : k ∈ visible e ↔ is_Some (findCandidateByMac k e).
Proof.
  unfold visible, findCandidateByMac. rewrite elem_of_keys_where.
  destruct (candidates_ e !! k) as [c|]; [|by split; [intros (? & ? & _)|intros []]].
  destruct (isPublishable c) eqn:Hp; split; [done|by exists c|intros (c' & [= <-] & Hc'); congruence|by intros []].
Qed.

(** * From the kernel's entries to a client *)

(** Whatever the daemon's threads do after a start, with the kernel's entries as
    they are parsed. *)
Lemma kernel_to_client `{InetPton} {Q D} `{BoundedQueueLaws Q} `{DirtySetLaws D} watched lldp sf sm service self config t0
    (q : BoundedObservationQueue Q) (d : D) now i source0 out source k steps :
  byInterface_ (ls_cache source0) = ∅ → gen_ok (ls_cache source0) → ls_lifecycle source0 = LStopped →
  source_start lldp now i source0 = (true, out, source) →
  let y := daemon_run watched lldp sf sm service steps (daemon_begin sf sm service self config t0 q d out source) in
  (Z.of_nat (list_sum (step_writes <$> steps)) < 2 ^ 64)%Z →
  NoDup (transport_name <$> observationTransports (sv_transports service)) →
  createClassifier (classifierConfig config) = RuleBasedClassifier →
  k ≠ "" → kernel_followable k (kernel_inputs steps) →
  one_lldp_interface (da_policy config) k (lldp_of (it_payload <$> da_pushed y)) →
  bq_items (queue_ (da_queue y)) = [] → resyncMask_ (da_queue y) = 0%Z →
  daemon_exact watched sf sm service config k (kernel_inputs steps) y.
Proof.
  intros Hc0 Hg0 Hst Hstart y HW Hnd Hcl Hne Hk Hone Hempty Hmask.
  set (b := service_begin service self config d). set (s0 := service_step sf sm service b (StepModel (IRestart t0))).
  pose proof (start_news lldp now i source0) as Hn. rewrite Hstart in Hn. cbn [fst snd] in Hn.
  destruct (begin_linked watched sf sm service (queue_reopen q) (sv_engine s0) s0 q out source self config t0 d) as (h0 & Hl0 & Ht0);
    [done|by eapply start_run_ok|done..|].
  destruct (run_linked watched lldp sf sm service _ _ _ steps 0 [] h0 _ Hl0 Ht0 HW) as (h & Hl & Ht).
  fold y in Hl, Ht. unfold tables_linked in Ht. cbn [app] in Ht. clear h0 Hl0 Ht0.
  pose proof (accounted_lossless _ _ (queue_accounted (queue_reopen q) (hi_ops h) (proj1 (bq_reopened _)) (proj2 (bq_reopened _)) eq_refl)) as Hpop.
  rewrite (li_queue _ _ _ _ _ _ _ _ _ Hl) in Hpop. cbn [fst snd] in Hpop. rewrite Hempty, app_nil_r, Hmask in Hpop. specialize (Hpop eq_refl).
  pose proof Hl as [Q1 N1 S1 V1 R1 A1 U1 E1 P1 D1 L1].
  unfold pushed in V1, R1. rewrite L1 in N1, S1, V1, R1, Hpop. fold (da_view y) in V1.
  assert (engine_ok (sv_engine b)) as Hb
    by exact (engine_step_ok (ISetSink (Some self)) _ I (engine_init_ok _ ltac:(rewrite Hcl; exact RuleBased_required))).
  assert (timed_ok : (hi_timed h).*2 = (net_run watched (kernel_inputs steps) netlink_empty).1) by (by rewrite Ht).
  assert (da_netlink y = (net_run watched (kernel_inputs steps) netlink_empty).2) as Hnet by (by rewrite Ht).
  assert (model_tracks (da_policy config) config k (neighborStatesByKey_ (da_netlink y)) (fdbStatesByMac_ (da_netlink y)) (da_view y) (da_engine y)) as Htracks.
  { unfold da_engine. rewrite E1, Hnet. unfold da_view.
    apply (items_tracked (da_policy config) config k watched (kernel_inputs steps) (hi_timed h)); try done. by rewrite <- Hpop. }
  assert (Forall (announced_step k) (hi_served h)) as Han.
  { apply (served_announced sf sm service _ _ _ _ _ y k (kernel_inputs steps) Hl); [|apply Hk].
    rewrite Hpop. apply (items_sourced _ (hi_timed h)); [|done..]. intros t j Hj. apply (emitted_inputs watched _ netlink_empty).
    rewrite <- timed_ok. apply list_elem_of_fmap. by exists (t, EmitInput j). }
  split; [exact Hnet| |exact Htracks| |].
  - intros ifname key. rewrite (ro_sync _ _ _ V1 (ifname, key)). split; [intros [?|?]; [set_solver|done]|by right].
  - intros Hin. unfold da_engine. rewrite E1, engine_run_tracks, A1, Hpop, Hnet, foldl_payloads by done.
    by apply (items_local _ watched (kernel_inputs steps) (hi_timed h)).
  - intros t stop Hpub Htr.
    assert (ServiceRun.in_sync service self k (da_service y)) as Hs.
    { rewrite P1. apply run_in_sync; [done| |done]. apply (step_in_sync sf sm); [done|apply begin_in_sync|exact I]. }
    assert (k ∈ da_client sf sm service t stop y ↔ is_Some (findCandidateByMac k (da_engine y))) as Hc.
    { unfold da_client. cbn [serve da_service service_step]. rewrite Hpub. cbn [while_running].
      destruct (publication_spec sf sm service stop (da_service y) Hnd) as (_ & _ & _ & Hc & _). rewrite Hc, <- visible_found by done.
      by apply (is_view _ _ _ _ Hs). }
    split; [exact Hc|]. intros Hph Hex. rewrite Hc. split.
    + exact (mt_unpublished _ _ _ _ _ _ _ Htracks Hph).
    + intros Hr. by rewrite (mt_published _ _ _ _ _ _ _ Htracks Hph Hr Hex).
Qed.

(** * For witnesses: the start of a source that enumerates nothing. *)
Definition demo_lldp_start : SourceStart := mkSourceStart true true [] true true.
Definition demo_env : LldpdEnv := mkLldpdEnv 1 demo_lldp_start true true true [] "" (demo_setup, true).
Definition demo_lldp_source : LldpdSource := (source_start demo_config 1 demo_lldp_start new_source).2.
