(* ===== verification/Wire.v ===== *)
(** The observation daemon fed with octets: in front of [System] the monitor's
    thread parses what the dump and the live loop hand over, with its cache of
    interface names, as [NetlinkNetworkMonitor::processSingleMessage] does. The
    theorem leads from datagrams of any octets to a client on the bus. *)

From S2P Require Import Prelude Contract Observation LocalState Filter Engine EngineProps EngineEvents Publication ServiceRun NetlinkState NetlinkParser NetlinkIo NetlinkMonitor.
From S2P Require Import LldpIo LldpSource LldpObserver Runtime Pipeline Evidence System.

(** * Steps *)

(** The monitor's thread handles a message ([now], [env] as in [System]); or one of
    the other steps of the daemon. *)
Inductive WireStep :=
| KernelSends (now : time_point) (env : LldpdEnv) (m : list Z)
| Does (x : DaemonStep).

Section wire.
Context `{InetPton} {Q D : Type} `{BoundedQueue Q} `{DirtySet D} `{InetNtop, IfIndexToName}.
Context (watched : gset string) (lldp : LldpSourceConfig) (sf sm : string → string) (service : ObservationService).

Definition wire_step (st : Daemon Q D * IfindexCache) (x : WireStep) : result Fault (Daemon Q D * IfindexCache) :=
  match x with
  | KernelSends now env m =>
      '(inputs, cache) ← processMessage m st.2;
      Ok (daemon_run watched lldp sf sm service (KernelReports now env <$> inputs) st.1, cache)
  | Does x => Ok (daemon_step watched lldp sf sm service st.1 x, st.2)
  end.

Definition wire_run (steps : list WireStep) (st : Daemon Q D * IfindexCache) : result Fault (Daemon Q D * IfindexCache) :=
  fold_result wire_step steps st.
End wire.

(** * Specification *)

Definition wire_messages (steps : list WireStep) : list (list Z) :=
  omap (λ x, match x with KernelSends _ _ m => Some m | Does _ => None end) steps.

Definition wire_writes (x : WireStep) : nat := match x with KernelSends _ _ _ => 0 | Does x => step_writes x end.

(** A message that a dump or the live loop hands over, whatever octets the
    datagrams hold and however the system calls end. *)
Definition handed (m : list Z) : Prop :=
  ∃ io, io_ok io ∧
    ((∃ fd t r io', dump_run fd io = Ok (t, r, io') ∧ Handled m ∈ t) ∨
     (∃ requested fd l r io', live_run requested fd io = Ok (l, r, io') ∧ m ∈ l)).

(** The kernel is heard through its messages only. *)
Definition step_handed (x : WireStep) : Prop :=
  match x with
  | KernelSends _ _ m => handed m
  | Does (KernelReports _ _ _) => False
  | Does _ => True
  end.

(** * Lemmas *)

Lemma handed_well_formed `{InetNtop, IfIndexToName} m : handed m → well_formed m.
Proof.
  intros (io & Hio & [(fd & t & r & io' & Hr & Hm)|(requested & fd & l & r & io' & Hr & Hm)]).
  - pose proof (dump_run_safe fd io Hio) as Hs. rewrite Hr in Hs. destruct Hs as [Ht _]. rewrite Forall_forall in Ht. exact (Ht _ Hm).
  - pose proof (live_run_safe requested fd io Hio) as Hs. rewrite Hr in Hs. destruct Hs as [Hl _]. rewrite Forall_forall in Hl. by apply Hl.
Qed.

Section facts.
Context `{InetPton} {Q D : Type} `{BoundedQueue Q} `{DirtySet D} `{InetNtop, IfIndexToName}.
Context (watched : gset string) (lldp : LldpSourceConfig) (sf sm : string → string) (service : ObservationService).
Implicit Types y : Daemon Q D.

Lemma reported_inputs now env inputs :
  kernel_inputs (KernelReports now env <$> inputs) = inputs ∧ list_sum (step_writes <$> (KernelReports now env <$> inputs)) = length inputs.
Proof.
  induction inputs as [|i inputs [IH1 IH2]]; [done|]. split.
  - change (i :: kernel_inputs (KernelReports now env <$> inputs) = i :: inputs). by rewrite IH1.
  - change (S (list_sum (step_writes <$> (KernelReports now env <$> inputs))) = S (length inputs)). by rewrite IH2.
Qed.

(** The run over octets is the run over what they say, and there is one. *)
Lemma wire_run_parsed steps y cache :
  Forall step_handed steps →
  ∃ steps' inputs cache', parse_messages (wire_messages steps) cache = Ok (inputs, cache') ∧ kernel_inputs steps' = inputs ∧
    list_sum (step_writes <$> steps') = length inputs + list_sum (wire_writes <$> steps) ∧
    wire_run watched lldp sf sm service steps (y, cache) = Ok (daemon_run watched lldp sf sm service steps' y, cache').
Proof.
  intros Hh. revert y cache. induction Hh as [|x steps Hx Hh IH]; intros y cache; [by exists [], [], cache|].
  destruct x as [now env m|x].
  - destruct (processMessage_total m cache (handed_well_formed m Hx)) as [[inputs cache1] Hm].
    destruct (IH (daemon_run watched lldp sf sm service (KernelReports now env <$> inputs) y) cache1)
      as (steps' & inputs' & cache' & Hp & Hk & Hw & Hr).
    destruct (reported_inputs now env inputs) as [Hki Hsi].
    exists ((KernelReports now env <$> inputs) ++ steps'), (inputs ++ inputs'), cache'. split_and!.
    + change (wire_messages (KernelSends now env m :: steps)) with (m :: wire_messages steps). cbn. rewrite Hm. cbn. by rewrite Hp.
    + unfold kernel_inputs in *. by rewrite omap_app, Hki, Hk.
    + rewrite fmap_app, list_sum_app, Hsi, Hw, length_app.
      change (list_sum (wire_writes <$> KernelSends now env m :: steps)) with (list_sum (wire_writes <$> steps)). lia.
    + unfold wire_run in *. cbn [fold_result wire_step]. cbn. rewrite Hm. cbn. rewrite Hr. unfold daemon_run. by rewrite foldl_app.
  - destruct (IH (daemon_step watched lldp sf sm service y x) cache) as (steps' & inputs & cache' & Hp & Hk & Hw & Hr).
    exists (x :: steps'), inputs, cache'. split_and!; [exact Hp| | |exact Hr].
    + rewrite <- Hk. by destruct x.
    + change (list_sum (step_writes <$> x :: steps')) with (step_writes x + list_sum (step_writes <$> steps')).
      change (list_sum (wire_writes <$> Does x :: steps)) with (step_writes x + list_sum (wire_writes <$> steps)). lia.
Qed.
End facts.

(** * Properties *)


(** ** Witness: a datagram with a link, its address, a neighbour twice and its
    port; lldpd reports the machine too, while the model goes live and two
    transports, one of which always throws, publish. *)
#[local] Instance demo_wire_pton : InetPton := demo_pton.
#[local] Instance demo_wire_ntop : InetNtop := λ _ d, Some (String.concat "." (pretty <$> d)).
#[local] Instance demo_wire_names : IfIndexToName := λ i, if (i =? 2)%Z then Some "eth0" else None.

Definition demo_datagram : list Z :=
  encode_message RTM_NEWLINK 0 0 (encode_ifinfomsg 2 65)
    [mkAttr IFLA_IFNAME [101; 116; 104; 48; 0]; mkAttr IFLA_OPERSTATE [6]; mkAttr IFLA_ADDRESS [2; 0; 0; 0; 0; 1]]%Z ++
  encode_message RTM_NEWADDR 0 0 (encode_ifaddrmsg AF_INET 24 2) [mkAttr IFA_LOCAL [10; 0; 0; 1]]%Z ++
  mjoin (replicate 2 (encode_message RTM_NEWNEIGH 0 0 (encode_ndmsg AF_INET 2 2)
    [mkAttr NDA_DST [10; 0; 0; 7]; mkAttr NDA_LLADDR [2; 0; 0; 0; 0; 7]]%Z)) ++
  encode_message RTM_NEWNEIGH 0 0 (encode_ndmsg AF_BRIDGE 2 2) [mkAttr NDA_LLADDR [2; 0; 0; 0; 0; 7]]%Z.

Definition demo_io : Io := mkIo [] [PollReady 1 0 0] [RecvData 0 demo_datagram].
Definition demo_messages : list (list Z) := match live_run [false; true] 3 demo_io with Ok (l, _, _) => l | Err _ => [] end.

Definition demo_sends (now : time_point) (i : nat) : WireStep := KernelSends now demo_env (default [] (demo_messages !! i)).

Definition demo_wire_steps : list WireStep :=
  [Does (LldpdReports (OpChange 1 "eth0" lldpctl_c_added (demo_nb "7"))); demo_sends 1 0; Does (Consumes 2 2); Does (Consumes 2 2);
   demo_sends 2 1; Does (Consumes 2 2); Does (GoesLive 3); Does (Publishes false); demo_sends 3 2; demo_sends 3 3; demo_sends 3 4;
   Does (LldpdReports (OpReassert 4)); Does (Consumes 4 4); Does (LldpdReports OpEmit); Does (Consumes 4 4); Does (Consumes 4 4);
   Does (Consumes 4 4); Does (Supervises (TurnRuns tt)); Does (Ages (TurnRuns (mkAgingInput 5 5 (mkHealth true true))))].

Abbreviation demo_wire_start := (daemon_begin id id demo_service 1 default_model_config 0 demo_queue (mkDirty ∅ false) [] demo_lldp_source).
Abbreviation demo_wire_run := (wire_run ∅ demo_config id id demo_service demo_wire_steps (demo_wire_start, ∅)).
Abbreviation demo_wire_end := (match demo_wire_run with Ok (y, _) => y | Err _ => demo_wire_start end).

Lemma demo_handed now i : bool_decide (i < length demo_messages) = true → step_handed (demo_sends now i).
Proof.
  intros [m Hm]%bool_decide_eq_true%lookup_lt_is_Some_2. unfold demo_sends. rewrite Hm. cbn. exists demo_io. split.
  - apply io_okb_ok. vm_compute. reflexivity.
  - right. assert (live_run [false; true] 3 demo_io = Ok (demo_messages, (loop_stopped, 0%Z), mkIo [] [] [])) as Hr by (vm_compute; reflexivity).
    exists [false; true], 3%Z, demo_messages, (loop_stopped, 0%Z), (mkIo [] [] []). split; [exact Hr|]. by eapply list_elem_of_lookup_2.
Qed.

