(* ===== verification/InvSystem.v ===== *)
(** The inventory as one system: the daemon with its files, the bus, and the
    display of [inventory-watch], one step of one thread at a time. The components
    are those of the other files, composed as [inventory-agentd], [InventoryService]
    and [InventoryClient] compose them; the theorem follows a text from its file to
    the screen. *)

From S2P Require Import Prelude Contract Publication Variant InvCodec InvManager InvFiles InvService Clients InvAgent Transports InvWatch.

(** * The daemon *)

(** [ag_reads]: the files as each refresh read them, which nothing keeps. *)
Record Agent := mkAgent {
  ag_service : InventoryService; ag_files : list FileBackedInventorySource; ag_reads : list (list FileOutcome)
}.

(** Each source of a refresh meets its file at some time ([inputs]). *)
Inductive AgentStep :=
| AgentStarts (i : StartInput)
| AgentStops (onWorker : bool)
| AgentRequested
| AgentFirst (now attempt merge : Z) (inputs : list (Z * FileOutcome))
| AgentTurns (t : LoopTurn) (inputs : list (Z * FileOutcome)).

(** The answers of the sources are what they make of their files. *)
Definition with_answers (answers : list SourceAnswer) (r : RefreshInput) : RefreshInput :=
  mkRefreshInput (ri_attempt r) (ri_merge r) answers.

Definition turn_with_answers (answers : list SourceAnswer) (t : LoopTurn) : LoopTurn :=
  mkTurn (lt_maintain t) (lt_wait t) (lt_request t) (lt_poll t) (lt_drain t) (lt_changed t) (lt_stop t) (lt_between t)
    (lt_check t) (lt_late t) (lt_cycle t) (with_answers answers (lt_refresh t)).

(** * The display *)

(** The call that the transport "dbus" gets; [ServiceBase::setReady] calls
    [publishReadyChanged] of every transport. *)
Definition dbus_call (c : PublishCall) : option InvCall :=
  match c with
  | Publish t signal => if bool_decide (t = "dbus") then Some (InvPublish signal) else None
  | SetReady b => Some (InvReady b)
  end.

(** The callback that the client has connected to a signal, with its argument. *)
Definition signal_event (e : Emission) : option WatchEvent :=
  match e with
  | (name, AString s) =>
      if bool_decide (name = (inv_client_signal OnInventoryChanged).1) then Some (WInventory s)
      else if bool_decide (name = (inv_client_signal OnSourceStateChanged).1) then Some (WSource s) else None
  | (name, ABool b) => if bool_decide (name = (inv_client_signal OnInvReadyChanged).1) then Some (WReady b) else None
  | _ => None
  end.

(** The running transport has created its signals; the emissions arrive. *)
Definition bus_events (c : PublishCall) : list WatchEvent :=
  match dbus_call c with
  | Some c => omap signal_event (inv_transport_publish true PReturns c (mkDbusTransport tt inv_createSignals)).2
  | None => []
  end.

(** [sy_bus]: the signals on their way to the client, in order; [sy_sent]: all
    that were sent, which nothing keeps. *)
Record InvSystem := mkInvSystem { sy_agent : Agent; sy_bus : list WatchEvent; sy_watch : WatchSystem; sy_sent : list WatchEvent }.

(** [failure]: the bus does not bring the answer of [getIdentity]; [others]: what the
    queries for the states and the issues give, or an exception. *)
Inductive InvStep :=
| ByAgent (x : AgentStep)
| ByBus
| ByCallback (i : nat)
| ByMain (throws : option string) (ready : bool) (failure : option QueryFailure) (others : result string (SourceStateMap * InventoryIssues))
| BySignal.

Section system.
Context (generic_message : Z → string) {V : Type} `{DbusVariant V} `{ClientInvoke}.

(** One step of the daemon: [None] when the worker is not there, a file is still
    read, or the turn ends with the stop that is a step of its own. *)
Definition agent_step (x : AgentStep) (a : Agent) : option (Agent * list PublishCall) :=
  let s := ag_service a in
  let only s' := Some (mkAgent s' (ag_files a) (ag_reads a), []) in
  match x with
  | AgentStarts i => match inventory_start i s with Ok (_, s') => only s' | Err _ => only s end
  | AgentStops onWorker => only (inventory_stop onWorker s)
  | AgentRequested => only (handler_refresh true s)
  | AgentFirst now attempt merge inputs =>
      if negb (bool_decide (refreshWorker_ s = WLaunched)) then None
      else
        '(answers, files) ← file_answers generic_message inputs (ag_files a);
        let '(s', calls, refreshed) := doRefreshCycle true now (mkRefreshInput attempt merge answers) s in
        let s' := s' <| refreshWorker_ := WLooping |> in
        Some (if (refreshed : bool) then mkAgent s' files (ag_reads a ++ [inputs.*2]) else mkAgent s' (ag_files a) (ag_reads a), calls)
  | AgentTurns t inputs =>
      if negb (bool_decide (refreshWorker_ s = WLooping)) then None
      else
        '(answers, files) ← file_answers generic_message inputs (ag_files a);
        match loop_turn (turn_with_answers answers t) s with
        | TurnDone s' calls refreshed =>
            Some (if (refreshed : bool) then mkAgent s' files (ag_reads a ++ [inputs.*2]) else mkAgent s' (ag_files a) (ag_reads a), calls)
        | TurnStopped _ => None
        | TurnFailed _ s' => only (onRefreshWorkerExit true s')
        end
  end.

(** [client.getIdentity()] in [printAll]: the daemon's queries are bound while it
    runs. *)
Definition identity_answer (failure : option QueryFailure) (a : Agent) : InventorySnapshot :=
  client_getIdentity true
    (match failure with
     | Some e => Err e
     | None => Ok (handler_getIdentity (V := V) (base_running (ag_service a)) (ag_service a))
     end).

Definition display_answer (a : Agent) (failure : option QueryFailure) (others : result string (SourceStateMap * InventoryIssues))
    : result string InventoryView :=
  '(states, issues) ← others; Ok (mkView (identity_answer failure a) states issues).

Definition sys_step (x : InvStep) (y : InvSystem) : option InvSystem :=
  let watching act := mkInvSystem (sy_agent y) (sy_bus y) (watch_step act (sy_watch y)) (sy_sent y) in
  match x with
  | ByAgent x =>
      '(a, calls) ← agent_step x (sy_agent y);
      Some (mkInvSystem a (sy_bus y ++ (calls ≫= bus_events)) (sy_watch y) (sy_sent y ++ (calls ≫= bus_events)))
  | ByBus =>
      match sy_bus y with
      | ev :: bus => Some (mkInvSystem (sy_agent y) bus (watch_step (AArrive ev) (sy_watch y)) (sy_sent y))
      | [] => None
      end
  | ByCallback i => Some (watching (AHandler i))
  | ByMain throws ready failure others =>
      Some (watching (AMain (mkMainInput throws ready (display_answer (sy_agent y) failure others))))
  | BySignal => Some (watching ASignal)
  end.

Fixpoint sys_run (steps : list InvStep) (y : InvSystem) : option InvSystem :=
  match steps with
  | [] => Some y
  | x :: steps => y ← sys_step x y; sys_run steps y
  end.

End system.

(** * [main] of the daemon, and the start of both

    [AgentReturns] is the exit code; [addTransport] is called outside of a [try]. *)
Inductive AgentExit := AgentReturns (code : Z) | AgentTerminates (e : ServiceError).

Definition created_name (t : CreatedInventoryTransport) : string :=
  match t with CIDbus _ _ _ => "dbus" | CIStdout => "stdout" end.

(** The daemon that [DaemonRunner] runs, with the bus of its connection. *)
Record AgentWiring := mkAgentWiring {
  aw_service : InventoryService; aw_files : list FileBackedInventorySource; aw_bus : option BusType;
  aw_transport : CreatedInventoryTransport
}.

Definition agentd_main {J : Type} `{Json J} (stdout_enabled : bool) (transportName transportConfig : string) (cfg : AgentConfig)
    : result AgentExit AgentWiring :=
  match agent_init cfg with
  | Err _ => Err (AgentReturns 1)
  | Ok (s, files) =>
      let connection := if bool_decide (transportName = "dbus") then Some (toBusType transportConfig) else None in
      match inv_createTransport stdout_enabled transportName (bool_decide (is_Some connection)) "" "" "" with
      | None => Err (AgentReturns 1)
      | Some transport =>
          match service_addTransport (Some (created_name transport)) s with
          | Err e => Err (AgentTerminates e)
          | Ok s => Ok (mkAgentWiring s files connection transport)
          end
      end
  end.

(** The daemon with its default transport, and the display. *)
Definition sys_init {J : Type} `{Json J} (cfg : AgentConfig) : option InvSystem :=
  match agentd_main false "dbus" "system" cfg with
  | Ok w => Some (mkInvSystem (mkAgent (aw_service w) (aw_files w) []) [] watch_init [])
  | Err _ => None
  end.

(** * Specification *)

(** Whether a call is the display's loop; when the next thing it prints is a view
    asked for from now on. *)
Definition in_loop (pc : MainPc) : bool :=
  match pc with
  | LTest | LExchange | LSeen _ _ | LRead _ | LPrint _ _ | LTestAll | LPrintAll _ | LSleep => true
  | _ => false
  end.

Definition about_to_ask (pc : MainPc) : bool :=
  match pc with
  | LSeen _ _ | LRead _ | LPrint _ _ | LTestAll | LPrintAll PEnter | LPrintAll PQuery => true
  | _ => false
  end.

(** The last view, or failure to get one, that was printed; and what will have
    been when a print that has its answer is out. *)
Definition printed (out : list WatchOut) : option (result string InventoryView) :=
  foldl (λ acc o, match o with OView v => Some (Ok v) | OError e => Some (Err e) | _ => acc end) None out.

Definition will_show (w : WatchSystem) : option (result string InventoryView) :=
  match y_main w with
  | LPrintAll (PTest r) | LPrintAll (POutput r) => Some r
  | _ => printed (y_out w)
  end.

Definition shows (snapshot : InventorySnapshot) (o : option (result string InventoryView)) : Prop :=
  ∃ v, o = Some (Ok v) ∧ v_snap v = snapshot.

(** Every signal has arrived and every callback has returned. *)
Definition delivered (y : InvSystem) : Prop := sy_bus y = [] ∧ Forall (λ h, h.2 = HDone) (y_handlers (sy_watch y)).

(** The daemon goes on, nobody interrupts the display, the bus answers. *)
Definition calm (x : InvStep) : Prop :=
  match x with
  | ByAgent (AgentStops _) | BySignal => False
  | ByMain throws _ failure others => throws = None ∧ failure = None ∧ is_ok others = true
  | _ => True
  end.

(** A step of the display's loop, which the bus answers. *)
Definition looping (x : InvStep) : Prop :=
  match x with ByMain _ _ _ _ => calm x | _ => False end.

(** Steps of the loop until it sleeps with nothing to print. *)
Definition loop_left (w : WatchSystem) : nat :=
  if g_refreshRequested (y_globals w) then default 0 (to_exchange (y_main w)) + 11 else default 0 (to_view (y_main w)).

Section spec.
Context (generic_message : Z → string).

(** What the last good reading of the [i]-th file gave. *)
Definition last_good (i : nat) (s0 : FileBackedInventorySource) (reads : list (list FileOutcome)) : option InventoryFields :=
  foldl (λ acc r, match r !! i ≫= λ o, file_fields generic_message o s0 with Some fs => Some fs | None => acc end) None reads.

(** A refresh that read every mandatory file. *)
Definition complete (sources0 : list FileBackedInventorySource) (r : list FileOutcome) : Prop :=
  ∀ i s0 o, sources0 !! i = Some s0 → r !! i = Some o → fb_required s0 = true → is_Some (file_fields generic_message o s0).

(** What the limits of the bus ask of a refresh. *)
Definition inputs_fit (sources0 : list FileBackedInventorySource) (merge : Z) (inputs : list (Z * FileOutcome)) : Prop :=
  int64 merge ∧ ∀ i s0 p fs, sources0 !! i = Some s0 → inputs !! i = Some p → file_fields generic_message p.2 s0 = Some fs →
    map_Forall (λ _ v, value_fits v) fs.

(** The clock and the files a step may refresh from. *)
Definition step_inputs (x : AgentStep) : option (Z * list (Z * FileOutcome)) :=
  match x with
  | AgentFirst _ _ merge inputs => Some (merge, inputs)
  | AgentTurns t inputs => Some (ri_merge (lt_refresh t), inputs)
  | _ => None
  end.

Definition step_fits (sources0 : list FileBackedInventorySource) (x : InvStep) : Prop :=
  match x with
  | ByAgent x => match step_inputs x with Some (merge, inputs) => inputs_fit sources0 merge inputs | None => True end
  | _ => True
  end.

(** * The daemon *)

(** What the daemon's state has to do with its files: [sources0] are its sources
    as they were registered. *)
Record agent_ok (settings : Settings) (sources0 : list FileBackedInventorySource) (a : Agent) : Prop := mkAgentOk {
  ao_service : service_reachable settings (ag_service a);
  ao_files : files_ok sources0 (manager_ (ag_service a), ag_files a);
  ao_fields : ∀ i s0 f, sources0 !! i = Some s0 → f ∈ fb_owned s0 →
    is_fields (getIdentity (ag_service a)) !! f = last_good i s0 (ag_reads a) ≫= lookup f;
  ao_ready : is_ready (getIdentity (ag_service a)) = true ↔ Exists (complete sources0) (ag_reads a);
  ao_phase : ag_reads a ≠ [] → is_phase (getIdentity (ag_service a)) ≠ "";
  ao_timestamp : int64 (is_timestamp (getIdentity (ag_service a)));
  ao_values : map_Forall (λ _ v, value_fits v) (is_fields (getIdentity (ag_service a)));
  ao_transport : "dbus" ∈ transports_ (ag_service a)
}.
End spec.

(** ** Its steps *)

Definition kept (s s' : InventoryService) : Prop := manager_ s' = manager_ s ∧ transports_ s' = transports_ s.

Lemma kept_refl s : kept s s.
Proof. done. Qed.
Lemma kept_trans s1 s2 s3 : kept s1 s2 → kept s2 s3 → kept s1 s3.
Proof. intros [H1 H2] [H3 H4]. split; congruence. Qed.
Lemma only_flags_kept s s' : only_flags s s' → kept s s'.
Proof. by intros (f & g & -> & _). Qed.
Lemma start_kept i s b s' : inventory_start i s = Ok (b, s') → kept s s'.
Proof.
  unfold inventory_start. destruct (negb (bool_decide _)); [destruct (loopFailed_ s); [done|]; by intros [= <- <-]|].
  destruct (initialize_cases i s) as [->|[g ->]]; cbn [andb negb]; [by intros [= <- <-]|].
  destruct (si_base i); cbn [negb]; [|by intros [= <- <-]]. by destruct (si_worker i); intros [= <- <-].
Qed.
Lemma stop_kept b s : kept s (inventory_stop b s).
Proof. unfold inventory_stop. destruct b; [done|]. by destruct (negb _). Qed.

Section agent.
Context (generic_message : Z → string) (sources0 : list FileBackedInventorySource).
Context (Htexts : Forall text_source sources0).

(** A step of the daemon leaves the inventory alone, or refreshes it from the
    files as it reads them. *)
Inductive agent_case (x : AgentStep) (a a' : Agent) (calls : list PublishCall) : Prop :=
| case_quiet : kept (ag_service a) (ag_service a') → ag_files a' = ag_files a → ag_reads a' = ag_reads a → calls = [] →
    agent_case x a a' calls
| case_refresh now r inputs s1 :
    kept (ag_service a) s1 → file_answers generic_message inputs (ag_files a) = Some (ri_answers r, ag_files a') →
    ag_reads a' = ag_reads a ++ [inputs.*2] → kept (refresh_now now r s1).1 (ag_service a') → calls = (refresh_now now r s1).2 →
    step_inputs x = Some (ri_merge r, inputs) → agent_case x a a' calls.

Lemma cycle_case x a force now r inputs files s1 s' calls b (f : InventoryService → InventoryService) :
  kept (ag_service a) s1 → (∀ s, kept s (f s)) → doRefreshCycle force now r s1 = (s', calls, b) →
  file_answers generic_message inputs (ag_files a) = Some (ri_answers r, files) → step_inputs x = Some (ri_merge r, inputs) →
  agent_case x a (if b then mkAgent (f s') files (ag_reads a ++ [inputs.*2]) else mkAgent (f s') (ag_files a) (ag_reads a)) calls.
Proof.
  intros Hk Hf Hd Ha Hx. destruct (cycle_cases _ _ _ _ _ _ _ Hd) as [(-> & -> & -> & _)|(-> & Hr & _)].
  - apply case_quiet; try done. eapply kept_trans; [exact Hk|]. eapply kept_trans; [|apply Hf]. done.
  - eapply case_refresh; [exact Hk|exact Ha|done| |by rewrite Hr|done]. rewrite Hr. apply Hf.
Qed.

Lemma agent_step_case x a a' calls : agent_step generic_message x a = Some (a', calls) → agent_case x a a' calls.
Proof.
  destruct x as [i|onWorker| |now attempt merge inputs|t inputs]; cbn [agent_step].
  - destruct (inventory_start i (ag_service a)) as [[b s']|e] eqn:Hs; intros [= <- <-]; apply case_quiet; try done.
    by apply (start_kept i _ b).
  - intros [= <- <-]. apply case_quiet; try done. apply stop_kept.
  - intros [= <- <-]. apply case_quiet; try done. apply only_flags_kept, refresh_only_flags.
  - destruct (negb _); [done|]. destruct (file_answers _ _ _) as [[answers files]|] eqn:Ha; [|done]. cbn [mbind option_bind].
    destruct (doRefreshCycle _ _ _ _) as [[s' cs] b] eqn:Hd. intros [= <- <-].
    by apply (cycle_case _ a true now (mkRefreshInput attempt merge answers) inputs files (ag_service a) s' cs b
      (λ s, s <| refreshWorker_ := WLooping |>)).
  - destruct (negb _); [done|]. destruct (file_answers _ _ _) as [[answers files]|] eqn:Ha; [|done]. cbn [mbind option_bind].
    destruct (loop_turn _ _) as [s' cs b|s'|why s'] eqn:Ht; [|done|]; intros [= <- <-].
    + destruct (turn_cases _ _ _ _ _ Ht) as (_ & sm & trig & Hsm & _ & Hcase). cbv zeta in Hcase.
      set (s2 := if lt_late _ then _ else _) in Hcase.
      assert (kept (ag_service a) s2) as Hk by (apply only_flags_kept; eapply only_flags_trans; [exact Hsm|apply asked_only_flags]).
      destruct Hcase as [[_ Hd]|[(_ & _ & Hd)|(_ & _ & -> & -> & ->)]].
      1,2: by apply (cycle_case (AgentTurns t inputs) a _ _ _ inputs files s2 s' cs b id Hk) in Hd.
      by apply case_quiet.
    + apply case_quiet; try done. apply failed_turn_flags in Ht. cbn. by apply only_flags_kept in Ht.
Qed.

(** The service moves as [InvService] says. *)
Lemma agent_step_moves x a a' calls :
  files_ok sources0 (manager_ (ag_service a), ag_files a) → agent_step generic_message x a = Some (a', calls) →
  rtc service_next (ag_service a) (ag_service a').
Proof.
  intros Hok. assert (Hans : ∀ inputs answers files, file_answers generic_message inputs (ag_files a) = Some (answers, files) →
    length answers = length (sources_ (manager_ (ag_service a)))).
  { intros inputs answers files Ha. destruct (text_contributions _ _ _ _ _ _ Htexts (fo_like _ _ Hok) Ha) as (-> & _).
    pose proof (fo_sources _ _ Hok) as Hs. cbn in Hs. by rewrite Hs, length_fmap. }
  destruct x as [i|onWorker| |now attempt merge inputs|t inputs]; cbn [agent_step].
  - destruct (inventory_start i (ag_service a)) as [[b s']|e] eqn:Hs; intros [= <- <-]; [|done].
    apply rtc_once. eexists. by apply (sv_start i _ b).
  - intros [= <- <-]. apply rtc_once. eexists. apply sv_stop.
  - intros [= <- <-]. apply rtc_once. eexists. apply sv_request.
  - case_bool_decide as Hw; cbn [negb]; [|done]. destruct (file_answers _ _ _) as [[answers files]|] eqn:Ha; [|done]. cbn [mbind option_bind].
    destruct (doRefreshCycle _ _ _ _) as [[s' cs] b] eqn:Hd. intros [= <- <-]. apply rtc_once. exists cs.
    assert (service_step (ag_service a) cs (s' <| refreshWorker_ := WLooping |>)) as Hs.
    { eapply sv_first; [done| |exact Hd]. by eapply Hans. }
    by destruct b.
  - case_bool_decide as Hw; cbn [negb]; [|done]. destruct (file_answers _ _ _) as [[answers files]|] eqn:Ha; [|done]. cbn [mbind option_bind].
    destruct (loop_turn _ _) as [s' cs b|s'|why s'] eqn:Ht; [|done|]; intros [= <- <-]; apply rtc_once.
    + exists cs. assert (service_step (ag_service a) cs s') as Hs by (eapply sv_turn; [done| |exact Ht]; by eapply Hans). by destruct b.
    + eexists. by eapply sv_crash.
Qed.

(** ** What a refresh leaves *)

Lemma last_good_app i s0 reads r :
  last_good generic_message i s0 (reads ++ [r]) =
    match r !! i ≫= λ o, file_fields generic_message o s0 with Some fs => Some fs | None => last_good generic_message i s0 reads end.
Proof. unfold last_good. by rewrite foldl_app. Qed.

Lemma refresh_manager now r s :
  let s' := (refresh_now now r s).1 in
  manager_ s' = (InvManager.refreshAll (ri_attempt r) (ri_merge r) (ri_answers r) (manager_ s)).2 ∧
  transports_ s' = transports_ s ∧ inv_lifecycle_ s' = inv_lifecycle_ s.
Proof.
  pose proof (refresh_now_spec now r s) as Hs. destruct (InvManager.refreshAll _ _ _ _), (refresh_now _ _ _). by destruct Hs as [-> _].
Qed.

Lemma refresh_timestamp attempt merge answers m :
  let m' := (InvManager.refreshAll attempt merge answers m).2 in
  (is_timestamp (inv_snapshot_ m') = merge ∨ is_timestamp (inv_snapshot_ m') = is_timestamp (inv_snapshot_ m)) ∧
  is_phase (inv_snapshot_ m') = (if is_ready (inv_snapshot_ m') then Inv.PHASE_LIVE else Inv.PHASE_INITIALIZING).
Proof.
  unfold InvManager.refreshAll, refresh_merge. destruct (foldl _ _ _) as [newFields newStates].
  destruct (negb (diff_empty _)); cbn; (split; [tauto|done]).
Qed.

(** A refresh that changes no field and not the readiness changes nothing. *)
Lemma refresh_silent attempt merge answers m :
  manager_wf m → is_phase (inv_snapshot_ m) ≠ "" →
  let m' := (InvManager.refreshAll attempt merge answers m).2 in
  is_fields (inv_snapshot_ m') = is_fields (inv_snapshot_ m) → is_ready (inv_snapshot_ m') = is_ready (inv_snapshot_ m) →
  inv_snapshot_ m' = inv_snapshot_ m.
Proof.
  intros Hwf Hp. destruct (mw_phase m Hwf) as [Hph|(? & _)]; [|done]. unfold InvManager.refreshAll, refresh_merge.
  destruct (foldl _ _ _) as [newFields newStates]. destruct (diff_spec (is_fields (inv_snapshot_ m)) newFields) as (_ & _ & _ & He).
  destruct (diff_empty _) eqn:Hd; cbn [negb snd inv_snapshot_ is_fields is_ready].
  - intros -> Hr. rewrite Hr. destruct (inv_snapshot_ m). cbn in *. by rewrite Hph.
  - intros -> _. by discriminate (proj2 He eq_refl).
Qed.
Lemma complete_inputs (inputs : list (Z * FileOutcome)) :
  complete generic_message sources0 inputs.*2 ↔
  ∀ i s0 now o, sources0 !! i = Some s0 → inputs !! i = Some (now, o) → fb_required s0 = true → is_Some (file_fields generic_message o s0).
Proof.
  unfold complete. setoid_rewrite list_lookup_fmap. split.
  - intros Hc i s0 now o Hs Hi. apply (Hc i s0 o Hs). by rewrite Hi.
  - intros Hc i s0 o Hs ([now o'] & Hi & ->)%fmap_Some. by apply (Hc i s0 now).
Qed.

(** The manager after a refresh, by the files as they were read. *)
Lemma refresh_read settings a r inputs files :
  agent_ok generic_message settings sources0 a → inputs_fit generic_message sources0 (ri_merge r) inputs →
  file_answers generic_message inputs (ag_files a) = Some (ri_answers r, files) →
  let m' := (InvManager.refreshAll (ri_attempt r) (ri_merge r) (ri_answers r) (manager_ (ag_service a))).2 in
  let reads' := ag_reads a ++ [inputs.*2] in
  files_ok sources0 (m', files) ∧
  (∀ i s0 f, sources0 !! i = Some s0 → f ∈ fb_owned s0 →
    is_fields (inv_snapshot_ m') !! f = last_good generic_message i s0 reads' ≫= lookup f) ∧
  (is_ready (inv_snapshot_ m') = true ↔ Exists (complete generic_message sources0) reads') ∧
  int64 (is_timestamp (inv_snapshot_ m')) ∧ map_Forall (λ _ v, value_fits v) (is_fields (inv_snapshot_ m')).
Proof.
  intros [_ Hfiles Hf Hr _ Hts Hv _] [Hmerge Hfit] Ha m' reads'. cbn in *. unfold getIdentity in *.
  destruct (refresh_files generic_message sources0 (ri_attempt r) (ri_merge r) inputs (manager_ (ag_service a)) (ag_files a)
    (ri_answers r) files Htexts Hfiles Ha) as (Hfields & Hready & Hlen). fold m' in Hfields, Hready.
  assert (files_ok sources0 (m', files)) as Hok
    by (apply (refresh_files_ok generic_message sources0 _ _ Htexts (ar_refresh _ _ _ _ _ _ _ _ Ha) Hfiles)).
  assert (Hread : ∀ i s0 f, sources0 !! i = Some s0 → f ∈ fb_owned s0 →
    ∃ p, inputs !! i = Some p ∧
      is_fields (inv_snapshot_ m') !! f =
        match file_fields generic_message p.2 s0 with Some fs => fs !! f | None => is_fields (inv_snapshot_ (manager_ (ag_service a))) !! f end).
  { intros i s0 f Hs Hfo. destruct (lookup_lt_is_Some_2 inputs i) as [[nw o] Ho]; [rewrite Hlen; by eapply lookup_lt_Some|].
    exists (nw, o). split; [done|]. exact (Hfields i s0 nw o f Hs Ho Hfo). }
  split; [done|]. split; [|split; [|split]].
  - intros i s0 f Hs Hfo. destruct (Hread i s0 f Hs Hfo) as (p & Hp & ->). unfold reads'. rewrite last_good_app, list_lookup_fmap, Hp.
    cbn. destruct (file_fields generic_message p.2 s0); [done|]. by apply Hf.
  - rewrite Hready, Hr. unfold reads'. rewrite Exists_app, Exists_cons, Exists_nil, complete_inputs. tauto.
  - destruct (refresh_timestamp (ri_attempt r) (ri_merge r) (ri_answers r) (manager_ (ag_service a))) as [[Ht|Ht] _];
      fold m' in Ht; by rewrite Ht.
  - intros f v Hfv.
    destruct (field_source m' sources0 f v (reachable_wf _ (fo_reach _ _ Hok)) (fo_sources _ _ Hok) Hfv) as (i & s0 & Hs & Hfo).
    destruct (Hread i s0 f Hs Hfo) as (p & Hp & He). rewrite Hfv in He. destruct (file_fields generic_message p.2 s0) as [fs|] eqn:Hfs.
    + by apply (Hfit i s0 p fs Hs Hp Hfs f v).
    + by apply (Hv f v).
Qed.

Lemma agent_step_ok settings x a a' calls :
  agent_ok generic_message settings sources0 a → step_fits generic_message sources0 (ByAgent x) →
  agent_step generic_message x a = Some (a', calls) → agent_ok generic_message settings sources0 a'.
Proof.
  intros Hok Hfit Hx. pose proof (agent_step_moves x a a' calls (ao_files _ _ _ _ Hok) Hx) as Hmv.
  assert (service_reachable settings (ag_service a')) as Hreach by (unfold service_reachable; etrans; [apply Hok|done]).
  destruct (agent_step_case x a a' calls Hx) as [[Hm Ht] Hf Hr _|now r inputs s1 [Hm1 Ht1] Ha Hr [Hm Ht] _ Hin].
  - destruct Hok. unfold getIdentity in *. by split; unfold getIdentity; rewrite ?Hm, ?Ht, ?Hf, ?Hr.
  - cbn [step_fits] in Hfit. rewrite Hin in Hfit.
    destruct (refresh_read settings a r inputs (ag_files a') Hok Hfit Ha) as (H1' & H2' & H3' & H4' & H5').
    destruct (refresh_manager now r s1) as (Hrm & Hrt & _). rewrite Hrm, Hm1 in Hm. rewrite Hrt, Ht1 in Ht. split; unfold getIdentity; rewrite ?Hm, ?Hr; try done.
    + intros _. destruct (refresh_timestamp (ri_attempt r) (ri_merge r) (ri_answers r) (manager_ (ag_service a))) as [_ ->].
      by destruct (is_ready _).
    + rewrite Ht. apply Hok.
Qed.

Lemma elem_of_bus_events ev calls :
  ev ∈ calls ≫= bus_events ↔
  ∃ c, c ∈ calls ∧
    match c with
    | Publish t (InventoryChanged f) => t = "dbus" ∧ ev = WInventory f
    | Publish t (SourceStateChanged n) => t = "dbus" ∧ ev = WSource n
    | SetReady b => ev = WReady b
    end.
Proof.
  rewrite list_elem_of_bind. apply exist_proper. intros c. rewrite (and_comm (ev ∈ bus_events c)). apply and_iff_compat_l.
  assert (Hone : ∀ x : WatchEvent, ev ∈ [x] ↔ ev = x) by (intros x; apply list_elem_of_singleton).
  unfold bus_events, dbus_call. destruct c as [t [f|n]|b]; [case_bool_decide; [|rewrite elem_of_nil; tauto]..|].
  - change (ev ∈ [WInventory f] ↔ t = "dbus" ∧ ev = WInventory f). rewrite Hone. tauto.
  - change (ev ∈ [WSource n] ↔ t = "dbus" ∧ ev = WSource n). rewrite Hone. tauto.
  - change (ev ∈ [WReady b] ↔ ev = WReady b). apply Hone.
Qed.

(** What the bus is not told of did not happen, once there was a refresh. *)
Lemma agent_step_tells settings x a a' calls :
  agent_ok generic_message settings sources0 a → agent_step generic_message x a = Some (a', calls) →
  ((calls ≫= bus_events) = [] → ag_reads a ≠ [] → getIdentity (ag_service a') = getIdentity (ag_service a)) ∧
  (calls = [] ∧ ag_reads a' = ag_reads a ∨ ag_reads a' ≠ []).
Proof.
  intros Hok Hx. destruct (agent_step_case x a a' calls Hx) as [[Hm Ht] _ Hr Hc|now r inputs s1 [Hm1 Ht1] Ha Hr [Hm Ht] Hc Hin].
  - split; [|by left]. intros _ _. unfold getIdentity. by rewrite Hm.
  - split; [|right; rewrite Hr; by destruct (ag_reads a)]. intros Hsilent Hreads.
    destruct (refresh_now now r s1) as [s2 cs] eqn:Hrn. cbn [fst snd] in *. subst cs.
    destruct (refresh_calls now r s1 s2 calls Hrn) as (Hf & _ & Hrd).
    assert (Hno : ∀ ev, ev ∉ calls ≫= bus_events) by (intros ev; rewrite Hsilent; apply not_elem_of_nil).
    pose proof (refresh_manager now r s1) as Hman. rewrite Hrn in Hman. destruct Hman as (Hman & _). cbn [fst] in Hman. unfold getIdentity in *. rewrite Hm1, Hman in *. rewrite Hm.
    apply refresh_silent; [apply reachable_wf, (fo_reach _ _ (ao_files _ _ _ _ Hok))|by apply (ao_phase _ _ _ _ Hok)| |].
    + apply map_eq. intros f. destruct (decide (is_fields (inv_snapshot_ (manager_ (ag_service a))) !! f =
        is_fields (inv_snapshot_ (InvManager.refreshAll (ri_attempt r) (ri_merge r) (ri_answers r) (manager_ (ag_service a))).2) !! f)) as [|Hn]; [done|].
      destruct (Hno (WInventory f)). apply elem_of_bus_events. exists (Publish "dbus" (InventoryChanged f)). split; [|done].
      apply Hf. split; [|done]. rewrite Ht1. apply Hok.
    + apply dec_stable. intros Hn. eapply Hno, elem_of_bus_events. eexists (SetReady _). split; [|done]. apply Hrd. split; [|done]. congruence.
Qed.
End agent.

(** Only a stop ends the service. *)
Lemma cycle_lifecycle force now r s s' calls b :
  doRefreshCycle force now r s = (s', calls, b) → inv_lifecycle_ s' = inv_lifecycle_ s.
Proof.
  intros Hd. destruct (cycle_cases _ _ _ _ _ _ _ Hd) as [(_ & -> & _)|(_ & Hr & _)]; [done|].
  destruct (refresh_manager now r s) as (_ & _ & Hl). by rewrite Hr in Hl.
Qed.

Lemma agent_step_running generic_message x a a' calls :
  agent_step generic_message x a = Some (a', calls) → (∀ b, x ≠ AgentStops b) →
  base_running (ag_service a) = true → base_running (ag_service a') = true.
Proof.
  unfold base_running. rewrite !bool_decide_eq_true. intros Hx Hn Hl.
  assert (Hflags : ∀ s s', only_flags s s' → inv_lifecycle_ s' = inv_lifecycle_ s) by (by intros s s' (f & g & -> & _)).
  destruct x as [i|onWorker| |now attempt merge inputs|t inputs]; cbn [agent_step] in Hx.
  - unfold inventory_start in Hx. rewrite (bool_decide_eq_false_2 (inv_lifecycle_ (ag_service a) = LStopped)) in Hx by (rewrite Hl; done).
    cbn [negb] in Hx. by destruct (loopFailed_ (ag_service a)); injection Hx as <- _.
  - by destruct (Hn onWorker).
  - injection Hx as <- _. cbn. by rewrite (Hflags _ _ (refresh_only_flags (ag_service a))).
  - destruct (negb _); [done|]. destruct (file_answers _ _ _) as [[answers files]|]; [|done]. cbn [mbind option_bind] in Hx.
    destruct (doRefreshCycle _ _ _ _) as [[s' cs] b] eqn:Hd. apply cycle_lifecycle in Hd. injection Hx as <- _.
    destruct b; cbn; by rewrite Hd.
  - destruct (negb _); [done|]. destruct (file_answers _ _ _) as [[answers files]|]; [|done]. cbn [mbind option_bind] in Hx.
    destruct (loop_turn _ _) as [s' cs b|s'|why s'] eqn:Ht; [|done|]; injection Hx as <- _.
    + assert (inv_lifecycle_ s' = LRunning) as Hl'; [|by destruct b].
      destruct (turn_cases _ _ _ _ _ Ht) as (_ & sm & trig & Hsm & _ & Hcase). cbv zeta in Hcase.
      rewrite <- (Hflags _ _ Hsm) in Hl. rewrite <- (Hflags _ _ (asked_only_flags (lt_late (turn_with_answers answers t)) sm)) in Hl.
      destruct Hcase as [[_ Hd]|[(_ & _ & Hd)|(_ & _ & -> & _)]]; [by apply cycle_lifecycle in Hd as ->..|done].
    + cbn. by rewrite (Hflags _ _ (failed_turn_flags _ _ _ _ Ht)).
Qed.

(** * The display *)

(** The callbacks are connected when the loop runs. *)
Definition subscriptions_ok (w : WatchSystem) : Prop :=
  match y_main w with
  | MSubscribe KInventory => True
  | MSubscribe KSource => KInventory ∈ y_subscribed w
  | MSubscribe KReadiness => KInventory ∈ y_subscribed w ∧ KSource ∈ y_subscribed w
  | MAnnounce => ∀ k, k ∈ y_subscribed w
  | pc => in_loop pc = true → ∀ k, k ∈ y_subscribed w
  end.

Lemma subscriptions_same w w' :
  y_main w' = y_main w → y_subscribed w' = y_subscribed w → subscriptions_ok w → subscriptions_ok w'.
Proof. unfold subscriptions_ok. by intros -> ->. Qed.

Lemma subscriptions_step act w : subscriptions_ok w → subscriptions_ok (watch_step act w).
Proof.
  intros Hs. destruct act as [ev|i|input|]; cbn [watch_step].
  - destruct (bool_decide _); [|done]. by apply (subscriptions_same w).
  - apply (subscriptions_same w); [by apply handler_step_out| |done]. unfold handler_step. destruct (y_handlers w !! i) as [[ev []]|]; done.
  - unfold subscriptions_ok in Hs |- *. unfold main_step, guarded.
    destruct (y_main w) as [| | |[| | |[]]|[]| | | |[]| | | |[| | |[]]| | | |] eqn:Hm; cbn in Hs |- *; try (destruct (wi_throws input)); cbn; try done;
      try (destruct (g_shuttingDown _); cbn; done); try (destruct (g_running _); cbn; done); try (destruct (g_refreshRequested _); cbn; done);
      try (by rewrite Hm); try set_solver.
    intros k. destruct Hs. destruct k; set_solver.
  - by apply (subscriptions_same w).
Qed.

Section display.
Context (snapshot : InventorySnapshot).

(** The display will show the snapshot, or the loop is about to ask again. *)
Definition main_fresh (w : WatchSystem) : Prop :=
  shows snapshot (will_show w) ∨ g_refreshRequested (y_globals w) = true ∨ about_to_ask (y_main w) = true.

Lemma printed_app out o :
  printed (out ++ [o]) = match o with OView v => Some (Ok v) | OError e => Some (Err e) | _ => printed out end.
Proof. unfold printed. rewrite foldl_app. by destruct o. Qed.

Lemma printed_events out saw last : printed (out ++ turn_events saw last) = printed out.
Proof.
  assert (Hev : ∀ l acc, Forall (λ o, ∃ ev, o = OEvent ev) l →
    foldl (λ acc o, match o with OView v => Some (Ok v) | OError e => Some (Err e) | _ => acc end) acc l = acc).
  { intros l acc Hl. revert acc. induction Hl as [|o l (ev & ->) _ IH]; intros acc; [done|]. apply IH. }
  unfold printed. rewrite foldl_app. apply Hev, Forall_forall. intros o (k & Ho & _)%list_elem_of_bind.
  destruct (seen_of k saw); [|by apply not_elem_of_nil in Ho]. apply list_elem_of_fmap in Ho as (ev & -> & _). by exists ev.
Qed.

(** The main thread in the loop. *)
Lemma main_in_loop input w :
  wi_throws input = None → is_up w → in_loop (y_main w) = true →
  in_loop (y_main (main_step input w)) = true ∧ is_up (main_step input w).
Proof.
  intros Hnt [Hr Hd] Hl. unfold is_up, main_step, guarded.
  destruct (y_main w) as [| | |[| | |[]]|[]| | | |[]| | | |[| | |[]]| | | |] eqn:Hm; try done; cbn; rewrite ?Hr, ?Hd; cbn; try done.
  all: by destruct (g_refreshRequested _).
Qed.

Lemma main_fresh_step input v w :
  wi_throws input = None → wi_answer input = Ok v → v_snap v = snapshot → is_up w → in_loop (y_main w) = true →
  main_fresh w → main_fresh (main_step input w).
Proof.
  intros Hnt Ha Hv [Hr Hd] Hl. unfold main_fresh, will_show, main_step, guarded.
  destruct (y_main w) as [| | |[| | |[]]|[]| | | |[]| |saw last| |[| |r|[]]| | | |] eqn:Hm; try done; cbn; rewrite ?Hr, ?Hd; cbn; try tauto.
  all: rewrite ?printed_app, ?Ha.
  - destruct (g_refreshRequested (y_globals w)); cbn; intuition.
  - intros _. left. by exists v.
  - tauto.
  - unfold shows. intros [(v' & [=] & _)|[?|?]]; tauto.
Qed.

Lemma loop_left_step input w :
  wi_throws input = None → is_up w → in_loop (y_main w) = true → loop_left (main_step input w) ≤ pred (loop_left w).
Proof.
  intros Hnt [Hr Hd] Hl. unfold loop_left, main_step, guarded.
  destruct (y_main w) as [| | |[| | |[]]|[]| | | |[]| | | |[| | |[]]| | | |] eqn:Hm; try done; cbn; rewrite ?Hr, ?Hd; cbn; try lia.
  all: destruct (g_refreshRequested (y_globals w)); cbn; lia.
Qed.

Lemma loop_left_bound w : loop_left w ≤ 23.
Proof. unfold loop_left. destruct (y_main w) as [| | |[| | |[]]|[]| | | |[]| | | |[| | |[]]| | | |], (g_refreshRequested _); cbn; lia. Qed.

Lemma loop_left_none w :
  loop_left w = 0 → in_loop (y_main w) = true → main_fresh w → shows snapshot (printed (y_out w)).
Proof.
  unfold loop_left, main_fresh, will_show. destruct (g_refreshRequested _); [lia|].
  destruct (y_main w) as [| | |[| | |[]]|[]| | | |[]| | | |[| | |[]]| | | |]; cbn; try done; intros _ _ [?|[[=]|[=]]]; done.
Qed.

(** A callback in flight ends by asking for a refresh. *)
Definition callbacks_pending (w : WatchSystem) : Prop := ∃ ev pc, (ev, pc) ∈ y_handlers w ∧ pc ≠ HDone.

Lemma callback_pending i w :
  is_up w → callbacks_pending w → callbacks_pending (handler_step i w) ∨ g_refreshRequested (y_globals (handler_step i w)) = true.
Proof.
  intros [_ Hd] (ev & pc & [j Hj]%list_elem_of_lookup & Hpc). unfold handler_step, callbacks_pending.
  destruct (y_handlers w !! i) as [[ev' pc']|] eqn:Hi; [|left; exists ev, pc; split; [by eapply list_elem_of_lookup_2|done]].
  destruct (decide (i = j)) as [->|Hn].
  - rewrite Hj in Hi. injection Hi as <- <-. apply lookup_lt_Some in Hj.
    destruct pc; cbn; rewrite ?Hd; try done; [left..|by right].
    all: do 2 eexists; split; [eapply list_elem_of_lookup_2, list_lookup_insert_eq; done|done].
  - left. exists ev, pc. split; [|done]. destruct (callback_step ev' pc' w) as [pc2 w2] eqn:Hc. cbn.
    assert (y_handlers w2 = y_handlers w) as ->
      by (destruct pc'; cbn in Hc; injection Hc as _ <-; done).
    eapply list_elem_of_lookup_2. by rewrite list_lookup_insert_ne.
Qed.
End display.

(** * The system *)

Section together.
Context (generic_message : Z → string) {V : Type} `{DbusVariantLaws V} `{ClientInvoke}.
Context (settings : Settings) (sources0 : list FileBackedInventorySource) (Htexts : Forall text_source sources0).
Context (Howned : ∀ s0 f, s0 ∈ sources0 → f ∈ fb_owned s0 → f ∈ agent_fields).

Abbreviation step := (sys_step generic_message (V := V)).
Abbreviation run := (sys_run generic_message (V := V)).

Record sys_ok (y : InvSystem) : Prop := mkSysOk {
  sk_agent : agent_ok generic_message settings sources0 (sy_agent y);
  sk_told : sy_sent y ≠ [] → ag_reads (sy_agent y) ≠ [];
  sk_subscriptions : subscriptions_ok (sy_watch y)
}.

Lemma sys_ok_step x y y' : step_fits generic_message sources0 x → step x y = Some y' → sys_ok y → sys_ok y'.
Proof.
  intros Hfit Hx [Ha Ht Hs]. destruct x as [x| |i|throws ready failure others|]; cbn [sys_step] in Hx.
  - destruct (agent_step generic_message x (sy_agent y)) as [[a calls]|] eqn:Hstep; [|done]. injection Hx as <-. cbn.
    destruct (agent_step_tells generic_message sources0 settings x _ _ _ Ha Hstep) as [_ Hr].
    split; cbn; [by eapply agent_step_ok| |done]. destruct Hr as [[-> ->]|Hr]; [by rewrite app_nil_r|done].
  - destruct (sy_bus y) as [|ev bus]; [done|]. injection Hx as <-. split; cbn; [done|done|by apply (subscriptions_step (AArrive ev))].
  - injection Hx as <-. split; cbn; [done|done|by apply (subscriptions_step (AHandler i))].
  - injection Hx as <-. split; cbn; [done|done|by apply (subscriptions_step (AMain _))].
  - injection Hx as <-. split; cbn; [done|done|by apply (subscriptions_step ASignal)].
Qed.

Lemma sys_ok_run steps y y' :
  Forall (step_fits generic_message sources0) steps → run steps y = Some y' → sys_ok y → sys_ok y'.
Proof.
  revert y. induction steps as [|x steps IH]; intros y Hfit; cbn [sys_run]; [by intros [= <-]|].
  apply Forall_cons in Hfit as [Hx Hfit]. destruct (step x y) as [y1|] eqn:Hs; [|done]. intros Hr Hok.
  apply (IH y1 Hfit Hr). by apply (sys_ok_step x y).
Qed.

(** What the client gets is the manager's snapshot. *)
Lemma agent_names_fit a : agent_ok generic_message settings sources0 a → names_fit (is_fields (getIdentity (ag_service a))).
Proof.
  intros Ha. assert (Hk : ∀ f v, is_fields (getIdentity (ag_service a)) !! f = Some v → f ∈ agent_fields).
  { intros f v Hv. pose proof (ao_files _ _ _ _ Ha) as Hf.
    destruct (field_source _ sources0 f v (reachable_wf _ (fo_reach _ _ Hf)) (fo_sources _ _ Hf) Hv) as (i & s0 & Hs & Ho).
    apply (Howned s0); [by eapply list_elem_of_lookup_2|done]. }
  split.
  - rewrite <- size_dom. transitivity (size (list_to_set (C := gset string) agent_fields)); [|apply (bool_decide_unpack (_ ≤ _)); by vm_compute].
    apply subseteq_size. intros f [v Hv]%elem_of_dom. apply elem_of_list_to_set. by apply (Hk f v).
  - intros f v Hv. split; [|by apply (ao_values _ _ _ _ Ha f v)]. specialize (Hk f v Hv). unfold key_fits.
    repeat (apply elem_of_cons in Hk as [->|Hk]; [apply (bool_decide_unpack (_ ≤ _)); by vm_compute|]). by apply not_elem_of_nil in Hk.
Qed.

Lemma agent_answers a :
  agent_ok generic_message settings sources0 a → base_running (ag_service a) = true →
  identity_answer (V := V) None a = getIdentity (ag_service a).
Proof.
  intros Ha Hr. pose proof (reachable_wf _ (so_manager _ _ (reachable_ok _ _ (ao_service _ _ _ _ Ha)))) as Hwf.
  pose proof (manager_snapshot_fits _ Hwf (ao_timestamp _ _ _ _ Ha) (agent_names_fit a Ha)) as Hfit.
  destruct (inv_snapshot_roundtrip (V := V) _ Hfit) as (m & Hm & Hd).
  unfold identity_answer, client_getIdentity, tryGetIdentity, with_iface, handler_getIdentity, getIdentity. rewrite Hr, Hm. cbn. by rewrite Hd.
Qed.

(** ** What the display follows *)

Definition fresh (y : InvSystem) : Prop :=
  sy_bus y ≠ [] ∨ callbacks_pending (sy_watch y) ∨ main_fresh (getIdentity (ag_service (sy_agent y))) (sy_watch y).

Record follows (y0 y : InvSystem) : Prop := mkFollows {
  fl_loop : in_loop (y_main (sy_watch y)) = true;
  fl_up : is_up (sy_watch y);
  fl_running : base_running (ag_service (sy_agent y)) = true;
  fl_sent : ∃ new, sy_sent y = sy_sent y0 ++ new ∧ (new ≠ [] → fresh y)
}.

Lemma calm_answer throws ready failure others y :
  sys_ok y → base_running (ag_service (sy_agent y)) = true → calm (ByMain throws ready failure others) →
  ∃ v, display_answer (V := V) (sy_agent y) failure others = Ok v ∧ v_snap v = getIdentity (ag_service (sy_agent y)).
Proof.
  intros [Ha _ _] Hr (_ & -> & Ho). destruct others as [[states issues]|]; [|done].
  eexists. split; [reflexivity|]. by apply agent_answers.
Qed.

Lemma follows_step y0 x y y' :
  sys_ok y → calm x → step x y = Some y' → follows y0 y → follows y0 y'.
Proof.
  intros Hok Hcalm Hx [Hl Hu Hr (new & Hs & Hf)]. pose proof Hok as [Ha Ht Hsub].
  destruct x as [x| |i|throws ready failure others|]; cbn [sys_step] in Hx; [..|done].
  - destruct (agent_step generic_message x (sy_agent y)) as [[a calls]|] eqn:Hstep; [|done]. injection Hx as <-.
    destruct (agent_step_tells generic_message sources0 settings x _ _ _ Ha Hstep) as [Htell _].
    split; cbn; [done|done| |].
    + apply (agent_step_running _ _ _ _ _ Hstep); [|done]. by intros b ->.
    + exists (new ++ (calls ≫= bus_events)). split; [by rewrite Hs, app_assoc|]. unfold fresh. cbn.
      destruct ((calls ≫= bus_events)) as [|ev evs] eqn:He; [|intros _; left; by destruct (sy_bus y)].
      rewrite !app_nil_r. intros Hnew. rewrite Htell; [by apply Hf|done|]. apply Ht. rewrite Hs. by destruct (sy_sent y0), new.
  - destruct (sy_bus y) as [|ev bus] eqn:Hb; [done|].
    assert (∀ k, k ∈ y_subscribed (sy_watch y)) as Hall
      by (unfold subscriptions_ok in Hsub; destruct (y_main (sy_watch y)); try done; by apply Hsub).
    cbn [watch_step] in Hx. rewrite bool_decide_eq_true_2 in Hx by done. injection Hx as <-.
    split; [done|done|done|]. exists new. split; [done|]. intros _. right. left.
    exists ev, HCheck. split; [|done]. apply elem_of_app. right. by left.
  - injection Hx as <-. destruct (handler_step_out i (sy_watch y)) as [Ho Hm], (handler_step_globals i (sy_watch y)) as (H1' & H2' & H3').
    split; cbn; [by rewrite Hm|unfold is_up in *; by rewrite H1', H2'|done|]. exists new. split; [done|]. intros Hnew.
    unfold fresh. cbn. destruct (Hf Hnew) as [Hb|[Hc|Hmf]]; [by left| |].
    + destruct (callback_pending i _ Hu Hc) as [Hc'|Hreq]; [by right; left|right; right; right; by left].
    + right. right. unfold main_fresh, will_show in *. rewrite Hm, Ho. destruct Hmf as [?|[?|?]]; auto.
  - injection Hx as <-. destruct (calm_answer throws ready failure others y Hok Hr Hcalm) as (v & Hv & Hsnap).
    destruct Hcalm as (Hth & _). set (input := mkMainInput _ _ _). cbn [watch_step].
    destruct (main_in_loop input (sy_watch y) Hth Hu Hl) as [Hl' Hu'].
    split; cbn [sy_watch sy_agent sy_sent]; [done|done|done|]. exists new. split; [done|]. intros Hnew.
    destruct (main_step_same input (sy_watch y)) as (_ & Hh & _). unfold fresh, callbacks_pending. cbn [sy_bus sy_watch sy_agent]. rewrite Hh.
    destruct (Hf Hnew) as [Hb|[Hc|Hmf]]; [by left|by right; left|right; right].
    by apply (main_fresh_step _ input v).
Qed.

Lemma follows_run y0 steps y y' :
  Forall (step_fits generic_message sources0) steps → Forall calm steps → run steps y = Some y' → sys_ok y → follows y0 y →
  follows y0 y'.
Proof.
  revert y. induction steps as [|x steps IH]; intros y Hfit Hcalm; cbn [sys_run]; [by intros [= <-]|].
  apply Forall_cons in Hfit as [Hx Hfit]. apply Forall_cons in Hcalm as [Hc Hcalm]. destruct (step x y) as [y1|] eqn:Hs; [|done].
  intros Hr Hok Hfl. apply (IH y1 Hfit Hcalm Hr); [by apply (sys_ok_step x y)|by apply (follows_step y0 x y)].
Qed.
(** ** The loop alone *)

Lemma looping_run steps y :
  Forall looping steps → sys_ok y → follows y y → 
  ∃ y', run steps y = Some y' ∧ sy_agent y' = sy_agent y ∧ sy_bus y' = sy_bus y ∧ sy_sent y' = sy_sent y ∧
    y_handlers (sy_watch y') = y_handlers (sy_watch y) ∧ loop_left (sy_watch y') ≤ loop_left (sy_watch y) - length steps.
Proof.
  revert y. induction steps as [|x steps IH]; intros y Hl Hok Hf; cbn [sys_run]; [exists y; split_and!; try done; cbn; lia|].
  apply Forall_cons in Hl as [Hx Hl]. destruct x as [| | |throws ready failure others|]; try done.
  destruct (step (ByMain throws ready failure others) y) as [y1|] eqn:Hs; [|done].
  assert (sys_ok y1) as Hok1 by (by apply (sys_ok_step (ByMain throws ready failure others) y)).
  pose proof (follows_step y _ y y1 Hok Hx Hs Hf) as [H1' H2' H3' _]. cbn in Hs. injection Hs as Hs. pose proof Hx as (Hth & _).
  set (input := mkMainInput _ _ _) in Hs. cbn [watch_step] in Hs.
  destruct (main_step_same input (sy_watch y)) as (_ & Hh & _).
  pose proof (loop_left_step input (sy_watch y) Hth (fl_up _ _ Hf) (fl_loop _ _ Hf)) as Hrank.
  assert (follows y1 y1) as Hf1 by (split; [done..|]; exists []; by rewrite app_nil_r).
  destruct (IH y1 Hl Hok1 Hf1) as (y' & Hr & Ha & Hb & Hsent & Hhan & Hleft). exists y'.
  rewrite <- Hs in Ha, Hb, Hsent, Hhan, Hleft. cbn in Ha, Hb, Hsent, Hhan, Hleft. rewrite Hh in Hhan.
  cbn. split_and!; try done. lia.
Qed.

Lemma looping_calm steps : Forall looping steps → Forall calm steps ∧ Forall (step_fits generic_message sources0) steps.
Proof. intros Hl. split; (eapply Forall_impl; [exact Hl|]); by intros []. Qed.

(** Once everything has arrived, the display catches up. *)
Lemma display_catches_up y0 y steps :
  sys_ok y → follows y0 y → sy_sent y ≠ sy_sent y0 → delivered y → Forall looping steps → 23 ≤ length steps →
  ∃ y', run steps y = Some y' ∧ sy_agent y' = sy_agent y ∧
    shows (getIdentity (ag_service (sy_agent y))) (printed (y_out (sy_watch y'))).
Proof.
  intros Hok Hf Hsent [Hbus Hdone] Hl Hlen. pose proof Hf as [H1' H2' H3' _].
  destruct (looping_run steps y Hl Hok) as (y' & Hr & Ha & Hb & Hs & Hh & Hleft); [split; [done..|]; exists []; by rewrite app_nil_r|].
  exists y'. split; [done|]. split; [done|]. destruct (looping_calm steps Hl) as [Hcalm Hfit].
  pose proof (follows_run y0 steps y y' Hfit Hcalm Hr Hok Hf) as [Hloop' _ _ (new & Hnew & Hfresh)].
  pose proof (loop_left_bound (sy_watch y)) as Hbound. rewrite <- Ha. apply loop_left_none; [lia|done|].
  destruct Hfresh as [Hbus'|[(ev & pc & Hin & Hpc)|Hm]]; [|by rewrite Hb in Hbus'| |done].
  - intros ->. rewrite app_nil_r, Hs in Hnew. done.
  - rewrite Hh in Hin. rewrite Forall_forall in Hdone. by specialize (Hdone _ Hin).
Qed.
End together.

(** ** The start *)

Lemma registered_reachable {J : Type} `{Json J} settings l s files s' files' :
  fold_result agent_register l (s, files) = Ok (s', files') → service_reachable settings s → service_reachable settings s'.
Proof.
  revert s files. induction l as [|x l IH]; intros s files; cbn [fold_result]; [by intros [= <- <-]|].
  intros ([s1 files1] & H1 & Hr)%bind_ok Hs. apply (IH s1 files1 Hr). unfold agent_register in H1. destruct x as [src|e]; [|done].
  cbn [fst snd] in H1. destruct (service_addSource _ _ s) as [s2|e] eqn:Ha; [|done]. injection H1 as <- _.
  eapply rtc_r; [exact Hs|]. eexists. by eapply sv_source.
Qed.

Lemma fmap_Ok_inj {E A} (l l' : list A) : (Ok (E := E) <$> l) = Ok <$> l' → l = l'.
Proof. revert l'. induction l as [|x l IH]; intros [|x' l'] He; try done. injection He as -> He. f_equal. by apply IH. Qed.

Lemma registered_stopped {J : Type} `{Json J} l s files s' files' :
  fold_result agent_register l (s, files) = Ok (s', files') → base_running s = false → base_running s' = false.
Proof.
  revert s files. induction l as [|x l IH]; intros s files; cbn [fold_result]; [by intros [= <- _]|].
  intros ([s1 files1] & H1 & Hl)%bind_ok Hs. apply (IH s1 files1 Hl). unfold agent_register in H1. destruct x as [src|e]; [|done].
  cbn [fst snd service_addSource] in H1. rewrite Hs in H1. destruct (addSource _ _) as [m|e]; [|done]. by injection H1 as <- _.
Qed.

(** The daemon refuses paths without a file name and transports it does not know
    with code 1, and runs otherwise. *)
Lemma agentd_wiring {J : Type} `{Json J} stdout_enabled name config cfg :
  agentd_main stdout_enabled name config cfg =
    match agent_init cfg with
    | Err _ => Err (AgentReturns 1)
    | Ok (s, files) =>
        let run bus transport := Ok (mkAgentWiring (s <| transports_ := transports_ s ++ [created_name transport] |>) files bus transport) in
        if decide (name = "dbus") then run (Some (toBusType config)) (CIDbus Inv.SERVICE_NAME Inv.OBJECT_PATH Inv.INTERFACE)
        else if stdout_enabled && bool_decide (name = "stdout") then run None CIStdout
        else Err (AgentReturns 1)
    end.
Proof.
  unfold agentd_main. destruct (agent_init cfg) as [[s files]|e] eqn:Hinit; [|done].
  pose proof (registered_stopped _ _ _ _ _ Hinit eq_refl) as Hs. cbn [service_addTransport]. cbv zeta.
  rewrite Hs. destruct (decide (name = "dbus")) as [->|Hd]; [by destruct stdout_enabled|].
  rewrite (bool_decide_eq_false_2 (name = "dbus")) by done. unfold inv_createTransport. rewrite (bool_decide_eq_false_2 (name = "dbus")) by done.
  by destruct (stdout_enabled && _).
Qed.

Lemma sys_init_ok {J : Type} `{Json J} generic_message cfg sources0 y :
  agent_sources cfg = Ok <$> sources0 → sys_init cfg = Some y →
  sys_ok generic_message (agent_settings cfg) sources0 y ∧ Forall text_source sources0 ∧
  ∀ s0 f, s0 ∈ sources0 → f ∈ fb_owned s0 → f ∈ agent_fields.
Proof.
  intros Hsrc. unfold sys_init. rewrite agentd_wiring. destruct (agent_init cfg) as [[s files]|e] eqn:Hinit; [|done].
  rewrite decide_True by done. set (s' := s <| transports_ := _ |>). intros [= <-].
  destruct (agent_sources_ok cfg sources0 Hsrc) as [Htexts Hlike].
  split; [|split; [done|intros s0 f; by apply (agent_owned cfg sources0)]]. unfold agent_init in Hinit.
  pose proof (registered_reachable (agent_settings cfg) _ _ _ _ _ Hinit (rtc_refl _ _)) as Hreach.
  pose proof (registered_stopped _ _ _ _ _ Hinit eq_refl) as Hstop.
  apply registered_sources in Hinit as (new & Hnew & -> & Hs & Hr & Hsn). rewrite Hsrc in Hnew. apply fmap_Ok_inj in Hnew as <-.
  assert (service_reachable (agent_settings cfg) s') as Hreach'
    by (eapply rtc_r; [exact Hreach|]; eexists; apply (sv_transport (Some "dbus")); cbn [service_addTransport]; by rewrite Hstop).
  split; cbn; [|done|done]. split; cbn; unfold getIdentity; cbn; rewrite ?Hsn; cbn; try done.
  - apply fresh_files_ok; try done. by apply Hr.
  - split; [done|]. by intros ?%Exists_nil.
  - apply elem_of_app. right. by left.
Qed.

(** * Properties *)


(** ** Witness: the daemon starts while the display prints an empty inventory, and
    reads its files. *)
#[local] Instance demo_bus_invoke : ClientInvoke := λ _, mkClientError decode_error "".

Definition demo_agent_sources : list FileBackedInventorySource :=
  omap (λ r, match r with Ok s => Some s | Err _ => None end) (agent_sources (H := demo_json) default_AgentConfig).

Definition demo_asks : InvStep := ByMain None true None (Ok (∅, ∅)).
Definition demo_before : list InvStep := ByAgent (AgentStarts (mkStartInput true true true (5000 * ms))) :: replicate 12 demo_asks.
Definition demo_after : list InvStep :=
  ByAgent (AgentFirst (5000 * ms) 10 11 demo_inputs) :: replicate 10 ByBus ++
  concat (replicate 4 (ByCallback <$> seq 0 10)) ++ replicate 3 demo_asks.

#[local] Instance value_fits_dec v : Decision (value_fits v).
Proof. unfold value_fits, text_fits, int64, uint64. destruct v; apply _. Defined.

Definition reading_fits (q : FileBackedInventorySource * (Z * FileOutcome)) : bool :=
  match file_fields (λ _, "") q.2.2 q.1 with Some fs => bool_decide (map_Forall (λ _ v, value_fits v) fs) | None => true end.

Lemma inputs_fit_all sources0 merge inputs :
  int64 merge → forallb reading_fits (zip sources0 inputs) = true → inputs_fit (λ _, "") sources0 merge inputs.
Proof.
  intros Hm Hall. split; [done|]. intros i s0 p fs Hs Hp Hf. rewrite forallb_forall in Hall.
  assert ((s0, p) ∈ zip sources0 inputs) as Hin
    by (apply list_elem_of_lookup; exists i; rewrite lookup_zip_with, Hs; cbn; by rewrite Hp).
  apply list_elem_of_In, Hall in Hin. unfold reading_fits in Hin. cbn in Hin. rewrite Hf in Hin. by apply bool_decide_eq_true in Hin.
Qed.

Lemma demo_inputs_fit : inputs_fit (λ _, "") demo_agent_sources 11 demo_inputs.
Proof. apply inputs_fit_all; [split; [discriminate|reflexivity]|vm_compute; reflexivity]. Qed.

Abbreviation demo_run steps y := (default (mkInvSystem (mkAgent (new_InventoryService default_Settings) [] []) [] watch_init [])
  (sys_run (V := PlainVariant) (λ _, "") steps y)).
Abbreviation demo_start := (default (mkInvSystem (mkAgent (new_InventoryService default_Settings) [] []) [] watch_init [])
  (sys_init (H := demo_json) default_AgentConfig)).

Lemma some_default {A} (d : A) o : bool_decide (is_Some o) = true → o = Some (default d o).
Proof. intros Ho%bool_decide_eq_true. by destruct Ho as [x ->]. Qed.

